(** * CUGL networked physics: envelope, byte codec and replication engine

    A shallow embedding of the networked-physics core of CUGL
    ([cugl::netphysics]) and the properties of it that the design
    document states.

    Conventions of the embedding.
    - [float] is IEEE-754 binary32, through the parameterised
      specification of the Standard Library ([SpecFloat], 24 bits of
      precision, [emax = 128]); every operation rounds to nearest-even
      as the hardware does.
    - [Uint8], [Uint32], [Uint64] are [Z] with the wrap-around written
      out where the code can wrap; [int] is [Z].
    - [std::shared_ptr<Obstacle>] is a handle ([positive]) into a store
      of obstacle records; two handles alias exactly when they are equal.
    - [std::unordered_map] is a [gmap]; [insert] keeps an existing entry,
      [operator[]=] overwrites, [erase] deletes.
    - A function that can trip a [CUAssert], throw [std::out_of_range]
      or run into undefined behaviour returns an [outcome]. *)

From Stdlib Require Import ZArith QArith Qabs Qround Qpower Floats.SpecFloat Lia Lqa.
From Stdlib Require Import Strings.Byte.
From stdpp Require Import gmap strings list functions.

Local Open Scope Z_scope.

(** ** Outcomes of fallible code *)

Inductive outcome (A : Type) : Type :=
  | Ok (a : A)
  | AssertFailure            (* a CUAssert/CUAssertLog tripped *)
  | OutOfRange               (* std::out_of_range thrown by [.at] *)
  | Undefined.               (* undefined behaviour *)

Arguments Ok {A} a.
Arguments AssertFailure {A}.
Arguments OutOfRange {A}.
Arguments Undefined {A}.

Definition obind {A B} (m : outcome A) (k : A -> outcome B) : outcome B :=
  match m with
  | Ok a => k a
  | AssertFailure => AssertFailure
  | OutOfRange => OutOfRange
  | Undefined => Undefined
  end.

Notation "'let!' x ':=' m 'in' k" := (obind m (fun x => k))
  (at level 10, x name, m at level 100, k at level 200, only parsing).
Notation "'let!' ' p ':=' m 'in' k" := (obind m (fun p => k))
  (at level 10, p pattern, m at level 100, k at level 200, only parsing).

(** [CUAssert(cond)] / [CUAssertLog(cond, ...)]: aborts when the
    assertions are compiled in ([chk = true]) and [cond] is false; a
    no-op otherwise. *)
Definition cuAssert (chk cond : bool) : outcome unit :=
  if chk && negb cond then AssertFailure else Ok tt.

(** [m.at(k)] on a map. *)
Definition map_at `{Countable K} {V} (m : gmap K V) (k : K) : outcome V :=
  match m !! k with
  | Some v => Ok v
  | None => OutOfRange
  end.

(** [m.count(k)] on a map, as a boolean. *)
Definition map_count `{Countable K} {V} (m : gmap K V) (k : K) : bool :=
  match m !! k with
  | Some _ => true
  | None => false
  end.

(** [m.insert({k, v})]: keeps the entry that is already there. *)
Definition map_insert_new `{Countable K} {V} (k : K) (v : V) (m : gmap K V)
  : gmap K V :=
  match m !! k with
  | Some _ => m
  | None => <[k := v]> m
  end.

Definition two64 : Z := 2 ^ 64.
Definition wrap64 (z : Z) : Z := z mod two64.
Definition wrap32 (z : Z) : Z := z mod 2 ^ 32.
Definition wrap8 (z : Z) : Z := z mod 256.

(** ** Bytes *)

Definition byte_to_Z (b : byte) : Z := Z.of_N (Byte.to_N b).

Definition byte_of_Z (z : Z) : byte :=
  match Byte.of_N (Z.to_N (wrap8 z)) with
  | Some b => b
  | None => x00
  end.

(** ** binary32 *)

Module Float32.

Definition prec : Z := 24.
Definition emax : Z := 128.

Definition float : Type := spec_float.

Definition zero : float := S754_zero false.

Definition add : float -> float -> float := SFadd prec emax.
Definition sub : float -> float -> float := SFsub prec emax.
Definition mul : float -> float -> float := SFmul prec emax.
Definition div : float -> float -> float := SFdiv prec emax.
Definition sqrt : float -> float := SFsqrt prec emax.
Definition abs : float -> float := SFabs.
Definition eqb : float -> float -> bool := SFeqb.
Definition leb : float -> float -> bool := SFleb.

(** Conversion of an [int] to [float] (rounds when it has to). *)
Definition of_int (z : Z) : float := binary_normalize prec emax z 0 false.

Definition is_finite (f : float) : bool :=
  match f with
  | S754_zero _ | S754_finite _ _ _ => true
  | _ => false
  end.

(** The number a finite float stands for. *)
Definition to_Q (f : float) : Q :=
  match f with
  | S754_finite s m e =>
      let z := cond_Zopp s (Zpos m) in
      match e with
      | Zneg p => Qmake z (2 ^ p)%positive
      | _ => inject_Z (z * 2 ^ e)
      end
  | _ => 0%Q
  end.

(** The sign bit is set on a non-zero finite value. *)
Definition is_negative (f : float) : bool :=
  match f with
  | S754_finite true _ _ => true
  | _ => false
  end.

(** Mathematical floor of the value. *)
Definition floor (f : float) : Z := Qfloor (to_Q f).

Definition INT_MIN : Z := - 2 ^ 31.
Definition INT_MAX : Z := 2 ^ 31 - 1.

(** The C++ conversion [(int)f]: discards the fractional part; the
    behaviour is undefined when the truncated value does not fit an
    [int] (that includes infinities and NaN). *)
Definition to_int (f : float) : outcome Z :=
  if is_finite f then
    let q := to_Q f in
    let z := Z.quot (Qnum q) (Zpos (Qden q)) in
    if (INT_MIN <=? z) && (z <=? INT_MAX) then Ok z else Undefined
  else Undefined.

(** Reinterpretation of a 32-bit pattern as a float. *)
Definition of_bits (w : Z) : float :=
  let s := Z.testbit w 31 in
  let e := Z.land (Z.shiftr w 23) 255 in
  let m := Z.land w (2 ^ 23 - 1) in
  if e =? 0 then
    match m with
    | Zpos p => S754_finite s p (-149)
    | _ => S754_zero s
    end
  else if e =? 255 then
    (if m =? 0 then S754_infinity s else S754_nan)
  else
    match m + 2 ^ 23 with
    | Zpos p => S754_finite s p (e - 150)
    | _ => S754_nan
    end.

End Float32.

Abbreviation float := Float32.float.

(** ** Byte codec: [LWDeserializer] (CULWDeserializer.h) *)

Module LW.

(** Modelled from the spec: [marshall] (cugl/base/CUEndian.h) is not
    part of the sources at hand; the design document fixes network
    byte order for every multi-byte scalar, i.e. the first byte on the
    wire is the most significant one. *)
Definition marshall_in (bs : list byte) : Z :=
  fold_left (fun acc b => acc * 256 + byte_to_Z b) bs 0.

Record LWDeserializer := mkDes {
  _data : list byte;
  _pos : nat
}.

Definition receive (msg : list byte) : LWDeserializer :=
  {| _data := msg; _pos := 0 |}.

Definition reset (d : LWDeserializer) : LWDeserializer :=
  {| _data := []; _pos := 0 |}.

(** Dereferencing [_data.data() + _pos] as an object of [n] bytes: the
    access is inside the buffer only when all [n] bytes are. *)
Definition deref (n : nat) (d : LWDeserializer) : outcome (list byte) :=
  if (_pos d + n <=? length (_data d))%nat
  then Ok (take n (drop (_pos d) (_data d)))
  else Undefined.

Definition advance (n : nat) (d : LWDeserializer) : LWDeserializer :=
  {| _data := _data d; _pos := (_pos d + n)%nat |}.

Definition readBool (d : LWDeserializer) : outcome (bool * LWDeserializer) :=
  if (length (_data d) <=? _pos d)%nat then Ok (false, d)
  else
    let! bs := deref 1 d in
    Ok (marshall_in bs =? 1, advance 1 d).

Definition readByte (d : LWDeserializer) : outcome (byte * LWDeserializer) :=
  if (length (_data d) <=? _pos d)%nat then Ok (x00, d)
  else
    let! bs := deref 1 d in
    Ok (byte_of_Z (marshall_in bs), advance 1 d).

Definition readFloat (d : LWDeserializer) : outcome (float * LWDeserializer) :=
  if (length (_data d) <=? _pos d)%nat then Ok (Float32.zero, d)
  else
    let! bs := deref 4 d in
    Ok (Float32.of_bits (marshall_in bs), advance 4 d).

Definition readSint32 (d : LWDeserializer) : outcome (Z * LWDeserializer) :=
  if (length (_data d) <=? _pos d)%nat then Ok (0, d)
  else
    let! bs := deref 4 d in
    let u := marshall_in bs in
    Ok (if u <? 2 ^ 31 then u else u - 2 ^ 32, advance 4 d).

Definition readUint16 (d : LWDeserializer) : outcome (Z * LWDeserializer) :=
  if (length (_data d) <=? _pos d)%nat then Ok (0, d)
  else
    let! bs := deref 2 d in
    Ok (marshall_in bs, advance 2 d).

Definition readUint32 (d : LWDeserializer) : outcome (Z * LWDeserializer) :=
  if (length (_data d) <=? _pos d)%nat then Ok (0, d)
  else
    let! bs := deref 4 d in
    Ok (marshall_in bs, advance 4 d).

Definition readUint64 (d : LWDeserializer) : outcome (Z * LWDeserializer) :=
  if (length (_data d) <=? _pos d)%nat then Ok (0, d)
  else
    let! bs := deref 8 d in
    Ok (marshall_in bs, advance 8 d).

End LW.

(** ** The simulator side: vectors, obstacles, the obstacle world *)

Module Physics2.

(** Modelled from the spec: [Vec2] (cugl/math/CUVec2.h) is not part of
    the sources at hand.  It is a pair of floats with component-wise
    arithmetic; [length] is the Euclidean norm, computed in binary32. *)
Record Vec2 := mkVec2 {
  vec_x : float;
  vec_y : float
}.

Definition vec_zero : Vec2 := mkVec2 Float32.zero Float32.zero.

Definition vec_add (a b : Vec2) : Vec2 :=
  mkVec2 (Float32.add (vec_x a) (vec_x b)) (Float32.add (vec_y a) (vec_y b)).

Definition vec_sub (a b : Vec2) : Vec2 :=
  mkVec2 (Float32.sub (vec_x a) (vec_x b)) (Float32.sub (vec_y a) (vec_y b)).

Definition vec_div (a : Vec2) (s : float) : Vec2 :=
  mkVec2 (Float32.div (vec_x a) s) (Float32.div (vec_y a) s).

Definition vec_length (a : Vec2) : float :=
  Float32.sqrt (Float32.add (Float32.mul (vec_x a) (vec_x a))
                            (Float32.mul (vec_y a) (vec_y a))).

(** [a != b] on vectors. *)
Definition vec_neq (a b : Vec2) : bool :=
  negb (Float32.eqb (vec_x a) (vec_x b)) || negb (Float32.eqb (vec_y a) (vec_y b)).

(** [a != b] on floats (true when either is NaN). *)
Definition float_neq (a b : float) : bool := negb (Float32.eqb a b).

Inductive b2BodyType := b2_staticBody | b2_kinematicBody | b2_dynamicBody.

(** Modelled from the spec: [Obstacle] (cugl/physics2/CUObstacle.h) is
    not part of the sources at hand.  The record holds the property
    groups of the data model (pose, motion, boolean constants, float
    constants, body type), the [shared] flag and one dirty bit per group;
    a setter writes its property and, when the obstacle is shared, raises
    the dirty bit of the group. *)
Record BoolConsts := mkBoolConsts {
  isEnabled : bool;
  isAwake : bool;
  isSleepingAllowed : bool;
  isFixedRotation : bool;
  isBullet : bool;
  isSensor : bool
}.

Record FloatConsts := mkFloatConsts {
  density : float;
  friction : float;
  restitution : float;
  linearDamping : float;
  angularDamping : float;
  gravityScale : float;
  mass : float;
  inertia : float;
  centroid : Vec2
}.

Record DirtyBits := mkDirtyBits {
  posDirty : bool;
  angleDirty : bool;
  velDirty : bool;
  angVelDirty : bool;
  typeDirty : bool;
  boolConstDirty : bool;
  floatConstDirty : bool
}.

Record Obstacle := mkObstacle {
  position : Vec2;
  angle : float;
  linearVelocity : Vec2;
  angularVelocity : float;
  bodyType : b2BodyType;
  boolConsts : BoolConsts;
  floatConsts : FloatConsts;
  shared : bool;
  dirty : DirtyBits
}.

(** Field updates. *)
Definition with_isEnabled (v : bool) (c : BoolConsts) : BoolConsts :=
  mkBoolConsts v (isAwake c) (isSleepingAllowed c) (isFixedRotation c)
    (isBullet c) (isSensor c).
Definition with_isAwake (v : bool) (c : BoolConsts) : BoolConsts :=
  mkBoolConsts (isEnabled c) v (isSleepingAllowed c) (isFixedRotation c)
    (isBullet c) (isSensor c).
Definition with_isSleepingAllowed (v : bool) (c : BoolConsts) : BoolConsts :=
  mkBoolConsts (isEnabled c) (isAwake c) v (isFixedRotation c) (isBullet c)
    (isSensor c).
Definition with_isFixedRotation (v : bool) (c : BoolConsts) : BoolConsts :=
  mkBoolConsts (isEnabled c) (isAwake c) (isSleepingAllowed c) v
    (isBullet c) (isSensor c).
Definition with_isBullet (v : bool) (c : BoolConsts) : BoolConsts :=
  mkBoolConsts (isEnabled c) (isAwake c) (isSleepingAllowed c)
    (isFixedRotation c) v (isSensor c).
Definition with_isSensor (v : bool) (c : BoolConsts) : BoolConsts :=
  mkBoolConsts (isEnabled c) (isAwake c) (isSleepingAllowed c)
    (isFixedRotation c) (isBullet c) v.

Definition with_density (v : float) (c : FloatConsts) : FloatConsts :=
  mkFloatConsts v (friction c) (restitution c) (linearDamping c)
    (angularDamping c) (gravityScale c) (mass c) (inertia c) (centroid c).
Definition with_friction (v : float) (c : FloatConsts) : FloatConsts :=
  mkFloatConsts (density c) v (restitution c) (linearDamping c)
    (angularDamping c) (gravityScale c) (mass c) (inertia c) (centroid c).
Definition with_restitution (v : float) (c : FloatConsts) : FloatConsts :=
  mkFloatConsts (density c) (friction c) v (linearDamping c)
    (angularDamping c) (gravityScale c) (mass c) (inertia c) (centroid c).
Definition with_linearDamping (v : float) (c : FloatConsts) : FloatConsts :=
  mkFloatConsts (density c) (friction c) (restitution c) v
    (angularDamping c) (gravityScale c) (mass c) (inertia c) (centroid c).
Definition with_angularDamping (v : float) (c : FloatConsts) : FloatConsts :=
  mkFloatConsts (density c) (friction c) (restitution c) (linearDamping c) v
    (gravityScale c) (mass c) (inertia c) (centroid c).
Definition with_gravityScale (v : float) (c : FloatConsts) : FloatConsts :=
  mkFloatConsts (density c) (friction c) (restitution c) (linearDamping c)
    (angularDamping c) v (mass c) (inertia c) (centroid c).
Definition with_mass (v : float) (c : FloatConsts) : FloatConsts :=
  mkFloatConsts (density c) (friction c) (restitution c) (linearDamping c)
    (angularDamping c) (gravityScale c) v (inertia c) (centroid c).
Definition with_inertia (v : float) (c : FloatConsts) : FloatConsts :=
  mkFloatConsts (density c) (friction c) (restitution c) (linearDamping c)
    (angularDamping c) (gravityScale c) (mass c) v (centroid c).
Definition with_centroid (v : Vec2) (c : FloatConsts) : FloatConsts :=
  mkFloatConsts (density c) (friction c) (restitution c) (linearDamping c)
    (angularDamping c) (gravityScale c) (mass c) (inertia c) v.

Definition with_posDirty (v : bool) (d : DirtyBits) : DirtyBits :=
  mkDirtyBits v (angleDirty d) (velDirty d) (angVelDirty d) (typeDirty d)
    (boolConstDirty d) (floatConstDirty d).
Definition with_angleDirty (v : bool) (d : DirtyBits) : DirtyBits :=
  mkDirtyBits (posDirty d) v (velDirty d) (angVelDirty d) (typeDirty d)
    (boolConstDirty d) (floatConstDirty d).
Definition with_velDirty (v : bool) (d : DirtyBits) : DirtyBits :=
  mkDirtyBits (posDirty d) (angleDirty d) v (angVelDirty d) (typeDirty d)
    (boolConstDirty d) (floatConstDirty d).
Definition with_angVelDirty (v : bool) (d : DirtyBits) : DirtyBits :=
  mkDirtyBits (posDirty d) (angleDirty d) (velDirty d) v (typeDirty d)
    (boolConstDirty d) (floatConstDirty d).
Definition with_typeDirty (v : bool) (d : DirtyBits) : DirtyBits :=
  mkDirtyBits (posDirty d) (angleDirty d) (velDirty d) (angVelDirty d) v
    (boolConstDirty d) (floatConstDirty d).
Definition with_boolConstDirty (v : bool) (d : DirtyBits) : DirtyBits :=
  mkDirtyBits (posDirty d) (angleDirty d) (velDirty d) (angVelDirty d)
    (typeDirty d) v (floatConstDirty d).
Definition with_floatConstDirty (v : bool) (d : DirtyBits) : DirtyBits :=
  mkDirtyBits (posDirty d) (angleDirty d) (velDirty d) (angVelDirty d)
    (typeDirty d) (boolConstDirty d) v.

Definition with_position (v : Vec2) (o : Obstacle) : Obstacle :=
  mkObstacle v (angle o) (linearVelocity o) (angularVelocity o) (bodyType o)
    (boolConsts o) (floatConsts o) (shared o) (dirty o).
Definition with_angle (v : float) (o : Obstacle) : Obstacle :=
  mkObstacle (position o) v (linearVelocity o) (angularVelocity o)
    (bodyType o) (boolConsts o) (floatConsts o) (shared o) (dirty o).
Definition with_linearVelocity (v : Vec2) (o : Obstacle) : Obstacle :=
  mkObstacle (position o) (angle o) v (angularVelocity o) (bodyType o)
    (boolConsts o) (floatConsts o) (shared o) (dirty o).
Definition with_angularVelocity (v : float) (o : Obstacle) : Obstacle :=
  mkObstacle (position o) (angle o) (linearVelocity o) v (bodyType o)
    (boolConsts o) (floatConsts o) (shared o) (dirty o).
Definition with_bodyType (v : b2BodyType) (o : Obstacle) : Obstacle :=
  mkObstacle (position o) (angle o) (linearVelocity o) (angularVelocity o) v
    (boolConsts o) (floatConsts o) (shared o) (dirty o).
Definition with_boolConsts (v : BoolConsts) (o : Obstacle) : Obstacle :=
  mkObstacle (position o) (angle o) (linearVelocity o) (angularVelocity o)
    (bodyType o) v (floatConsts o) (shared o) (dirty o).
Definition with_floatConsts (v : FloatConsts) (o : Obstacle) : Obstacle :=
  mkObstacle (position o) (angle o) (linearVelocity o) (angularVelocity o)
    (bodyType o) (boolConsts o) v (shared o) (dirty o).
Definition with_shared (v : bool) (o : Obstacle) : Obstacle :=
  mkObstacle (position o) (angle o) (linearVelocity o) (angularVelocity o)
    (bodyType o) (boolConsts o) (floatConsts o) v (dirty o).
Definition with_dirty (v : DirtyBits) (o : Obstacle) : Obstacle :=
  mkObstacle (position o) (angle o) (linearVelocity o) (angularVelocity o)
    (bodyType o) (boolConsts o) (floatConsts o) (shared o) v.

Definition mark (f : DirtyBits -> DirtyBits) (o : Obstacle) : Obstacle :=
  if shared o then with_dirty (f (dirty o)) o else o.

Definition getPosition (o : Obstacle) : Vec2 := position o.
Definition getX (o : Obstacle) : float := vec_x (position o).
Definition getY (o : Obstacle) : float := vec_y (position o).
Definition getAngle (o : Obstacle) : float := angle o.
Definition getLinearVelocity (o : Obstacle) : Vec2 := linearVelocity o.
Definition getVX (o : Obstacle) : float := vec_x (linearVelocity o).
Definition getVY (o : Obstacle) : float := vec_y (linearVelocity o).
Definition getAngularVelocity (o : Obstacle) : float := angularVelocity o.
Definition isShared (o : Obstacle) : bool := shared o.

Definition setShared (b : bool) (o : Obstacle) : Obstacle := with_shared b o.

Definition setPosition (v : Vec2) (o : Obstacle) : Obstacle :=
  mark (with_posDirty true) (with_position v o).
Definition setX (x : float) (o : Obstacle) : Obstacle :=
  setPosition (mkVec2 x (getY o)) o.
Definition setY (y : float) (o : Obstacle) : Obstacle :=
  setPosition (mkVec2 (getX o) y) o.
Definition setAngle (a : float) (o : Obstacle) : Obstacle :=
  mark (with_angleDirty true) (with_angle a o).
Definition setLinearVelocity (v : Vec2) (o : Obstacle) : Obstacle :=
  mark (with_velDirty true) (with_linearVelocity v o).
Definition setVX (x : float) (o : Obstacle) : Obstacle :=
  setLinearVelocity (mkVec2 x (getVY o)) o.
Definition setVY (y : float) (o : Obstacle) : Obstacle :=
  setLinearVelocity (mkVec2 (getVX o) y) o.
Definition setAngularVelocity (w : float) (o : Obstacle) : Obstacle :=
  mark (with_angVelDirty true) (with_angularVelocity w o).
Definition setBodyType (t : b2BodyType) (o : Obstacle) : Obstacle :=
  mark (with_typeDirty true) (with_bodyType t o).

Definition setBoolConst (f : BoolConsts -> BoolConsts) (o : Obstacle) : Obstacle :=
  mark (with_boolConstDirty true) (with_boolConsts (f (boolConsts o)) o).
Definition setFloatConst (f : FloatConsts -> FloatConsts) (o : Obstacle) : Obstacle :=
  mark (with_floatConstDirty true) (with_floatConsts (f (floatConsts o)) o).

Definition noDirtyBits : DirtyBits :=
  mkDirtyBits false false false false false false false.

Definition clearSharingDirtyBits (o : Obstacle) : Obstacle :=
  with_dirty noDirtyBits o.

(** Handles: the identity of a [std::shared_ptr<Obstacle>]. *)
Abbreviation Obs := positive.

(** Modelled from the spec: [Rect] (cugl/math/CURect.h) is not part of
    the sources at hand.  The world bounds are an origin and a size, as
    [inBounds] reads them. *)
Record Rect := mkRect {
  origin : Vec2;
  size_width : float;
  size_height : float
}.

(** [ObstacleWorld] (CUObstacleWorld.cpp).  Of the world the registry
    is modelled: the bounds, the list of obstacles of the simulator
    ([_objects]), the two maps between 64-bit identifiers and handles,
    the ownership ledger, the short UID and the counter from which new
    identifiers are made.  The class declaration (CUObstacleWorld.h) is
    not part of the sources at hand: the short UID and the counter are
    taken as [Uint32], as [NetPhysicsController::init] passes the short
    UID.  The Box2D world behind the registry ([activatePhysics],
    [deactivatePhysics], [Step]) is outside the model. *)
Record ObstacleWorld := mkWorld {
  bounds : Rect;
  obstacles : list Obs;
  idToObj : gmap Z Obs;
  objToId : gmap Obs Z;
  owned : gmap Obs Z;
  worldShortUID : Z;           (* Uint32 *)
  nextObj : Z                  (* Uint32 *)
}.

Definition with_obstacles (v : list Obs) (w : ObstacleWorld) : ObstacleWorld :=
  mkWorld (bounds w) v (idToObj w) (objToId w) (owned w) (worldShortUID w)
    (nextObj w).
Definition with_idToObj (v : gmap Z Obs) (w : ObstacleWorld) : ObstacleWorld :=
  mkWorld (bounds w) (obstacles w) v (objToId w) (owned w) (worldShortUID w)
    (nextObj w).
Definition with_objToId (v : gmap Obs Z) (w : ObstacleWorld) : ObstacleWorld :=
  mkWorld (bounds w) (obstacles w) (idToObj w) v (owned w) (worldShortUID w)
    (nextObj w).
Definition with_owned (v : gmap Obs Z) (w : ObstacleWorld) : ObstacleWorld :=
  mkWorld (bounds w) (obstacles w) (idToObj w) (objToId w) v (worldShortUID w)
    (nextObj w).
Definition with_nextObj (v : Z) (w : ObstacleWorld) : ObstacleWorld :=
  mkWorld (bounds w) (obstacles w) (idToObj w) (objToId w) (owned w)
    (worldShortUID w) v.

(** [inBounds(obj)]: the position of the obstacle lies in the bounds
    (the comparisons are those of [float]: false on a NaN). *)
Definition inBounds (o : Obstacle) (w : ObstacleWorld) : bool :=
  let horiz :=
    Float32.leb (vec_x (origin (bounds w))) (getX o)
    && Float32.leb (getX o)
         (Float32.add (vec_x (origin (bounds w))) (size_width (bounds w))) in
  let vert :=
    Float32.leb (vec_y (origin (bounds w))) (getY o)
    && Float32.leb (getY o)
         (Float32.add (vec_y (origin (bounds w))) (size_height (bounds w))) in
  horiz && vert.

(** [addObstacle(obj, id)]: registers the handle [obj], whose obstacle
    is [o], under [id].  Both conditions are assertions only: with the
    assertions compiled out the obstacle joins the list, and the
    [insert] of each map keeps an entry that is already there. *)
Definition addObstacleWithId (chk : bool) (o : Obstacle) (obj : Obs) (id : Z)
  (w : ObstacleWorld) : outcome ObstacleWorld :=
  let! _ := cuAssert chk (inBounds o w) in
  let! _ := cuAssert chk (negb (map_count (idToObj w) id)) in
  Ok (with_obstacles (obstacles w ++ [obj])
        (with_idToObj (map_insert_new id obj (idToObj w))
           (with_objToId (map_insert_new obj id (objToId w)) w))).

(** [addObstacle(obj)]: registers [obj] under
    [(_shortUID << 32) | _nextObj++], which it returns. *)
Definition addObstacle (chk : bool) (o : Obstacle) (obj : Obs)
  (w : ObstacleWorld) : outcome (Z * ObstacleWorld) :=
  let id := Z.lor (Z.shiftl (worldShortUID w) 32) (nextObj w) in
  let w := with_nextObj (wrap32 (nextObj w + 1)) w in
  let! w := addObstacleWithId chk o obj id w in
  Ok (id, w).

(** [addInitObstacle(obj)]: the same under the reserved originator
    [0xffffffff]. *)
Definition addInitObstacle (chk : bool) (o : Obstacle) (obj : Obs)
  (w : ObstacleWorld) : outcome (Z * ObstacleWorld) :=
  let id := Z.lor (Z.shiftl (2 ^ 32 - 1) 32) (nextObj w) in
  let w := with_nextObj (wrap32 (nextObj w + 1)) w in
  let! w := addObstacleWithId chk o obj id w in
  Ok (id, w).

(** [_objects.erase(it)] at the first position that holds [obj]. *)
Fixpoint eraseFirst (obj : Obs) (l : list Obs) : option (list Obs) :=
  match l with
  | [] => None
  | o :: l' =>
      if decide (o = obj) then Some l'
      else match eraseFirst obj l' with
           | Some r => Some (o :: r)
           | None => None
           end
  end.

(** [removeObstacle(obj)]: takes the first occurrence of [obj] out of
    the list of obstacles and returns; the two id maps and the ledger
    are not touched.  An obstacle that is not in the list trips the
    assertion at the end of the function. *)
Definition removeObstacle (chk : bool) (obj : Obs) (w : ObstacleWorld)
  : outcome ObstacleWorld :=
  match eraseFirst obj (obstacles w) with
  | Some l => Ok (with_obstacles l w)
  | None => let! _ := cuAssert chk false in Ok w
  end.

End Physics2.

(** ** Events *)

(** The base class [NetEvent] (CUNetEvent.h): the meta data that the
    event controller stamps on a received event.  The source id of an
    event that was made locally is the empty string; its time stamps are
    not initialised by the constructor (they read as 0 here). *)
Module NetEventBase.

Record MetaData := mkMeta {
  _eventTimeStamp : Z;
  _receiveTimeStamp : Z;
  _sourceID : string
}.

Definition freshMeta : MetaData := mkMeta 0 0 "".

Definition setMetaData (eventTimeStamp receiveTimeStamp : Z) (sourceID : string)
  : MetaData :=
  mkMeta eventTimeStamp receiveTimeStamp sourceID.

End NetEventBase.

(** [GameStateEvent] (CUGameStateEvent.h). *)
Module GameState.
Import NetEventBase.

Inductive Type_ :=
  | UID_ASSIGN | CLIENT_RDY | GAME_START | GAME_RESET | GAME_PAUSE | GAME_RESUME.

Definition code (t : Type_) : Z :=
  match t with
  | UID_ASSIGN => 100
  | CLIENT_RDY => 101
  | GAME_START => 102
  | GAME_RESET => 103
  | GAME_PAUSE => 104
  | GAME_RESUME => 105
  end.

Definition of_code (z : Z) : option Type_ :=
  if z =? 100 then Some UID_ASSIGN
  else if z =? 101 then Some CLIENT_RDY
  else if z =? 102 then Some GAME_START
  else if z =? 103 then Some GAME_RESET
  else if z =? 104 then Some GAME_PAUSE
  else if z =? 105 then Some GAME_RESUME
  else None.

Record GameStateEvent := mkEvent {
  base : MetaData;
  _type : Type_;
  _shortUID : Z                (* Uint32 *)
}.

(** [GameStateEvent()]: the constructor sets the type only; [indet] is
    whatever the uninitialised [_shortUID] happens to hold. *)
Definition new (indet : Z) : GameStateEvent :=
  mkEvent freshMeta GAME_START (wrap32 indet).

Definition setType (t : Type_) (e : GameStateEvent) : GameStateEvent :=
  mkEvent (base e) t (_shortUID e).

Definition allocGameStart (indet : Z) : GameStateEvent :=
  setType GAME_START (new indet).

Definition allocReady (indet : Z) : GameStateEvent :=
  setType CLIENT_RDY (new indet).

Definition allocUIDAssign (shortUID : Z) : GameStateEvent :=
  mkEvent freshMeta UID_ASSIGN (wrap32 shortUID).

Definition getType (e : GameStateEvent) : Type_ := _type e.

(** The return type is [Uint8]: the 32-bit field is truncated. *)
Definition getShortUID (e : GameStateEvent) : Z := wrap8 (_shortUID e).

Definition serialize (e : GameStateEvent) : list byte :=
  match _type e with
  | UID_ASSIGN => [byte_of_Z (code UID_ASSIGN); byte_of_Z (_shortUID e)]
  | t => [byte_of_Z (code t)]
  end.

(** [deserialize] reads [data[0]], and [data[1]] for [UID_ASSIGN],
    without a length check: indexing past the end is undefined. *)
Definition deserialize (chk : bool) (e : GameStateEvent) (data : list byte)
  : outcome GameStateEvent :=
  match data with
  | [] => Undefined
  | flag :: rest =>
      match of_code (byte_to_Z flag) with
      | Some UID_ASSIGN =>
          match rest with
          | [] => Undefined
          | b1 :: _ => Ok (mkEvent (base e) UID_ASSIGN (byte_to_Z b1))
          end
      | Some t => Ok (mkEvent (base e) t (_shortUID e))
      | None => let! _ := cuAssert chk false in Ok e
      end
  end.

End GameState.

(** [PhysSyncEvent] (CUPhysSyncEvent.h): a list of snapshots. *)
Module PhysSync.
Import NetEventBase Physics2.

Record ObjParam := mkObjParam {
  objId : Z;                   (* Uint64 *)
  x : float;
  y : float;
  vx : float;
  vy : float;
  angle : float;
  vAngular : float
}.

Record PhysSyncEvent := mkEvent {
  base : MetaData;
  _objSet : gset Z;
  _syncList : list ObjParam
}.

Definition alloc : PhysSyncEvent := mkEvent freshMeta ∅ [].

Definition getSyncList (e : PhysSyncEvent) : list ObjParam := _syncList e.

(** [addObj(obj, id)]: a snapshot of the obstacle, unless [id] was
    added before. *)
Definition addObj (o : Obstacle) (id : Z) (e : PhysSyncEvent) : PhysSyncEvent :=
  if decide (id ∈ _objSet e) then e
  else
    mkEvent (base e) ({[id]} ∪ _objSet e)
      (_syncList e ++
         [mkObjParam id (getX o) (getY o) (getVX o) (getVY o)
            (getAngle o) (getAngularVelocity o)]).

End PhysSync.

(** [PhysObjEvent] (CUPhysObjEvent.h).  The class keeps a type tag and
    one field per property; an event only ever carries, and its
    consumer only ever reads, the fields of its type, so the event is a
    tagged union here. *)
Module PhysObj.
Import NetEventBase Physics2.

Inductive Body :=
  | OBJ_CREATION (obstacleFactId : Z) (packedParam : list byte)
  | OBJ_DELETION
  | OBJ_BODY_TYPE (bodyType : b2BodyType)
  | OBJ_POSITION (pos : Vec2)
  | OBJ_VELOCITY (vel : Vec2)
  | OBJ_ANGLE (angle : float)
  | OBJ_ANGULAR_VEL (angularVel : float)
  | OBJ_BOOL_CONSTS (c : BoolConsts)
  | OBJ_FLOAT_CONSTS (c : FloatConsts)
  | OBJ_OWNER_ACQUIRE (duration : Z)
  | OBJ_OWNER_RELEASE.

Record PhysObjEvent := mkEvent {
  base : MetaData;
  _objId : Z;                  (* Uint64 *)
  body : Body
}.

Definition getObjId (e : PhysObjEvent) : Z := _objId e.

Definition allocCreation (factoryID objId : Z) (bytes : list byte) :=
  mkEvent freshMeta objId (OBJ_CREATION factoryID bytes).
Definition allocDeletion (objId : Z) := mkEvent freshMeta objId OBJ_DELETION.
Definition allocPos (objId : Z) (p : Vec2) :=
  mkEvent freshMeta objId (OBJ_POSITION p).
Definition allocVel (objId : Z) (v : Vec2) :=
  mkEvent freshMeta objId (OBJ_VELOCITY v).
Definition allocAngle (objId : Z) (a : float) :=
  mkEvent freshMeta objId (OBJ_ANGLE a).
Definition allocAngularVel (objId : Z) (w : float) :=
  mkEvent freshMeta objId (OBJ_ANGULAR_VEL w).
Definition allocBodyType (objId : Z) (t : b2BodyType) :=
  mkEvent freshMeta objId (OBJ_BODY_TYPE t).
Definition allocBoolConsts (objId : Z) (c : BoolConsts) :=
  mkEvent freshMeta objId (OBJ_BOOL_CONSTS c).
Definition allocFloatConsts (objId : Z) (c : FloatConsts) :=
  mkEvent freshMeta objId (OBJ_FLOAT_CONSTS c).
Definition allocOwnerAcquire (objId duration : Z) :=
  mkEvent freshMeta objId (OBJ_OWNER_ACQUIRE duration).
Definition allocOwnerRelease (objId : Z) :=
  mkEvent freshMeta objId OBJ_OWNER_RELEASE.

End PhysObj.

(** Any event, as the queues hold it ([std::shared_ptr<NetEvent>]); an
    application-defined event is its registry slot and its payload. *)
Inductive NetEvent :=
  | EvGameState (e : GameState.GameStateEvent)
  | EvPhysSync (e : PhysSync.PhysSyncEvent)
  | EvPhysObj (e : PhysObj.PhysObjEvent)
  | EvCustom (base : NetEventBase.MetaData) (slot : nat) (payload : list byte).

Definition getMeta (e : NetEvent) : NetEventBase.MetaData :=
  match e with
  | EvGameState g => GameState.base g
  | EvPhysSync s => PhysSync.base s
  | EvPhysObj o => PhysObj.base o
  | EvCustom b _ _ => b
  end.

Definition setMeta (m : NetEventBase.MetaData) (e : NetEvent) : NetEvent :=
  match e with
  | EvGameState g =>
      EvGameState (GameState.mkEvent m (GameState._type g) (GameState._shortUID g))
  | EvPhysSync s =>
      EvPhysSync (PhysSync.mkEvent m (PhysSync._objSet s) (PhysSync._syncList s))
  | EvPhysObj o => EvPhysObj (PhysObj.mkEvent m (PhysObj._objId o) (PhysObj.body o))
  | EvCustom _ k p => EvCustom m k p
  end.

Definition getEventTimeStamp (e : NetEvent) : Z :=
  NetEventBase._eventTimeStamp (getMeta e).
Definition getSourceId (e : NetEvent) : string :=
  NetEventBase._sourceID (getMeta e).

(** ** The replication engine: [NetPhysicsController]
    (CUNetPhysicsController.cpp) *)

Module NetPhysics.
Import NetEventBase Physics2.

(** Monadic fold over a list (a [for] loop whose body can fail). *)
Fixpoint foldM {A S : Type} (f : A -> S -> outcome S) (l : list A) (s : S)
  : outcome S :=
  match l with
  | [] => Ok s
  | a :: l' => let! s' := f a s in foldM f l' s'
  end.

Record targetParam := mkTarget {
  curStep : Z;
  numSteps : Z;
  P0 : Vec2;
  P1 : Vec2;
  P2 : Vec2;
  P3 : Vec2;
  targetVel : Vec2;
  targetAngle : float;
  targetAngV : float;
  I_ : Vec2;                   (* the field I of the source *)
  numI : Z
}.

Definition with_curStep (v : Z) (p : targetParam) : targetParam :=
  mkTarget v (numSteps p) (P0 p) (P1 p) (P2 p) (P3 p) (targetVel p)
    (targetAngle p) (targetAngV p) (I_ p) (numI p).
Definition with_I_ (v : Vec2) (p : targetParam) : targetParam :=
  mkTarget (curStep p) (numSteps p) (P0 p) (P1 p) (P2 p) (P3 p)
    (targetVel p) (targetAngle p) (targetAngV p) v (numI p).
Definition with_numI (v : Z) (p : targetParam) : targetParam :=
  mkTarget (curStep p) (numSteps p) (P0 p) (P1 p) (P2 p) (P3 p)
    (targetVel p) (targetAngle p) (targetAngV p) (I_ p) v.

(** [std::make_shared<targetParam>()]: every field is zero. *)
Definition newTarget : targetParam :=
  mkTarget 0 0 vec_zero vec_zero vec_zero vec_zero vec_zero
    Float32.zero Float32.zero vec_zero 0.

(** A scene node is opaque to the engine. *)
Definition Node : Type := nat.

(** [ObstacleFactory::createObstacle] (CUObstacleFactory.h): from the
    packed parameters, a new obstacle and its scene node. *)
Definition ObstacleFactory : Type := list byte -> Obstacle * Node.

Record Controller := mkController {
  _itprCount : Z;
  _ovrdCount : Z;
  _stepSum : Z;
  _isHost : bool;
  _objRotation : Z;
  heap : Obs -> Obstacle;
  nextHandle : Obs;
  _world : ObstacleWorld;
  _cache : gmap Obs targetParam;
  _deleteCache : list Obs;
  _obstacleFacts : list ObstacleFactory;
  _linkSceneToObsFunc : bool;
  _sharedObsToNodeMap : gmap Obs Node;
  _outEvents : list NetEvent
}.

Definition with_itprCount (v : Z) (c : Controller) : Controller :=
  mkController v (_ovrdCount c) (_stepSum c) (_isHost c) (_objRotation c)
    (heap c) (nextHandle c) (_world c) (_cache c) (_deleteCache c)
    (_obstacleFacts c) (_linkSceneToObsFunc c) (_sharedObsToNodeMap c)
    (_outEvents c).
Definition with_ovrdCount (v : Z) (c : Controller) : Controller :=
  mkController (_itprCount c) v (_stepSum c) (_isHost c) (_objRotation c)
    (heap c) (nextHandle c) (_world c) (_cache c) (_deleteCache c)
    (_obstacleFacts c) (_linkSceneToObsFunc c) (_sharedObsToNodeMap c)
    (_outEvents c).
Definition with_stepSum (v : Z) (c : Controller) : Controller :=
  mkController (_itprCount c) (_ovrdCount c) v (_isHost c) (_objRotation c)
    (heap c) (nextHandle c) (_world c) (_cache c) (_deleteCache c)
    (_obstacleFacts c) (_linkSceneToObsFunc c) (_sharedObsToNodeMap c)
    (_outEvents c).
Definition with_heap (v : Obs -> Obstacle) (c : Controller) : Controller :=
  mkController (_itprCount c) (_ovrdCount c) (_stepSum c) (_isHost c)
    (_objRotation c) v (nextHandle c) (_world c) (_cache c) (_deleteCache c)
    (_obstacleFacts c) (_linkSceneToObsFunc c) (_sharedObsToNodeMap c)
    (_outEvents c).
Definition with_nextHandle (v : Obs) (c : Controller) : Controller :=
  mkController (_itprCount c) (_ovrdCount c) (_stepSum c) (_isHost c)
    (_objRotation c) (heap c) v (_world c) (_cache c) (_deleteCache c)
    (_obstacleFacts c) (_linkSceneToObsFunc c) (_sharedObsToNodeMap c)
    (_outEvents c).
Definition with_world (v : ObstacleWorld) (c : Controller) : Controller :=
  mkController (_itprCount c) (_ovrdCount c) (_stepSum c) (_isHost c)
    (_objRotation c) (heap c) (nextHandle c) v (_cache c) (_deleteCache c)
    (_obstacleFacts c) (_linkSceneToObsFunc c) (_sharedObsToNodeMap c)
    (_outEvents c).
Definition with_cache (v : gmap Obs targetParam) (c : Controller) : Controller :=
  mkController (_itprCount c) (_ovrdCount c) (_stepSum c) (_isHost c)
    (_objRotation c) (heap c) (nextHandle c) (_world c) v (_deleteCache c)
    (_obstacleFacts c) (_linkSceneToObsFunc c) (_sharedObsToNodeMap c)
    (_outEvents c).
Definition with_deleteCache (v : list Obs) (c : Controller) : Controller :=
  mkController (_itprCount c) (_ovrdCount c) (_stepSum c) (_isHost c)
    (_objRotation c) (heap c) (nextHandle c) (_world c) (_cache c) v
    (_obstacleFacts c) (_linkSceneToObsFunc c) (_sharedObsToNodeMap c)
    (_outEvents c).
Definition with_sharedObsToNodeMap (v : gmap Obs Node) (c : Controller) : Controller :=
  mkController (_itprCount c) (_ovrdCount c) (_stepSum c) (_isHost c)
    (_objRotation c) (heap c) (nextHandle c) (_world c) (_cache c)
    (_deleteCache c) (_obstacleFacts c) (_linkSceneToObsFunc c) v
    (_outEvents c).
Definition with_outEvents (v : list NetEvent) (c : Controller) : Controller :=
  mkController (_itprCount c) (_ovrdCount c) (_stepSum c) (_isHost c)
    (_objRotation c) (heap c) (nextHandle c) (_world c) (_cache c)
    (_deleteCache c) (_obstacleFacts c) (_linkSceneToObsFunc c)
    (_sharedObsToNodeMap c) v.

Definition modifyObs (obj : Obs) (f : Obstacle -> Obstacle) (c : Controller)
  : Controller :=
  with_heap (<[obj := f (heap c obj)]> (heap c)) c.

Definition modifyOwned (f : gmap Obs Z -> gmap Obs Z) (c : Controller)
  : Controller :=
  with_world (with_owned (f (owned (_world c))) (_world c)) c.

Definition pushOut (e : NetEvent) (c : Controller) : Controller :=
  with_outEvents (_outEvents c ++ [e]) c.

(** [std::make_shared] of the obstacle a factory returns: the record
    goes to a fresh handle. *)
Definition allocObs (o : Obstacle) (c : Controller) : Obs * Controller :=
  let h := nextHandle c in
  (h, with_nextHandle (Pos.succ h) (with_heap (<[h := o]> (heap c)) c)).

(** The body of the [OBJ_BOOL_CONSTS] case. *)
Definition applyBoolConsts (e : BoolConsts) (o : Obstacle) : Obstacle :=
  let o := if Bool.eqb (isEnabled e) (isEnabled (boolConsts o)) then o
           else setBoolConst (with_isEnabled (isEnabled e)) o in
  let o := if Bool.eqb (isAwake e) (isAwake (boolConsts o)) then o
           else setBoolConst (with_isAwake (isAwake e)) o in
  let o := if Bool.eqb (isSleepingAllowed e) (isSleepingAllowed (boolConsts o)) then o
           else setBoolConst (with_isSleepingAllowed (isSleepingAllowed e)) o in
  let o := if Bool.eqb (isFixedRotation e) (isFixedRotation (boolConsts o)) then o
           else setBoolConst (with_isFixedRotation (isFixedRotation e)) o in
  let o := if Bool.eqb (isBullet e) (isBullet (boolConsts o)) then o
           else setBoolConst (with_isBullet (isBullet e)) o in
  if Bool.eqb (isSensor e) (isSensor (boolConsts o)) then o
  else setBoolConst (with_isSensor (isSensor e)) o.

(** The body of the [OBJ_FLOAT_CONSTS] case (the source does not copy
    the angular damping). *)
Definition applyFloatConsts (e : FloatConsts) (o : Obstacle) : Obstacle :=
  let o := if float_neq (density e) (density (floatConsts o))
           then setFloatConst (with_density (density e)) o else o in
  let o := if float_neq (friction e) (friction (floatConsts o))
           then setFloatConst (with_friction (friction e)) o else o in
  let o := if float_neq (restitution e) (restitution (floatConsts o))
           then setFloatConst (with_restitution (restitution e)) o else o in
  let o := if float_neq (linearDamping e) (linearDamping (floatConsts o))
           then setFloatConst (with_linearDamping (linearDamping e)) o else o in
  let o := if float_neq (gravityScale e) (gravityScale (floatConsts o))
           then setFloatConst (with_gravityScale (gravityScale e)) o else o in
  let o := if float_neq (mass e) (mass (floatConsts o))
           then setFloatConst (with_mass (mass e)) o else o in
  let o := if float_neq (inertia e) (inertia (floatConsts o))
           then setFloatConst (with_inertia (inertia e)) o else o in
  if vec_neq (centroid e) (centroid (floatConsts o))
  then setFloatConst (with_centroid (centroid e)) o else o.

(** [_sharedObsToNodeMap]: forget the node of [obj] (the node leaves the
    scene graph, which is outside the engine). *)
Definition unlinkNode (obj : Obs) (c : Controller) : Controller :=
  with_sharedObsToNodeMap (delete obj (_sharedObsToNodeMap c)) c.

Definition processPhysObjEvent (chk : bool) (event : PhysObj.PhysObjEvent)
  (c : Controller) : outcome Controller :=
  if String.eqb (_sourceID (PhysObj.base event)) "" then Ok c
  else
    match PhysObj.body event with
    | PhysObj.OBJ_CREATION factId packedParam =>
        let! _ := cuAssert chk (factId <? Z.of_nat (length (_obstacleFacts c))) in
        match _obstacleFacts c !! Z.to_nat factId with
        | None => Undefined
        | Some fact =>
            let '(o, node) := fact packedParam in
            let '(h, c) := allocObs o c in
            let! w := addObstacleWithId chk o h (PhysObj.getObjId event) (_world c) in
            let c := with_world w c in
            let c := if _linkSceneToObsFunc c
                     then with_sharedObsToNodeMap
                            (map_insert_new h node (_sharedObsToNodeMap c)) c
                     else c in
            let c := if _isHost c then modifyOwned (map_insert_new h 0) c else c in
            Ok c
        end
    | b =>
        if negb (map_count (idToObj (_world c)) (PhysObj.getObjId event)) then Ok c
        else
          let! obj := map_at (idToObj (_world c)) (PhysObj.getObjId event) in
          match b with
          | PhysObj.OBJ_DELETION =>
              let c := with_cache (delete obj (_cache c)) c in
              let! w := removeObstacle chk obj (_world c) in
              let c := with_world w c in
              Ok (unlinkNode obj c)
          | _ =>
              let c := modifyObs obj (setShared false) c in
              let c :=
                match b with
                | PhysObj.OBJ_BODY_TYPE t => modifyObs obj (setBodyType t) c
                | PhysObj.OBJ_POSITION p => modifyObs obj (setPosition p) c
                | PhysObj.OBJ_VELOCITY v => modifyObs obj (setLinearVelocity v) c
                | PhysObj.OBJ_ANGLE a => modifyObs obj (setAngle a) c
                | PhysObj.OBJ_ANGULAR_VEL w => modifyObs obj (setAngularVelocity w) c
                | PhysObj.OBJ_BOOL_CONSTS e => modifyObs obj (applyBoolConsts e) c
                | PhysObj.OBJ_FLOAT_CONSTS e => modifyObs obj (applyFloatConsts e) c
                | PhysObj.OBJ_OWNER_ACQUIRE _ => modifyOwned (delete obj) c
                | PhysObj.OBJ_OWNER_RELEASE =>
                    if _isHost c then modifyOwned (map_insert_new obj 0) c else c
                | _ => c
                end in
              Ok (modifyObs obj (setShared true) c)
          end
    end.

Definition addSharedObstacle (chk : bool) (factoryID : Z) (bytes : list byte)
  (c : Controller) : outcome (Obs * Node * Controller) :=
  let! _ := cuAssert chk (factoryID <? Z.of_nat (length (_obstacleFacts c))) in
  match _obstacleFacts c !! Z.to_nat factoryID with
  | None => Undefined
  | Some fact =>
      let '(o, node) := fact bytes in
      let o := setShared true o in
      let '(h, c) := allocObs o c in
      let! '(objId, w) := addObstacle chk o h (_world c) in
      let c := with_world w c in
      let c := if _isHost c then modifyOwned (map_insert_new h 0) c else c in
      Ok (h, node, pushOut (EvPhysObj (PhysObj.allocCreation factoryID objId bytes)) c)
  end.

Definition acquireObs (obs : Obs) (duration : Z) (c : Controller)
  : outcome Controller :=
  let c := if _isHost c then modifyOwned (map_insert_new obs 0) c else c in
  let c := modifyOwned (map_insert_new obs duration) c in
  let! id := map_at (objToId (_world c)) obs in
  Ok (pushOut (EvPhysObj (PhysObj.allocOwnerAcquire id duration)) c).

Definition releaseObs (obs : Obs) (c : Controller) : outcome Controller :=
  if negb (_isHost c) then
    let c := modifyOwned (delete obs) c in
    let! id := map_at (objToId (_world c)) obs in
    Ok (pushOut (EvPhysObj (PhysObj.allocOwnerRelease id)) c)
  else Ok c.

Definition ownAll (c : Controller) : Controller :=
  fold_left (fun c o => modifyOwned (map_insert_new o 0) c)
    (obstacles (_world c)) c.

Definition removeSharedObstacle (chk : bool) (obj : Obs) (c : Controller)
  : outcome Controller :=
  if map_count (objToId (_world c)) obj then
    let! objId := map_at (objToId (_world c)) obj in
    let c := pushOut (EvPhysObj (PhysObj.allocDeletion objId)) c in
    let! w := removeObstacle chk obj (_world c) in
    let c := with_world w c in
    Ok (unlinkNode obj c)
  else Ok c.

Definition addSyncObject (obj : Obs) (param : targetParam) (c : Controller)
  : outcome Controller :=
  let! '(param, c) :=
    if map_count (_cache c) obj then
      let! oldParam := map_at (_cache c) obj in
      let c := modifyObs obj (setShared false) c in
      let c := modifyObs obj (setLinearVelocity (targetVel oldParam)) c in
      let c := modifyObs obj (setAngularVelocity (targetAngV oldParam)) c in
      let c := modifyObs obj (setShared true) c in
      Ok (with_numI (numI oldParam) (with_I_ (I_ oldParam) param), c)
    else Ok (param, c) in
  let c := with_cache (delete obj (_cache c)) c in
  let c := with_cache (map_insert_new obj param (_cache c)) c in
  let c := with_stepSum (_stepSum c + numSteps param) c in
  Ok (with_itprCount (_itprCount c + 1) c).

(** [SDL_max(1, SDL_min(30, SDL_max((int)(diff * 30), (int)angDiff)))];
    either conversion is undefined out of the range of [int]. *)
Definition syncSteps (diff angDiff : float) : outcome Z :=
  let! a := Float32.to_int (Float32.mul diff (Float32.of_int 30)) in
  let! b := Float32.to_int angDiff in
  Ok (Z.max 1 (Z.min 30 (Z.max a b))).

(** The positional and angular deltas of one snapshot against an
    obstacle ([abs] is the [float] overload). *)
Definition posDiff (o : Obstacle) (param : PhysSync.ObjParam) : float :=
  vec_length (vec_sub (getPosition o)
                (mkVec2 (PhysSync.x param) (PhysSync.y param))).

Definition angDiff (o : Obstacle) (param : PhysSync.ObjParam) : float :=
  Float32.mul (Float32.of_int 10)
    (Float32.abs (Float32.sub (getAngle o) (PhysSync.angle param))).

(** The body of the loop of [processPhysSyncEvent]. *)
Definition syncOne (param : PhysSync.ObjParam) (c : Controller)
  : outcome Controller :=
  if negb (map_count (idToObj (_world c)) (PhysSync.objId param)) then Ok c
  else
    let! obj := map_at (idToObj (_world c)) (PhysSync.objId param) in
    let o := heap c obj in
    let! steps := syncSteps (posDiff o param) (angDiff o param) in
    let tv := mkVec2 (PhysSync.vx param) (PhysSync.vy param) in
    let p3 := mkVec2 (PhysSync.x param) (PhysSync.y param) in
    let target :=
      {| curStep := 0;
         numSteps := steps;
         P0 := getPosition o;
         P1 := vec_add (getPosition o)
                 (vec_div (getLinearVelocity o) (Float32.of_int 10));
         P2 := vec_sub p3 (vec_div tv (Float32.of_int 10));
         P3 := p3;
         targetVel := tv;
         targetAngle := PhysSync.angle param;
         targetAngV := PhysSync.vAngular param;
         I_ := I_ newTarget;
         numI := numI newTarget |} in
    addSyncObject obj target c.

Definition processPhysSyncEvent (event : PhysSync.PhysSyncEvent) (c : Controller)
  : outcome Controller :=
  if String.eqb (_sourceID (PhysSync.base event)) "" then Ok c
  else foldM syncOne (PhysSync.getSyncList event) c.

Definition isInSync (obj : Obs) (c : Controller) : bool :=
  map_count (_cache c) obj.

(** The events of one obstacle in [packPhysObj]. *)
Definition dirtyEvents (id : Z) (o : Obstacle) : list NetEvent :=
  (if posDirty (dirty o) then [EvPhysObj (PhysObj.allocPos id (getPosition o))] else [])
  ++ (if angleDirty (dirty o) then [EvPhysObj (PhysObj.allocAngle id (getAngle o))] else [])
  ++ (if velDirty (dirty o) then [EvPhysObj (PhysObj.allocVel id (getLinearVelocity o))] else [])
  ++ (if angVelDirty (dirty o)
      then [EvPhysObj (PhysObj.allocAngularVel id (getAngularVelocity o))] else [])
  ++ (if typeDirty (dirty o) then [EvPhysObj (PhysObj.allocBodyType id (bodyType o))] else [])
  ++ (if boolConstDirty (dirty o)
      then [EvPhysObj (PhysObj.allocBoolConsts id (boolConsts o))] else [])
  ++ (if floatConstDirty (dirty o)
      then [EvPhysObj (PhysObj.allocFloatConsts id (floatConsts o))] else []).

Definition packOne (obj : Obs) (c : Controller) : outcome Controller :=
  let! id := map_at (objToId (_world c)) obj in
  let o := heap c obj in
  if isShared o then
    let c := with_outEvents (_outEvents c ++ dirtyEvents id o) c in
    Ok (modifyObs obj clearSharingDirtyBits c)
  else Ok c.

Definition packPhysObj (c : Controller) : outcome Controller :=
  foldM packOne (obstacles (_world c)) c.

(** Formula: [(target-source)/stepsLeft + source]. *)
Definition interpolate (stepsLeft : Z) (target source : float) : float :=
  Float32.add (Float32.div (Float32.sub target source) (Float32.of_int stepsLeft))
    source.

(** The body of the ownership loop of [fixedUpdate]. *)
Definition leaseOne (obj : Obs) (c : Controller) : outcome Controller :=
  if map_count (owned (_world c)) obj then
    let! left := map_at (owned (_world c)) obj in
    if left =? 1 then releaseObs obj c
    else if 1 <? left then Ok (modifyOwned (<[obj := left - 1]>) c)
    else Ok c
  else Ok c.

(** The linear branch of the interpolation ([ITPR_METHOD] is 0). *)
Definition stepLinear (stepsLeft : Z) (param : targetParam) (o : Obstacle)
  : Obstacle :=
  let o := setX (interpolate stepsLeft (vec_x (P3 param)) (getX o)) o in
  let o := setY (interpolate stepsLeft (vec_y (P3 param)) (getY o)) o in
  let o := setVX (interpolate stepsLeft (vec_x (targetVel param)) (getVX o)) o in
  let o := setVY (interpolate stepsLeft (vec_y (targetVel param)) (getVY o)) o in
  let o := setAngle (interpolate stepsLeft (targetAngle param) (getAngle o)) o in
  setAngularVelocity
    (interpolate stepsLeft (targetAngV param) (getAngularVelocity o)) o.

(** The snap of the last step. *)
Definition snapTo (param : targetParam) (o : Obstacle) : Obstacle :=
  let o := setPosition (P3 param) o in
  let o := setLinearVelocity (targetVel param) o in
  let o := setAngle (targetAngle param) o in
  setAngularVelocity (targetAngV param) o.

(** The body of the interpolation loop of [fixedUpdate], at the cache
    entry [(obj, param)]. *)
Definition itprOne (chk : bool) (entry : Obs * targetParam) (c : Controller)
  : outcome Controller :=
  let '(obj, param) := entry in
  if negb (isShared (heap c obj)) then
    Ok (with_deleteCache (_deleteCache c ++ [obj]) c)
  else
    let c := modifyObs obj (setShared false) c in
    let stepsLeft := numSteps param - curStep param in
    let! c :=
      if stepsLeft <=? 1 then
        let c := modifyObs obj (snapTo param) c in
        let c := with_deleteCache (_deleteCache c ++ [obj]) c in
        Ok (with_ovrdCount (_ovrdCount c + 1) c)
      else
        let t := Float32.div (Float32.of_int (curStep param))
                   (Float32.of_int (numSteps param)) in
        let! _ := cuAssert chk (Float32.leb t (Float32.of_int 1)
                                && Float32.leb (Float32.of_int 0) t) in
        Ok (modifyObs obj (stepLinear stepsLeft param) c) in
    let c := with_cache (<[obj := with_curStep (curStep param + 1) param]> (_cache c)) c in
    Ok (modifyObs obj (setShared true) c).

Definition eraseDeleted (c : Controller) : Controller :=
  let c := with_cache (fold_left (fun m o => delete o m) (_deleteCache c) (_cache c)) c in
  with_deleteCache [] c.

Definition fixedUpdate (chk : bool) (c : Controller) : outcome Controller :=
  let! c := packPhysObj c in
  let! c := foldM leaseOne (obstacles (_world c)) c in
  let! c := foldM (itprOne chk) (map_to_list (_cache c)) c in
  Ok (eraseDeleted c).

End NetPhysics.

(** ** The envelope layer: [NetEventController]
    (CUNetEventController.cpp) *)

Module NetEventCtl.
Import NetEventBase.

Inductive Status :=
  | IDLE | CONNECTING | CONNECTED | HANDSHAKE | READY | INGAME | NETERROR.

Definition status_eqb (a b : Status) : bool :=
  match a, b with
  | IDLE, IDLE | CONNECTING, CONNECTING | CONNECTED, CONNECTED
  | HANDSHAKE, HANDSHAKE | READY, READY | INGAME, INGAME
  | NETERROR, NETERROR => true
  | _, _ => false
  end.

(** A slot of [_newEventVector]: a prototype of one event class, used
    through its two virtual methods. *)
Record EventProto := mkProto {
  newEvent : NetEvent;
  deserialize : bool -> NetEvent -> list byte -> outcome NetEvent
}.

(** The prototype that [init] attaches first, [GameStateEvent]. *)
Definition gameStateProto (indet : Z) : EventProto :=
  {| newEvent := EvGameState (GameState.new indet);
     deserialize := fun chk e data =>
       match e with
       | EvGameState g =>
           let! g' := GameState.deserialize chk g data in Ok (EvGameState g')
       | _ => Ok e
       end |}.

Record Controller := mkController {
  updateCount : Z;             (* Application::getUpdateCount(), Uint64 *)
  _startGameTimeStamp : Z;     (* Uint64 *)
  _status : Status;
  _isHost : bool;
  _numReady : Z;               (* Uint8 *)
  _newEventVector : list EventProto;
  _inEventQueue : list NetEvent;
  _outEventQueue : list NetEvent;
  _shortUID : Z;               (* Uint32 *)
  _physEnabled : bool;
  _physController : option NetPhysics.Controller
}.

Definition with_status (v : Status) (c : Controller) : Controller :=
  mkController (updateCount c) (_startGameTimeStamp c) v (_isHost c)
    (_numReady c) (_newEventVector c) (_inEventQueue c) (_outEventQueue c)
    (_shortUID c) (_physEnabled c) (_physController c).
Definition with_startGameTimeStamp (v : Z) (c : Controller) : Controller :=
  mkController (updateCount c) v (_status c) (_isHost c)
    (_numReady c) (_newEventVector c) (_inEventQueue c) (_outEventQueue c)
    (_shortUID c) (_physEnabled c) (_physController c).
Definition with_numReady (v : Z) (c : Controller) : Controller :=
  mkController (updateCount c) (_startGameTimeStamp c) (_status c) (_isHost c)
    v (_newEventVector c) (_inEventQueue c) (_outEventQueue c)
    (_shortUID c) (_physEnabled c) (_physController c).
Definition with_inEventQueue (v : list NetEvent) (c : Controller) : Controller :=
  mkController (updateCount c) (_startGameTimeStamp c) (_status c) (_isHost c)
    (_numReady c) (_newEventVector c) v (_outEventQueue c)
    (_shortUID c) (_physEnabled c) (_physController c).
Definition with_outEventQueue (v : list NetEvent) (c : Controller) : Controller :=
  mkController (updateCount c) (_startGameTimeStamp c) (_status c) (_isHost c)
    (_numReady c) (_newEventVector c) (_inEventQueue c) v
    (_shortUID c) (_physEnabled c) (_physController c).
Definition with_shortUID (v : Z) (c : Controller) : Controller :=
  mkController (updateCount c) (_startGameTimeStamp c) (_status c) (_isHost c)
    (_numReady c) (_newEventVector c) (_inEventQueue c) (_outEventQueue c)
    v (_physEnabled c) (_physController c).
Definition with_physController (v : option NetPhysics.Controller) (c : Controller)
  : Controller :=
  mkController (updateCount c) (_startGameTimeStamp c) (_status c) (_isHost c)
    (_numReady c) (_newEventVector c) (_inEventQueue c) (_outEventQueue c)
    (_shortUID c) (_physEnabled c) v.

(** [MIN_MSG_LENGTH]: [sizeof(std::byte)+sizeof(Uint64)]. *)
Definition MIN_MSG_LENGTH : nat := 1 + 8.

(** [getGameTick()]: [getUpdateCount() - _startGameTimeStamp] in
    [Uint64]. *)
Definition getGameTick (c : Controller) : Z :=
  wrap64 (updateCount c - _startGameTimeStamp c).

Definition pushOutEvent (e : NetEvent) (c : Controller) : Controller :=
  with_outEventQueue (_outEventQueue c ++ [e]) c.

(** The condition of the assertion of [unwrap]; [data[0]] is read only
    when the length test passes. *)
Definition validEnvelope (data : list byte) (c : Controller) : bool :=
  (MIN_MSG_LENGTH <=? length data)%nat
  && match data with
     | b :: _ => byte_to_Z b <? Z.of_nat (length (_newEventVector c))
     | [] => false
     end.

Definition unwrap (chk : bool) (data : list byte) (source : string)
  (c : Controller) : outcome NetEvent :=
  let! _ := cuAssert chk (validEnvelope data c) in
  let deserializer := LW.receive data in
  let! '(eventType, deserializer) := LW.readByte deserializer in
  match _newEventVector c !! Z.to_nat (byte_to_Z eventType) with
  | None => Undefined                     (* [_newEventVector[eventType]] *)
  | Some proto =>
      let e := newEvent proto in
      let! '(eventTimeStamp, deserializer) := LW.readUint64 deserializer in
      let receiveTimeStamp := getGameTick c in
      let e := setMeta (setMetaData eventTimeStamp receiveTimeStamp source) e in
      if (MIN_MSG_LENGTH <=? length data)%nat
      then deserialize proto chk e (drop MIN_MSG_LENGTH data)
      else Undefined                      (* [data.begin()+9] is past [end()] *)
  end.

Definition processGameStateEvent (e : GameState.GameStateEvent) (c : Controller)
  : Controller :=
  let c :=
    match _status c, GameState.getType e with
    | HANDSHAKE, GameState.UID_ASSIGN => with_shortUID (GameState.getShortUID e) c
    | _, _ => c
    end in
  let c :=
    match _status c, GameState.getType e with
    | READY, GameState.GAME_START =>
        with_startGameTimeStamp (updateCount c) (with_status INGAME c)
    | _, _ => c
    end in
  if _isHost c then
    match GameState.getType e with
    | GameState.CLIENT_RDY => with_numReady (wrap8 (_numReady c + 1)) c
    | _ => c
    end
  else c.

(** Calling through [_physController]: undefined when it is null. *)
Definition withPhys (f : NetPhysics.Controller -> outcome NetPhysics.Controller)
  (c : Controller) : outcome Controller :=
  match _physController c with
  | None => Undefined
  | Some p => let! p' := f p in Ok (with_physController (Some p') c)
  end.

Definition processReceivedEvent (chk : bool) (e : NetEvent) (c : Controller)
  : outcome Controller :=
  match e with
  | EvGameState game => Ok (processGameStateEvent game c)
  | _ =>
      if status_eqb (_status c) INGAME then
        match e with
        | EvPhysSync phys =>
            if _physEnabled c
            then withPhys (NetPhysics.processPhysSyncEvent phys) c
            else Ok c
        | EvPhysObj phys =>
            if _physEnabled c
            then withPhys (NetPhysics.processPhysObjEvent chk phys) c
            else Ok c
        | _ => Ok (with_inEventQueue (_inEventQueue c ++ [e]) c)
        end
      else Ok c
  end.

(** One received datagram: the callback of [processReceivedData]. *)
Definition receiveOne (chk : bool) (msg : string * list byte) (c : Controller)
  : outcome Controller :=
  let '(source, data) := msg in
  let! e := unwrap chk data source c in
  processReceivedEvent chk e c.

(** [processReceivedData]: the transport hands over the datagrams it
    holds, each with the id of its sender. *)
Definition processReceivedData (chk : bool) (msgs : list (string * list byte))
  (c : Controller) : outcome Controller :=
  NetPhysics.foldM (receiveOne chk) msgs c.

Definition isInAvailable (c : Controller) : bool :=
  match _inEventQueue c with
  | [] => false
  | top :: _ => getEventTimeStamp top <=? getGameTick c
  end.

(** [popInEvent]: [front()] and [pop()] of the queue, which are
    undefined on an empty queue. *)
Definition popInEvent (c : Controller) : outcome (NetEvent * Controller) :=
  match _inEventQueue c with
  | [] => Undefined
  | e :: rest => Ok (e, with_inEventQueue rest c)
  end.

End NetEventCtl.

(** ** Concrete states used to exercise the model *)

Module Samples.
Import NetEventBase Physics2.

Definition f32 (z : Z) : float := Float32.of_int z.

Definition consts0 : FloatConsts :=
  mkFloatConsts (f32 1) (f32 0) (f32 0) (f32 0) (f32 0) (f32 1) (f32 1) (f32 1)
    vec_zero.

(** An obstacle at rest at the origin, with a choice of the [shared]
    flag. *)
Definition obstacleAtOrigin (sh : bool) : Obstacle :=
  mkObstacle vec_zero Float32.zero vec_zero Float32.zero b2_dynamicBody
    (mkBoolConsts true true true false false false) consts0 sh noDirtyBits.

(** Bounds of 32 by 18 units, from the origin. *)
Definition bounds0 : Rect := mkRect vec_zero (f32 32) (f32 18).

(** A world with the single body [1], registered under the id [7]. *)
Definition world1 (own : gmap Obs Z) : ObstacleWorld :=
  mkWorld bounds0 [1%positive] {[ 7 := 1%positive ]} {[ 1%positive := 7 ]} own 2 1.

Definition engine (host sh : bool) (own : gmap Obs Z)
  (cache : gmap Obs NetPhysics.targetParam) : NetPhysics.Controller :=
  NetPhysics.mkController 0 0 0 host 0 (fun _ => obstacleAtOrigin sh) 2%positive
    (world1 own) cache [] [] false ∅ [].

(** A target at [(10, 0)] with the given step counters. *)
Definition targetAt10 (cur num : Z) : NetPhysics.targetParam :=
  NetPhysics.mkTarget cur num vec_zero vec_zero (mkVec2 (f32 10) (f32 0))
    (mkVec2 (f32 10) (f32 0)) (mkVec2 (f32 1) (f32 2)) (f32 3) (f32 4)
    vec_zero 0.

(** A snapshot of body [7] at [(10, 0)], at rest. *)
Definition snapshot7 : PhysSync.ObjParam :=
  PhysSync.mkObjParam 7 (f32 10) (f32 0) (f32 0) (f32 0) (f32 0) (f32 0).

Definition syncFrom (source : string) (l : list PhysSync.ObjParam)
  : PhysSync.PhysSyncEvent :=
  PhysSync.mkEvent (mkMeta 0 0 source) ∅ l.

(** An event controller in game, started at update 100 and now at
    update [now], with only [GameStateEvent] registered. *)
Definition session (now : Z) (queue : list NetEvent) : NetEventCtl.Controller :=
  NetEventCtl.mkController now 100 NetEventCtl.INGAME false 0
    [NetEventCtl.gameStateProto 0] queue [] 1 false None.

(** An application event stamped with the sender tick [s]. *)
Definition customAt (s : Z) : NetEvent :=
  EvCustom (mkMeta s 0 "peer") 3 [].

(** [n] ticks of the engine in a row. *)
Fixpoint runTicks (chk : bool) (n : nat) (c : NetPhysics.Controller)
  : outcome NetPhysics.Controller :=
  match n with
  | O => Ok c
  | S n' => let! c' := NetPhysics.fixedUpdate chk c in runTicks chk n' c'
  end.

(** The x coordinate of body 1 after each of [n] ticks. *)
Fixpoint traceX (chk : bool) (n : nat) (c : NetPhysics.Controller) : list float :=
  match n with
  | O => []
  | S n' =>
      match NetPhysics.fixedUpdate chk c with
      | Ok c' => getX (NetPhysics.heap c' 1%positive) :: traceX chk n' c'
      | _ => []
      end
  end.

(** [l] is strictly increasing and stays below [bound]. *)
Fixpoint climbsTo (bound : Q) (l : list Q) : bool :=
  match l with
  | [] => true
  | a :: l' =>
      match Qcompare a bound with
      | Lt => match l' with
              | b :: _ => match Qcompare a b with Lt => climbsTo bound l' | _ => false end
              | [] => true
              end
      | _ => false
      end
  end.

(** A factory that ignores its parameters: a shared body at rest at
    the origin, with the scene node 0. *)
Definition originFactory : NetPhysics.ObstacleFactory :=
  fun _ => (obstacleAtOrigin true, 0%nat).

(** An engine over an empty world, with the short UID [uid] and the
    factory [originFactory] attached as factory 0. *)
Definition emptyEngine (host : bool) (uid : Z) : NetPhysics.Controller :=
  NetPhysics.mkController 0 0 0 host 0 (fun _ => obstacleAtOrigin false) 1%positive
    (mkWorld bounds0 [] ∅ ∅ ∅ uid 0) ∅ [] [originFactory] false ∅ [].

(** The bytes of "abc". *)
Definition abc : list byte := [x61; x62; x63].

(** An event as a peer receives it from [source]. *)
Definition receivedFrom (source : string) (e : PhysObj.PhysObjEvent)
  : PhysObj.PhysObjEvent :=
  PhysObj.mkEvent (mkMeta 0 0 source) (PhysObj._objId e) (PhysObj.body e).

End Samples.

(** ** Vocabulary of the statements *)

Module Spec.
Import Physics2.

(** [clamp v lo hi], in the words of the design document. *)
Definition clamp (v lo hi : Z) : Z :=
  if v <? lo then lo else if hi <? v then hi else v.

(** The assertion of the interpolation loop, [t <= 1.f && t >= 0.f]
    with [t = ((float)curStep) / numSteps]. *)
Definition ratio_ok (cur num : Z) : bool :=
  let t := Float32.div (Float32.of_int cur) (Float32.of_int num) in
  Float32.leb t (Float32.of_int 1) && Float32.leb (Float32.of_int 0) t.

(** The invariant of a cached target: [0 <= curStep <= numSteps] and
    [numSteps] in [1, 30]. *)
Definition target_ok (p : NetPhysics.targetParam) : Prop :=
  1 <= NetPhysics.numSteps p <= 30
  /\ 0 <= NetPhysics.curStep p <= NetPhysics.numSteps p.

(** The state the engine keeps between ticks: every body of the world
    has an identifier, and every cached target meets its invariant. *)
Definition engine_ok (c : NetPhysics.Controller) : Prop :=
  (forall o, o ∈ obstacles (NetPhysics._world c) ->
             is_Some (objToId (NetPhysics._world c) !! o))
  /\ map_Forall (fun _ p => target_ok p) (NetPhysics._cache c).

(** Two obstacle records that agree on pose, motion and the [shared]
    flag. *)
Definition same_body (a b : Obstacle) : Prop :=
  position a = position b /\ angle a = angle b
  /\ linearVelocity a = linearVelocity b
  /\ angularVelocity a = angularVelocity b
  /\ shared a = shared b.

(** What one tick does to a lease. *)
Definition lease_next (host : bool) (t : option Z) : option Z :=
  match t with
  | Some t =>
      if t =? 1 then (if host then Some t else None)
      else if 1 <? t then Some (t - 1)
      else Some t
  | None => None
  end.

(** What the publishing loop of a tick leaves alone. *)
Definition pack_frame (c c' : NetPhysics.Controller) : Prop :=
  NetPhysics._world c' = NetPhysics._world c
  /\ NetPhysics._cache c' = NetPhysics._cache c
  /\ NetPhysics._isHost c' = NetPhysics._isHost c
  /\ NetPhysics._deleteCache c' = NetPhysics._deleteCache c
  /\ (exists l, NetPhysics._outEvents c' = NetPhysics._outEvents c ++ l)
  /\ forall o, same_body (NetPhysics.heap c' o) (NetPhysics.heap c o).

(** What the ownership loop of a tick leaves alone. *)
Definition lease_frame (c c' : NetPhysics.Controller) : Prop :=
  NetPhysics.heap c' = NetPhysics.heap c
  /\ NetPhysics._cache c' = NetPhysics._cache c
  /\ NetPhysics._isHost c' = NetPhysics._isHost c
  /\ NetPhysics._deleteCache c' = NetPhysics._deleteCache c
  /\ obstacles (NetPhysics._world c') = obstacles (NetPhysics._world c)
  /\ objToId (NetPhysics._world c') = objToId (NetPhysics._world c)
  /\ idToObj (NetPhysics._world c') = idToObj (NetPhysics._world c).

(** What the interpolation loop of a tick leaves alone. *)
Definition itpr_frame (c c' : NetPhysics.Controller) : Prop :=
  NetPhysics._world c' = NetPhysics._world c
  /\ NetPhysics._outEvents c' = NetPhysics._outEvents c
  /\ NetPhysics._isHost c' = NetPhysics._isHost c.

(** What the reconciliation of a snapshot leaves alone: the registry,
    and the position and angle of every body. *)
Definition sync_frame (c c' : NetPhysics.Controller) : Prop :=
  NetPhysics._world c' = NetPhysics._world c
  /\ forall o, position (NetPhysics.heap c' o) = position (NetPhysics.heap c o)
               /\ angle (NetPhysics.heap c' o) = angle (NetPhysics.heap c o).

(** Both conversions to [int] of the step count of the snapshot [q]
    are defined (the deltas are finite and fit an [int]). *)
Definition entry_defined (c : NetPhysics.Controller) (q : PhysSync.ObjParam)
  : Prop :=
  forall o, idToObj (NetPhysics._world c) !! PhysSync.objId q = Some o ->
    exists n, NetPhysics.syncSteps (NetPhysics.posDiff (NetPhysics.heap c o) q)
                (NetPhysics.angDiff (NetPhysics.heap c o) q) = Ok n.

End Spec.

Arguments Float32.add : simpl never.
Arguments Float32.sub : simpl never.
Arguments Float32.mul : simpl never.
Arguments Float32.div : simpl never.
Arguments Float32.sqrt : simpl never.
Arguments Float32.abs : simpl never.
Arguments Float32.of_int : simpl never.
Arguments Float32.eqb : simpl never.
Arguments Float32.leb : simpl never.
Arguments Float32.to_int : simpl never.
Arguments NetPhysics.interpolate : simpl never.
Arguments NetPhysics.modifyObs : simpl never.

(** ** Vocabulary of the rounding properties *)

Module Rounding.
Local Open Scope Q_scope.

(** The number [m * 2^e]. *)
Definition F2Q (m e : Z) : Q := inject_Z m * 2 ^ e.

(** A shift record that has lost no bit so far. *)
Definition exact_record (r : shr_record) : Prop :=
  shr_r r = false /\ shr_s r = false.

(** The record [y] is the record [x] shifted right by [k] bits: the
    mantissa is divided by [2^k], and [y] has lost no bit when [x] had
    lost none and the shift drops only zeros. *)
Definition shifted (k : Z) (x y : shr_record) : Prop :=
  shr_m y = (shr_m x / 2 ^ k)%Z
  /\ (exact_record y <-> exact_record x /\ (shr_m x mod 2 ^ k = 0)%Z).

Section Format.
Variables prec emax : Z.

(** A number that the format can hold: a mantissa of at most [prec]
    bits at an exponent of the format. *)
Definition representable (x : Q) : Prop :=
  exists m e,
    (Z.abs m < 2 ^ prec)%Z /\ (emin prec emax <= e <= emax - prec)%Z
    /\ x == F2Q m e.

(** The float [r] is a rounding of the number [x]: rounding does not
    cross a number of the format in either direction, is finite
    between two numbers of the format, and gives a number of the
    format. *)
Definition rounded (x : Q) (r : spec_float) : Prop :=
  (forall u, representable u -> x <= u ->
             Float32.is_finite r = true -> Float32.to_Q r <= u)
  /\ (forall l, representable l -> l <= x ->
                Float32.is_finite r = true -> l <= Float32.to_Q r)
  /\ (forall l u, representable l -> representable u -> l <= x -> x <= u ->
                  Float32.is_finite r = true)
  /\ (Float32.is_finite r = true -> representable (Float32.to_Q r)).

End Format.

(** A finite float in the canonical form of binary32. *)
Definition is_valid (f : float) : bool :=
  Float32.is_finite f && valid_binary Float32.prec Float32.emax f.

End Rounding.

(** ** Byte codec, writing side: [LWSerializer] (CULWSerializer.h) *)

Module LWSer.

(** The bit pattern of a float ([reinterpret_cast] of the value).  A
    NaN has no payload in this model; it is written as the quiet NaN
    [7fc00000]. *)
Definition to_bits (f : float) : Z :=
  let sign (s : bool) := if s then 2 ^ 31 else 0 in
  match f with
  | S754_zero s => sign s
  | S754_infinity s => sign s + 255 * 2 ^ 23
  | S754_nan => 255 * 2 ^ 23 + 2 ^ 22
  | S754_finite s m e =>
      if Zpos m <? 2 ^ 23 then sign s + Zpos m
      else sign s + (e + 150) * 2 ^ 23 + (Zpos m - 2 ^ 23)
  end.

(** Modelled from the spec: [marshall] (cugl/base/CUEndian.h) is not
    part of the sources at hand; it puts a scalar in network byte
    order, so the bytes that a write appends are the [n] bytes of the
    value, most significant first. *)
Fixpoint marshall_out (n : nat) (v : Z) : list byte :=
  match n with
  | O => []
  | S k => byte_of_Z (Z.shiftr v (8 * Z.of_nat k)) :: marshall_out k v
  end.

Record LWSerializer := mkSer {
  _data : list byte
}.

Definition new : LWSerializer := mkSer [].

Definition writeBool (b : bool) (s : LWSerializer) : LWSerializer :=
  mkSer (_data s ++ [if b then x01 else x00]).

Definition writeByte (b : byte) (s : LWSerializer) : LWSerializer :=
  mkSer (_data s ++ [b]).

Definition writeByteVector (v : list byte) (s : LWSerializer) : LWSerializer :=
  mkSer (_data s ++ v).

(** [rewriteFirstUint32]: [_data[j] = bytes[j]] for the first four
    indices; indexing a shorter buffer is undefined. *)
Definition rewriteFirstUint32 (i : Z) (s : LWSerializer) : outcome LWSerializer :=
  if (4 <=? length (_data s))%nat
  then Ok (mkSer (marshall_out 4 i ++ drop 4 (_data s)))
  else Undefined.

Definition writeFloat (f : float) (s : LWSerializer) : LWSerializer :=
  mkSer (_data s ++ marshall_out 4 (to_bits f)).

Definition writeSint32 (i : Z) (s : LWSerializer) : LWSerializer :=
  mkSer (_data s ++ marshall_out 4 i).

Definition writeUint16 (i : Z) (s : LWSerializer) : LWSerializer :=
  mkSer (_data s ++ marshall_out 2 i).

Definition writeUint32 (i : Z) (s : LWSerializer) : LWSerializer :=
  mkSer (_data s ++ marshall_out 4 i).

Definition writeUint64 (i : Z) (s : LWSerializer) : LWSerializer :=
  mkSer (_data s ++ marshall_out 8 i).

Definition serialize (s : LWSerializer) : list byte := _data s.

Definition reset (s : LWSerializer) : LWSerializer := mkSer [].

End LWSer.

(** ** [PhysObjEvent] on the wire (CUPhysObjEvent.h) *)

Module PhysObjWire.
Import NetEventBase Physics2.

(** The enumerators of [PhysObjEvent::Type], in declaration order. *)
Definition typeCode (b : PhysObj.Body) : Z :=
  match b with
  | PhysObj.OBJ_CREATION _ _ => 0
  | PhysObj.OBJ_DELETION => 1
  | PhysObj.OBJ_BODY_TYPE _ => 2
  | PhysObj.OBJ_POSITION _ => 3
  | PhysObj.OBJ_VELOCITY _ => 4
  | PhysObj.OBJ_ANGLE _ => 5
  | PhysObj.OBJ_ANGULAR_VEL _ => 6
  | PhysObj.OBJ_BOOL_CONSTS _ => 7
  | PhysObj.OBJ_FLOAT_CONSTS _ => 8
  | PhysObj.OBJ_OWNER_ACQUIRE _ => 9
  | PhysObj.OBJ_OWNER_RELEASE => 10
  end.

(** The enumerators of [b2BodyType]. *)
Definition bodyTypeCode (t : b2BodyType) : Z :=
  match t with
  | b2_staticBody => 0
  | b2_kinematicBody => 1
  | b2_dynamicBody => 2
  end.

Definition bodyTypeOfCode (z : Z) : option b2BodyType :=
  if z =? 0 then Some b2_staticBody
  else if z =? 1 then Some b2_kinematicBody
  else if z =? 2 then Some b2_dynamicBody
  else None.

Definition serialize (e : PhysObj.PhysObjEvent) : list byte :=
  let s := LWSer.reset LWSer.new in
  let s := LWSer.writeUint32 (typeCode (PhysObj.body e)) s in
  let s := LWSer.writeUint64 (PhysObj._objId e) s in
  let s :=
    match PhysObj.body e with
    | PhysObj.OBJ_CREATION factId packedParam =>
        LWSer.writeByteVector packedParam (LWSer.writeUint32 factId s)
    | PhysObj.OBJ_DELETION => s
    | PhysObj.OBJ_BODY_TYPE t => LWSer.writeUint32 (bodyTypeCode t) s
    | PhysObj.OBJ_POSITION p =>
        LWSer.writeFloat (vec_y p) (LWSer.writeFloat (vec_x p) s)
    | PhysObj.OBJ_VELOCITY v =>
        LWSer.writeFloat (vec_y v) (LWSer.writeFloat (vec_x v) s)
    | PhysObj.OBJ_ANGLE a => LWSer.writeFloat a s
    | PhysObj.OBJ_ANGULAR_VEL w => LWSer.writeFloat w s
    | PhysObj.OBJ_BOOL_CONSTS c =>
        let s := LWSer.writeBool (isEnabled c) s in
        let s := LWSer.writeBool (isAwake c) s in
        let s := LWSer.writeBool (isSleepingAllowed c) s in
        let s := LWSer.writeBool (isFixedRotation c) s in
        let s := LWSer.writeBool (isBullet c) s in
        LWSer.writeBool (isSensor c) s
    | PhysObj.OBJ_FLOAT_CONSTS c =>
        let s := LWSer.writeFloat (density c) s in
        let s := LWSer.writeFloat (friction c) s in
        let s := LWSer.writeFloat (restitution c) s in
        let s := LWSer.writeFloat (linearDamping c) s in
        let s := LWSer.writeFloat (angularDamping c) s in
        let s := LWSer.writeFloat (gravityScale c) s in
        let s := LWSer.writeFloat (mass c) s in
        let s := LWSer.writeFloat (inertia c) s in
        let s := LWSer.writeFloat (vec_x (centroid c)) s in
        LWSer.writeFloat (vec_y (centroid c)) s
    | PhysObj.OBJ_OWNER_ACQUIRE duration => LWSer.writeUint64 duration s
    | PhysObj.OBJ_OWNER_RELEASE => s
    end in
  LWSer.serialize s.

(** What [deserialize] leaves in the event.  The integer read for
    [_type] or for [_bodyType] is cast to the enumeration as it is; when
    it is no enumerator the event is kept here with the integer. *)
Inductive Decoded :=
  | Event (e : PhysObj.PhysObjEvent)
  | UnknownType (base : MetaData) (code objId : Z)
  | UnknownBodyType (base : MetaData) (objId code : Z).

Definition readVec2 (d : LW.LWDeserializer) : outcome (Vec2 * LW.LWDeserializer) :=
  let! '(a, d) := LW.readFloat d in
  let! '(b, d) := LW.readFloat d in
  Ok (mkVec2 a b, d).

Definition readBoolConsts (d : LW.LWDeserializer)
  : outcome (BoolConsts * LW.LWDeserializer) :=
  let! '(b1, d) := LW.readBool d in
  let! '(b2, d) := LW.readBool d in
  let! '(b3, d) := LW.readBool d in
  let! '(b4, d) := LW.readBool d in
  let! '(b5, d) := LW.readBool d in
  let! '(b6, d) := LW.readBool d in
  Ok (mkBoolConsts b1 b2 b3 b4 b5 b6, d).

Definition readFloatConsts (d : LW.LWDeserializer)
  : outcome (FloatConsts * LW.LWDeserializer) :=
  let! '(f1, d) := LW.readFloat d in
  let! '(f2, d) := LW.readFloat d in
  let! '(f3, d) := LW.readFloat d in
  let! '(f4, d) := LW.readFloat d in
  let! '(f5, d) := LW.readFloat d in
  let! '(f6, d) := LW.readFloat d in
  let! '(f7, d) := LW.readFloat d in
  let! '(f8, d) := LW.readFloat d in
  let! '(c, d) := readVec2 d in
  Ok (mkFloatConsts f1 f2 f3 f4 f5 f6 f7 f8 c, d).

(** [deserialize] into the event [e].  Data shorter than the header
    (type and id, 12 bytes) leaves the event as it is. *)
Definition deserialize (chk : bool) (e : PhysObj.PhysObjEvent) (data : list byte)
  : outcome Decoded :=
  if (length data <? 4 + 8)%nat then Ok (Event e)
  else
    let d := LW.receive data in
    let! '(type, d) := LW.readUint32 d in
    let! '(objId, d) := LW.readUint64 d in
    let ev (b : PhysObj.Body) := Ok (Event (PhysObj.mkEvent (PhysObj.base e) objId b)) in
    if type =? 0 then
      let! '(factId, d) := LW.readUint32 d in
      if (2 * 4 + 8 <=? length data)%nat
      then ev (PhysObj.OBJ_CREATION factId (drop (2 * 4 + 8) data))
      else Undefined
    else if type =? 1 then ev PhysObj.OBJ_DELETION
    else if type =? 2 then
      let! '(code, d) := LW.readUint32 d in
      match bodyTypeOfCode code with
      | Some t => ev (PhysObj.OBJ_BODY_TYPE t)
      | None => Ok (UnknownBodyType (PhysObj.base e) objId code)
      end
    else if type =? 3 then
      let! '(p, d) := readVec2 d in ev (PhysObj.OBJ_POSITION p)
    else if type =? 4 then
      let! '(v, d) := readVec2 d in ev (PhysObj.OBJ_VELOCITY v)
    else if type =? 5 then
      let! '(a, d) := LW.readFloat d in ev (PhysObj.OBJ_ANGLE a)
    else if type =? 6 then
      let! '(w, d) := LW.readFloat d in ev (PhysObj.OBJ_ANGULAR_VEL w)
    else if type =? 7 then
      let! '(c, d) := readBoolConsts d in ev (PhysObj.OBJ_BOOL_CONSTS c)
    else if type =? 8 then
      let! '(c, d) := readFloatConsts d in ev (PhysObj.OBJ_FLOAT_CONSTS c)
    else if type =? 9 then
      let! '(duration, d) := LW.readUint64 d in ev (PhysObj.OBJ_OWNER_ACQUIRE duration)
    else if type =? 10 then ev PhysObj.OBJ_OWNER_RELEASE
    else
      let! _ := cuAssert chk false in
      Ok (UnknownType (PhysObj.base e) type objId).

End PhysObjWire.

(** ** Vocabulary of the wire properties *)

Module WireSpec.
Import Physics2.

(** A value of the binary32 format (canonical mantissa and exponent). *)
Definition float_ok (f : float) : Prop :=
  valid_binary Float32.prec Float32.emax f = true.

Definition vec_ok (v : Vec2) : Prop := float_ok (vec_x v) /\ float_ok (vec_y v).

(** The fields of an event are values of their C++ types: the integers
    fit [Uint32] or [Uint64], the floats are binary32 values. *)
Definition wire_ok (e : PhysObj.PhysObjEvent) : Prop :=
  0 <= PhysObj._objId e < 2 ^ 64
  /\ match PhysObj.body e with
     | PhysObj.OBJ_CREATION factId _ => 0 <= factId < 2 ^ 32
     | PhysObj.OBJ_POSITION p => vec_ok p
     | PhysObj.OBJ_VELOCITY v => vec_ok v
     | PhysObj.OBJ_ANGLE a => float_ok a
     | PhysObj.OBJ_ANGULAR_VEL w => float_ok w
     | PhysObj.OBJ_FLOAT_CONSTS c =>
         float_ok (density c) /\ float_ok (friction c)
         /\ float_ok (restitution c) /\ float_ok (linearDamping c)
         /\ float_ok (angularDamping c) /\ float_ok (gravityScale c)
         /\ float_ok (mass c) /\ float_ok (inertia c) /\ vec_ok (centroid c)
     | PhysObj.OBJ_OWNER_ACQUIRE duration => 0 <= duration < 2 ^ 64
     | _ => True
     end.

(** The 12-byte header of an object event: type code and object id. *)
Definition header (code objId : Z) : list byte :=
  LWSer.serialize (LWSer.writeUint64 objId (LWSer.writeUint32 code LWSer.new)).

Definition zeroFloatConsts : FloatConsts :=
  mkFloatConsts Float32.zero Float32.zero Float32.zero Float32.zero Float32.zero
    Float32.zero Float32.zero Float32.zero vec_zero.

(** What a header with nothing after it is decoded to, by type code:
    every field of the payload reads as zero. *)
Definition emptyPayload (code : Z) : option PhysObj.Body :=
  if code =? 1 then Some PhysObj.OBJ_DELETION
  else if code =? 2 then Some (PhysObj.OBJ_BODY_TYPE b2_staticBody)
  else if code =? 3 then Some (PhysObj.OBJ_POSITION vec_zero)
  else if code =? 4 then Some (PhysObj.OBJ_VELOCITY vec_zero)
  else if code =? 5 then Some (PhysObj.OBJ_ANGLE Float32.zero)
  else if code =? 6 then Some (PhysObj.OBJ_ANGULAR_VEL Float32.zero)
  else if code =? 7 then
    Some (PhysObj.OBJ_BOOL_CONSTS (mkBoolConsts false false false false false false))
  else if code =? 8 then Some (PhysObj.OBJ_FLOAT_CONSTS zeroFloatConsts)
  else if code =? 9 then Some (PhysObj.OBJ_OWNER_ACQUIRE 0)
  else if code =? 10 then Some PhysObj.OBJ_OWNER_RELEASE
  else None.

(** The type codes whose payload starts with a four-byte field. *)
Definition startsWithWord (code : Z) : bool :=
  (code =? 0) || (code =? 2) || (code =? 3) || (code =? 4) || (code =? 5)
  || (code =? 6) || (code =? 8).

(** A position event, as a sample. *)
Definition samplePosition : PhysObj.PhysObjEvent :=
  PhysObj.allocPos 7 (mkVec2 (Float32.of_int 3) (Float32.of_int (-3))).

End WireSpec.

(** ** Vocabulary of the engine properties *)

Module EngineSpec.
Import Physics2.

(** The ticks a cached target still takes: the loop snaps at the tick
    where at most one step is left. *)
Definition ticksLeft (p : NetPhysics.targetParam) : nat :=
  Z.to_nat (Z.max 1 (NetPhysics.numSteps p - NetPhysics.curStep p)).

(** The body is where the target wants it. *)
Definition reached (p : NetPhysics.targetParam) (o : Obstacle) : Prop :=
  position o = NetPhysics.P3 p
  /\ linearVelocity o = NetPhysics.targetVel p
  /\ angle o = NetPhysics.targetAngle p
  /\ angularVelocity o = NetPhysics.targetAngV p.

(** The target after one more step. *)
Definition advanced (p : NetPhysics.targetParam) : NetPhysics.targetParam :=
  NetPhysics.with_curStep (NetPhysics.curStep p + 1) p.

(** What a tick leaves alone in the registry. *)
Definition same_registry (c c' : NetPhysics.Controller) : Prop :=
  obstacles (NetPhysics._world c') = obstacles (NetPhysics._world c)
  /\ objToId (NetPhysics._world c') = objToId (NetPhysics._world c)
  /\ idToObj (NetPhysics._world c') = idToObj (NetPhysics._world c)
  /\ NetPhysics._isHost c' = NetPhysics._isHost c.

(** [n] ticks of the engine in a row. *)
Fixpoint ticks (chk : bool) (n : nat) (c : NetPhysics.Controller)
  : outcome NetPhysics.Controller :=
  match n with
  | O => Ok c
  | S n' => let! c' := NetPhysics.fixedUpdate chk c in ticks chk n' c'
  end.

(** What the reconciliation of a snapshot leaves alone, besides the
    frame [Spec.sync_frame]: a body that is shared stays shared. *)
Definition sync_keeps (c c' : NetPhysics.Controller) : Prop :=
  NetPhysics._world c' = NetPhysics._world c
  /\ NetPhysics._deleteCache c' = NetPhysics._deleteCache c
  /\ NetPhysics._outEvents c' = NetPhysics._outEvents c
  /\ forall o, shared (NetPhysics.heap c o) = true ->
               shared (NetPhysics.heap c' o) = true.

(** The target [t] is a new target for the snapshot [q]. *)
Definition aims_at (q : PhysSync.ObjParam) (t : NetPhysics.targetParam) : Prop :=
  NetPhysics.curStep t = 0
  /\ 1 <= NetPhysics.numSteps t <= 30
  /\ NetPhysics.P3 t = mkVec2 (PhysSync.x q) (PhysSync.y q)
  /\ NetPhysics.targetVel t = mkVec2 (PhysSync.vx q) (PhysSync.vy q)
  /\ NetPhysics.targetAngle t = PhysSync.angle q
  /\ NetPhysics.targetAngV t = PhysSync.vAngular q.

(** The body is in the state of the snapshot. *)
Definition matches (q : PhysSync.ObjParam) (o : Obstacle) : Prop :=
  position o = mkVec2 (PhysSync.x q) (PhysSync.y q)
  /\ linearVelocity o = mkVec2 (PhysSync.vx q) (PhysSync.vy q)
  /\ angle o = PhysSync.angle q
  /\ angularVelocity o = PhysSync.vAngular q.

(** The event types that update a registered body in place. *)
Definition is_update (b : PhysObj.Body) : bool :=
  match b with
  | PhysObj.OBJ_CREATION _ _ | PhysObj.OBJ_DELETION => false
  | _ => true
  end.

(** The setter that the non-shared block of [processPhysObjEvent] runs
    for an event. *)
Definition updater (b : PhysObj.Body) : Obstacle -> Obstacle :=
  match b with
  | PhysObj.OBJ_BODY_TYPE t => setBodyType t
  | PhysObj.OBJ_POSITION p => setPosition p
  | PhysObj.OBJ_VELOCITY v => setLinearVelocity v
  | PhysObj.OBJ_ANGLE a => setAngle a
  | PhysObj.OBJ_ANGULAR_VEL w => setAngularVelocity w
  | PhysObj.OBJ_BOOL_CONSTS e => NetPhysics.applyBoolConsts e
  | PhysObj.OBJ_FLOAT_CONSTS e => NetPhysics.applyFloatConsts e
  | _ => fun o => o
  end.

(** The ledger after an event for the body [obj]. *)
Definition ledger_after (host : bool) (b : PhysObj.Body) (obj : Obs)
  (m : gmap Obs Z) : gmap Obs Z :=
  match b with
  | PhysObj.OBJ_OWNER_ACQUIRE _ => delete obj m
  | PhysObj.OBJ_OWNER_RELEASE => if host then map_insert_new obj 0 m else m
  | _ => m
  end.

(** The body shows the value that the event carries. *)
Definition applied (b : PhysObj.Body) (o : Obstacle) : Prop :=
  match b with
  | PhysObj.OBJ_BODY_TYPE t => bodyType o = t
  | PhysObj.OBJ_POSITION p => position o = p
  | PhysObj.OBJ_VELOCITY v => linearVelocity o = v
  | PhysObj.OBJ_ANGLE a => angle o = a
  | PhysObj.OBJ_ANGULAR_VEL w => angularVelocity o = w
  | PhysObj.OBJ_BOOL_CONSTS e => boolConsts o = e
  | _ => True
  end.

(** [r] is the float [e], or compares equal to it ([==] of C++, which
    holds between the two zeros). *)
Definition float_agrees (e r : float) : Prop :=
  r = e \/ Float32.eqb e r = true.

Definition vec_agrees (e r : Vec2) : Prop :=
  r = e \/ vec_neq e r = false.

(** The float constants of a body after [applyFloatConsts]: a constant
    of the event replaces the one of the body when the two compare
    different; the angular damping is the one of the body. *)
Definition mergedFloatConsts (e fc : FloatConsts) : FloatConsts :=
  mkFloatConsts
    (if float_neq (density e) (density fc) then density e else density fc)
    (if float_neq (friction e) (friction fc) then friction e else friction fc)
    (if float_neq (restitution e) (restitution fc)
     then restitution e else restitution fc)
    (if float_neq (linearDamping e) (linearDamping fc)
     then linearDamping e else linearDamping fc)
    (angularDamping fc)
    (if float_neq (gravityScale e) (gravityScale fc)
     then gravityScale e else gravityScale fc)
    (if float_neq (mass e) (mass fc) then mass e else mass fc)
    (if float_neq (inertia e) (inertia fc) then inertia e else inertia fc)
    (if vec_neq (centroid e) (centroid fc) then centroid e else centroid fc).


(** The last outbound event is the object event [e]. *)
Definition emits (c c' : NetPhysics.Controller) (e : PhysObj.PhysObjEvent) : Prop :=
  NetPhysics._outEvents c' = NetPhysics._outEvents c ++ [EvPhysObj e].

(** The event [e], sent by one peer, as the peer [source] hands it to
    the engine of another: decoded from its bytes into a new event,
    then stamped with the source. *)
Definition arrives (chk : bool) (source : string) (e e' : PhysObj.PhysObjEvent)
  : Prop :=
  source <> ""
  /\ exists d,
       PhysObjWire.deserialize chk (PhysObj.allocDeletion 0) (PhysObjWire.serialize e)
       = Ok (PhysObjWire.Event d)
       /\ e' = PhysObj.mkEvent (NetEventBase.setMetaData 0 0 source)
                 (PhysObj._objId d) (PhysObj.body d).

End EngineSpec.

(** ** [packPhysSync]: the full synchronisations *)

Module PackSync.
Import Physics2 NetPhysics.

(** The test of the loop body: [OVERRIDE_FULL_SYNC] takes the bodies
    that are shared, [FULL_SYNC] those that are shared and in the
    ledger ([ownedOnly]). *)
Definition selected (ownedOnly : bool) (c : Controller) (obj : Obs) : bool :=
  isShared (heap c obj) && (negb ownedOnly || map_count (owned (_world c)) obj).

(** The loop of the cases [OVERRIDE_FULL_SYNC] and [FULL_SYNC] over the
    id map.  [std::unordered_map] fixes no order of iteration: [entries]
    is the order in which the map yields its entries.  (The case
    [PRIO_SYNC] orders the ids with [std::sort] by a comparison of
    floats; it is not part of the model.) *)
Definition fullSyncLoop (ownedOnly : bool) (c : Controller)
  (entries : list (Z * Obs)) (event : PhysSync.PhysSyncEvent)
  : PhysSync.PhysSyncEvent :=
  fold_left (fun ev '(id, obj) =>
               if selected ownedOnly c obj
               then PhysSync.addObj (heap c obj) id ev else ev)
    entries event.

Definition packFullSync (ownedOnly : bool) (entries : list (Z * Obs))
  (c : Controller) : Controller :=
  pushOut (EvPhysSync (fullSyncLoop ownedOnly c entries PhysSync.alloc)) c.

(** The snapshot that [addObj] takes of a body. *)
Definition snapshot (o : Obstacle) (id : Z) : PhysSync.ObjParam :=
  PhysSync.mkObjParam id (getX o) (getY o) (getVX o) (getVY o)
    (getAngle o) (getAngularVelocity o).

(** [entries] is an enumeration of the id map, each entry once. *)
Definition enumerates (entries : list (Z * Obs)) (m : gmap Z Obs) : Prop :=
  NoDup entries.*1 /\ forall id obj, (id, obj) ∈ entries <-> m !! id = Some obj.

(** The set of ids of an event agrees with its list of snapshots. *)
Definition event_ok (e : PhysSync.PhysSyncEvent) : Prop :=
  NoDup (PhysSync.objId <$> PhysSync._syncList e)
  /\ forall id, id ∈ PhysSync._objSet e
                <-> id ∈ PhysSync.objId <$> PhysSync._syncList e.

(** The two id maps of a world agree. *)
Definition registry_ok (w : ObstacleWorld) : Prop :=
  forall id o, idToObj w !! id = Some o -> objToId w !! o = Some id.

End PackSync.

(** ** The envelope, sending side, and the handshake
    (CUNetEventController.h, CUNetEventController.cpp) *)

Module Envelope.
Import NetEventBase NetEventCtl.

(** [std::type_index(typeid(e))]: the class of an event, as an ordinal.
    An application-defined class is told apart by its number. *)
Definition typeid (e : NetEvent) : nat :=
  match e with
  | EvGameState _ => 0
  | EvPhysSync _ => 1
  | EvPhysObj _ => 2
  | EvCustom _ k _ => 3 + k
  end.

Definition with_newEventVector (v : list EventProto) (c : Controller) : Controller :=
  mkController (updateCount c) (_startGameTimeStamp c) (_status c) (_isHost c)
    (_numReady c) v (_inEventQueue c) (_outEventQueue c)
    (_shortUID c) (_physEnabled c) (_physController c).

(** [attachEventType<T>()], on [_eventTypeMap] and the controller; the
    prototype stands for [std::make_shared<T>()].  The map holds
    [Uint8]: the size of the vector is reduced modulo 256. *)
Definition attachEventType (proto : EventProto)
  (r : gmap nat Z * Controller) : gmap nat Z * Controller :=
  let '(_eventTypeMap, c) := r in
  if map_count _eventTypeMap (typeid (newEvent proto)) then r
  else
    (map_insert_new (typeid (newEvent proto))
       (wrap8 (Z.of_nat (length (_newEventVector c)))) _eventTypeMap,
     with_newEventVector (_newEventVector c ++ [proto]) c).

(** [getType(e)]: [_eventTypeMap.at(...)]. *)
Definition getType (_eventTypeMap : gmap nat Z) (e : NetEvent) : outcome Z :=
  map_at _eventTypeMap (typeid e).

(** [wrap(e)]; [payload] is what the virtual [e->serialize()]
    returns. *)
Definition wrap (_eventTypeMap : gmap nat Z) (c : Controller) (e : NetEvent)
  (payload : list byte) : outcome (list byte) :=
  let! t := getType _eventTypeMap e in
  let serializer := LWSer.new in
  let serializer := LWSer.writeByte (byte_of_Z t) serializer in
  let serializer :=
    LWSer.writeUint64 (updateCount c - _startGameTimeStamp c) serializer in
  let serializer := LWSer.writeByteVector payload serializer in
  Ok (LWSer.serialize serializer).

(** The prototype of [PhysObjEvent]; [e0] is what the fields of a new
    event happen to hold.  An event whose type or body type is read as
    no enumerator has no counterpart among the events of the model. *)
Definition physObjProto (e0 : PhysObj.PhysObjEvent) : EventProto :=
  {| newEvent := EvPhysObj e0;
     deserialize := fun chk e data =>
       match e with
       | EvPhysObj o =>
           let! d := PhysObjWire.deserialize chk o data in
           match d with
           | PhysObjWire.Event o' => Ok (EvPhysObj o')
           | _ => Undefined
           end
       | _ => Ok e
       end |}.

(** [markReady()]; [indet] is the uninitialised short UID of the new
    event. *)
Definition markReady (indet : Z) (c : Controller) : bool * Controller :=
  if status_eqb (_status c) HANDSHAKE && negb (_shortUID c =? 0)
  then (true, pushOutEvent (EvGameState (GameState.allocReady indet))
                (with_status READY c))
  else (false, c).

(** Every class of the map has its prototype in the vector, at the
    index that the map gives. *)
Definition registered (_eventTypeMap : gmap nat Z) (c : Controller) : Prop :=
  forall cls k, _eventTypeMap !! cls = Some k ->
    0 <= k < 256
    /\ exists proto, _newEventVector c !! Z.to_nat k = Some proto
                     /\ typeid (newEvent proto) = cls.

(** A sequence of attachments. *)
Definition attachAll (protos : list EventProto) (r : gmap nat Z * Controller)
  : gmap nat Z * Controller :=
  fold_left (fun r p => attachEventType p r) protos r.

End Envelope.

(** * Properties *)

(** ** Bytes and the outcome monad *)

Lemma byte_to_Z_range (b : byte) : 0 <= byte_to_Z b < 256.
Proof.
  unfold byte_to_Z. pose proof (Byte.to_N_bounded b) as Hb. lia.
Qed.

Lemma byte_to_of_Z (z : Z) : byte_to_Z (byte_of_Z z) = z mod 256.
Proof.
  unfold byte_of_Z, byte_to_Z, wrap8.
  assert (Hr : 0 <= z mod 256 < 256) by (apply Z.mod_pos_bound; lia).
  destruct (Byte.of_N (Z.to_N (z mod 256))) as [b|] eqn:E.
  - apply Byte.to_of_N in E. rewrite E. lia.
  - apply Byte.of_N_None_iff in E. lia.
Qed.

Lemma wrap32_mod_256 (z : Z) : wrap32 z mod 256 = z mod 256.
Proof.
  unfold wrap32. apply Z.mod_mod_divide.
  exists (2 ^ 24). reflexivity.
Qed.

(** ** C10: the short UID travels as one byte *)

(** C10. A [UID_ASSIGN] event built with the short UID [u], serialized
    and deserialized into any event [e0], carries the short UID
    [u mod 256]; [getShortUID] returns the field truncated to 8 bits;
    hence a short UID of 256 or more does not survive the wire. *)
Theorem uid_assign_is_one_byte (chk : bool) (e0 : GameState.GameStateEvent) (u : Z) :
  GameState.deserialize chk e0 (GameState.serialize (GameState.allocUIDAssign u))
  = Ok (GameState.mkEvent (GameState.base e0) GameState.UID_ASSIGN (u mod 256))
  /\ GameState.getShortUID (GameState.allocUIDAssign u) = u mod 256
  /\ (forall e, GameState.getShortUID e = GameState._shortUID e mod 256)
  /\ (256 <= u < 2 ^ 32 ->
      forall e', GameState.deserialize chk e0
                   (GameState.serialize (GameState.allocUIDAssign u)) = Ok e' ->
                 GameState._shortUID e' <> u).
Proof.
  assert (Hrt : GameState.deserialize chk e0
                  (GameState.serialize (GameState.allocUIDAssign u))
                = Ok (GameState.mkEvent (GameState.base e0) GameState.UID_ASSIGN
                        (u mod 256))).
  { unfold GameState.serialize, GameState.allocUIDAssign, GameState.deserialize.
    cbn [GameState._type GameState._shortUID].
    rewrite byte_to_of_Z.
    change (GameState.of_code (GameState.code GameState.UID_ASSIGN mod 256))
      with (Some GameState.UID_ASSIGN).
    cbv iota. rewrite byte_to_of_Z, wrap32_mod_256. reflexivity. }
  split; [exact Hrt|]. split; [|split].
  - unfold GameState.getShortUID, GameState.allocUIDAssign, wrap8.
    cbn [GameState._shortUID]. apply wrap32_mod_256.
  - intros e. reflexivity.
  - intros Hu e' He'. rewrite Hrt in He'. injection He' as <-.
    cbn [GameState._shortUID].
    pose proof (Z.mod_pos_bound u 256 ltac:(lia)). lia.
Qed.

Lemma uid_assign_is_one_byte_witness :
  256 <= 300 < 2 ^ 32
  /\ forall e', GameState.deserialize true (GameState.new 0)
                  (GameState.serialize (GameState.allocUIDAssign 300)) = Ok e' ->
                GameState._shortUID e' <> 300.
Proof.
  split; [lia|].
  apply (proj2 (proj2 (proj2 (uid_assign_is_one_byte true (GameState.new 0) 300)))).
  lia.
Defined.

(** ** C6: reads at the end of the buffer *)

(** Scalars arrive in network byte order: [3f 80 00 00] is the float
    1, and [01 f4] the 16-bit integer 500. *)
Example readFloat_one :
  LW.readFloat (LW.receive [x3f; x80; x00; x00])
  = Ok (Float32.of_int 1, LW.mkDes [x3f; x80; x00; x00] 4).
Proof. vm_compute. reflexivity. Qed.

Example readUint16_500 :
  LW.readUint16 (LW.receive [x01; xf4]) = Ok (500, LW.mkDes [x01; xf4] 2).
Proof. vm_compute. reflexivity. Qed.

(** A read that starts at or after the end of the buffer returns zero
    (or [false]) and leaves the deserializer as it was. *)
Lemma read_at_end (d : LW.LWDeserializer) :
  (length (LW._data d) <= LW._pos d)%nat ->
  LW.readBool d = Ok (false, d) /\ LW.readByte d = Ok (x00, d)
  /\ LW.readFloat d = Ok (Float32.zero, d) /\ LW.readSint32 d = Ok (0, d)
  /\ LW.readUint16 d = Ok (0, d) /\ LW.readUint32 d = Ok (0, d)
  /\ LW.readUint64 d = Ok (0, d).
Proof.
  intros H. apply Nat.leb_le in H.
  unfold LW.readBool, LW.readByte, LW.readFloat, LW.readSint32, LW.readUint16,
    LW.readUint32, LW.readUint64.
  rewrite H. repeat split.
Qed.

(** The one-byte reads never leave the buffer. *)
Lemma read_one_byte_defined (d : LW.LWDeserializer) :
  LW.readBool d <> Undefined /\ LW.readByte d <> Undefined.
Proof.
  unfold LW.readBool, LW.readByte, LW.deref.
  destruct (length (LW._data d) <=? LW._pos d)%nat eqn:E.
  - split; discriminate.
  - apply Nat.leb_gt in E.
    assert (H : (LW._pos d + 1 <=? length (LW._data d))%nat = true)
      by (apply Nat.leb_le; lia).
    rewrite H. split; discriminate.
Qed.

(** A wider read that starts inside the buffer with fewer bytes left
    than its width reads past the end. *)
Lemma read_partial_undefined (d : LW.LWDeserializer) (n : nat) :
  (LW._pos d < length (LW._data d) < LW._pos d + n)%nat ->
  LW.deref n d = Undefined.
Proof.
  intros H. unfold LW.deref.
  destruct (LW._pos d + n <=? length (LW._data d))%nat eqn:E; [|reflexivity].
  apply Nat.leb_le in E. lia.
Qed.

(** C6. On the one-byte buffer [2a] at position 0, every multi-byte
    read passes the test [_pos >= _data.size()] and dereferences bytes
    that lie outside the buffer, instead of returning zero. *)
Theorem read_partial_scalar_leaves_buffer :
  let d := LW.receive [x2a] in
  LW.readUint64 d = Undefined /\ LW.readFloat d = Undefined
  /\ LW.readSint32 d = Undefined /\ LW.readUint16 d = Undefined
  /\ LW.readUint32 d = Undefined.
Proof. repeat split. Qed.

(** ** C4: the envelope check of [unwrap] *)

Lemma byte_of_to_Z (b : byte) : byte_of_Z (byte_to_Z b) = b.
Proof. destruct b; reflexivity. Qed.

Lemma readByte_receive_cons (b : byte) (rest : list byte) :
  LW.readByte (LW.receive (b :: rest)) = Ok (b, LW.mkDes (b :: rest) 1).
Proof.
  unfold LW.readByte, LW.receive, LW.deref, LW.advance, LW.marshall_in; cbn.
  rewrite take_0. cbn [fold_left]. rewrite Z.add_0_l, byte_of_to_Z. reflexivity.
Qed.

Lemma readUint64_not_thrown (d : LW.LWDeserializer) :
  LW.readUint64 d <> AssertFailure /\ LW.readUint64 d <> OutOfRange.
Proof.
  unfold LW.readUint64, LW.deref.
  destruct (length (LW._data d) <=? LW._pos d)%nat; [split; discriminate|].
  destruct (LW._pos d + 8 <=? length (LW._data d))%nat; split; discriminate.
Qed.

(** A datagram that is too short, or whose tag is not a registered
    slot, fails the condition that [unwrap] asserts. *)
Lemma invalid_envelope (data : list byte) (c : NetEventCtl.Controller) :
  (length data < 9)%nat
  \/ (exists b rest, data = b :: rest
        /\ Z.of_nat (length (NetEventCtl._newEventVector c)) <= byte_to_Z b) ->
  NetEventCtl.validEnvelope data c = false.
Proof.
  unfold NetEventCtl.validEnvelope, NetEventCtl.MIN_MSG_LENGTH.
  intros [Hlen | (b & rest & -> & Hb)].
  - apply andb_false_iff. left. apply Nat.leb_gt. cbn. lia.
  - apply andb_false_iff. right. apply Z.ltb_ge. exact Hb.
Qed.

(** X29. What [unwrap] does with a datagram shorter than 9 bytes, or
    whose tag is not a registered slot: it trips its assertion when
    assertions are compiled in, and otherwise reads out of range (the
    registry slot, the time stamp or the payload range), which is
    undefined; no event comes out either way, and the failure
    propagates through [processReceivedData]. *)
Theorem unwrap_rejects_invalid_envelope
  (chk : bool) (data : list byte) (source : string) (c : NetEventCtl.Controller) :
  (length data < 9)%nat
  \/ (exists b rest, data = b :: rest
        /\ Z.of_nat (length (NetEventCtl._newEventVector c)) <= byte_to_Z b) ->
  NetEventCtl.unwrap chk data source c = (if chk then AssertFailure else Undefined)
  /\ NetEventCtl.processReceivedData chk [(source, data)] c
     = (if chk then AssertFailure else Undefined).
Proof.
  intros Hbad.
  assert (Hu : NetEventCtl.unwrap chk data source c
               = if chk then AssertFailure else Undefined).
  { pose proof (invalid_envelope data c Hbad) as Hv.
    unfold NetEventCtl.unwrap, cuAssert. rewrite Hv.
    destruct chk; [reflexivity|]. cbn [andb negb obind].
    destruct data as [|b rest].
    - (* the empty datagram *)
      cbn.
      destruct (NetEventCtl._newEventVector c) as [|proto ps]; reflexivity.
    - rewrite readByte_receive_cons. cbn [obind].
      destruct (NetEventCtl._newEventVector c !! Z.to_nat (byte_to_Z b))
        as [proto|] eqn:Hslot; [|reflexivity].
      destruct Hbad as [Hlen | (b' & rest' & Heq & Hb)].
      + assert (Hl : (NetEventCtl.MIN_MSG_LENGTH <=? length (b :: rest))%nat = false)
          by (apply Nat.leb_gt; unfold NetEventCtl.MIN_MSG_LENGTH; lia).
        rewrite Hl.
        destruct (readUint64_not_thrown (LW.mkDes (b :: rest) 1)) as [H1 H2].
        destruct (LW.readUint64 (LW.mkDes (b :: rest) 1)) as [[ts d']| | |];
          cbn [obind]; congruence.
      + injection Heq as <- <-.
        apply lookup_lt_Some in Hslot.
        pose proof (byte_to_Z_range b). lia. }
  split; [exact Hu|].
  unfold NetEventCtl.processReceivedData, NetEventCtl.receiveOne.
  cbn [NetPhysics.foldM]. rewrite Hu. destruct chk; reflexivity.
Qed.

Lemma unwrap_rejects_invalid_envelope_witness :
  NetEventCtl.unwrap true [x00] "peer" (Samples.session 480 []) = AssertFailure
  /\ NetEventCtl.processReceivedData true [("peer", [x00])] (Samples.session 480 [])
     = AssertFailure.
Proof.
  apply (unwrap_rejects_invalid_envelope true [x00] "peer" (Samples.session 480 [])).
  left. cbn. lia.
Defined.

(** C4.  The one-byte datagram [00] (a registered tag, no time stamp)
    is shorter than 9 bytes, and it is not dropped: with the assertions
    compiled in [unwrap] aborts on its own assertion, and with the
    assertions compiled out it runs into undefined behaviour (the
    payload range starts past the end of the datagram); receiving the
    datagram does not leave the controller running in its old state
    either way. *)
Theorem short_datagram_is_not_dropped :
  let c := Samples.session 480 [] in
  (length [x00] < 9)%nat
  /\ NetEventCtl.unwrap true [x00] "peer" c = AssertFailure
  /\ NetEventCtl.unwrap false [x00] "peer" c = Undefined
  /\ NetEventCtl.processReceivedData true [("peer", [x00])] c = AssertFailure
  /\ NetEventCtl.processReceivedData false [("peer", [x00])] c = Undefined
  /\ NetEventCtl.processReceivedData true [("peer", [x00])] c <> Ok c
  /\ NetEventCtl.processReceivedData false [("peer", [x00])] c <> Ok c.
Proof.
  cbn zeta. split; [cbn; lia|].
  split; [vm_compute; reflexivity|]. split; [vm_compute; reflexivity|].
  split; [vm_compute; reflexivity|]. split; [vm_compute; reflexivity|].
  split; vm_compute; discriminate.
Qed.

(** A datagram of five bytes: with the assertions compiled out, the
    read of the time stamp takes 8 bytes where 4 are left. *)
Example short_datagram_reads_past_end :
  LW.readUint64 (LW.mkDes [x00; x00; x00; x00; x00] 1) = Undefined
  /\ NetEventCtl.unwrap false [x00; x00; x00; x00; x00] "peer"
       (Samples.session 480 []) = Undefined.
Proof. split; vm_compute; reflexivity. Qed.

(** A well-formed envelope goes through: tag 0, sender tick 500 and
    the payload [GAME_START] give the event, stamped with the sender
    tick, the local tick and the sender. *)
Example unwrap_game_start :
  NetEventCtl.unwrap true
    [x00; x00; x00; x00; x00; x00; x00; x01; xf4; x66] "peer"
    (Samples.session 480 [])
  = Ok (EvGameState
          (GameState.mkEvent (NetEventBase.mkMeta 500 380 "peer")
             GameState.GAME_START 0)).
Proof. vm_compute. reflexivity. Qed.

(** ** C5: events from the future are held *)

Lemma processGameStateEvent_queue (g : GameState.GameStateEvent)
  (c : NetEventCtl.Controller) :
  NetEventCtl._inEventQueue (NetEventCtl.processGameStateEvent g c)
  = NetEventCtl._inEventQueue c.
Proof.
  unfold NetEventCtl.processGameStateEvent.
  destruct c as [uc st status host nr reg inq outq uid pe pc]; cbn.
  destruct status, (GameState.getType g), host; reflexivity.
Qed.

(** Receiving an event never disturbs the head of the inbound queue. *)
Lemma processReceivedEvent_keeps_head (chk : bool) (ev e : NetEvent)
  (rest : list NetEvent) (c c' : NetEventCtl.Controller) :
  NetEventCtl._inEventQueue c = e :: rest ->
  NetEventCtl.processReceivedEvent chk ev c = Ok c' ->
  exists rest', NetEventCtl._inEventQueue c' = e :: rest'.
Proof.
  intros Hq Hp. unfold NetEventCtl.processReceivedEvent in Hp.
  destruct ev as [g|s|o|b k p].
  - injection Hp as <-. rewrite processGameStateEvent_queue. eauto.
  - destruct (NetEventCtl.status_eqb _ _); [|injection Hp as <-; eauto].
    destruct (NetEventCtl._physEnabled c); [|injection Hp as <-; eauto].
    unfold NetEventCtl.withPhys in Hp.
    destruct (NetEventCtl._physController c); [|discriminate].
    destruct (NetPhysics.processPhysSyncEvent s c0); try discriminate.
    injection Hp as <-. cbn. eauto.
  - destruct (NetEventCtl.status_eqb _ _); [|injection Hp as <-; eauto].
    destruct (NetEventCtl._physEnabled c); [|injection Hp as <-; eauto].
    unfold NetEventCtl.withPhys in Hp.
    destruct (NetEventCtl._physController c); [|discriminate].
    destruct (NetPhysics.processPhysObjEvent chk o c0); try discriminate.
    injection Hp as <-. cbn. eauto.
  - destruct (NetEventCtl.status_eqb _ _); injection Hp as <-; [|eauto].
    cbn. rewrite Hq. cbn. eauto.
Qed.

(** Receiving datagrams never disturbs the head of the inbound
    queue. *)
Lemma processReceivedData_keeps_head (chk : bool) (msgs : list (string * list byte))
  (e : NetEvent) (rest : list NetEvent) (c c' : NetEventCtl.Controller) :
  NetEventCtl._inEventQueue c = e :: rest ->
  NetEventCtl.processReceivedData chk msgs c = Ok c' ->
  exists rest', NetEventCtl._inEventQueue c' = e :: rest'.
Proof.
  unfold NetEventCtl.processReceivedData.
  revert c rest. induction msgs as [|[source data] msgs IH]; intros c rest Hq Hp.
  - injection Hp as <-. eauto.
  - cbn [NetPhysics.foldM] in Hp.
    destruct (NetEventCtl.receiveOne chk (source, data) c) as [c1| | |] eqn:H1;
      try discriminate.
    cbn [obind] in Hp. unfold NetEventCtl.receiveOne in H1.
    destruct (NetEventCtl.unwrap chk data source c) as [ev| | |]; try discriminate.
    cbn [obind] in H1.
    destruct (processReceivedEvent_keeps_head chk ev e rest c c1 Hq H1)
      as [rest1 Hq1].
    exact (IH c1 rest1 Hq1 Hp).
Qed.

(** C5, as the code has it.  With the event [e], stamped with the
    sender tick [s], at the head of the inbound queue: [isInAvailable]
    is true exactly when the local tick
    [updateCount - _startGameTimeStamp] (in [Uint64]) has reached [s];
    while the local tick is smaller it is false, and whatever is
    received meanwhile leaves [e] at the head.  [popInEvent] has no
    test of its own: at any tick it takes [e] off the queue and returns
    it. *)
Theorem future_event_is_held
  (c : NetEventCtl.Controller) (e : NetEvent) (rest : list NetEvent) :
  NetEventCtl._inEventQueue c = e :: rest ->
  let s := getEventTimeStamp e in
  let tick := wrap64 (NetEventCtl.updateCount c - NetEventCtl._startGameTimeStamp c) in
  (NetEventCtl.isInAvailable c = true <-> s <= tick)
  /\ (tick < s ->
      NetEventCtl.isInAvailable c = false
      /\ (forall chk ev c', NetEventCtl.processReceivedEvent chk ev c = Ok c' ->
            exists rest', NetEventCtl._inEventQueue c' = e :: rest')
      /\ (forall chk msgs c', NetEventCtl.processReceivedData chk msgs c = Ok c' ->
            exists rest', NetEventCtl._inEventQueue c' = e :: rest'))
  /\ NetEventCtl.popInEvent c = Ok (e, NetEventCtl.with_inEventQueue rest c).
Proof.
  intros Hq s tick.
  assert (Hav : NetEventCtl.isInAvailable c = (s <=? tick)).
  { unfold NetEventCtl.isInAvailable. rewrite Hq. reflexivity. }
  split; [|split].
  - rewrite Hav. apply Z.leb_le.
  - intros Hlt. split; [|split].
    + rewrite Hav. apply Z.leb_gt. exact Hlt.
    + intros chk ev c' Hp. eapply processReceivedEvent_keeps_head; eauto.
    + intros chk msgs c' Hp. eapply processReceivedData_keeps_head; eauto.
  - unfold NetEventCtl.popInEvent. rewrite Hq. reflexivity.
Qed.

(** The scenario of the design document: an event stamped 500 is held
    at local tick 480 and released at local tick 500. *)
Lemma future_event_is_held_witness :
  NetEventCtl.isInAvailable (Samples.session 580 [Samples.customAt 500]) = false
  /\ NetEventCtl.isInAvailable (Samples.session 600 [Samples.customAt 500]) = true.
Proof.
  split.
  - apply (proj1 (proj2 (future_event_is_held
             (Samples.session 580 [Samples.customAt 500])
             (Samples.customAt 500) [] eq_refl))).
    vm_compute. reflexivity.
  - apply (proj1 (future_event_is_held
             (Samples.session 600 [Samples.customAt 500])
             (Samples.customAt 500) [] eq_refl)).
    vm_compute. discriminate.
Defined.

(** C5, as stated, fails for the pop: at the local tick 480 the event
    stamped 500 is not reported available, and [popInEvent] takes it
    off the queue all the same. *)
Lemma future_event_can_be_popped :
  let c := Samples.session 580 [Samples.customAt 500] in
  wrap64 (NetEventCtl.updateCount c - NetEventCtl._startGameTimeStamp c) = 480
  /\ getEventTimeStamp (Samples.customAt 500) = 500
  /\ NetEventCtl.isInAvailable c = false
  /\ NetEventCtl.popInEvent c
     = Ok (Samples.customAt 500, Samples.session 580 []).
Proof. cbn zeta. repeat split; vm_compute; reflexivity. Qed.

(** ** C9: events of local origin are ignored *)

(** C9. An object event or a sync event whose source id is the empty
    string is returned from at once: the whole controller (world, id
    maps, ownership, cache, outbound events) is as before. *)
Theorem local_events_are_ignored
  (chk : bool) (eo : PhysObj.PhysObjEvent) (es : PhysSync.PhysSyncEvent)
  (c : NetPhysics.Controller) :
  (NetEventBase._sourceID (PhysObj.base eo) = "" ->
   NetPhysics.processPhysObjEvent chk eo c = Ok c)
  /\ (NetEventBase._sourceID (PhysSync.base es) = "" ->
      NetPhysics.processPhysSyncEvent es c = Ok c).
Proof.
  split; intros H.
  - unfold NetPhysics.processPhysObjEvent. rewrite H. reflexivity.
  - unfold NetPhysics.processPhysSyncEvent. rewrite H. reflexivity.
Qed.

Lemma local_events_are_ignored_witness :
  let c := Samples.engine false true ∅ ∅ in
  NetPhysics.processPhysObjEvent true
    (PhysObj.allocPos 7 (Physics2.mkVec2 (Samples.f32 3) (Samples.f32 4))) c = Ok c
  /\ NetPhysics.processPhysSyncEvent (Samples.syncFrom "" [Samples.snapshot7]) c
     = Ok c.
Proof.
  cbn zeta. split.
  - apply (proj1 (local_events_are_ignored true
             (PhysObj.allocPos 7 (Physics2.mkVec2 (Samples.f32 3) (Samples.f32 4)))
             (Samples.syncFrom "" []) (Samples.engine false true ∅ ∅))).
    reflexivity.
  - apply (proj2 (local_events_are_ignored true (PhysObj.allocDeletion 7)
             (Samples.syncFrom "" [Samples.snapshot7])
             (Samples.engine false true ∅ ∅))).
    reflexivity.
Defined.

(** ** binary32: signs, truncation and floor *)

Section Float32Facts.
Import Float32.

Lemma binary_round_aux_sign (s : bool) (m e : Z) (l : location) :
  is_negative (binary_round_aux prec emax s m e l) = true -> s = true.
Proof.
  unfold binary_round_aux.
  destruct (shr_fexp prec emax m e l) as [mrs' e'].
  destruct (shr_fexp prec emax _ e' loc_Exact) as [mrs'' e''].
  destruct (shr_m mrs'') as [|p|p]; cbn; try discriminate.
  destruct (e'' <=? emax - prec); cbn; [|discriminate].
  destruct s; [reflexivity|discriminate].
Qed.

Lemma sqrt_not_negative (x : float) : is_negative (sqrt x) = false.
Proof.
  unfold sqrt, SFsqrt.
  destruct x as [[]|[]| |[] m e]; try reflexivity.
  destruct (SFsqrt_core_binary prec emax (Z.pos m) e) as [[mz ez] lz].
  destruct (is_negative (binary_round_aux prec emax false mz ez lz)) eqn:E;
    [|reflexivity].
  apply binary_round_aux_sign in E. discriminate.
Qed.

Lemma abs_not_negative (x : float) : is_negative (abs x) = false.
Proof. destruct x as [s|s| |s m e]; reflexivity. Qed.

Lemma mul_not_negative (x y : float) :
  is_negative x = false -> is_negative y = false ->
  is_negative (mul x y) = false.
Proof.
  intros Hx Hy. unfold mul, SFmul.
  destruct x as [sx|sx| |sx mx ex], y as [sy|sy| |sy my ey]; try reflexivity.
  destruct sx; [discriminate|]. destruct sy; [discriminate|].
  cbn [xorb].
  destruct (is_negative (binary_round_aux prec emax false
                           (Z.pos (mx * my)) (ex + ey) loc_Exact)) eqn:E;
    [|reflexivity].
  apply binary_round_aux_sign in E. discriminate.
Qed.

Lemma to_Q_num_nonneg (f : float) :
  is_negative f = false -> 0 <= Qnum (to_Q f).
Proof.
  destruct f as [s|s| |s m e]; cbn; try lia.
  destruct s; [discriminate|]. intros _.
  destruct e; cbn; lia.
Qed.

(** On a value that is not negative, the conversion to [int], when it
    is defined, is the floor. *)
Lemma to_int_floor (f : float) (z : Z) :
  is_negative f = false -> to_int f = Ok z -> z = floor f.
Proof.
  intros Hs. unfold to_int, floor.
  destruct (is_finite f); [|discriminate].
  destruct (_ && _); [|discriminate].
  intros [= <-].
  destruct (to_Q f) as [n d] eqn:E. cbn.
  apply Z.quot_div_nonneg; [|lia].
  pose proof (to_Q_num_nonneg f Hs) as H. rewrite E in H. exact H.
Qed.

End Float32Facts.

Lemma clamp_max_min (v : Z) : Z.max 1 (Z.min 30 v) = Spec.clamp v 1 30.
Proof.
  unfold Spec.clamp.
  destruct (v <? 1) eqn:E1; [apply Z.ltb_lt in E1; lia|apply Z.ltb_ge in E1].
  destruct (30 <? v) eqn:E2; [apply Z.ltb_lt in E2; lia|apply Z.ltb_ge in E2; lia].
Qed.

(** The step count of one snapshot, when both conversions are defined:
    [clamp(max(floor(30 d), floor(a)), 1, 30)]. *)
Lemma syncSteps_clamp (d a : float) (n : Z) :
  Float32.is_negative d = false -> Float32.is_negative a = false ->
  NetPhysics.syncSteps d a = Ok n ->
  n = Spec.clamp (Z.max (Float32.floor (Float32.mul d (Float32.of_int 30)))
                        (Float32.floor a)) 1 30.
Proof.
  intros Hd Ha. unfold NetPhysics.syncSteps.
  destruct (Float32.to_int (Float32.mul d (Float32.of_int 30))) as [x| | |] eqn:Ex;
    try discriminate.
  destruct (Float32.to_int a) as [y| | |] eqn:Ey; try discriminate.
  cbn [obind]. intros [= <-].
  apply to_int_floor in Ex; [|apply mul_not_negative; [exact Hd|reflexivity]].
  apply to_int_floor in Ey; [|exact Ha].
  subst x y. apply clamp_max_min.
Qed.

Lemma posDiff_not_negative (o : Physics2.Obstacle) (p : PhysSync.ObjParam) :
  Float32.is_negative (NetPhysics.posDiff o p) = false.
Proof. apply sqrt_not_negative. Qed.

Lemma angDiff_not_negative (o : Physics2.Obstacle) (p : PhysSync.ObjParam) :
  Float32.is_negative (NetPhysics.angDiff o p) = false.
Proof.
  unfold NetPhysics.angDiff.
  apply mul_not_negative; [reflexivity|apply abs_not_negative].
Qed.
(** ** Rounding to nearest in [SpecFloat] *)

Section Dyadic.
Import Rounding.
Local Open Scope Q_scope.

Lemma pow2_pos (e : Z) : 0 < 2 ^ e.
Proof. apply Qpower_0_lt. reflexivity. Qed.

Lemma pow2_add (a b : Z) : 2 ^ (a + b) == 2 ^ a * 2 ^ b.
Proof. apply Qpower_plus. discriminate. Qed.

Lemma pow2_inject (k : Z) : (0 <= k)%Z -> 2 ^ k == inject_Z (2 ^ k).
Proof. intros Hk. symmetry. apply (Zpower_Qpower 2 k Hk). Qed.

Lemma F2Q_shift (m e k : Z) : (0 <= k)%Z -> F2Q m (e + k) == F2Q (m * 2 ^ k) e.
Proof.
  intros Hk. unfold F2Q.
  rewrite pow2_add, (pow2_inject k Hk), inject_Z_mult. ring.
Qed.

Lemma F2Q_le (m n e : Z) : (m <= n)%Z <-> F2Q m e <= F2Q n e.
Proof.
  unfold F2Q. pose proof (pow2_pos e) as Hp. split.
  - intros H. apply Qmult_le_compat_r; [|apply Qlt_le_weak, Hp].
    rewrite <- Zle_Qle. exact H.
  - intros H. apply Qmult_le_r in H; [|exact Hp]. rewrite <- Zle_Qle in H. exact H.
Qed.

Lemma F2Q_lt (m n e : Z) : (m < n)%Z <-> F2Q m e < F2Q n e.
Proof.
  unfold F2Q. pose proof (pow2_pos e) as Hp. split.
  - intros H. apply Qmult_lt_compat_r; [exact Hp|].
    rewrite <- Zlt_Qlt. exact H.
  - intros H. apply Qmult_lt_r in H; [|exact Hp]. rewrite <- Zlt_Qlt in H. exact H.
Qed.

Lemma F2Q_0 (e : Z) : F2Q 0 e == 0.
Proof. unfold F2Q. ring. Qed.

Lemma F2Q_opp (m e : Z) : F2Q (- m) e == - F2Q m e.
Proof. unfold F2Q. rewrite inject_Z_opp. ring. Qed.

Lemma F2Q_add (m n e : Z) : F2Q (m + n) e == F2Q m e + F2Q n e.
Proof. unfold F2Q. rewrite inject_Z_plus. ring. Qed.

Lemma F2Q_nonneg (m e : Z) : (0 <= m)%Z -> 0 <= F2Q m e.
Proof. intros H. rewrite <- (F2Q_0 e). apply F2Q_le. exact H. Qed.

(** Two dyadic numbers at different exponents, brought to the smaller
    one. *)
Lemma F2Q_align (m e e' : Z) : (e' <= e)%Z -> F2Q m e == F2Q (m * 2 ^ (e - e')) e'.
Proof.
  intros H. rewrite <- F2Q_shift by lia. replace (e' + (e - e'))%Z with e by lia.
  reflexivity.
Qed.

Lemma F2Q_pow (k e : Z) : (0 <= k)%Z -> F2Q (2 ^ k) e == 2 ^ (k + e).
Proof.
  intros Hk. unfold F2Q. rewrite pow2_add, (pow2_inject k Hk). reflexivity.
Qed.

Lemma pow2_le (a b : Z) : (a <= b)%Z -> 2 ^ a <= 2 ^ b.
Proof. intros H. apply Qpower_le_compat_l; [exact H|]. discriminate. Qed.

Lemma pow2_lt (a b : Z) : (a < b)%Z -> 2 ^ a < 2 ^ b.
Proof. intros H. apply Qpower_lt_compat_l; [exact H|]. reflexivity. Qed.

End Dyadic.

Section Digits.

Lemma digits2_pos_size (p : positive) : digits2_pos p = Pos.size p.
Proof. induction p; cbn; congruence. Qed.

Lemma Zdigits2_nonneg (m : Z) : 0 <= Zdigits2 m.
Proof. destruct m; cbn; lia. Qed.

Lemma Zdigits2_bounds (m : Z) :
  0 < m -> 1 <= Zdigits2 m /\ 2 ^ (Zdigits2 m - 1) <= m < 2 ^ Zdigits2 m.
Proof.
  destruct m as [|p|p]; try lia. intros _. cbn [Zdigits2].
  rewrite digits2_pos_size.
  pose proof (Pos.size_gt p) as Hgt. pose proof (Pos.size_le p) as Hle.
  apply Pos2Z.pos_lt_pos in Hgt. apply Pos2Z.pos_le_pos in Hle.
  rewrite Pos2Z.inj_pow in Hgt, Hle.
  change (Z.pos 2) with 2 in Hle. change (Z.pos p~0) with (2 * Z.pos p) in Hle.
  pose proof (Pos2Z.is_pos (Pos.size p)) as Hs.
  set (k := Z.pos (Pos.size p)) in *. clearbody k.
  split; [lia|]. split; [|exact Hgt].
  replace k with (Z.succ (k - 1)) in Hle by lia.
  rewrite Z.pow_succ_r in Hle by lia. lia.
Qed.

Lemma Zdigits2_le (m k : Z) : 0 <= m < 2 ^ k -> 0 <= k -> Zdigits2 m <= k.
Proof.
  intros [H0 Hk] Hk0. destruct (Z.eq_dec m 0) as [->|Hne]; [exact Hk0|].
  destruct (Zdigits2_bounds m) as (H1 & Hlo & _); [lia|].
  assert (2 ^ (Zdigits2 m - 1) < 2 ^ k) by lia.
  apply Z.pow_lt_mono_r_iff in H; lia.
Qed.

Lemma Zdigits2_ge (m k : Z) : 2 ^ (k - 1) <= m -> 1 <= k -> k <= Zdigits2 m.
Proof.
  intros Hk Hk1. assert (0 < m) by (pose proof (Z.pow_pos_nonneg 2 (k - 1)); lia).
  destruct (Zdigits2_bounds m) as (H1 & _ & Hhi); [lia|].
  assert (Hlt : 2 ^ (k - 1) < 2 ^ Zdigits2 m) by lia.
  apply Z.pow_lt_mono_r_iff in Hlt; lia.
Qed.

End Digits.

Section Shift.
Import Rounding.

Lemma shr_1_shifted (x : shr_record) : 0 <= shr_m x -> shifted 1 x (shr_1 x).
Proof.
  destruct x as [m r s]. cbn [shr_m]. intros Hm. unfold shifted, exact_record.
  rewrite Z.pow_1_r.
  destruct m as [|[p|p|]|p]; try lia; cbn [shr_1 shr_m shr_r shr_s].
  - split; [reflexivity|]. rewrite Zmod_0_l.
    destruct r, s; cbn; intuition congruence.
  - split.
    + rewrite Pos2Z.inj_xI. apply (Z.div_unique _ _ _ 1); lia.
    + assert (Z.pos p~1 mod 2 = 1)
        by (rewrite Pos2Z.inj_xI; symmetry; apply (Z.mod_unique _ _ (Z.pos p)); lia).
      split; [intros [? _]; discriminate|intros [_ ?]; lia].
  - split.
    + rewrite Pos2Z.inj_xO. apply (Z.div_unique _ _ _ 0); lia.
    + assert (Z.pos p~0 mod 2 = 0)
        by (rewrite Pos2Z.inj_xO; symmetry; apply (Z.mod_unique _ _ (Z.pos p)); lia).
      destruct r, s; cbn; intuition congruence.
  - split; [reflexivity|].
    split; [intros [? _]; discriminate|intros [_ ?]; discriminate].
Qed.

Lemma shifted_nonneg (k : Z) (x y : shr_record) :
  0 <= k -> 0 <= shr_m x -> shifted k x y -> 0 <= shr_m y.
Proof.
  intros Hk Hx [-> _]. apply Z.div_pos; [exact Hx|]. apply Z.pow_pos_nonneg; lia.
Qed.

Lemma shifted_trans (a b : Z) (x y z : shr_record) :
  0 <= a -> 0 <= b -> 0 <= shr_m x ->
  shifted a x y -> shifted b y z -> shifted (a + b) x z.
Proof.
  intros Ha Hb Hx [Hy Ey] [Hz Ez]. unfold shifted.
  assert (Pa : 0 < 2 ^ a) by (apply Z.pow_pos_nonneg; lia).
  assert (Pb : 0 < 2 ^ b) by (apply Z.pow_pos_nonneg; lia).
  rewrite Z.pow_add_r by lia. split.
  - rewrite Hz, Hy. apply Z.div_div; lia.
  - rewrite Ez, Ey, Hy. rewrite Z.rem_mul_r by lia.
    pose proof (Z.mod_pos_bound (shr_m x) (2 ^ a) Pa).
    pose proof (Z.mod_pos_bound (shr_m x / 2 ^ a) (2 ^ b) Pb).
    split.
    + intros [[E M1] M2]. split; [exact E|]. rewrite M1, M2. lia.
    + intros [E M]. split; [split; [exact E|]|]; nia.
Qed.

Lemma iter_shr_1_shifted (p : positive) (x : shr_record) :
  0 <= shr_m x -> shifted (Z.pos p) x (SpecFloat.iter_pos shr_1 p x).
Proof.
  revert x. induction p as [p IH|p IH|]; intros x Hx; cbn [SpecFloat.iter_pos].
  - pose proof (shr_1_shifted x Hx) as S1.
    pose proof (shifted_nonneg 1 _ _ ltac:(lia) Hx S1) as H1.
    pose proof (IH _ H1) as S2.
    pose proof (shifted_nonneg (Z.pos p) _ _ ltac:(lia) H1 S2) as H2.
    pose proof (IH _ H2) as S3.
    replace (Z.pos p~1) with (1 + Z.pos p + Z.pos p) by lia.
    eapply shifted_trans; [lia|lia|exact Hx| |exact S3].
    eapply shifted_trans; [lia|lia|exact Hx|exact S1|exact S2].
  - pose proof (IH _ Hx) as S1.
    pose proof (shifted_nonneg (Z.pos p) _ _ ltac:(lia) Hx S1) as H1.
    pose proof (IH _ H1) as S2.
    replace (Z.pos p~0) with (Z.pos p + Z.pos p) by lia.
    eapply shifted_trans; [lia|lia|exact Hx|exact S1|exact S2].
  - apply shr_1_shifted. exact Hx.
Qed.

Lemma shifted_0 (x : shr_record) : shifted 0 x x.
Proof.
  unfold shifted. rewrite Z.pow_0_r, Z.div_1_r, Z.mod_1_r. intuition.
Qed.

(** [shr]: a shift by [max 0 n] bits. *)
Lemma shr_shifted (x : shr_record) (e n : Z) :
  0 <= shr_m x ->
  shifted (Z.max 0 n) x (fst (shr x e n)) /\ snd (shr x e n) = e + Z.max 0 n.
Proof.
  intros Hx. destruct n as [|p|p]; cbn [shr fst snd].
  - split; [apply shifted_0|lia].
  - split; [|lia]. replace (Z.max 0 (Z.pos p)) with (Z.pos p) by lia.
    apply iter_shr_1_shifted. exact Hx.
  - split; [|lia]. replace (Z.max 0 (Z.neg p)) with 0 by lia. apply shifted_0.
Qed.

End Shift.

Section ToQ.
Import Rounding.

Lemma to_Q_finite (s : bool) (m : positive) (e : Z) :
  (Float32.to_Q (S754_finite s m e) == F2Q (cond_Zopp s (Z.pos m)) e)%Q.
Proof.
  unfold Float32.to_Q, F2Q. cbv zeta.
  destruct e as [|p|p].
  - rewrite Z.pow_0_r, Z.mul_1_r. cbn. ring.
  - rewrite inject_Z_mult, <- (pow2_inject (Z.pos p)) by lia. reflexivity.
  - rewrite Qmake_Qdiv. change (Z.neg p) with (- Z.pos p).
    rewrite Qpower_opp, Pos2Z.inj_pow, <- (pow2_inject (Z.pos p)) by lia.
    reflexivity.
Qed.

Lemma to_Q_zero (s : bool) : Float32.to_Q (S754_zero s) = 0%Q.
Proof. reflexivity. Qed.

End ToQ.

Section Format.
Import Rounding.
Variables prec emax : Z.
Hypothesis Hprec : 0 < prec.
Hypothesis Hemax : prec < emax.

Lemma emin_le : emin prec emax <= emax - prec.
Proof. unfold SpecFloat.emin. lia. Qed.

Lemma fexp_ge_emin (e : Z) : emin prec emax <= fexp prec emax e.
Proof. unfold SpecFloat.fexp. lia. Qed.

Lemma fexp_mono (a b : Z) : a <= b -> fexp prec emax a <= fexp prec emax b.
Proof. unfold SpecFloat.fexp. lia. Qed.

Lemma shr_fexp_spec (m e : Z) (l : location) :
  0 <= m ->
  let k := Z.max 0 (fexp prec emax (Zdigits2 m + e) - e) in
  shr_m (fst (shr_fexp prec emax m e l)) = m / 2 ^ k
  /\ snd (shr_fexp prec emax m e l) = e + k
  /\ (exact_record (fst (shr_fexp prec emax m e l))
      <-> l = loc_Exact /\ m mod 2 ^ k = 0).
Proof.
  intros Hm k. unfold shr_fexp.
  assert (Hrec : shr_m (shr_record_of_loc m l) = m) by (destruct l as [|[]]; reflexivity).
  destruct (shr_shifted (shr_record_of_loc m l) e (fexp prec emax (Zdigits2 m + e) - e))
    as [[S1 S2] S3]; [rewrite Hrec; exact Hm|].
  fold k in S1, S2, S3. rewrite Hrec in S1, S2.
  split; [exact S1|]. split; [exact S3|]. rewrite S2.
  unfold exact_record. destruct l as [|[]]; cbn; intuition congruence.
Qed.

(** After a shift to the exponent that [fexp] asks for, the mantissa
    has all its [prec] bits unless the exponent is the smallest one. *)
Lemma fexp_grid (m e : Z) :
  0 <= m ->
  let n := fexp prec emax (Zdigits2 m + e) - e in
  0 <= n -> e + n = emin prec emax \/ 2 ^ (prec - 1) <= m / 2 ^ n.
Proof.
  intros Hm n Hn. unfold n in *. unfold SpecFloat.fexp in *.
  destruct (Z_le_gt_dec (Zdigits2 m + e - prec) (emin prec emax)) as [Hle|Hgt]; [left; lia|].
  right. rewrite Z.max_l in * by lia.
  replace (Zdigits2 m + e - prec - e) with (Zdigits2 m - prec) in * by lia.
  assert (Hpos : 0 < m).
  { destruct (Z.eq_dec m 0) as [->|]; [cbn in Hn; lia|lia]. }
  destruct (Zdigits2_bounds m Hpos) as (_ & Hlo & _).
  apply Z.div_le_lower_bound; [apply Z.pow_pos_nonneg; lia|].
  rewrite <- Z.pow_add_r by lia.
  replace (Zdigits2 m - prec + (prec - 1)) with (Zdigits2 m - 1) by lia.
  exact Hlo.
Qed.

(** No number of the format lies strictly between two neighbours of
    the grid of a rounding. *)
Lemma grid_gap (m1 e1 mu eu : Z) :
  0 <= m1 -> 0 <= mu < 2 ^ prec -> emin prec emax <= eu -> emin prec emax <= e1 ->
  e1 = emin prec emax \/ 2 ^ (prec - 1) <= m1 ->
  (F2Q mu eu <= F2Q m1 e1)%Q \/ (F2Q (m1 + 1) e1 <= F2Q mu eu)%Q.
Proof.
  intros Hm1 Hmu Heu He1 Hg.
  destruct (Z_le_gt_dec e1 eu) as [Hle|Hgt].
  - rewrite (F2Q_align mu eu e1 Hle).
    destruct (Z_le_gt_dec (mu * 2 ^ (eu - e1)) m1) as [H|H].
    + left. apply F2Q_le. exact H.
    + right. apply F2Q_le. lia.
  - left. destruct Hg as [->|Hg]; [lia|].
    rewrite (F2Q_align m1 e1 eu) by lia. apply F2Q_le.
    assert (H2 : 2 <= 2 ^ (e1 - eu)).
    { change 2 with (2 ^ 1) at 1. apply Z.pow_le_mono_r; lia. }
    assert (Hp : 2 ^ prec = 2 * 2 ^ (prec - 1)).
    { replace prec with (Z.succ (prec - 1)) at 1 by lia.
      apply Z.pow_succ_r. lia. }
    nia.
Qed.

Lemma round_nearest_even_range (m : Z) (rec : shr_record) :
  m <= round_nearest_even m (loc_of_shr_record rec) <= m + 1
  /\ (exact_record rec -> round_nearest_even m (loc_of_shr_record rec) = m).
Proof.
  unfold exact_record. destruct rec as [m' [] []]; cbn;
    try destruct (Z.even m); split; try lia; try intuition congruence.
Qed.

(** The magnitude that [binary_round_aux] gives for a number [v] that
    lies at [mx * 2^ex], or between it and its successor as the location
    [lx] tells: a mantissa [m3] and an exponent [e3] of the format that
    no number of the format separates from [v]. *)
Lemma round_aux_mag (sx : bool) (mx ex : Z) (lx : location) (v : Q) :
  0 <= mx -> ex <= fexp prec emax (Zdigits2 mx + ex) ->
  (F2Q mx ex <= v)%Q -> (v < F2Q (mx + 1) ex)%Q ->
  (lx = loc_Exact -> (v == F2Q mx ex)%Q) ->
  (lx <> loc_Exact -> (F2Q mx ex < v)%Q) ->
  exists m3 e3,
    0 <= m3 < 2 ^ prec /\ emin prec emax <= e3
    /\ (e3 = emin prec emax \/ 2 ^ (prec - 1) <= m3)
    /\ binary_round_aux prec emax sx mx ex lx
       = match m3 with
         | Z0 => S754_zero sx
         | Z.pos m => if e3 <=? emax - prec then S754_finite sx m e3
                      else S754_infinity sx
         | Z.neg _ => S754_nan
         end
    /\ (forall mu eu, 0 <= mu < 2 ^ prec -> emin prec emax <= eu ->
          (v <= F2Q mu eu)%Q -> (F2Q m3 e3 <= F2Q mu eu)%Q)
    /\ (forall ml el, 0 <= ml < 2 ^ prec -> emin prec emax <= el ->
          (F2Q ml el <= v)%Q -> (F2Q ml el <= F2Q m3 e3)%Q).
Proof.
  intros Hmx Hex Hlo Hhi Hexact Hinexact.
  unfold binary_round_aux.
  (* the first shift *)
  destruct (shr_fexp_spec mx ex lx Hmx) as (M1 & E1 & X1).
  destruct (shr_fexp prec emax mx ex lx) as [rec1 e1]. cbn [fst snd] in M1, E1, X1.
  set (n1 := fexp prec emax (Zdigits2 mx + ex) - ex) in *.
  assert (Hn1 : 0 <= n1) by (unfold n1; lia).
  rewrite Z.max_r in M1, E1, X1 by exact Hn1.
  set (m1 := shr_m rec1) in *.
  assert (P1 : 0 < 2 ^ n1) by (apply Z.pow_pos_nonneg; lia).
  pose proof (Z.div_mod mx (2 ^ n1) ltac:(lia)) as Hdm.
  pose proof (Z.mod_pos_bound mx (2 ^ n1) P1) as Hmod.
  rewrite <- M1 in Hdm.
  assert (Hm1 : 0 <= m1) by (rewrite M1; apply Z.div_pos; lia).
  assert (G1 : e1 = emin prec emax \/ 2 ^ (prec - 1) <= m1).
  { rewrite E1, M1. apply (fexp_grid mx ex Hmx Hn1). }
  assert (He1 : emin prec emax <= e1).
  { rewrite E1. unfold n1. pose proof (fexp_ge_emin (Zdigits2 mx + ex)). lia. }
  assert (Hm1p : m1 < 2 ^ prec).
  { rewrite M1. apply Z.div_lt_upper_bound; [exact P1|].
    rewrite <- Z.pow_add_r by lia.
    destruct (Z.eq_dec mx 0) as [->|Hne]; [apply Z.pow_pos_nonneg; lia|].
    destruct (Zdigits2_bounds mx ltac:(lia)) as (_ & _ & Hd).
    eapply Z.lt_le_trans; [exact Hd|]. apply Z.pow_le_mono_r; [lia|].
    unfold n1, SpecFloat.fexp. lia. }
  assert (Hv1 : (F2Q m1 e1 <= v)%Q).
  { eapply Qle_trans; [|exact Hlo]. rewrite E1, (F2Q_shift m1 ex n1 Hn1).
    apply F2Q_le. lia. }
  assert (Hv2 : (v < F2Q (m1 + 1) e1)%Q).
  { eapply Qlt_le_trans; [exact Hhi|]. rewrite E1, (F2Q_shift (m1 + 1) ex n1 Hn1).
    apply F2Q_le. lia. }
  assert (Hx1 : exact_record rec1 -> (v == F2Q m1 e1)%Q).
  { intros Hx. apply X1 in Hx as [Hl Hz]. rewrite (Hexact Hl).
    rewrite E1, (F2Q_shift m1 ex n1 Hn1).
    replace (m1 * 2 ^ n1) with mx by lia. reflexivity. }
  assert (Hx2 : ~ exact_record rec1 -> (F2Q m1 e1 < v)%Q).
  { intros Hx.
    assert (Hcase : lx <> loc_Exact \/ mx mod 2 ^ n1 <> 0).
    { destruct lx as [|c]; [|left; discriminate].
      destruct (Z.eq_dec (mx mod 2 ^ n1) 0) as [Hz|Hz]; [|right; exact Hz].
      exfalso. apply Hx, X1. split; [reflexivity|exact Hz]. }
    destruct Hcase as [Hl|Hz].
    - eapply Qle_lt_trans; [|exact (Hinexact Hl)].
      rewrite E1, (F2Q_shift m1 ex n1 Hn1). apply F2Q_le. lia.
    - eapply Qlt_le_trans; [|exact Hlo].
      rewrite E1, (F2Q_shift m1 ex n1 Hn1). apply F2Q_lt. lia. }
  assert (Hdec : exact_record rec1 \/ ~ exact_record rec1).
  { unfold exact_record. destruct (shr_r rec1), (shr_s rec1);
      intuition congruence. }
  (* rounding *)
  destruct (round_nearest_even_range m1 rec1) as (R1 & R2).
  set (r2 := round_nearest_even m1 (loc_of_shr_record rec1)) in *.
  assert (Hup2 : forall mu eu, 0 <= mu < 2 ^ prec -> emin prec emax <= eu ->
                   (v <= F2Q mu eu)%Q -> (F2Q r2 e1 <= F2Q mu eu)%Q).
  { intros mu eu Hmu Heu Hv.
    destruct (Z.eq_dec r2 m1) as [->|Hne]; [eapply Qle_trans; eassumption|].
    assert (r2 = m1 + 1) as -> by lia.
    destruct Hdec as [Hx|Hx]; [specialize (R2 Hx); lia|].
    destruct (grid_gap m1 e1 mu eu Hm1 Hmu Heu He1 G1) as [H|H]; [|exact H].
    exfalso. pose proof (Hx2 Hx). lra. }
  assert (Hlow2 : forall ml el, 0 <= ml < 2 ^ prec -> emin prec emax <= el ->
                    (F2Q ml el <= v)%Q -> (F2Q ml el <= F2Q r2 e1)%Q).
  { intros ml el Hml Hel Hv.
    destruct (Z.eq_dec r2 m1) as [->|Hne].
    - destruct (grid_gap m1 e1 ml el Hm1 Hml Hel He1 G1) as [H|H]; [exact H|].
      exfalso. lra.
    - assert (r2 = m1 + 1) as -> by lia. lra. }
  (* the second shift *)
  assert (Hr2 : 0 <= r2) by lia.
  destruct (shr_fexp_spec r2 e1 loc_Exact Hr2) as (M3 & E3 & _).
  destruct (shr_fexp prec emax r2 e1 loc_Exact) as [rec3 e3].
  cbn [fst snd] in M3, E3.
  set (n2 := fexp prec emax (Zdigits2 r2 + e1) - e1) in *.
  set (k := Z.max 0 n2) in *.
  assert (Hk : 0 <= k) by (unfold k; lia).
  assert (P3 : 0 < 2 ^ k) by (apply Z.pow_pos_nonneg; lia).
  pose proof (Z.div_mod r2 (2 ^ k) ltac:(lia)) as Hdm3.
  pose proof (Z.mod_pos_bound r2 (2 ^ k) P3) as Hmod3.
  rewrite <- M3 in Hdm3.
  set (m3 := shr_m rec3) in *.
  assert (Hm3 : 0 <= m3) by (rewrite M3; apply Z.div_pos; lia).
  assert (G3 : e3 = emin prec emax \/ 2 ^ (prec - 1) <= m3).
  { destruct (Z_le_gt_dec n2 0) as [Hle|Hgt].
    - assert (k = 0) as Hk0 by (unfold k; lia).
      rewrite Hk0, Z.pow_0_r in *. rewrite Z.mod_1_r in Hdm3.
      destruct G1 as [G1|G1]; [left; lia|right; lia].
    - assert (k = n2) as Hkn by (unfold k; lia). rewrite Hkn in *.
      rewrite E3, M3. apply (fexp_grid r2 e1 Hr2). fold n2. lia. }
  assert (He3 : emin prec emax <= e3) by lia.
  assert (Hm3p : m3 < 2 ^ prec).
  { rewrite M3. apply Z.div_lt_upper_bound; [exact P3|].
    rewrite <- Z.pow_add_r by lia.
    destruct (Z.eq_dec r2 0) as [->|Hne]; [apply Z.pow_pos_nonneg; lia|].
    destruct (Zdigits2_bounds r2 ltac:(lia)) as (_ & _ & Hd).
    eapply Z.lt_le_trans; [exact Hd|]. apply Z.pow_le_mono_r; [lia|].
    unfold k, n2, SpecFloat.fexp. lia. }
  assert (Hw1 : (F2Q m3 e3 <= F2Q r2 e1)%Q).
  { rewrite E3, (F2Q_shift m3 e1 k Hk). apply F2Q_le. lia. }
  assert (Hw2 : (F2Q r2 e1 < F2Q (m3 + 1) e3)%Q).
  { rewrite E3, (F2Q_shift (m3 + 1) e1 k Hk). apply F2Q_lt. lia. }
  exists m3, e3.
  split; [lia|]. split; [exact He3|]. split; [exact G3|]. split; [reflexivity|].
  split.
  - intros mu eu Hmu Heu Hv. eapply Qle_trans; [exact Hw1|].
    apply Hup2; assumption.
  - intros ml el Hml Hel Hv.
    pose proof (Hlow2 ml el Hml Hel Hv) as Hl.
    destruct (grid_gap m3 e3 ml el Hm3 Hml Hel He3 G3) as [H|H]; [exact H|].
    exfalso. lra.
Qed.

Lemma representable_split (u : Q) :
  representable prec emax u ->
  exists mu eu,
    0 <= mu < 2 ^ prec /\ emin prec emax <= eu <= emax - prec
    /\ ((u == F2Q mu eu)%Q \/ (u == - F2Q mu eu)%Q).
Proof.
  intros (m & e & Hm & He & Hu). exists (Z.abs m), e.
  split; [lia|]. split; [exact He|].
  destruct (Z_le_gt_dec 0 m) as [H|H].
  - left. rewrite Z.abs_eq by exact H. exact Hu.
  - right. rewrite Z.abs_neq by lia. rewrite F2Q_opp, Hu. ring.
Qed.

Lemma representable_0 : representable prec emax 0.
Proof.
  exists 0, (emin prec emax). split; [apply Z.pow_pos_nonneg; lia|].
  split; [pose proof emin_le; lia|]. symmetry. apply F2Q_0.
Qed.

Lemma representable_F2Q (m e : Z) :
  Z.abs m < 2 ^ prec -> emin prec emax <= e <= emax - prec ->
  representable prec emax (F2Q m e).
Proof. intros Hm He. exists m, e. split; [exact Hm|]. split; [exact He|reflexivity]. Qed.

Lemma rounded_ext (x y : Q) (r : spec_float) :
  (x == y)%Q -> rounded prec emax x r -> rounded prec emax y r.
Proof.
  intros E (A & B & C & D). split; [|split; [|split]].
  - intros u Hu Hx. apply A; [exact Hu|]. rewrite E. exact Hx.
  - intros l Hl Hx. apply B; [exact Hl|]. rewrite E. exact Hx.
  - intros l u Hl Hu H1 H2. apply (C l u Hl Hu); rewrite E; assumption.
  - exact D.
Qed.

Lemma rounded_zero (s : bool) : rounded prec emax 0 (S754_zero s).
Proof.
  split; [|split; [|split]]; cbn; intros; try reflexivity; try assumption.
  apply representable_0.
Qed.

(** [binary_round_aux] rounds. *)
Lemma round_aux_rounded (sx : bool) (mx ex : Z) (lx : location) (v : Q) :
  0 <= mx -> ex <= fexp prec emax (Zdigits2 mx + ex) ->
  (F2Q mx ex <= v)%Q -> (v < F2Q (mx + 1) ex)%Q ->
  (lx = loc_Exact -> (v == F2Q mx ex)%Q) ->
  (lx <> loc_Exact -> (F2Q mx ex < v)%Q) ->
  rounded prec emax (if sx then - v else v)%Q
    (binary_round_aux prec emax sx mx ex lx).
Proof.
  intros Hmx Hex Hlo Hhi Hexact Hinexact.
  destruct (round_aux_mag sx mx ex lx v Hmx Hex Hlo Hhi Hexact Hinexact)
    as (m3 & e3 & Hm3 & He3 & G3 & -> & Up & Low).
  assert (Hv0 : (0 <= v)%Q).
  { eapply Qle_trans; [|exact Hlo]. apply F2Q_nonneg. exact Hmx. }
  assert (HR0 : (0 <= F2Q m3 e3)%Q) by (apply F2Q_nonneg; lia).
  set (r := match m3 with
            | 0 => S754_zero sx
            | Z.pos m => if e3 <=? emax - prec then S754_finite sx m e3
                         else S754_infinity sx
            | Z.neg _ => S754_nan
            end).
  assert (Hfin : m3 = 0 \/ e3 <= emax - prec -> Float32.is_finite r = true).
  { unfold r. destruct m3 as [|m|m]; [reflexivity| |lia].
    intros [H|H]; [discriminate|]. apply Z.leb_le in H. rewrite H. reflexivity. }
  assert (Hval : Float32.is_finite r = true ->
                 (Float32.to_Q r == if sx then - F2Q m3 e3 else F2Q m3 e3)%Q
                 /\ (m3 = 0 \/ e3 <= emax - prec)).
  { unfold r. destruct m3 as [|m|m]; [| |lia].
    - intros _. split; [|left; reflexivity]. cbn [Float32.to_Q].
      destruct sx; rewrite F2Q_0; reflexivity.
    - destruct (e3 <=? emax - prec) eqn:E; [|discriminate].
      intros _. split; [|right; apply Z.leb_le; exact E].
      rewrite to_Q_finite. destruct sx; cbn [cond_Zopp]; [|reflexivity].
      change (- Z.pos m) with (- (Z.pos m)). apply F2Q_opp. }
  assert (Hbound : forall mu eu, 0 <= mu < 2 ^ prec ->
                     emin prec emax <= eu <= emax - prec ->
                     (v <= F2Q mu eu)%Q -> m3 = 0 \/ e3 <= emax - prec).
  { intros mu eu Hmu Heu Hv.
    destruct (Z.eq_dec m3 0) as [H0|H0]; [left; exact H0|]. right.
    destruct (Z_le_gt_dec e3 (emax - prec)) as [H|H]; [exact H|]. exfalso.
    pose proof emin_le as Hemin.
    destruct G3 as [G3|G3]; [lia|].
    pose proof (Up mu eu Hmu ltac:(lia) Hv) as HU.
    assert (H1 : (F2Q (2 ^ (prec - 1)) e3 <= F2Q m3 e3)%Q) by (apply F2Q_le; exact G3).
    rewrite F2Q_pow in H1 by lia.
    assert (H2 : (F2Q mu eu < F2Q (2 ^ prec) eu)%Q) by (apply F2Q_lt; lia).
    rewrite F2Q_pow in H2 by lia.
    pose proof (pow2_le (prec + eu) (prec - 1 + e3) ltac:(lia)). lra. }
  split; [|split; [|split]].
  - intros u Hu Hx Hf.
    destruct (representable_split u Hu) as (mu & eu & Hmu & Heu & Hs).
    destruct (Hval Hf) as [Hq _]. rewrite Hq.
    pose proof (F2Q_nonneg mu eu ltac:(lia)) as Hu0.
    destruct sx.
    + destruct Hs as [Hs|Hs]; [lra|].
      assert (Hl : (F2Q mu eu <= v)%Q) by lra.
      pose proof (Low mu eu Hmu ltac:(lia) Hl). lra.
    + destruct Hs as [Hs|Hs].
      * assert (Hl : (v <= F2Q mu eu)%Q) by lra.
        pose proof (Up mu eu Hmu ltac:(lia) Hl). lra.
      * assert (Hl : (v <= F2Q mu eu)%Q) by lra.
        pose proof (Up mu eu Hmu ltac:(lia) Hl). lra.
  - intros l Hl Hx Hf.
    destruct (representable_split l Hl) as (ml & el & Hml & Hel & Hs).
    destruct (Hval Hf) as [Hq _]. rewrite Hq.
    pose proof (F2Q_nonneg ml el ltac:(lia)) as Hl0.
    destruct sx.
    + destruct Hs as [Hs|Hs].
      * assert (Hu : (v <= F2Q ml el)%Q) by lra.
        pose proof (Up ml el Hml ltac:(lia) Hu). lra.
      * assert (Hu : (v <= F2Q ml el)%Q) by lra.
        pose proof (Up ml el Hml ltac:(lia) Hu). lra.
    + destruct Hs as [Hs|Hs]; [|lra].
      assert (Hu : (F2Q ml el <= v)%Q) by lra.
      pose proof (Low ml el Hml ltac:(lia) Hu). lra.
  - intros l u Hl Hu H1 H2. apply Hfin.
    destruct (representable_split l Hl) as (ml & el & Hml & Hel & Hsl).
    destruct (representable_split u Hu) as (mu & eu & Hmu & Heu & Hsu).
    pose proof (F2Q_nonneg ml el ltac:(lia)) as Hl0.
    pose proof (F2Q_nonneg mu eu ltac:(lia)) as Hu0.
    destruct sx.
    + apply (Hbound ml el Hml Hel). destruct Hsl; lra.
    + apply (Hbound mu eu Hmu Heu). destruct Hsu; lra.
  - intros Hf. destruct (Hval Hf) as [Hq Hc].
    destruct (Z.eq_dec m3 0) as [H0|H0].
    + exists 0, (emin prec emax). split; [apply Z.pow_pos_nonneg; lia|].
      split; [pose proof emin_le; lia|].
      rewrite Hq, H0. destruct sx; rewrite !F2Q_0; reflexivity.
    + assert (He : e3 <= emax - prec) by lia.
      exists (if sx then - m3 else m3), e3.
      split; [destruct sx; lia|]. split; [lia|].
      rewrite Hq. destruct sx; [symmetry; apply F2Q_opp|reflexivity].
Qed.

Lemma iter_xO (mx d : positive) :
  Z.pos (Pos.iter xO mx d) = Z.pos mx * 2 ^ Z.pos d.
Proof.
  induction d as [|d IH] using Pos.peano_ind.
  - cbn [Pos.iter]. rewrite Z.pow_1_r. lia.
  - rewrite Pos.iter_succ, Pos2Z.inj_xO, IH, Pos2Z.inj_succ, Z.pow_succ_r by lia.
    lia.
Qed.

Lemma digits_iter_xO (mx d : positive) :
  Z.pos (digits2_pos (Pos.iter xO mx d)) = Z.pos (digits2_pos mx) + Z.pos d.
Proof.
  induction d as [|d IH] using Pos.peano_ind.
  - cbn [Pos.iter digits2_pos]. lia.
  - rewrite Pos.iter_succ. cbn [digits2_pos]. rewrite Pos2Z.inj_succ, IH. lia.
Qed.

Lemma shl_align_spec (mx : positive) (ex ex' : Z) :
  snd (shl_align mx ex ex') = Z.min ex ex'
  /\ Z.pos (fst (shl_align mx ex ex'))
     = Z.pos mx * 2 ^ (ex - snd (shl_align mx ex ex'))
  /\ Zdigits2 (Z.pos (fst (shl_align mx ex ex'))) + snd (shl_align mx ex ex')
     = Zdigits2 (Z.pos mx) + ex.
Proof.
  unfold shl_align. destruct (ex' - ex) as [|d|d] eqn:E; cbn [fst snd].
  - split; [lia|]. rewrite Z.sub_diag, Z.pow_0_r. split; lia.
  - split; [lia|]. rewrite Z.sub_diag, Z.pow_0_r. split; lia.
  - split; [lia|]. replace (ex - ex') with (Z.pos d) by lia.
    split; [apply iter_xO|]. cbn [Zdigits2]. rewrite digits_iter_xO. lia.
Qed.

Lemma shl_align_value (mx : positive) (ex ex' : Z) :
  (F2Q (Z.pos (fst (shl_align mx ex ex'))) (snd (shl_align mx ex ex'))
   == F2Q (Z.pos mx) ex)%Q.
Proof.
  destruct (shl_align_spec mx ex ex') as (E & M & _).
  rewrite M. symmetry. apply F2Q_align. lia.
Qed.

(** [binary_round] rounds. *)
Lemma binary_round_rounded (sx : bool) (mx : positive) (ex : Z) :
  rounded prec emax
    (if sx then - F2Q (Z.pos mx) ex else F2Q (Z.pos mx) ex)%Q
    (binary_round prec emax sx mx ex).
Proof.
  unfold binary_round.
  pose proof (shl_align_spec mx ex (fexp prec emax (Z.pos (digits2_pos mx) + ex)))
    as (E & _ & D).
  pose proof (shl_align_value mx ex (fexp prec emax (Z.pos (digits2_pos mx) + ex)))
    as V.
  destruct (shl_align mx ex (fexp prec emax (Z.pos (digits2_pos mx) + ex)))
    as [mz ez].
  cbn [fst snd] in E, D, V.
  apply round_aux_rounded.
  - lia.
  - rewrite D. cbn [Zdigits2]. lia.
  - rewrite V. apply Qle_refl.
  - rewrite <- V. apply F2Q_lt. lia.
  - intros _. symmetry. exact V.
  - intros H. contradiction.
Qed.

(** [binary_normalize] rounds. *)
Lemma normalize_rounded (m e : Z) (sz : bool) :
  rounded prec emax (F2Q m e) (binary_normalize prec emax m e sz).
Proof.
  destruct m as [|p|p]; cbn [binary_normalize].
  - apply (rounded_ext 0%Q); [symmetry; apply F2Q_0|apply rounded_zero].
  - apply (binary_round_rounded false).
  - apply (rounded_ext (- F2Q (Z.pos p) e)%Q); [|apply (binary_round_rounded true)].
    symmetry. apply (F2Q_opp (Z.pos p)).
Qed.

(** A float of the format, as it is. *)
Lemma rounded_self (x : spec_float) :
  Float32.is_finite x = true -> representable prec emax (Float32.to_Q x) ->
  rounded prec emax (Float32.to_Q x) x.
Proof.
  intros Hf Hr. split; [|split; [|split]]; intros; assumption.
Qed.

Lemma cond_Zopp_mul (s : bool) (a k : Z) : cond_Zopp s (a * k) = cond_Zopp s a * k.
Proof. destruct s; cbn; lia. Qed.

(** The mantissa that [SFadd] and [SFsub] align to the smaller
    exponent stands for the same number. *)
Lemma aligned_value (s : bool) (m : positive) (e ez : Z) :
  ez <= e ->
  (F2Q (cond_Zopp s (Z.pos (fst (shl_align m e ez)))) ez
   == Float32.to_Q (S754_finite s m e))%Q.
Proof.
  intros Hle. destruct (shl_align_spec m e ez) as (E & M & _).
  rewrite M, E, Z.min_r by lia. rewrite cond_Zopp_mul, to_Q_finite.
  symmetry. apply F2Q_align. exact Hle.
Qed.

Lemma representable_opp (x : Q) :
  representable prec emax x -> representable prec emax (- x)%Q.
Proof.
  intros (m & e & Hm & He & Hx). exists (- m), e.
  split; [lia|]. split; [exact He|]. rewrite F2Q_opp, Hx. reflexivity.
Qed.

(** [SFadd] rounds the sum. *)
Lemma add_rounded (x y : spec_float) :
  Float32.is_finite x = true -> Float32.is_finite y = true ->
  representable prec emax (Float32.to_Q x) ->
  representable prec emax (Float32.to_Q y) ->
  rounded prec emax (Float32.to_Q x + Float32.to_Q y)%Q (SFadd prec emax x y).
Proof.
  intros Hx Hy Rx Ry.
  destruct x as [sx|sx| |sx mx ex], y as [sy|sy| |sy my ey]; try discriminate.
  - apply (rounded_ext 0%Q); [cbn; ring|].
    cbn [SFadd]. destruct sx, sy; apply rounded_zero.
  - apply (rounded_ext (Float32.to_Q (S754_finite sy my ey)));
      [cbn [Float32.to_Q]; ring|].
    apply rounded_self; assumption.
  - apply (rounded_ext (Float32.to_Q (S754_finite sx mx ex)));
      [rewrite to_Q_zero; ring|].
    apply rounded_self; assumption.
  - cbn [SFadd]. cbv zeta.
    eapply rounded_ext; [|apply normalize_rounded].
    rewrite F2Q_add, !aligned_value by lia. reflexivity.
Qed.

(** [SFsub] rounds the difference. *)
Lemma sub_rounded (x y : spec_float) :
  Float32.is_finite x = true -> Float32.is_finite y = true ->
  representable prec emax (Float32.to_Q x) ->
  representable prec emax (Float32.to_Q y) ->
  rounded prec emax (Float32.to_Q x - Float32.to_Q y)%Q (SFsub prec emax x y).
Proof.
  intros Hx Hy Rx Ry.
  destruct x as [sx|sx| |sx mx ex], y as [sy|sy| |sy my ey]; try discriminate.
  - apply (rounded_ext 0%Q); [cbn; ring|].
    cbn [SFsub]. destruct sx, sy; apply rounded_zero.
  - cbn [SFsub].
    apply (rounded_ext (Float32.to_Q (S754_finite (negb sy) my ey))).
    + rewrite to_Q_zero, !to_Q_finite.
      destruct sy; cbn [negb cond_Zopp];
        change (- Z.pos my)%Z with (- (Z.pos my))%Z; rewrite ?F2Q_opp; ring.
    + apply rounded_self; [reflexivity|].
      apply representable_opp in Ry.
      destruct Ry as (m & e & Hm & He & Hq). exists m, e.
      split; [exact Hm|]. split; [exact He|]. rewrite <- Hq, !to_Q_finite.
      destruct sy; cbn [negb cond_Zopp];
        change (- Z.pos my)%Z with (- (Z.pos my))%Z; rewrite ?F2Q_opp; ring.
  - apply (rounded_ext (Float32.to_Q (S754_finite sx mx ex)));
      [rewrite to_Q_zero; ring|].
    apply rounded_self; assumption.
  - cbn [SFsub]. cbv zeta.
    eapply rounded_ext; [|apply normalize_rounded].
    unfold Z.sub at 1. rewrite F2Q_add, F2Q_opp, !aligned_value by lia.
    reflexivity.
Qed.

Lemma new_location_exact (n r : Z) :
  (new_location n r = loc_Exact <-> r = 0).
Proof.
  unfold new_location, new_location_even, new_location_odd.
  destruct (Z.even n); destruct (r =? 0) eqn:E;
    (apply Z.eqb_eq in E || apply Z.eqb_neq in E);
    split; intros H; try reflexivity; try discriminate; try assumption;
    try contradiction.
Qed.

(** The quotient that [SFdiv_core_binary] hands to the rounding: its
    exponent is not above the one that [fexp] asks for, and the
    location tells whether the division is exact. *)
Lemma div_core_spec (m1 m2 : positive) (e1 e2 : Z) :
  let v := (F2Q (Z.pos m1) e1 / F2Q (Z.pos m2) e2)%Q in
  let '(q, e', l) := SFdiv_core_binary prec emax (Z.pos m1) e1 (Z.pos m2) e2 in
  0 <= q /\ e' <= fexp prec emax (Zdigits2 q + e')
  /\ (F2Q q e' <= v)%Q /\ (v < F2Q (q + 1) e')%Q
  /\ (l = loc_Exact -> (v == F2Q q e')%Q)
  /\ (l <> loc_Exact -> (F2Q q e' < v)%Q).
Proof.
  intros v. unfold SFdiv_core_binary.
  set (d1 := Zdigits2 (Z.pos m1)). set (d2 := Zdigits2 (Z.pos m2)).
  set (e' := Z.min (fexp prec emax (d1 + e1 - (d2 + e2))) (e1 - e2)).
  set (s := e1 - e2 - e').
  assert (Hs : 0 <= s) by (unfold s, e'; lia).
  set (m' := match s with
             | 0 => Z.pos m1
             | Z.pos _ => Z.shiftl (Z.pos m1) s
             | Z.neg _ => 0
             end).
  assert (Hm' : m' = Z.pos m1 * 2 ^ s).
  { unfold m'. destruct s as [|p|p] eqn:Es; [rewrite Z.pow_0_r; lia| |lia].
    apply Z.shiftl_mul_pow2. lia. }
  clearbody m'.
  pose proof (Z_div_mod m' (Z.pos m2) ltac:(lia)) as Hdm.
  destruct (Z.div_eucl m' (Z.pos m2)) as [q r]. destruct Hdm as [Hdm Hr].
  assert (P2 : 0 < 2 ^ s) by (apply Z.pow_pos_nonneg; lia).
  assert (Hq : 0 <= q) by nia.
  (* the value *)
  assert (Hv : (v == (inject_Z q + inject_Z r / inject_Z (Z.pos m2)) * 2 ^ e')%Q).
  { unfold v. rewrite (F2Q_align (Z.pos m1) e1 (e' + e2)) by (unfold s in Hs; lia).
    replace (e1 - (e' + e2)) with s by (unfold s; lia).
    rewrite <- Hm', Hdm. unfold F2Q.
    rewrite pow2_add, inject_Z_plus, inject_Z_mult.
    pose proof (pow2_pos e2). pose proof (pow2_pos e').
    assert (0 < inject_Z (Z.pos m2))%Q
      by (change 0%Q with (inject_Z 0); rewrite <- Zlt_Qlt; lia).
    field. split; lra. }
  assert (Ht0 : (0 <= inject_Z r / inject_Z (Z.pos m2))%Q).
  { apply Qle_shift_div_l;
      [change 0%Q with (inject_Z 0); rewrite <- Zlt_Qlt; lia|].
    rewrite Qmult_0_l. change 0%Q with (inject_Z 0). rewrite <- Zle_Qle. lia. }
  assert (Ht1 : (inject_Z r / inject_Z (Z.pos m2) < 1)%Q).
  { apply Qlt_shift_div_r;
      [change 0%Q with (inject_Z 0); rewrite <- Zlt_Qlt; lia|].
    rewrite Qmult_1_l, <- Zlt_Qlt. lia. }
  pose proof (pow2_pos e') as Pe.
  split; [exact Hq|]. split; [|split; [|split; [|split]]].
  - (* the exponent *)
    destruct (Z_le_gt_dec d2 (d1 + s - 1)) as [Hd|Hd].
    + apply Z.le_trans with (fexp prec emax (d1 + e1 - (d2 + e2)));
        [unfold e'; lia|].
      apply fexp_mono.
      destruct (Zdigits2_bounds (Z.pos m1) ltac:(lia)) as (_ & Hlo1 & _).
      destruct (Zdigits2_bounds (Z.pos m2) ltac:(lia)) as (_ & _ & Hhi2).
      fold d1 in Hlo1. fold d2 in Hhi2.
      assert (Hk : 2 ^ (d1 + s - d2 - 1) <= q).
      { destruct (Z_le_gt_dec (2 ^ (d1 + s - d2 - 1)) q) as [H|H]; [exact H|].
        exfalso.
        assert (Hp : 2 ^ (d1 - 1) * 2 ^ s = 2 ^ (d1 + s - d2 - 1) * 2 ^ d2).
        { rewrite <- !Z.pow_add_r by (unfold d1, d2 in *; cbn in *; lia).
          f_equal. lia. }
        assert (Hq1 : q + 1 <= 2 ^ (d1 + s - d2 - 1)) by lia.
        assert (H0 : 0 < 2 ^ (d1 + s - d2 - 1)) by (apply Z.pow_pos_nonneg; lia).
        nia. }
      assert (Hdq : d1 + s - d2 <= Zdigits2 q).
      { apply Zdigits2_ge; [|lia].
        replace (d1 + s - d2 - 1) with (d1 + s - d2 - 1) by lia. exact Hk. }
      unfold s in Hdq. lia.
    + assert (He : e' <= emin prec emax).
      { unfold e', SpecFloat.fexp in *. unfold s in Hd. lia. }
      pose proof (fexp_ge_emin (Zdigits2 q + e')). lia.
  - rewrite Hv. unfold F2Q. nra.
  - rewrite Hv. unfold F2Q. rewrite inject_Z_plus. change (inject_Z 1) with 1%Q. nra.
  - intros Hl. apply new_location_exact in Hl. rewrite Hv, Hl. unfold F2Q.
    change (inject_Z 0) with 0%Q. field.
    assert (0 < inject_Z (Z.pos m2))%Q
      by (change 0%Q with (inject_Z 0); rewrite <- Zlt_Qlt; lia).
    lra.
  - intros Hl. rewrite Hv. unfold F2Q.
    assert (Hr0 : r <> 0) by (intros H0; apply Hl, new_location_exact, H0).
    assert (Ht : (0 < inject_Z r / inject_Z (Z.pos m2))%Q).
    { apply Qlt_shift_div_l;
        [change 0%Q with (inject_Z 0); rewrite <- Zlt_Qlt; lia|].
      rewrite Qmult_0_l. change 0%Q with (inject_Z 0). rewrite <- Zlt_Qlt. lia. }
    nra.
Qed.

(** [SFdiv] by a finite divisor that is not zero rounds the
    quotient. *)
Lemma div_rounded (x : spec_float) (sy : bool) (my : positive) (ey : Z) :
  Float32.is_finite x = true ->
  rounded prec emax (Float32.to_Q x / Float32.to_Q (S754_finite sy my ey))%Q
    (SFdiv prec emax x (S754_finite sy my ey)).
Proof.
  intros Hx.
  assert (Hy : (0 < F2Q (Z.pos my) ey)%Q).
  { rewrite <- (F2Q_0 ey). apply F2Q_lt. lia. }
  destruct x as [sx|sx| |sx mx ex]; try discriminate.
  - cbn [SFdiv]. apply (rounded_ext 0%Q); [|apply rounded_zero].
    rewrite to_Q_zero, to_Q_finite.
    destruct sy; cbn [cond_Zopp]; change (- Z.pos my)%Z with (- (Z.pos my))%Z;
      rewrite ?F2Q_opp; field; lra.
  - cbn [SFdiv].
    pose proof (div_core_spec mx my ex ey) as H. cbv zeta in H.
    destruct (SFdiv_core_binary prec emax (Z.pos mx) ex (Z.pos my) ey)
      as [[q e'] l].
    destruct H as (Hq & He & Hlo & Hhi & Hex & Hin).
    eapply rounded_ext; [|apply (round_aux_rounded (xorb sx sy) q e' l _ Hq He Hlo Hhi Hex Hin)].
    rewrite !to_Q_finite.
    destruct sx, sy; cbn [xorb cond_Zopp];
      change (- Z.pos mx)%Z with (- (Z.pos mx))%Z;
      change (- Z.pos my)%Z with (- (Z.pos my))%Z;
      rewrite ?F2Q_opp; field; lra.
Qed.

Lemma to_Q_opp (r : spec_float) :
  (Float32.to_Q (SFopp r) == - Float32.to_Q r)%Q.
Proof.
  destruct r as [s|s| |s m e]; cbn [SFopp]; try reflexivity.
  rewrite !to_Q_finite. destruct s; cbn [negb cond_Zopp];
    change (- Z.pos m)%Z with (- (Z.pos m))%Z; rewrite ?F2Q_opp; ring.
Qed.

Lemma is_finite_opp (r : spec_float) :
  Float32.is_finite (SFopp r) = Float32.is_finite r.
Proof. destruct r; reflexivity. Qed.

(** Rounding is symmetric. *)
Lemma rounded_opp (x : Q) (r : spec_float) :
  rounded prec emax x r -> rounded prec emax (- x)%Q (SFopp r).
Proof.
  intros (A & B & C & D). split; [|split; [|split]].
  - intros u Hu Hx Hf. rewrite is_finite_opp in Hf. rewrite to_Q_opp.
    pose proof (B (- u)%Q (representable_opp u Hu) ltac:(lra) Hf). lra.
  - intros l Hl Hx Hf. rewrite is_finite_opp in Hf. rewrite to_Q_opp.
    pose proof (A (- l)%Q (representable_opp l Hl) ltac:(lra) Hf). lra.
  - intros l u Hl Hu H1 H2. rewrite is_finite_opp.
    apply (C (- u)%Q (- l)%Q); [apply representable_opp, Hu
                               |apply representable_opp, Hl|lra|lra].
  - intros Hf. rewrite is_finite_opp in Hf. specialize (D Hf).
    apply representable_opp in D.
    destruct D as (m & e & Hm & He & Hq). exists m, e.
    split; [exact Hm|]. split; [exact He|]. rewrite to_Q_opp. exact Hq.
Qed.

(** The difference of two numbers of the format is a multiple of the
    smallest positive number of the format. *)
Lemma diff_on_grid (a b : Q) :
  representable prec emax a -> representable prec emax b ->
  exists k, (a - b == F2Q k (emin prec emax))%Q.
Proof.
  intros (ma & ea & _ & Hea & Ha) (mb & eb & _ & Heb & Hb).
  exists (ma * 2 ^ (ea - emin prec emax) - mb * 2 ^ (eb - emin prec emax)).
  rewrite Ha, Hb.
  rewrite (F2Q_align ma ea (emin prec emax)), (F2Q_align mb eb (emin prec emax)) by lia.
  unfold Z.sub at 3. rewrite F2Q_add, F2Q_opp. ring.
Qed.

(** The rounding [d] of a number [x >= 0] on the grid, divided by at
    least 2, does not exceed [x]: some number of the format lies
    between the quotient and [x]. *)
Lemma shrink_bound (x : Q) (d : spec_float) (n : Q) :
  rounded prec emax x d -> Float32.is_finite d = true ->
  (exists k, (x == F2Q k (emin prec emax))%Q) ->
  (0 <= x)%Q -> (2 <= n)%Q ->
  exists u,
    representable prec emax u /\ (0 <= Float32.to_Q d)%Q
    /\ (Float32.to_Q d / n <= u)%Q /\ (u <= x)%Q.
Proof.
  intros (A & B & C & D) Hf (k & Hk) Hx Hn.
  assert (Hd0 : (0 <= Float32.to_Q d)%Q) by (apply B; [apply representable_0|lra|exact Hf]).
  pose proof (D Hf) as Rd.
  destruct (Qlt_le_dec x (Float32.to_Q d)) as [Hlt|Hle].
  - destruct Rd as (m & e & Hm & He & Hq).
    pose proof (pow2_pos e) as Pe.
    assert (Hm0 : 0 < m).
    { destruct (Z_le_gt_dec m 0) as [H|H]; [|lia]. exfalso.
      assert (F2Q m e <= F2Q 0 e)%Q by (apply F2Q_le; exact H).
      rewrite F2Q_0 in H0. lra. }
    destruct (Z_le_gt_dec 2 m) as [H2|H1].
    + exists (F2Q (m - 1) e). split; [apply representable_F2Q; lia|].
      split; [exact Hd0|].
      assert (Hu : (F2Q (m - 1) e < Float32.to_Q d)%Q)
        by (rewrite Hq; apply F2Q_lt; lia).
      split.
      * apply Qle_shift_div_r; [lra|]. rewrite Hq. unfold F2Q.
        unfold Z.sub. rewrite inject_Z_plus, inject_Z_opp.
        change (inject_Z 1) with 1%Q.
        assert (HX : (2 <= inject_Z m)%Q)
          by (change 2%Q with (inject_Z 2); rewrite <- Zle_Qle; exact H2).
        set (X := inject_Z m) in *. set (P := (2 ^ e)%Q) in *.
        assert (G1 : (0 <= (X - 2) * P)%Q) by nra.
        assert (G2 : (0 <= (X - 1) * P)%Q) by nra.
        assert (G3 : (0 <= ((X - 1) * P) * (n - 2))%Q)
          by (apply Qmult_le_0_compat; lra).
        nra.
      * destruct (Qlt_le_dec (F2Q (m - 1) e) x) as [H|H]; [lra|]. exfalso.
        pose proof (A (F2Q (m - 1) e) ltac:(apply representable_F2Q; lia) H Hf).
        lra.
    + assert (m = 1) as -> by lia.
      destruct (Z.eq_dec e (emin prec emax)) as [->|Hne].
      * exfalso.
        assert (Hk1 : k < 1).
        { apply (F2Q_lt k 1 (emin prec emax)). rewrite <- Hk, <- Hq. exact Hlt. }
        assert (Hk0 : 0 <= k).
        { apply (F2Q_le 0 k (emin prec emax)). rewrite <- Hk, F2Q_0. exact Hx. }
        assert (k = 0) as -> by lia. rewrite F2Q_0 in Hk.
        pose proof (A 0%Q representable_0 ltac:(lra) Hf).
        assert (0 < F2Q 1 (emin prec emax))%Q
          by (rewrite <- (F2Q_0 (emin prec emax)); apply F2Q_lt; lia).
        lra.
      * exists (F2Q 1 (e - 1)). split; [apply representable_F2Q; lia|].
        split; [exact Hd0|].
        assert (Hh : (F2Q 1 e == 2 * F2Q 1 (e - 1))%Q).
        { rewrite (F2Q_align 1 e (e - 1)) by lia.
          replace (e - (e - 1)) with 1 by lia. unfold F2Q.
          change (inject_Z (1 * 2 ^ 1)) with 2%Q. change (inject_Z 1) with 1%Q. ring. }
        assert (Hp : (0 < F2Q 1 (e - 1))%Q)
          by (rewrite <- (F2Q_0 (e - 1)); apply F2Q_lt; lia).
        split.
        -- apply Qle_shift_div_r; [lra|]. rewrite Hq, Hh. nra.
        -- destruct (Qlt_le_dec (F2Q 1 (e - 1)) x) as [H|H]; [lra|]. exfalso.
           pose proof (A (F2Q 1 (e - 1)) ltac:(apply representable_F2Q; lia) H Hf).
           lra.
  - exists (Float32.to_Q d). split; [exact Rd|]. split; [exact Hd0|].
    split; [|exact Hle]. apply Qle_shift_div_r; [lra|]. nra.
Qed.

(** A number of the format rounds to itself. *)
Lemma rounded_exact (x : Q) (r : spec_float) :
  rounded prec emax x r -> representable prec emax x ->
  Float32.is_finite r = true /\ (Float32.to_Q r == x)%Q.
Proof.
  intros (A & B & C & _) Hx.
  pose proof (C x x Hx Hx (Qle_refl x) (Qle_refl x)) as Hf.
  split; [exact Hf|].
  pose proof (A x Hx (Qle_refl x) Hf). pose proof (B x Hx (Qle_refl x) Hf).
  apply Qle_antisym; assumption.
Qed.

End Format.
(** ** C8: one step of linear interpolation, in binary32 *)

Section Binary32.
Import Rounding.

Lemma prec_pos : 0 < Float32.prec.
Proof. reflexivity. Qed.

Lemma prec_lt_emax : Float32.prec < Float32.emax.
Proof. reflexivity. Qed.

(** A valid float is a number of the format. *)
Lemma valid_representable (f : float) :
  is_valid f = true ->
  representable Float32.prec Float32.emax (Float32.to_Q f).
Proof.
  unfold is_valid. intros H. apply andb_true_iff in H as [Hf Hv].
  destruct f as [s|s| |s m e]; try discriminate.
  - apply (representable_0 _ _ prec_pos prec_lt_emax).
  - cbn [valid_binary] in Hv. unfold bounded, canonical_mantissa in Hv.
    apply andb_true_iff in Hv as [Hc He].
    apply Z.eqb_eq in Hc. apply Z.leb_le in He.
    exists (cond_Zopp s (Z.pos m)), e.
    unfold SpecFloat.fexp in Hc.
    destruct (Zdigits2_bounds (Z.pos m) ltac:(lia)) as (_ & _ & Hd).
    cbn [Zdigits2] in Hd.
    split; [|split; [lia|apply to_Q_finite]].
    assert (Z.pos m < 2 ^ Float32.prec).
    { eapply Z.lt_le_trans; [exact Hd|]. apply Z.pow_le_mono_r; lia. }
    destruct s; cbn [cond_Zopp]; lia.
Qed.

(** [(float)stepsLeft] for an [int] of at least 2: a finite float, not
    below 2. *)
Lemma of_int_steps (n : Z) :
  2 <= n <= Float32.INT_MAX ->
  exists mn en,
    Float32.of_int n = S754_finite false mn en
    /\ (2 <= Float32.to_Q (S754_finite false mn en))%Q.
Proof.
  intros Hn. unfold Float32.INT_MAX in Hn.
  pose proof (normalize_rounded _ _ prec_pos prec_lt_emax n 0 false)
    as (_ & B & C & _).
  change (binary_normalize Float32.prec Float32.emax n 0 false)
    with (Float32.of_int n) in B, C.
  assert (R2 : representable Float32.prec Float32.emax (F2Q 2 0))
    by (apply representable_F2Q;
        unfold SpecFloat.emin, Float32.prec, Float32.emax; simpl; lia).
  assert (R31 : representable Float32.prec Float32.emax (F2Q 1 31))
    by (apply representable_F2Q;
        unfold SpecFloat.emin, Float32.prec, Float32.emax; simpl; lia).
  assert (H2 : (F2Q 2 0 <= F2Q n 0)%Q) by (apply F2Q_le; lia).
  assert (H31 : (F2Q n 0 <= F2Q 1 31)%Q).
  { rewrite (F2Q_align 1 31 0) by lia. apply F2Q_le. lia. }
  pose proof (C _ _ R2 R31 H2 H31) as Hf.
  pose proof (B _ R2 H2 Hf) as Hlow.
  assert (E2 : (F2Q 2 0 == 2)%Q) by (unfold F2Q; cbn; ring).
  rewrite E2 in Hlow.
  destruct (Float32.of_int n) as [s|s| |s m e]; try discriminate.
  - cbn in Hlow. lra.
  - destruct s.
    + exfalso. rewrite to_Q_finite in Hlow. cbn [cond_Zopp] in Hlow.
      assert (F2Q (- Z.pos m) e < F2Q 0 e)%Q by (apply F2Q_lt; lia).
      rewrite F2Q_0 in H. lra.
    + exists m, e. split; [reflexivity|exact Hlow].
Qed.

(** The step towards a target that is not below the source. *)
Lemma step_up (t s : float) (mn : positive) (en : Z) :
  is_valid t = true -> is_valid s = true ->
  (2 <= Float32.to_Q (S754_finite false mn en))%Q ->
  Float32.is_finite (Float32.sub t s) = true ->
  (Float32.to_Q s <= Float32.to_Q t)%Q ->
  let r := Float32.add (Float32.div (Float32.sub t s) (S754_finite false mn en)) s in
  Float32.is_finite r = true
  /\ (Float32.to_Q s <= Float32.to_Q r)%Q /\ (Float32.to_Q r <= Float32.to_Q t)%Q.
Proof.
  intros Vt Vs Hn Hfd Hst r.
  pose proof (valid_representable t Vt) as Rt.
  pose proof (valid_representable s Vs) as Rs.
  assert (Ft : Float32.is_finite t = true)
    by (unfold is_valid in Vt; apply andb_true_iff in Vt; apply Vt).
  assert (Fs : Float32.is_finite s = true)
    by (unfold is_valid in Vs; apply andb_true_iff in Vs; apply Vs).
  pose proof (sub_rounded _ _ prec_pos prec_lt_emax t s Ft Fs Rt Rs) as Rd.
  change (SFsub Float32.prec Float32.emax t s) with (Float32.sub t s) in Rd.
  destruct (shrink_bound _ _ prec_pos prec_lt_emax _ _
              (Float32.to_Q (S754_finite false mn en)) Rd Hfd
              (diff_on_grid _ _ _ _ Rt Rs) ltac:(lra) Hn)
    as (u & Ru & Hd0 & Hdu & Hux).
  set (d := Float32.sub t s) in *.
  set (nf := S754_finite false mn en) in *.
  pose proof (div_rounded _ _ prec_pos prec_lt_emax d false mn en Hfd)
    as (Aq & Bq & Cq & Dq).
  change (SFdiv Float32.prec Float32.emax d (S754_finite false mn en))
    with (Float32.div d nf) in Aq, Bq, Cq, Dq.
  fold nf in Aq, Bq, Cq.
  assert (Hq0 : (0 <= Float32.to_Q d / Float32.to_Q nf)%Q)
    by (apply Qle_shift_div_l; lra).
  pose proof (representable_0 _ _ prec_pos prec_lt_emax) as R0.
  pose proof (Cq _ _ R0 Ru Hq0 Hdu) as Fq.
  pose proof (Bq _ R0 Hq0 Fq) as Hq1.
  pose proof (Aq _ Ru Hdu Fq) as Hq2.
  pose proof (add_rounded _ _ prec_pos prec_lt_emax (Float32.div d nf) s
                Fq Fs (Dq Fq) Rs) as (Ar & Br & Cr & _).
  change (SFadd Float32.prec Float32.emax (Float32.div d nf) s) with r in Ar, Br, Cr.
  assert (H1 : (Float32.to_Q s <= Float32.to_Q (Float32.div d nf) + Float32.to_Q s)%Q)
    by lra.
  assert (H2 : (Float32.to_Q (Float32.div d nf) + Float32.to_Q s <= Float32.to_Q t)%Q)
    by lra.
  pose proof (Cr _ _ Rs Rt H1 H2) as Fr.
  split; [exact Fr|]. split; [apply (Br _ Rs H1 Fr)|apply (Ar _ Rt H2 Fr)].
Qed.

(** The step towards a target that is not above the source. *)
Lemma step_down (t s : float) (mn : positive) (en : Z) :
  is_valid t = true -> is_valid s = true ->
  (2 <= Float32.to_Q (S754_finite false mn en))%Q ->
  Float32.is_finite (Float32.sub t s) = true ->
  (Float32.to_Q t <= Float32.to_Q s)%Q ->
  let r := Float32.add (Float32.div (Float32.sub t s) (S754_finite false mn en)) s in
  Float32.is_finite r = true
  /\ (Float32.to_Q t <= Float32.to_Q r)%Q /\ (Float32.to_Q r <= Float32.to_Q s)%Q.
Proof.
  intros Vt Vs Hn Hfd Hst r.
  pose proof (valid_representable t Vt) as Rt.
  pose proof (valid_representable s Vs) as Rs.
  assert (Ft : Float32.is_finite t = true)
    by (unfold is_valid in Vt; apply andb_true_iff in Vt; apply Vt).
  assert (Fs : Float32.is_finite s = true)
    by (unfold is_valid in Vs; apply andb_true_iff in Vs; apply Vs).
  pose proof (sub_rounded _ _ prec_pos prec_lt_emax t s Ft Fs Rt Rs) as Rd.
  change (SFsub Float32.prec Float32.emax t s) with (Float32.sub t s) in Rd.
  set (d := Float32.sub t s) in *.
  set (nf := S754_finite false mn en) in *.
  assert (Hgrid : exists k, (- (Float32.to_Q t - Float32.to_Q s)
                             == F2Q k (emin Float32.prec Float32.emax))%Q).
  { destruct (diff_on_grid _ _ _ _ Rs Rt) as [k Hk]. exists k.
    rewrite <- Hk. ring. }
  destruct (shrink_bound _ _ prec_pos prec_lt_emax _ _ (Float32.to_Q nf)
              (rounded_opp _ _ prec_pos _ _ Rd)
              ltac:(rewrite is_finite_opp; exact Hfd) Hgrid ltac:(lra) Hn)
    as (u & Ru & Hd0 & Hdu & Hux).
  rewrite to_Q_opp in Hd0, Hdu.
  assert (Eopp : (- Float32.to_Q d / Float32.to_Q nf
                  == - (Float32.to_Q d / Float32.to_Q nf))%Q) by (field; lra).
  rewrite Eopp in Hdu.
  pose proof (div_rounded _ _ prec_pos prec_lt_emax d false mn en Hfd)
    as (Aq & Bq & Cq & Dq).
  change (SFdiv Float32.prec Float32.emax d (S754_finite false mn en))
    with (Float32.div d nf) in Aq, Bq, Cq, Dq.
  fold nf in Aq, Bq, Cq.
  assert (Hq0 : (Float32.to_Q d / Float32.to_Q nf <= 0)%Q).
  { assert (0 <= - Float32.to_Q d / Float32.to_Q nf)%Q
      by (apply Qle_shift_div_l; lra).
    lra. }
  pose proof (representable_0 _ _ prec_pos prec_lt_emax) as R0.
  pose proof (representable_opp _ _ prec_pos u Ru) as Rl.
  assert (Hlq : (- u <= Float32.to_Q d / Float32.to_Q nf)%Q) by lra.
  pose proof (Cq _ _ Rl R0 Hlq Hq0) as Fq.
  pose proof (Bq _ Rl Hlq Fq) as Hq1.
  pose proof (Aq _ R0 Hq0 Fq) as Hq2.
  pose proof (add_rounded _ _ prec_pos prec_lt_emax (Float32.div d nf) s
                Fq Fs (Dq Fq) Rs) as (Ar & Br & Cr & _).
  change (SFadd Float32.prec Float32.emax (Float32.div d nf) s) with r in Ar, Br, Cr.
  assert (H1 : (Float32.to_Q t <= Float32.to_Q (Float32.div d nf) + Float32.to_Q s)%Q)
    by lra.
  assert (H2 : (Float32.to_Q (Float32.div d nf) + Float32.to_Q s <= Float32.to_Q s)%Q)
    by lra.
  pose proof (Cr _ _ Rt Rs H1 H2) as Fr.
  split; [exact Fr|]. split; [apply (Br _ Rt H1 Fr)|apply (Ar _ Rs H2 Fr)].
Qed.

(** Where no operation has to round, the step is the formula. *)
Lemma step_exact (n : Z) (t s : float) :
  is_valid t = true -> is_valid s = true ->
  2 <= n ->
  representable Float32.prec Float32.emax (inject_Z n) ->
  representable Float32.prec Float32.emax (Float32.to_Q t - Float32.to_Q s)%Q ->
  representable Float32.prec Float32.emax
    ((Float32.to_Q t - Float32.to_Q s) / inject_Z n)%Q ->
  representable Float32.prec Float32.emax
    ((Float32.to_Q t - Float32.to_Q s) / inject_Z n + Float32.to_Q s)%Q ->
  (Float32.to_Q (NetPhysics.interpolate n t s)
   == (Float32.to_Q t - Float32.to_Q s) / inject_Z n + Float32.to_Q s)%Q.
Proof.
  intros Vt Vs Hn Rn Rd Rq Rr.
  pose proof (valid_representable t Vt) as Rt.
  pose proof (valid_representable s Vs) as Rs.
  assert (Ft : Float32.is_finite t = true)
    by (unfold is_valid in Vt; apply andb_true_iff in Vt; apply Vt).
  assert (Fs : Float32.is_finite s = true)
    by (unfold is_valid in Vs; apply andb_true_iff in Vs; apply Vs).
  assert (Hn2 : (2 <= inject_Z n)%Q)
    by (change 2%Q with (inject_Z 2); rewrite <- Zle_Qle; exact Hn).
  (* the conversion of the step count *)
  assert (En : (F2Q n 0 == inject_Z n)%Q) by (unfold F2Q; cbn; ring).
  pose proof (rounded_ext _ _ _ _ _ En
                (normalize_rounded _ _ prec_pos prec_lt_emax n 0 false)) as Rnf.
  change (binary_normalize Float32.prec Float32.emax n 0 false)
    with (Float32.of_int n) in Rnf.
  destruct (rounded_exact _ _ _ _ Rnf Rn) as [Fn Qn].
  destruct (Float32.of_int n) as [sn|sn| |sn mn en] eqn:Eof; try discriminate.
  { cbn in Qn. lra. }
  (* the difference *)
  destruct (rounded_exact _ _ _ _
              (sub_rounded _ _ prec_pos prec_lt_emax t s Ft Fs Rt Rs) Rd)
    as [Fd Qd].
  change (SFsub Float32.prec Float32.emax t s) with (Float32.sub t s) in Fd, Qd.
  (* the quotient *)
  pose proof (div_rounded _ _ prec_pos prec_lt_emax (Float32.sub t s) sn mn en Fd)
    as Rdiv.
  assert (Eq : (Float32.to_Q (Float32.sub t s) / Float32.to_Q (S754_finite sn mn en)
                == (Float32.to_Q t - Float32.to_Q s) / inject_Z n)%Q).
  { rewrite Qd, Qn. reflexivity. }
  destruct (rounded_exact _ _ _ _ (rounded_ext _ _ _ _ _ Eq Rdiv) Rq) as [Fq Qq].
  change (SFdiv Float32.prec Float32.emax (Float32.sub t s) (S754_finite sn mn en))
    with (Float32.div (Float32.sub t s) (S754_finite sn mn en)) in Fq, Qq.
  (* the sum *)
  assert (Rqq : representable Float32.prec Float32.emax
                  (Float32.to_Q (Float32.div (Float32.sub t s)
                                   (S754_finite sn mn en)))).
  { destruct Rq as (m & e & Hm & He & Hq). exists m, e.
    split; [exact Hm|]. split; [exact He|]. rewrite Qq. exact Hq. }
  pose proof (add_rounded _ _ prec_pos prec_lt_emax _ s Fq Fs Rqq Rs) as Radd.
  assert (Er : (Float32.to_Q (Float32.div (Float32.sub t s) (S754_finite sn mn en))
                + Float32.to_Q s
                == (Float32.to_Q t - Float32.to_Q s) / inject_Z n + Float32.to_Q s)%Q).
  { rewrite Qq. reflexivity. }
  destruct (rounded_exact _ _ _ _ (rounded_ext _ _ _ _ _ Er Radd) Rr) as [_ Qr].
  unfold NetPhysics.interpolate. rewrite Eof. exact Qr.
Qed.

End Binary32.

(** The formula in exact arithmetic: with at least two steps left, one
    step strictly shortens the distance to the target. *)
Lemma exact_step_approaches (t s r : Q) (n : Z) :
  2 <= n -> (r == (t - s) / inject_Z n + s)%Q -> ~ (s == t)%Q ->
  (Qabs (t - r) < Qabs (t - s))%Q.
Proof.
  intros Hn Hr Hne.
  assert (Hn2 : (2 <= inject_Z n)%Q)
    by (change 2%Q with (inject_Z 2); rewrite <- Zle_Qle; lia).
  set (k := (1 / inject_Z n)%Q).
  assert (Hk0 : (0 < k)%Q) by (unfold k; apply Qlt_shift_div_l; lra).
  assert (Hk1 : (k <= 1 # 2)%Q) by (unfold k; apply Qle_shift_div_r; lra).
  assert (Hd : (t - r == (t - s) * (1 - k))%Q)
    by (rewrite Hr; unfold k; field; lra).
  rewrite Hd, Qabs_Qmult.
  rewrite (Qabs_pos (1 - k)%Q) by lra.
  assert (Hpos : (0 < Qabs (t - s))%Q).
  { destruct (Qlt_le_dec 0 (Qabs (t - s))) as [H|H]; [exact H|].
    exfalso. apply Hne. revert H.
    apply Qabs_case; intros; lra. }
  nra.
Qed.

(** C8, as the code has it.  [interpolate] computes
    [(target - source)/stepsLeft + source] in binary32, every operation
    rounding to nearest.  For a target and a source that are finite
    floats whose difference [target - source] is finite in binary32
    (it does not overflow), and [stepsLeft] an [int] of at least 2: the
    result is finite and lies between the source and the target, so
    that the step never moves away from the target and never goes past
    it; the distance to the target is strictly smaller than before
    whenever the result differs from the source.  Where no operation
    has to round (the step count, the difference, the quotient and the
    sum are numbers of the format), the result is the value of the
    formula, and the distance is strictly smaller whenever the source
    differs from the target. *)
Theorem interpolate_stays_between (stepsLeft : Z) (target source : float) :
  2 <= stepsLeft <= Float32.INT_MAX ->
  Rounding.is_valid target = true -> Rounding.is_valid source = true ->
  Float32.is_finite (Float32.sub target source) = true ->
  let r := NetPhysics.interpolate stepsLeft target source in
  let t := Float32.to_Q target in
  let s := Float32.to_Q source in
  let format := Rounding.representable Float32.prec Float32.emax in
  Float32.is_finite r = true
  /\ ((s <= t)%Q -> (s <= Float32.to_Q r)%Q /\ (Float32.to_Q r <= t)%Q)
  /\ ((t <= s)%Q -> (t <= Float32.to_Q r)%Q /\ (Float32.to_Q r <= s)%Q)
  /\ (Qabs (t - Float32.to_Q r) <= Qabs (t - s))%Q
  /\ (~ (Float32.to_Q r == s)%Q -> (Qabs (t - Float32.to_Q r) < Qabs (t - s))%Q)
  /\ (format (inject_Z stepsLeft) -> format (t - s)%Q ->
      format ((t - s) / inject_Z stepsLeft)%Q ->
      format ((t - s) / inject_Z stepsLeft + s)%Q ->
      (Float32.to_Q r == (t - s) / inject_Z stepsLeft + s)%Q
      /\ (~ (s == t)%Q -> (Qabs (t - Float32.to_Q r) < Qabs (t - s))%Q)).
Proof.
  intros Hn Vt Vs Hfd r t s format.
  destruct (of_int_steps stepsLeft Hn) as (mn & en & En & H2).
  assert (Hr : r = Float32.add (Float32.div (Float32.sub target source)
                                  (S754_finite false mn en)) source).
  { unfold r, NetPhysics.interpolate. rewrite En. reflexivity. }
  assert (Hup : (s <= t)%Q ->
                Float32.is_finite r = true
                /\ (s <= Float32.to_Q r)%Q /\ (Float32.to_Q r <= t)%Q).
  { intros Hst. rewrite Hr. apply step_up; assumption. }
  assert (Hdown : (t <= s)%Q ->
                  Float32.is_finite r = true
                  /\ (t <= Float32.to_Q r)%Q /\ (Float32.to_Q r <= s)%Q).
  { intros Hst. rewrite Hr. apply step_down; assumption. }
  assert (Hexact : format (inject_Z stepsLeft) -> format (t - s)%Q ->
                   format ((t - s) / inject_Z stepsLeft)%Q ->
                   format ((t - s) / inject_Z stepsLeft + s)%Q ->
                   (Float32.to_Q r == (t - s) / inject_Z stepsLeft + s)%Q
                   /\ (~ (s == t)%Q ->
                       (Qabs (t - Float32.to_Q r) < Qabs (t - s))%Q)).
  { intros Rn Rd Rq Rr.
    pose proof (step_exact stepsLeft target source Vt Vs (proj1 Hn) Rn Rd Rq Rr)
      as He.
    split; [exact He|]. intros Hne.
    exact (exact_step_approaches t s _ stepsLeft (proj1 Hn) He Hne). }
  clearbody r. clear Hr.
  destruct (Qlt_le_dec t s) as [Hlt|Hle].
  - destruct (Hdown ltac:(lra)) as (Hf & H3 & H4).
    split; [exact Hf|]. split; [intros; lra|]. split; [intros; split; assumption|].
    assert (Hd : (Qabs (t - Float32.to_Q r) <= Qabs (t - s))%Q
                 /\ (~ (Float32.to_Q r == s)%Q ->
                     (Qabs (t - Float32.to_Q r) < Qabs (t - s))%Q)).
    { rewrite (Qabs_neg (t - s)) by lra.
      rewrite (Qabs_neg (t - Float32.to_Q r)) by lra.
      split; [lra|]. intros Hne.
      destruct (Qlt_le_dec (Float32.to_Q r) s) as [H|H]; [lra|].
      exfalso. apply Hne. lra. }
    split; [apply Hd|]. split; [apply Hd|exact Hexact].
  - destruct (Hup Hle) as (Hf & H3 & H4).
    split; [exact Hf|]. split; [intros; split; assumption|].
    split; [intros Hts; destruct (Hdown Hts) as (_ & H5 & H6); split; assumption|].
    assert (Hd : (Qabs (t - Float32.to_Q r) <= Qabs (t - s))%Q
                 /\ (~ (Float32.to_Q r == s)%Q ->
                     (Qabs (t - Float32.to_Q r) < Qabs (t - s))%Q)).
    { rewrite (Qabs_pos (t - s)) by lra.
      rewrite (Qabs_pos (t - Float32.to_Q r)) by lra.
      split; [lra|]. intros Hne.
      destruct (Qlt_le_dec s (Float32.to_Q r)) as [H|H]; [lra|].
      exfalso. apply Hne. lra. }
    split; [apply Hd|]. split; [apply Hd|exact Hexact].
Qed.

(** From 0 towards 4 with two steps left: the step reaches 2. *)
Lemma interpolate_stays_between_witness :
  Float32.is_finite (NetPhysics.interpolate 2 (Samples.f32 4) (Samples.f32 0)) = true
  /\ (Qabs (Float32.to_Q (Samples.f32 4)
            - Float32.to_Q (NetPhysics.interpolate 2 (Samples.f32 4) (Samples.f32 0)))
      < Qabs (Float32.to_Q (Samples.f32 4) - Float32.to_Q (Samples.f32 0)))%Q
  /\ (Float32.to_Q (NetPhysics.interpolate 2 (Samples.f32 4) (Samples.f32 0))
      == (Float32.to_Q (Samples.f32 4) - Float32.to_Q (Samples.f32 0)) / inject_Z 2
         + Float32.to_Q (Samples.f32 0))%Q.
Proof.
  destruct (interpolate_stays_between 2 (Samples.f32 4) (Samples.f32 0))
    as (Hf & _ & _ & _ & Hstrict & Hexact).
  - unfold Float32.INT_MAX. lia.
  - vm_compute. reflexivity.
  - vm_compute. reflexivity.
  - vm_compute. reflexivity.
  - split; [exact Hf|]. split; [apply Hstrict; vm_compute; discriminate|].
    apply Hexact.
    + exists 2, 0. split; [reflexivity|]. split; [vm_compute; split; discriminate|].
      vm_compute. reflexivity.
    + exists 4, 0. split; [reflexivity|]. split; [vm_compute; split; discriminate|].
      vm_compute. reflexivity.
    + exists 2, 0. split; [reflexivity|]. split; [vm_compute; split; discriminate|].
      vm_compute. reflexivity.
    + exists 2, 0. split; [reflexivity|]. split; [vm_compute; split; discriminate|].
      vm_compute. reflexivity.
Defined.

(** C8, as stated, fails in binary32: from the source 16777216 towards
    the target 16777218 with two steps left, the increment 1 is lost to
    rounding; the step returns the source itself and the distance to
    the target stays 2. *)
Lemma interpolate_step_can_stall :
  let source := Float32.of_int 16777216 in
  let target := Float32.of_int 16777218 in
  2 <= 2
  /\ ~ (Float32.to_Q source == Float32.to_Q target)%Q
  /\ NetPhysics.interpolate 2 target source = source
  /\ ~ (Qabs (Float32.to_Q target
              - Float32.to_Q (NetPhysics.interpolate 2 target source))
        < Qabs (Float32.to_Q target - Float32.to_Q source))%Q.
Proof.
  cbn zeta. split; [lia|]. split; [vm_compute; discriminate|].
  split; [vm_compute; reflexivity|].
  vm_compute. discriminate.
Qed.

(** The difference of two finite floats can overflow: from the
    smallest towards the largest finite float the step is infinite. *)
Example interpolate_step_can_overflow :
  let big := S754_finite false 16777215 104 in
  let source := S754_finite true 16777215 104 in
  Rounding.is_valid big = true /\ Rounding.is_valid source = true
  /\ Float32.is_finite (Float32.sub big source) = false
  /\ NetPhysics.interpolate 2 big source = S754_infinity false.
Proof. vm_compute. repeat split; reflexivity. Qed.

(** ** Frame lemmas of the controller record *)

Section ControllerFrames.
Import Physics2 NetPhysics.

Lemma lookup_map_insert_new `{Countable K} {V} (k : K) (v : V) (m : gmap K V) :
  map_insert_new k v m !! k = Some (default v (m !! k)).
Proof.
  unfold map_insert_new. destruct (m !! k) eqn:E; cbn.
  - exact E.
  - apply lookup_insert_eq.
Qed.

Lemma lookup_map_insert_new_ne `{Countable K} {V} (k k' : K) (v : V)
  (m : gmap K V) :
  k <> k' -> map_insert_new k v m !! k' = m !! k'.
Proof.
  intros Hne. unfold map_insert_new. destruct (m !! k); [reflexivity|].
  apply lookup_insert_ne. exact Hne.
Qed.

Lemma map_at_Some `{Countable K} {V} (m : gmap K V) (k : K) (v : V) :
  m !! k = Some v -> map_at m k = Ok v.
Proof. intros E. unfold map_at. rewrite E. reflexivity. Qed.

Lemma map_count_Some `{Countable K} {V} (m : gmap K V) (k : K) (v : V) :
  m !! k = Some v -> map_count m k = true.
Proof. intros E. unfold map_count. rewrite E. reflexivity. Qed.

Lemma map_count_None `{Countable K} {V} (m : gmap K V) (k : K) :
  m !! k = None -> map_count m k = false.
Proof. intros E. unfold map_count. rewrite E. reflexivity. Qed.

End ControllerFrames.

(** ** C7: acquiring a lease *)

(** C7, as the code has it.  [acquireObs(body, duration)] on a
    registered body appends [OBJ_OWNER_ACQUIRE(id, duration)] to the
    outbound events and touches no other lease.  Both updates of the
    ledger are [insert]s, which keep an entry that is there: on the
    host the body ends with the lease it had, or with the permanent
    lease 0 when it had none, whatever the duration; on another peer a
    body without a lease gets the lease [duration]. *)
Theorem acquire_records_lease
  (c : NetPhysics.Controller) (obs : Physics2.Obs) (duration id : Z) :
  Physics2.objToId (NetPhysics._world c) !! obs = Some id ->
  exists c',
    NetPhysics.acquireObs obs duration c = Ok c'
    /\ NetPhysics._outEvents c'
       = NetPhysics._outEvents c
         ++ [EvPhysObj (PhysObj.allocOwnerAcquire id duration)]
    /\ (forall o, o <> obs ->
          Physics2.owned (NetPhysics._world c') !! o
          = Physics2.owned (NetPhysics._world c) !! o)
    /\ (NetPhysics._isHost c = true ->
        Physics2.owned (NetPhysics._world c') !! obs
        = Some (default 0 (Physics2.owned (NetPhysics._world c) !! obs)))
    /\ (NetPhysics._isHost c = false ->
        Physics2.owned (NetPhysics._world c) !! obs = None ->
        Physics2.owned (NetPhysics._world c') !! obs = Some duration).
Proof.
  intros Hid. unfold NetPhysics.acquireObs.
  destruct c as [ic oc ss host rot hp nh w ca dc fs lk nm oe].
  destruct w as [obl i2o o2i own uid nx].
  cbn in Hid |- *.
  destruct host; cbn; rewrite (map_at_Some _ _ _ Hid); cbn;
    eexists; (split; [reflexivity|]); cbn; (split; [reflexivity|]).
  - split; [|split].
    + intros o Ho. rewrite !lookup_map_insert_new_ne by congruence. reflexivity.
    + intros _. rewrite !lookup_map_insert_new. cbn.
      destruct (own !! obs); reflexivity.
    + discriminate.
  - split; [|split].
    + intros o Ho. rewrite lookup_map_insert_new_ne by congruence. reflexivity.
    + discriminate.
    + intros _ Hnone. rewrite lookup_map_insert_new, Hnone. reflexivity.
Qed.

Lemma acquire_records_lease_witness :
  exists c',
    NetPhysics.acquireObs 1%positive 5 (Samples.engine false true ∅ ∅) = Ok c'
    /\ Physics2.owned (NetPhysics._world c') !! 1%positive = Some 5.
Proof.
  destruct (acquire_records_lease (Samples.engine false true ∅ ∅) 1%positive 5 7
              eq_refl) as (c' & Hrun & _ & _ & _ & Hclient).
  exists c'. split; [exact Hrun|].
  apply Hclient; reflexivity.
Defined.

(** C7, as stated, fails on the host: acquiring body 1 for 5 ticks
    leaves the ledger at the permanent lease 0, not at 5. *)
Lemma acquire_on_host_is_permanent :
  match NetPhysics.acquireObs 1%positive 5 (Samples.engine true true ∅ ∅) with
  | Ok c' =>
      Physics2.owned (NetPhysics._world c') !! 1%positive = Some 0
      /\ Physics2.owned (NetPhysics._world c') !! 1%positive <> Some 5
  | _ => False
  end.
Proof. vm_compute. split; [reflexivity|discriminate]. Qed.

(** ** One tick: the three loops of [fixedUpdate] *)

Section Tick.
Import Physics2 NetPhysics Spec.

Lemma heap_modifyObs (c : Controller) (obj : Obs) (f : Obstacle -> Obstacle)
  (o : Obs) :
  heap (modifyObs obj f c) o = if decide (obj = o) then f (heap c obj) else heap c o.
Proof.
  unfold modifyObs; cbn. destruct (decide (obj = o)) as [->|Hne].
  - apply fn_lookup_insert.
  - apply fn_lookup_insert_ne. exact Hne.
Qed.

Lemma same_body_refl (a : Obstacle) : same_body a a.
Proof. repeat split. Qed.

Lemma same_body_trans (a b c : Obstacle) :
  same_body a b -> same_body b c -> same_body a c.
Proof.
  intros (H1 & H2 & H3 & H4 & H5) (G1 & G2 & G3 & G4 & G5).
  repeat split; congruence.
Qed.

Lemma pack_frame_refl (c : Controller) : pack_frame c c.
Proof.
  repeat split; try reflexivity. exists []. symmetry. apply app_nil_r.
Qed.

Lemma pack_frame_trans (a b c : Controller) :
  pack_frame a b -> pack_frame b c -> pack_frame a c.
Proof.
  intros (H1 & H2 & H3 & H4 & (l1 & H5) & H6) (G1 & G2 & G3 & G4 & (l2 & G5) & G6).
  split; [congruence|]. split; [congruence|]. split; [congruence|].
  split; [congruence|]. split.
  - exists (l1 ++ l2). rewrite G5, H5, app_assoc. reflexivity.
  - intros o. eapply same_body_trans; [apply G6|apply H6].
Qed.

(** *** The publishing loop *)

Lemma packOne_spec (c : Controller) (obj : Obs) :
  is_Some (objToId (_world c) !! obj) ->
  exists c', packOne obj c = Ok c' /\ pack_frame c c'.
Proof.
  intros [id Hid]. unfold packOne.
  rewrite (map_at_Some _ _ _ Hid). cbn [obind].
  destruct (isShared (heap c obj)).
  - eexists. split; [reflexivity|].
    split; [reflexivity|]. split; [reflexivity|]. split; [reflexivity|].
    split; [reflexivity|]. split; [eexists; reflexivity|].
    intros o. rewrite heap_modifyObs. cbn.
    destruct (decide (obj = o)) as [->|_]; repeat split.
  - eexists. split; [reflexivity|]. apply pack_frame_refl.
Qed.

Lemma packLoop_spec (l : list Obs) (c : Controller) :
  (forall o, o ∈ l -> is_Some (objToId (_world c) !! o)) ->
  exists c', foldM packOne l c = Ok c' /\ pack_frame c c'.
Proof.
  revert c. induction l as [|a l IH]; intros c Hids.
  - exists c. split; [reflexivity|apply pack_frame_refl].
  - destruct (packOne_spec c a) as (c1 & H1 & F1).
    { apply Hids. left. }
    destruct (IH c1) as (c2 & H2 & F2).
    { intros o Ho. destruct F1 as (-> & _). apply Hids. right. exact Ho. }
    exists c2. split.
    + cbn [foldM]. rewrite H1. exact H2.
    + eapply pack_frame_trans; eassumption.
Qed.

(** *** The ownership loop *)

Lemma lease_frame_refl (c : Controller) : lease_frame c c.
Proof. repeat split. Qed.

Lemma lease_frame_trans (a b c : Controller) :
  lease_frame a b -> lease_frame b c -> lease_frame a c.
Proof.
  intros (H1 & H2 & H3 & H4 & H5 & H6 & H7) (G1 & G2 & G3 & G4 & G5 & G6 & G7).
  repeat split; congruence.
Qed.

(** One body of the ownership loop: the lease of [obj] moves by
    [lease_next], no other lease moves, and a release is announced
    exactly when a peer other than the host sees the lease at 1. *)
Lemma leaseOne_spec (c : Controller) (obj : Obs) (id : Z) :
  objToId (_world c) !! obj = Some id ->
  exists c',
    leaseOne obj c = Ok c' /\ lease_frame c c'
    /\ owned (_world c') !! obj = lease_next (_isHost c) (owned (_world c) !! obj)
    /\ (forall o, o <> obj -> owned (_world c') !! o = owned (_world c) !! o)
    /\ _outEvents c'
       = _outEvents c
         ++ (if decide (owned (_world c) !! obj = Some 1 /\ _isHost c = false)
             then [EvPhysObj (PhysObj.allocOwnerRelease id)] else []).
Proof.
  intros Hid. unfold leaseOne, lease_next.
  destruct (owned (_world c) !! obj) as [t|] eqn:Hown.
  - rewrite (map_count_Some _ _ _ Hown), (map_at_Some _ _ _ Hown). cbn [obind].
    destruct (t =? 1) eqn:E1.
    + apply Z.eqb_eq in E1. subst t. unfold releaseObs.
      destruct (_isHost c) eqn:Hh; cbn [negb].
      * exists c. split; [reflexivity|]. split; [apply lease_frame_refl|].
        split; [exact Hown|]. split; [reflexivity|].
        rewrite decide_False by (intros [_ ?]; discriminate).
        symmetry. apply app_nil_r.
      * assert (Hid' : objToId (_world (modifyOwned (delete obj) c)) !! obj = Some id)
          by exact Hid.
        rewrite (map_at_Some _ _ _ Hid'). cbn [obind].
        eexists. split; [reflexivity|]. split; [repeat split|].
        split; [cbn; apply lookup_delete_eq|].
        split; [intros o Ho; cbn; apply lookup_delete_ne; congruence|].
        rewrite decide_True by (split; reflexivity). reflexivity.
    + apply Z.eqb_neq in E1.
      rewrite decide_False by (intros [[= ?] _]; contradiction).
      destruct (1 <? t) eqn:E2.
      * eexists. split; [reflexivity|]. split; [repeat split|].
        split; [cbn; apply lookup_insert_eq|].
        split; [intros o Ho; cbn; apply lookup_insert_ne; congruence|].
        cbn. symmetry. apply app_nil_r.
      * exists c. split; [reflexivity|]. split; [apply lease_frame_refl|].
        split; [exact Hown|]. split; [reflexivity|].
        symmetry. apply app_nil_r.
  - rewrite (map_count_None _ _ Hown).
    exists c. split; [reflexivity|]. split; [apply lease_frame_refl|].
    split; [exact Hown|]. split; [reflexivity|].
    rewrite decide_False by (intros [? _]; discriminate).
    symmetry. apply app_nil_r.
Qed.

(** The ownership loop.  The lease of a body of the list moves by
    [lease_next] when the list holds it once. *)
Lemma leaseLoop_spec (l : list Obs) (c : Controller) :
  (forall o, o ∈ l -> is_Some (objToId (_world c) !! o)) ->
  exists c',
    foldM leaseOne l c = Ok c' /\ lease_frame c c'
    /\ (NoDup l -> forall o, o ∈ l ->
          owned (_world c') !! o = lease_next (_isHost c) (owned (_world c) !! o))
    /\ (forall o, o ∉ l -> owned (_world c') !! o = owned (_world c) !! o)
    /\ exists evs,
         _outEvents c' = _outEvents c ++ evs
         /\ forall o id, o ∈ l -> objToId (_world c) !! o = Some id ->
              owned (_world c) !! o = Some 1 -> _isHost c = false ->
              EvPhysObj (PhysObj.allocOwnerRelease id) ∈ evs.
Proof.
  revert c. induction l as [|a l IH]; intros c Hids.
  - exists c. split; [reflexivity|]. split; [apply lease_frame_refl|].
    split; [intros _ o Ho; inversion Ho|]. split; [reflexivity|].
    exists []. split; [symmetry; apply app_nil_r|].
    intros o id Ho. inversion Ho.
  - destruct (Hids a) as [ida Hida]; [left|].
    destruct (leaseOne_spec c a ida Hida) as (c1 & H1 & F1 & Own1 & Oth1 & Ev1).
    pose proof F1 as (Fh & Fc & Fi & Fd & Fo & Fid & Fio).
    destruct (IH c1) as (c2 & H2 & F2 & Own2 & Oth2 & evs & Ev2 & Rel2).
    { intros o Ho. rewrite Fid. apply Hids. right. exact Ho. }
    exists c2. split; [cbn [foldM]; rewrite H1; exact H2|].
    split; [eapply lease_frame_trans; eassumption|].
    split; [|split].
    + intros Hnd o Ho. apply list.NoDup_cons in Hnd as [Ha Hnd].
      apply elem_of_cons in Ho as [->|Ho].
      * rewrite Oth2 by exact Ha. exact Own1.
      * rewrite (Own2 Hnd) by exact Ho. rewrite Fi.
        rewrite Oth1 by (intros ->; contradiction). reflexivity.
    + intros o Ho. apply not_elem_of_cons in Ho as [Hne Ho].
      rewrite Oth2 by exact Ho. apply Oth1. exact Hne.
    + eexists. split; [rewrite Ev2, Ev1, <- app_assoc; reflexivity|].
      intros o id Ho Hid Hown Hhost.
      apply elem_of_app. destruct (decide (o = a)) as [->|Hne].
      * left. rewrite decide_True by (split; assumption).
        assert (id = ida) as -> by congruence. left.
      * right. apply elem_of_cons in Ho as [->|Ho]; [contradiction|].
        apply (Rel2 o id Ho).
        -- rewrite Fid. exact Hid.
        -- rewrite Oth1 by exact Hne. exact Hown.
        -- rewrite Fi. exact Hhost.
Qed.

(** *** The interpolation loop *)

Lemma ratio_ok_table :
  forallb (fun num =>
             forallb (fun cur => ratio_ok (Z.of_nat cur) (Z.of_nat num))
               (seq 0 (S num)))
    (seq 1 30) = true.
Proof. vm_compute. reflexivity. Qed.

(** The assertion [0 <= t <= 1] of the loop holds on every target that
    meets its invariant. *)
Lemma ratio_ok_target (p : targetParam) :
  target_ok p -> ratio_ok (curStep p) (numSteps p) = true.
Proof.
  intros [Hn Hc].
  pose proof ratio_ok_table as T.
  rewrite forallb_forall in T.
  specialize (T (Z.to_nat (numSteps p))).
  rewrite forallb_forall in T.
  specialize (T ltac:(apply in_seq; lia) (Z.to_nat (curStep p))
                ltac:(apply in_seq; lia)).
  rewrite !Z2Nat.id in T by lia. exact T.
Qed.

Lemma snap_fields (p : targetParam) (o : Obstacle) :
  let o' := setShared true (snapTo p (setShared false o)) in
  position o' = P3 p /\ linearVelocity o' = targetVel p
  /\ angle o' = targetAngle p /\ angularVelocity o' = targetAngV p.
Proof. destruct o. repeat split. Qed.

(** One entry of the interpolation loop. *)
Lemma itprOne_spec (chk : bool) (obj : Obs) (p : targetParam) (c : Controller) :
  target_ok p ->
  exists c',
    itprOne chk (obj, p) c = Ok c' /\ itpr_frame c c'
    /\ (forall o, o <> obj -> heap c' o = heap c o)
    /\ (forall o, o ∈ _deleteCache c -> o ∈ _deleteCache c')
    /\ (shared (heap c obj) = true -> numSteps p - curStep p <= 1 ->
        heap c' obj = setShared true (snapTo p (setShared false (heap c obj)))
        /\ obj ∈ _deleteCache c').
Proof.
  intros Hok. unfold itprOne, isShared.
  destruct (shared (heap c obj)) eqn:Hsh; cbn [negb].
  - destruct (numSteps p - curStep p <=? 1) eqn:E.
    + cbn [obind]. eexists. split; [reflexivity|].
      split; [repeat split|]. split; [|split].
      * intros o Ho. rewrite !heap_modifyObs. cbn.
        rewrite !heap_modifyObs. rewrite !decide_False by congruence. reflexivity.
      * intros o Ho. cbn. apply elem_of_app. left. exact Ho.
      * intros _ _. split.
        -- rewrite !heap_modifyObs. cbn. rewrite !heap_modifyObs.
           rewrite !decide_True by reflexivity. reflexivity.
        -- cbn. apply elem_of_app. right. left.
    + apply Z.leb_gt in E.
      pose proof (ratio_ok_target p Hok) as Hr. unfold ratio_ok in Hr.
      unfold cuAssert. rewrite Hr, andb_false_r. cbn [obind].
      eexists. split; [reflexivity|].
      split; [repeat split|]. split; [|split].
      * intros o Ho. rewrite !heap_modifyObs. cbn.
        rewrite !heap_modifyObs. rewrite !decide_False by congruence. reflexivity.
      * intros o Ho. exact Ho.
      * intros _ Hle. lia.
  - eexists. split; [reflexivity|].
    split; [repeat split|]. split; [reflexivity|]. split.
    + intros o Ho. cbn. apply elem_of_app. left. exact Ho.
    + discriminate.
Qed.

Lemma itpr_frame_trans (a b c : Controller) :
  itpr_frame a b -> itpr_frame b c -> itpr_frame a c.
Proof. intros (H1 & H2 & H3) (G1 & G2 & G3). repeat split; congruence. Qed.

(** The interpolation loop over entries with distinct keys. *)
Lemma itprLoop_spec (chk : bool) (entries : list (Obs * targetParam))
  (c : Controller) :
  NoDup entries.*1 ->
  (forall o p, (o, p) ∈ entries -> target_ok p) ->
  exists c',
    foldM (itprOne chk) entries c = Ok c' /\ itpr_frame c c'
    /\ (forall o, o ∉ entries.*1 -> heap c' o = heap c o)
    /\ (forall o, o ∈ _deleteCache c -> o ∈ _deleteCache c')
    /\ (forall o p, (o, p) ∈ entries ->
          (shared (heap c o) = false ->
           heap c' o = heap c o /\ o ∈ _deleteCache c')
          /\ (shared (heap c o) = true -> numSteps p - curStep p <= 1 ->
              heap c' o = setShared true (snapTo p (setShared false (heap c o)))
              /\ o ∈ _deleteCache c')).
Proof.
  revert c. induction entries as [|[a pa] l IH]; intros c Hnd Hok.
  - exists c. split; [reflexivity|]. split; [repeat split|].
    split; [reflexivity|]. split; [auto|]. intros o p Ho. inversion Ho.
  - cbn in Hnd. apply list.NoDup_cons in Hnd as [Ha Hnd].
    destruct (itprOne_spec chk a pa c) as (c1 & H1 & F1 & Oth1 & Dc1 & Snap1).
    { apply (Hok a pa). left. }
    destruct (IH c1 Hnd) as (c2 & H2 & F2 & Oth2 & Dc2 & Snap2).
    { intros o p Ho. apply (Hok o p). right. exact Ho. }
    exists c2. split; [cbn [foldM]; rewrite H1; exact H2|].
    split; [eapply itpr_frame_trans; eassumption|].
    split; [|split; [auto|]].
    + intros o Ho. cbn in Ho. apply not_elem_of_cons in Ho as [Hne Ho].
      rewrite Oth2 by exact Ho. apply Oth1. exact Hne.
    + intros o p Ho. apply elem_of_cons in Ho as [[= -> ->]|Ho].
      * rewrite (Oth2 a Ha). split.
        -- intros Hsh. split.
           ++ clear - H1 Hsh. unfold itprOne, isShared in H1. rewrite Hsh in H1.
              cbn in H1. injection H1 as <-. reflexivity.
           ++ apply Dc2. clear - H1 Hsh. unfold itprOne, isShared in H1.
              rewrite Hsh in H1. cbn in H1. injection H1 as <-.
              cbn. apply elem_of_app. right. left.
        -- intros Hsh Hle. destruct (Snap1 Hsh Hle) as [Hh Hd].
           split; [exact Hh|]. apply Dc2. exact Hd.
      * assert (Hne : o <> a).
        { intros ->. apply Ha. apply list_elem_of_fmap. exists (a, p). split; [reflexivity|exact Ho]. }
        destruct (Snap2 o p Ho) as [S1 S2].
        rewrite (Oth1 o Hne) in S1, S2. split; assumption.
Qed.

Lemma fold_delete_lookup {V} (l : list Obs) (m : gmap Obs V) (o : Obs) :
  fold_left (fun m o => delete o m) l m !! o
  = if decide (o ∈ l) then None else m !! o.
Proof.
  revert m. induction l as [|a l IH]; intros m; cbn [fold_left].
  - rewrite decide_False by (intros H; inversion H). reflexivity.
  - rewrite IH. destruct (decide (o ∈ l)) as [Hin|Hnin].
    + rewrite decide_True by (right; exact Hin). reflexivity.
    + destruct (decide (o = a)) as [->|Hne].
      * rewrite decide_True by left. apply lookup_delete_eq.
      * rewrite decide_False by (intros H; apply elem_of_cons in H as [?|?]; contradiction).
        apply lookup_delete_ne. congruence.
Qed.

End Tick.

(** ** C3 and C2: what one tick does to leases and to cached targets *)

Section FixedUpdate.
Import Physics2 NetPhysics Spec.

(** The three loops in sequence. *)
Lemma fixedUpdate_run (chk : bool) (c : Controller) :
  engine_ok c ->
  exists c1 c2 c3,
    packPhysObj c = Ok c1 /\ pack_frame c c1
    /\ foldM leaseOne (obstacles (_world c)) c1 = Ok c2
    /\ foldM (itprOne chk) (map_to_list (_cache c)) c2 = Ok c3
    /\ fixedUpdate chk c = Ok (eraseDeleted c3).
Proof.
  intros [Hids Hcache].
  destruct (packLoop_spec (obstacles (_world c)) c Hids) as (c1 & H1 & F1).
  pose proof F1 as (Fw & Fc & _).
  destruct (leaseLoop_spec (obstacles (_world c)) c1) as (c2 & H2 & F2 & _).
  { intros o Ho. rewrite Fw. apply Hids. exact Ho. }
  pose proof F2 as (_ & Fc2 & _).
  destruct (itprLoop_spec chk (map_to_list (_cache c)) c2) as (c3 & H3 & _).
  { apply NoDup_fst_map_to_list. }
  { intros o p Ho. apply elem_of_map_to_list in Ho. exact (Hcache o p Ho). }
  exists c1, c2, c3. split; [exact H1|]. split; [exact F1|].
  split; [exact H2|]. split; [exact H3|].
  unfold fixedUpdate, packPhysObj. rewrite H1. cbn [obind]. rewrite Fw, H2. cbn [obind].
  rewrite Fc2, Fc, H3. reflexivity.
Qed.

(** C3, as the code has it.  A tick walks the obstacle list of the
    world, not the ledger.  For a body that the ledger holds with [t]
    ticks left and that the obstacle list holds once: [t > 1] becomes
    [t - 1]; at [t = 1], on a peer that is not the host, the entry is
    erased and one [OBJ_OWNER_RELEASE] event with the id of the body is
    appended to the outbound events, while on the host the entry stays
    as it is; the permanent lease [0] stays.  The entry of a body that
    is not in the obstacle list is left as it is. *)
Theorem lease_steps_each_tick
  (chk : bool) (c : Controller) (obj : Obs) (t : Z) :
  engine_ok c ->
  owned (_world c) !! obj = Some t ->
  exists c',
    fixedUpdate chk c = Ok c'
    /\ ((obj ∉ obstacles (_world c)) -> owned (_world c') !! obj = Some t)
    /\ (obj ∈ obstacles (_world c) -> NoDup (obstacles (_world c)) ->
        (1 < t -> owned (_world c') !! obj = Some (t - 1))
        /\ (t = 0 -> owned (_world c') !! obj = Some 0)
        /\ (t = 1 -> _isHost c = true -> owned (_world c') !! obj = Some 1)
        /\ (t = 1 -> _isHost c = false ->
            owned (_world c') !! obj = None
            /\ exists id l1 l2,
                 objToId (_world c) !! obj = Some id
                 /\ _outEvents c'
                    = _outEvents c ++ l1
                      ++ [EvPhysObj (PhysObj.mkEvent NetEventBase.freshMeta id
                                       PhysObj.OBJ_OWNER_RELEASE)] ++ l2)).
Proof.
  intros Hok Hown.
  destruct (fixedUpdate_run chk c Hok) as (c1 & c2 & c3 & H1 & F1 & H2 & H3 & Hrun).
  destruct F1 as (Fw & Fc & Fh & _ & (evs1 & Fe) & _).
  destruct (leaseLoop_spec (obstacles (_world c)) c1)
    as (c2' & H2' & F2 & Own2 & Oth2 & evs2 & Ev2 & Rel2).
  { intros o Ho. rewrite Fw. apply (proj1 Hok). exact Ho. }
  rewrite H2 in H2'. injection H2' as <-.
  destruct (itprLoop_spec chk (map_to_list (_cache c)) c2)
    as (c3' & H3' & (Gw & Ge & _) & _).
  { apply NoDup_fst_map_to_list. }
  { intros o p Ho. apply elem_of_map_to_list in Ho. exact (proj2 Hok o p Ho). }
  rewrite H3 in H3'. injection H3' as <-.
  exists (eraseDeleted c3). split; [exact Hrun|]. split.
  { intros Hni. change (_world (eraseDeleted c3)) with (_world c3).
    rewrite Gw, (Oth2 obj Hni), Fw. exact Hown. }
  intros Hin Hnd.
  assert (Hnext : owned (_world (eraseDeleted c3)) !! obj
                  = lease_next (_isHost c) (Some t)).
  { change (_world (eraseDeleted c3)) with (_world c3).
    rewrite Gw, (Own2 Hnd obj Hin), Fw, Fh, Hown. reflexivity. }
  split; [|split; [|split]].
  - intros Ht. rewrite Hnext. cbn.
    destruct (t =? 1) eqn:E; [apply Z.eqb_eq in E; lia|].
    destruct (1 <? t) eqn:E'; [reflexivity|apply Z.ltb_ge in E'; lia].
  - intros ->. rewrite Hnext. reflexivity.
  - intros -> Hhost. rewrite Hnext, Hhost. reflexivity.
  - intros -> Hhost. split; [rewrite Hnext, Hhost; reflexivity|].
    destruct (proj1 Hok obj Hin) as [id Hid].
    assert (Hev : EvPhysObj (PhysObj.allocOwnerRelease id) ∈ evs2).
    { apply (Rel2 obj id Hin); rewrite ?Fw, ?Fh; assumption. }
    apply list_elem_of_split in Hev as (l1 & l2 & ->).
    exists id, (evs1 ++ l1), l2. split; [exact Hid|].
    change (_outEvents (eraseDeleted c3)) with (_outEvents c3).
    rewrite Ge, Ev2, Fe, <- !app_assoc. reflexivity.
Qed.

(** C2, as the code has it.  On a tick, a cached target with at most
    one step left whose body is flagged [shared] sets the position, the
    linear velocity, the angle and the angular velocity of the body to
    the values of the target, and leaves the cache.  A cached target
    whose body is not flagged [shared] leaves the cache as well, but
    the loop skips the body: its pose and motion stay as they were. *)
Theorem last_step_snaps_shared_body
  (chk : bool) (c : Controller) (obj : Obs) (p : targetParam) :
  engine_ok c ->
  _cache c !! obj = Some p ->
  exists c',
    fixedUpdate chk c = Ok c'
    /\ (isShared (heap c obj) = true -> numSteps p - curStep p <= 1 ->
        position (heap c' obj) = P3 p
        /\ linearVelocity (heap c' obj) = targetVel p
        /\ angle (heap c' obj) = targetAngle p
        /\ angularVelocity (heap c' obj) = targetAngV p
        /\ _cache c' !! obj = None)
    /\ (isShared (heap c obj) = false ->
        same_body (heap c' obj) (heap c obj) /\ _cache c' !! obj = None).
Proof.
  intros Hok Hp.
  destruct (fixedUpdate_run chk c Hok) as (c1 & c2 & c3 & H1 & F1 & H2 & H3 & Hrun).
  destruct F1 as (Fw & Fc & Fh & _ & _ & Fb).
  destruct (leaseLoop_spec (obstacles (_world c)) c1) as (c2' & H2' & F2 & _).
  { intros o Ho. rewrite Fw. apply (proj1 Hok). exact Ho. }
  rewrite H2 in H2'. injection H2' as <-.
  destruct F2 as (Lh & _).
  destruct (itprLoop_spec chk (map_to_list (_cache c)) c2)
    as (c3' & H3' & _ & _ & _ & Snap).
  { apply NoDup_fst_map_to_list. }
  { intros o q Ho. apply elem_of_map_to_list in Ho. exact (proj2 Hok o q Ho). }
  rewrite H3 in H3'. injection H3' as <-.
  assert (Hentry : (obj, p) ∈ map_to_list (_cache c))
    by (apply elem_of_map_to_list; exact Hp).
  destruct (Snap obj p Hentry) as [Skip Last].
  assert (Hb : same_body (heap c2 obj) (heap c obj)) by (rewrite Lh; apply Fb).
  assert (Hgone : forall o, o ∈ _deleteCache c3 ->
                            _cache (eraseDeleted c3) !! o = None).
  { intros o Ho. cbn. rewrite fold_delete_lookup, decide_True by exact Ho.
    reflexivity. }
  exists (eraseDeleted c3). split; [exact Hrun|]. split.
  - intros Hsh Hle. unfold isShared in Hsh.
    destruct Last as [Hh Hd]; [destruct Hb as (_ & _ & _ & _ & ->); exact Hsh|exact Hle|].
    change (heap (eraseDeleted c3) obj) with (heap c3 obj). rewrite Hh.
    destruct (snap_fields p (heap c2 obj)) as (S1 & S2 & S3 & S4).
    repeat split; try assumption. apply Hgone. exact Hd.
  - intros Hsh. unfold isShared in Hsh.
    destruct Skip as [Hh Hd]; [destruct Hb as (_ & _ & _ & _ & ->); exact Hsh|].
    change (heap (eraseDeleted c3) obj) with (heap c3 obj). rewrite Hh.
    split; [exact Hb|]. apply Hgone. exact Hd.
Qed.

End FixedUpdate.

Lemma engine_ok_sample (host sh : bool) (own : gmap Physics2.Obs Z)
  (p : NetPhysics.targetParam) :
  Spec.target_ok p ->
  Spec.engine_ok (Samples.engine host sh own {[ 1%positive := p ]}).
Proof.
  intros Hp. split.
  - intros o Ho. cbn in Ho. apply list_elem_of_singleton in Ho as ->.
    exists 7. reflexivity.
  - intros o q Hq. cbn in Hq. apply lookup_singleton_Some in Hq as [_ <-].
    exact Hp.
Qed.

Lemma target_ok_sample : Spec.target_ok (Samples.targetAt10 29 30).
Proof. unfold Spec.target_ok. cbn. lia. Qed.

(** The lease scenario of the design document, last tick: a client
    that holds body 1 with one tick left releases it. *)
Lemma lease_steps_each_tick_witness :
  exists c',
    NetPhysics.fixedUpdate true
      (Samples.engine false true {[ 1%positive := 1 ]}
         {[ 1%positive := Samples.targetAt10 29 30 ]}) = Ok c'
    /\ Physics2.owned (NetPhysics._world c') !! 1%positive = None.
Proof.
  destruct (lease_steps_each_tick true
              (Samples.engine false true {[ 1%positive := 1 ]}
                 {[ 1%positive := Samples.targetAt10 29 30 ]}) 1%positive 1)
    as (c' & Hrun & _ & Hin).
  - apply engine_ok_sample, target_ok_sample.
  - reflexivity.
  - exists c'. split; [exact Hrun|].
    destruct Hin as (_ & _ & _ & Hrel).
    + cbn. apply list_elem_of_singleton. reflexivity.
    + cbn. apply NoDup_singleton.
    + apply Hrel; reflexivity.
Defined.

(** C3, as stated, fails for a ledger entry whose body has left the
    obstacle list.  A client holds body 1 for three more ticks and
    removes it from its world with [removeSharedObstacle]; the entry
    stays in the ledger, and the next tick leaves it at 3. *)
Lemma stale_lease_is_not_stepped :
  let c0 := Samples.engine false true {[ 1%positive := 3 ]} ∅ in
  match NetPhysics.removeSharedObstacle true 1%positive c0 with
  | Ok c =>
      Physics2.owned (NetPhysics._world c) !! 1%positive = Some 3
      /\ 1 < 3
      /\ match NetPhysics.fixedUpdate true c with
         | Ok c' =>
             Physics2.owned (NetPhysics._world c') !! 1%positive = Some 3
             /\ Physics2.owned (NetPhysics._world c') !! 1%positive
                <> Some (3 - 1)
         | _ => False
         end
  | _ => False
  end.
Proof.
  vm_compute. split; [reflexivity|]. split; [reflexivity|].
  split; [reflexivity|discriminate].
Qed.

(** The interpolation scenario of the design document, 30th tick: the
    body snaps to [(10, 0)] and the entry is evicted. *)
Lemma last_step_snaps_shared_body_witness :
  exists c',
    NetPhysics.fixedUpdate true
      (Samples.engine false true ∅ {[ 1%positive := Samples.targetAt10 29 30 ]})
    = Ok c'
    /\ Physics2.position (NetPhysics.heap c' 1%positive)
       = Physics2.mkVec2 (Samples.f32 10) (Samples.f32 0)
    /\ NetPhysics._cache c' !! 1%positive = None.
Proof.
  destruct (last_step_snaps_shared_body true
              (Samples.engine false true ∅
                 {[ 1%positive := Samples.targetAt10 29 30 ]})
              1%positive (Samples.targetAt10 29 30))
    as (c' & Hrun & Hsnap & _).
  - apply engine_ok_sample, target_ok_sample.
  - apply lookup_singleton_eq.
  - exists c'. split; [exact Hrun|].
    destruct Hsnap as (H1 & _ & _ & _ & H5); [reflexivity|cbn; lia|].
    split; [exact H1|exact H5].
Defined.

(** C2, as stated, fails for a body that is not flagged [shared]: with
    the target [(10, 0)] on its last step, the tick evicts the entry
    and leaves the body at the origin. *)
Lemma unshared_body_is_not_snapped :
  let p := Samples.targetAt10 29 30 in
  let c := Samples.engine false false ∅ {[ 1%positive := p ]} in
  NetPhysics.numSteps p - NetPhysics.curStep p <= 1
  /\ NetPhysics._cache c !! 1%positive = Some p
  /\ match NetPhysics.fixedUpdate true c with
     | Ok c' =>
         Physics2.position (NetPhysics.heap c' 1%positive) = Physics2.vec_zero
         /\ Physics2.position (NetPhysics.heap c' 1%positive) <> NetPhysics.P3 p
         /\ NetPhysics._cache c' !! 1%positive = None
     | _ => False
     end.
Proof.
  cbn zeta. split; [cbn; lia|]. split; [reflexivity|].
  vm_compute. split; [reflexivity|]. split; [discriminate|reflexivity].
Qed.

(** ** C1: the step count of a reconciliation *)

Section Reconcile.
Import Physics2 NetPhysics Spec.

Lemma foldM_app {A S : Type} (f : A -> S -> outcome S) (l1 l2 : list A) (s : S) :
  foldM f (l1 ++ l2) s = obind (foldM f l1 s) (foldM f l2).
Proof.
  revert s. induction l1 as [|a l1 IH]; intros s; cbn [foldM app obind].
  - reflexivity.
  - destruct (f a s); cbn [obind]; [apply IH|reflexivity..].
Qed.

Lemma sync_frame_refl (c : Controller) : sync_frame c c.
Proof. split; [reflexivity|]. intros o. split; reflexivity. Qed.

Lemma sync_frame_trans (a b c : Controller) :
  sync_frame a b -> sync_frame b c -> sync_frame a c.
Proof.
  intros [H1 H2] [G1 G2]. split; [congruence|].
  intros o. destruct (H2 o), (G2 o). split; congruence.
Qed.

Lemma posDiff_frame (a b : Obstacle) (q : PhysSync.ObjParam) :
  position a = position b -> posDiff a q = posDiff b q.
Proof. intros H. unfold posDiff, getPosition. rewrite H. reflexivity. Qed.

Lemma angDiff_frame (a b : Obstacle) (q : PhysSync.ObjParam) :
  angle a = angle b -> angDiff a q = angDiff b q.
Proof. intros H. unfold angDiff, getAngle. rewrite H. reflexivity. Qed.

Lemma entry_defined_frame (c c' : Controller) (q : PhysSync.ObjParam) :
  sync_frame c c' -> entry_defined c q -> entry_defined c' q.
Proof.
  intros [Hw Hp] Hd o Ho. rewrite Hw in Ho.
  destruct (Hd o Ho) as [n Hn]. exists n.
  destruct (Hp o) as [P A].
  rewrite (posDiff_frame _ _ q P), (angDiff_frame _ _ q A). exact Hn.
Qed.

(** [addSyncObject] installs the target (with the integral of the
    target it replaces) and moves no body. *)
Lemma addSyncObject_spec (obj : Obs) (param : targetParam) (c : Controller) :
  exists c' t,
    addSyncObject obj param c = Ok c' /\ sync_frame c c'
    /\ _cache c' !! obj = Some t /\ curStep t = curStep param
    /\ numSteps t = numSteps param
    /\ forall o, o <> obj -> _cache c' !! o = _cache c !! o.
Proof.
  unfold addSyncObject.
  destruct (_cache c !! obj) as [old|] eqn:Hold.
  - rewrite (map_count_Some _ _ _ Hold), (map_at_Some _ _ _ Hold). cbn [obind].
    eexists. eexists. split; [reflexivity|]. split; [|split; [|split; [|split]]].
    + split; [reflexivity|]. intros o. cbn.
      destruct (decide (obj = o)) as [->|Hne].
      * rewrite !heap_modifyObs, !decide_True by reflexivity.
        destruct (heap c o). split; reflexivity.
      * rewrite !heap_modifyObs, !decide_False by exact Hne.
        split; reflexivity.
    + cbn. rewrite lookup_map_insert_new, lookup_delete_eq. reflexivity.
    + reflexivity.
    + reflexivity.
    + intros o Ho. cbn.
      rewrite lookup_map_insert_new_ne by congruence.
      apply lookup_delete_ne. congruence.
  - rewrite (map_count_None _ _ Hold). cbn [obind].
    eexists. eexists. split; [reflexivity|]. split; [|split; [|split; [|split]]].
    + split; [reflexivity|]. intros o. split; reflexivity.
    + cbn. rewrite lookup_map_insert_new, lookup_delete_eq. reflexivity.
    + reflexivity.
    + reflexivity.
    + intros o Ho. cbn.
      rewrite lookup_map_insert_new_ne by congruence.
      apply lookup_delete_ne. congruence.
Qed.

(** One snapshot of a registered body. *)
Lemma syncOne_spec (q : PhysSync.ObjParam) (c : Controller) (obj : Obs) (n : Z) :
  idToObj (_world c) !! PhysSync.objId q = Some obj ->
  syncSteps (posDiff (heap c obj) q) (angDiff (heap c obj) q) = Ok n ->
  exists c' t,
    syncOne q c = Ok c' /\ sync_frame c c'
    /\ _cache c' !! obj = Some t /\ curStep t = 0 /\ numSteps t = n
    /\ forall o, o <> obj -> _cache c' !! o = _cache c !! o.
Proof.
  intros Hreg Hn. unfold syncOne.
  rewrite (map_count_Some _ _ _ Hreg), (map_at_Some _ _ _ Hreg).
  cbn [negb obind]. rewrite Hn. cbn [obind].
  match goal with
  | |- context [addSyncObject obj ?p c] =>
      destruct (addSyncObject_spec obj p c)
        as (c' & t & H1 & F & Ht & Hcur & Hs & Ho)
  end.
  exists c', t. repeat split; try assumption; apply F.
Qed.

Lemma syncOne_skip (q : PhysSync.ObjParam) (c : Controller) :
  idToObj (_world c) !! PhysSync.objId q = None -> syncOne q c = Ok c.
Proof.
  intros H. unfold syncOne. rewrite (map_count_None _ _ H). reflexivity.
Qed.

(** The loop over the snapshots of an event. *)
Lemma syncLoop_spec (l : list PhysSync.ObjParam) (c : Controller) :
  (forall q, q ∈ l -> entry_defined c q) ->
  exists c',
    foldM syncOne l c = Ok c' /\ sync_frame c c'
    /\ forall o,
         (forall q, q ∈ l -> idToObj (_world c) !! PhysSync.objId q <> Some o) ->
         _cache c' !! o = _cache c !! o.
Proof.
  revert c. induction l as [|q l IH]; intros c Hdef.
  - exists c. split; [reflexivity|]. split; [apply sync_frame_refl|reflexivity].
  - assert (Hstep : exists c1, syncOne q c = Ok c1 /\ sync_frame c c1
              /\ forall o, idToObj (_world c) !! PhysSync.objId q <> Some o ->
                           _cache c1 !! o = _cache c !! o).
    { destruct (idToObj (_world c) !! PhysSync.objId q) as [obj|] eqn:Hreg.
      - destruct (Hdef q ltac:(left) obj Hreg) as [n Hn].
        destruct (syncOne_spec q c obj n Hreg Hn)
          as (c1 & t & H1 & F1 & _ & _ & _ & Ho).
        exists c1. split; [exact H1|]. split; [exact F1|].
        intros o Hne. apply Ho. congruence.
      - exists c. split; [apply syncOne_skip; exact Hreg|].
        split; [apply sync_frame_refl|reflexivity]. }
    destruct Hstep as (c1 & H1 & F1 & O1).
    destruct (IH c1) as (c2 & H2 & F2 & O2).
    { intros q' Hq'. eapply entry_defined_frame; [exact F1|].
      apply Hdef. right. exact Hq'. }
    exists c2. split; [cbn [foldM]; rewrite H1; exact H2|].
    split; [eapply sync_frame_trans; eassumption|].
    intros o Hno. rewrite O2.
    + apply O1. apply Hno. left.
    + intros q' Hq'. destruct F1 as [-> _]. apply Hno. right. exact Hq'.
Qed.

(** C1, as the code has it.  For a received sync event and any of its
    snapshots [param] whose id is registered to a body [obj], where the
    conversions to [int] are defined for this snapshot and for the
    snapshots before it (the deltas are finite and fit an [int]): when
    the loop has processed the snapshot, the cache holds for [obj] a new
    target whose step count is [clamp(max(floor(p), floor(a)), 1, 30)],
    where [p] is the binary32 product of 30 and the Euclidean distance
    [d] between the position of the body and the position of the
    snapshot, [a] is 10 times the absolute difference of the two
    angles, and [d] and [a] are computed in binary32 as well.  Where
    the conversions are defined for the later snapshots too, the event
    as a whole runs to its end, and it leaves that target in the cache
    unless a later snapshot of the event is for the same body. *)
Theorem sync_step_count_is_clamped
  (event : PhysSync.PhysSyncEvent) (c : Controller)
  (pre post : list PhysSync.ObjParam) (param : PhysSync.ObjParam) (obj : Obs) :
  NetEventBase._sourceID (PhysSync.base event) <> "" ->
  PhysSync.getSyncList event = pre ++ param :: post ->
  idToObj (_world c) !! PhysSync.objId param = Some obj ->
  (forall q, q ∈ pre ++ [param] -> entry_defined c q) ->
  let d := vec_length (vec_sub (getPosition (heap c obj))
                         (mkVec2 (PhysSync.x param) (PhysSync.y param))) in
  let a := Float32.mul (Float32.of_int 10)
             (Float32.abs (Float32.sub (getAngle (heap c obj))
                             (PhysSync.angle param))) in
  exists c1 target,
    foldM syncOne (pre ++ [param]) c = Ok c1
    /\ _cache c1 !! obj = Some target
    /\ curStep target = 0
    /\ numSteps target
       = clamp (Z.max (Float32.floor (Float32.mul d (Float32.of_int 30)))
                      (Float32.floor a)) 1 30
    /\ ((forall q, q ∈ post -> entry_defined c q) ->
        exists c',
          processPhysSyncEvent event c = Ok c'
          /\ ((forall q, q ∈ post ->
                 idToObj (_world c) !! PhysSync.objId q <> Some obj) ->
              _cache c' !! obj = Some target)).
Proof.
  intros Hsrc Hlist Hreg Hdef d a.
  unfold processPhysSyncEvent.
  apply String.eqb_neq in Hsrc. rewrite Hsrc, Hlist.
  destruct (syncLoop_spec pre c) as (c1 & H1 & F1 & _).
  { intros q Hq. apply Hdef. apply elem_of_app. left. exact Hq. }
  assert (Hreg1 : idToObj (_world c1) !! PhysSync.objId param = Some obj)
    by (destruct F1 as [-> _]; exact Hreg).
  assert (Hd1 : entry_defined c1 param).
  { eapply entry_defined_frame; [exact F1|].
    apply Hdef. apply elem_of_app. right. left. }
  destruct (Hd1 obj Hreg1) as [n Hn].
  destruct (syncOne_spec param c1 obj n Hreg1 Hn)
    as (c2 & t & H2 & F2 & Ht & Hcur & Hs & _).
  assert (Hupto : foldM syncOne (pre ++ [param]) c = Ok c2).
  { rewrite foldM_app, H1. cbn [obind foldM]. rewrite H2. reflexivity. }
  exists c2, t. split; [exact Hupto|]. split; [exact Ht|].
  split; [exact Hcur|]. split.
  - rewrite Hs.
    destruct F1 as [_ Hp]. destruct (Hp obj) as [P A].
    rewrite (posDiff_frame _ _ param P), (angDiff_frame _ _ param A) in Hn.
    apply syncSteps_clamp in Hn;
      [exact Hn|apply posDiff_not_negative|apply angDiff_not_negative].
  - intros Hpost.
    destruct (syncLoop_spec post c2) as (c3 & H3 & _ & O3).
    { intros q Hq. eapply entry_defined_frame; [exact F2|].
      eapply entry_defined_frame; [exact F1|]. apply Hpost. exact Hq. }
    exists c3. split.
    + change (pre ++ param :: post) with (pre ++ [param] ++ post).
      rewrite app_assoc, foldM_app, Hupto. exact H3.
    + intros Hlast. rewrite O3; [exact Ht|].
      intros q Hq. destruct F2 as [-> _]. destruct F1 as [-> _].
      apply Hlast. exact Hq.
Qed.

End Reconcile.

(** The clamp scenario of the design document: a body at the origin
    and a snapshot at [(10, 0)] give [d = 10], [a = 0] and 30 steps. *)
Lemma sync_step_count_is_clamped_witness :
  exists c' target,
    NetPhysics.processPhysSyncEvent (Samples.syncFrom "host" [Samples.snapshot7])
      (Samples.engine false true ∅ ∅) = Ok c'
    /\ NetPhysics._cache c' !! 1%positive = Some target
    /\ NetPhysics.numSteps target = 30.
Proof.
  destruct (sync_step_count_is_clamped
              (Samples.syncFrom "host" [Samples.snapshot7])
              (Samples.engine false true ∅ ∅) [] [] Samples.snapshot7 1%positive)
    as (c1 & target & _ & _ & _ & Hn & Hrest).
  - discriminate.
  - reflexivity.
  - reflexivity.
  - intros q Hq. cbn in Hq. apply list_elem_of_singleton in Hq as ->.
    intros o _. eexists. vm_compute. reflexivity.
  - destruct Hrest as (c' & Hrun & Hc); [intros q Hq; inversion Hq|].
    exists c', target. split; [exact Hrun|]. split.
    + apply Hc. intros q Hq. inversion Hq.
    + rewrite Hn. vm_compute. reflexivity.
Defined.

(** C1, as stated, fails where the product rounds.  The body is at the
    origin with the angle 0 and the snapshot is at [(x, 0)] with the
    same angle, [x] being the float [0x3F333333] (the float next to
    0.7).  The distance is [x] itself and [30 x] is just below 21, so
    the formula gives 20 steps; the binary32 product [30 * x] rounds to
    21, and the target gets 21 steps. *)
Lemma sync_step_count_rounds_up :
  let x := Float32.of_bits 1060320051 in
  let q := PhysSync.mkObjParam 7 x Float32.zero Float32.zero Float32.zero
             Float32.zero Float32.zero in
  let c := Samples.engine false true ∅ ∅ in
  let body := NetPhysics.heap c 1%positive in
  let dx := (Float32.to_Q (Physics2.getX body) - Float32.to_Q (PhysSync.x q))%Q in
  let dy := (Float32.to_Q (Physics2.getY body) - Float32.to_Q (PhysSync.y q))%Q in
  let d := Float32.to_Q x in
  let a := (10 * Qabs (Float32.to_Q (Physics2.getAngle body)
                       - Float32.to_Q (PhysSync.angle q)))%Q in
  Physics2.idToObj (NetPhysics._world c) !! PhysSync.objId q = Some 1%positive
  /\ (0 <= d)%Q /\ (d * d == dx * dx + dy * dy)%Q
  /\ Spec.clamp (Z.max (Qfloor (30 * d)) (Qfloor a)) 1 30 = 20
  /\ exists c' target,
       NetPhysics.processPhysSyncEvent (Samples.syncFrom "host" [q]) c = Ok c'
       /\ NetPhysics._cache c' !! 1%positive = Some target
       /\ NetPhysics.numSteps target = 21.
Proof.
  cbn zeta. split; [reflexivity|]. split; [vm_compute; discriminate|].
  split; [vm_compute; reflexivity|]. split; [vm_compute; reflexivity|].
  eexists. eexists. split; [vm_compute; reflexivity|].
  split; [vm_compute; reflexivity|]. vm_compute. reflexivity.
Qed.

(** Far apart, the conversion to [int] is not defined: at a distance
    of [10^8] the product [30 d] does not fit an [int]. *)
Example sync_steps_overflow :
  NetPhysics.syncSteps (Float32.of_int 100000000) Float32.zero = Undefined.
Proof. vm_compute. reflexivity. Qed.

(** A snapshot of the registered body 7 at [(10^8, 0)]: the whole
    event is undefined. *)
Example sync_far_snapshot_is_undefined :
  NetPhysics.processPhysSyncEvent
    (Samples.syncFrom "host"
       [PhysSync.mkObjParam 7 (Samples.f32 100000000) (Samples.f32 0)
          (Samples.f32 0) (Samples.f32 0) (Samples.f32 0) (Samples.f32 0)])
    (Samples.engine false true ∅ ∅)
  = Undefined.
Proof. vm_compute. reflexivity. Qed.

(** An unregistered id is skipped. *)
Example sync_unknown_id_skipped :
  let c := Samples.engine false true ∅ ∅ in
  NetPhysics.processPhysSyncEvent
    (Samples.syncFrom "host"
       [PhysSync.mkObjParam 8 (Samples.f32 1) (Samples.f32 1) (Samples.f32 0)
          (Samples.f32 0) (Samples.f32 0) (Samples.f32 0)]) c = Ok c.
Proof. reflexivity. Qed.

(** ** The scenarios of the design document, run on the model *)

(** Interpolation clamp: a body at the origin receives a snapshot at
    [(10, 0)]; the target gets 30 steps; after 29 ticks the body is
    still short of the target, on the 30th it is on it and the entry
    is gone. *)
Example scenario_interpolation_clamp :
  let start :=
    NetPhysics.processPhysSyncEvent (Samples.syncFrom "host" [Samples.snapshot7])
      (Samples.engine false true ∅ ∅) in
  match obind start (Samples.runTicks true 29),
        obind start (Samples.runTicks true 30) with
  | Ok c29, Ok c30 =>
      (Float32.to_Q (Physics2.getX (NetPhysics.heap c29 1%positive)) < 10)%Q
      /\ NetPhysics.isInSync 1%positive c29 = true
      /\ Physics2.getPosition (NetPhysics.heap c30 1%positive)
         = Physics2.mkVec2 (Samples.f32 10) (Samples.f32 0)
      /\ NetPhysics.isInSync 1%positive c30 = false
  | _, _ => False
  end.
Proof. vm_compute. repeat split; reflexivity. Qed.

(** Ownership lease expiry: a client acquires body 1 (id 7) for 5
    ticks; after four ticks the lease reads 1; the fifth tick removes
    the entry and announces the release. *)
Example scenario_lease_expiry :
  let start := NetPhysics.acquireObs 1%positive 5 (Samples.engine false true ∅ ∅) in
  match obind start (Samples.runTicks true 4),
        obind start (Samples.runTicks true 5) with
  | Ok c4, Ok c5 =>
      Physics2.owned (NetPhysics._world c4) !! 1%positive = Some 1
      /\ Physics2.owned (NetPhysics._world c5) !! 1%positive = None
      /\ NetPhysics._outEvents c5
         = [EvPhysObj (PhysObj.allocOwnerAcquire 7 5);
            EvPhysObj (PhysObj.allocOwnerRelease 7)]
  | _, _ => False
  end.
Proof. vm_compute. repeat split; reflexivity. Qed.

(** Linear convergence in the same scenario: over the 29 interpolated
    ticks the x coordinate climbs strictly, and stays short of 10. *)
Example scenario_linear_convergence :
  match NetPhysics.processPhysSyncEvent (Samples.syncFrom "host" [Samples.snapshot7])
          (Samples.engine false true ∅ ∅) with
  | Ok c =>
      let xs := Samples.traceX true 29 c in
      length xs = 29%nat
      /\ Samples.climbsTo 10 (map Float32.to_Q xs) = true
  | _ => False
  end.
Proof. vm_compute. split; reflexivity. Qed.

(** Body create round trip: the host, with short UID 1, creates a body
    with factory 0 and the parameters "abc"; the registry allocates the
    id [(1 << 32) | 0], the host owns the body for good and one
    creation event is queued; a client that receives the event binds
    the same id to a fresh body and owns nothing. *)
Example scenario_body_create :
  match NetPhysics.addSharedObstacle true 0 Samples.abc (Samples.emptyEngine true 1) with
  | Ok (h, _, host) =>
      let id := Z.lor (Z.shiftl 1 32) 0 in
      let creation := PhysObj.allocCreation 0 id Samples.abc in
      Physics2.idToObj (NetPhysics._world host) !! id = Some h
      /\ Physics2.objToId (NetPhysics._world host) !! h = Some id
      /\ Physics2.owned (NetPhysics._world host) !! h = Some 0
      /\ NetPhysics._outEvents host = [EvPhysObj creation]
      /\ match NetPhysics.processPhysObjEvent true
                 (Samples.receivedFrom "host" creation)
                 (Samples.emptyEngine false 2) with
         | Ok client =>
             Physics2.idToObj (NetPhysics._world client) !! id = Some 1%positive
             /\ Physics2.owned (NetPhysics._world client) = ∅
             /\ NetPhysics._outEvents client = []
         | _ => False
         end
  | _ => False
  end.
Proof. vm_compute. repeat split; reflexivity. Qed.

(** Unknown id tolerance: of the snapshots of the ids 7 (known) and 8
    (unknown), the first gives body 1 a target and the second changes
    nothing. *)
Example scenario_unknown_id :
  let unknown :=
    PhysSync.mkObjParam 8 (Samples.f32 1) (Samples.f32 1) (Samples.f32 0)
      (Samples.f32 0) (Samples.f32 0) (Samples.f32 0) in
  NetPhysics.processPhysSyncEvent
    (Samples.syncFrom "host" [Samples.snapshot7; unknown])
    (Samples.engine false true ∅ ∅)
  = NetPhysics.processPhysSyncEvent (Samples.syncFrom "host" [Samples.snapshot7])
      (Samples.engine false true ∅ ∅).
Proof. reflexivity. Qed.

(** * Further properties of the code *)

(** ** The byte codec: what is written is what is read *)

Section CodecRoundTrip.

Lemma marshall_in_fold (bs : list byte) (acc : Z) :
  fold_left (fun a b => a * 256 + byte_to_Z b) bs acc
  = acc * 2 ^ (8 * Z.of_nat (length bs)) + LW.marshall_in bs.
Proof.
  unfold LW.marshall_in. revert acc.
  induction bs as [|b bs IH]; intros acc; cbn [fold_left length].
  - cbn. lia.
  - rewrite IH, (IH (0 * 256 + byte_to_Z b)).
    rewrite Nat2Z.inj_succ.
    replace (8 * Z.succ (Z.of_nat (length bs))) with (8 + 8 * Z.of_nat (length bs)) by lia.
    rewrite Z.pow_add_r by lia. change (2 ^ 8) with 256. lia.
Qed.

Lemma marshall_out_length (n : nat) (v : Z) : length (LWSer.marshall_out n v) = n.
Proof. induction n as [|n IH]; cbn; [reflexivity|]. rewrite IH. reflexivity. Qed.

(** Reading back the [n] bytes of a value gives the value modulo
    [2^(8n)]. *)
Lemma marshall_in_out (n : nat) (v : Z) :
  LW.marshall_in (LWSer.marshall_out n v) = v mod 2 ^ (8 * Z.of_nat n).
Proof.
  induction n as [|n IH].
  - cbn. rewrite Z.mod_1_r. reflexivity.
  - cbn [LWSer.marshall_out]. unfold LW.marshall_in. cbn [fold_left].
    rewrite marshall_in_fold, marshall_out_length, IH, byte_to_of_Z.
    rewrite Nat2Z.inj_succ.
    replace (8 * Z.succ (Z.of_nat n)) with (8 * Z.of_nat n + 8) by lia.
    rewrite Z.pow_add_r by lia. change (2 ^ 8) with 256.
    rewrite Z.shiftr_div_pow2 by lia.
    rewrite (Z.rem_mul_r v (2 ^ (8 * Z.of_nat n)) 256) by lia.
    lia.
Qed.

Lemma deref_at (pre bs rest : list byte) :
  LW.deref (length bs) (LW.mkDes (pre ++ bs ++ rest) (length pre)) = Ok bs.
Proof.
  unfold LW.deref. cbn [LW._pos LW._data].
  assert (H : (length pre + length bs <=? length (pre ++ bs ++ rest))%nat = true)
    by (apply Nat.leb_le; rewrite !length_app; lia).
  rewrite H, drop_app_length, take_app_length. reflexivity.
Qed.

Lemma not_at_end (pre bs rest : list byte) :
  (0 < length bs)%nat ->
  (length (pre ++ bs ++ rest) <=? length pre)%nat = false.
Proof. intros H. apply Nat.leb_gt. rewrite !length_app. lia. Qed.

(** The shape of every multi-byte read, at the place of the buffer
    where [n] bytes of a value lie. *)
Lemma deref_marshalled (n : nat) (v : Z) (pre rest : list byte) :
  LW.deref n (LW.mkDes (pre ++ LWSer.marshall_out n v ++ rest) (length pre))
  = Ok (LWSer.marshall_out n v).
Proof.
  pose proof (deref_at pre (LWSer.marshall_out n v) rest) as H.
  rewrite marshall_out_length in H. exact H.
Qed.

End CodecRoundTrip.

(** X1. An unsigned integer written by [writeUint16], [writeUint32] or
    [writeUint64] after any earlier writes is read back by the read of
    the same width, from the place where it was written and whatever
    follows it in the buffer: the value comes back modulo [2^16],
    [2^32] or [2^64], and the position moves on by the width. *)
Theorem uint_write_read (s : LWSer.LWSerializer) (rest : list byte) (v : Z) :
  let at_ (buf : list byte) := LW.mkDes (buf ++ rest) (length (LWSer.serialize s)) in
  LW.readUint16 (at_ (LWSer.serialize (LWSer.writeUint16 v s)))
  = Ok (v mod 2 ^ 16,
        LW.advance 2 (at_ (LWSer.serialize (LWSer.writeUint16 v s))))
  /\ LW.readUint32 (at_ (LWSer.serialize (LWSer.writeUint32 v s)))
     = Ok (v mod 2 ^ 32,
           LW.advance 4 (at_ (LWSer.serialize (LWSer.writeUint32 v s))))
  /\ LW.readUint64 (at_ (LWSer.serialize (LWSer.writeUint64 v s)))
     = Ok (v mod 2 ^ 64,
           LW.advance 8 (at_ (LWSer.serialize (LWSer.writeUint64 v s)))).
Proof.
  destruct s as [buf]. cbn zeta.
  unfold LWSer.serialize, LWSer.writeUint16, LWSer.writeUint32, LWSer.writeUint64.
  cbn [LWSer._data]. rewrite <- !app_assoc.
  unfold LW.readUint16, LW.readUint32, LW.readUint64. cbn [LW._data LW._pos].
  rewrite !not_at_end by (rewrite marshall_out_length; lia).
  rewrite !deref_marshalled. cbn [obind].
  rewrite !marshall_in_out. repeat split.
Qed.

(** X2. A signed 32-bit integer written by [writeSint32] is read back
    by [readSint32] (two's complement on the wire). *)
Theorem sint32_write_read (s : LWSer.LWSerializer) (rest : list byte) (v : Z) :
  - 2 ^ 31 <= v < 2 ^ 31 ->
  let d := LW.mkDes (LWSer.serialize (LWSer.writeSint32 v s) ++ rest)
             (length (LWSer.serialize s)) in
  LW.readSint32 d = Ok (v, LW.advance 4 d).
Proof.
  intros Hv. destruct s as [buf]. cbn zeta.
  unfold LWSer.serialize, LWSer.writeSint32. cbn [LWSer._data].
  rewrite <- app_assoc. unfold LW.readSint32. cbn [LW._data LW._pos].
  rewrite not_at_end by (rewrite marshall_out_length; lia).
  rewrite deref_marshalled. cbn [obind]. rewrite marshall_in_out.
  change (2 ^ (8 * Z.of_nat 4)) with (2 ^ 32).
  f_equal. f_equal.
  destruct (Z_lt_dec v 0) as [Hneg|Hpos].
  - assert (Hm : v mod 2 ^ 32 = v + 2 ^ 32).
    { symmetry. apply (Z.mod_unique v (2 ^ 32) (-1)); lia. }
    rewrite Hm.
    destruct (v + 2 ^ 32 <? 2 ^ 31) eqn:E; [apply Z.ltb_lt in E; lia|lia].
  - rewrite Z.mod_small by lia.
    destruct (v <? 2 ^ 31) eqn:E; [reflexivity|apply Z.ltb_ge in E; lia].
Qed.

Lemma sint32_write_read_witness :
  LW.readSint32 (LW.mkDes (LWSer.serialize (LWSer.writeSint32 (-2) LWSer.new) ++ [x07]) 0)
  = Ok (-2, LW.mkDes (LWSer.serialize (LWSer.writeSint32 (-2) LWSer.new) ++ [x07]) 4).
Proof.
  apply (sint32_write_read LWSer.new [x07] (-2)). lia.
Defined.

(** X4. A boolean and a byte are read back as written; and [readBool]
    is true for the byte 01 only. *)
Theorem bool_byte_write_read (s : LWSer.LWSerializer) (rest : list byte)
  (b : bool) (x : byte) :
  let at_ (buf : list byte) := LW.mkDes (buf ++ rest) (length (LWSer.serialize s)) in
  LW.readBool (at_ (LWSer.serialize (LWSer.writeBool b s)))
  = Ok (b, LW.advance 1 (at_ (LWSer.serialize (LWSer.writeBool b s))))
  /\ LW.readByte (at_ (LWSer.serialize (LWSer.writeByte x s)))
     = Ok (x, LW.advance 1 (at_ (LWSer.serialize (LWSer.writeByte x s))))
  /\ (x <> x01 ->
      LW.readBool (at_ (LWSer.serialize (LWSer.writeByte x s)))
      = Ok (false, LW.advance 1 (at_ (LWSer.serialize (LWSer.writeByte x s))))).
Proof.
  destruct s as [buf]. cbn zeta.
  unfold LWSer.serialize, LWSer.writeBool, LWSer.writeByte. cbn [LWSer._data].
  rewrite <- !app_assoc.
  unfold LW.readBool, LW.readByte. cbn [LW._data LW._pos].
  rewrite !not_at_end by (cbn; lia).
  pose proof (deref_at buf [if b then x01 else x00] rest) as D1.
  pose proof (deref_at buf [x] rest) as D2.
  cbn [length] in D1, D2. rewrite D1, D2.
  cbn [obind]. unfold LW.marshall_in. cbn [fold_left].
  rewrite !Z.add_0_l, byte_of_to_Z. split; [|split].
  - destruct b; reflexivity.
  - reflexivity.
  - intros Hx. f_equal. f_equal. apply Z.eqb_neq. intros H1. apply Hx.
    rewrite <- (byte_of_to_Z x), H1. reflexivity.
Qed.

Lemma bool_byte_write_read_witness :
  LW.readBool (LW.mkDes (LWSer.serialize (LWSer.writeByte x02 LWSer.new) ++ []) 0)
  = Ok (false,
        LW.advance 1 (LW.mkDes (LWSer.serialize (LWSer.writeByte x02 LWSer.new) ++ []) 0)).
Proof.
  apply (proj2 (proj2 (bool_byte_write_read LWSer.new [] true x02))).
  discriminate.
Defined.

(** X5. [rewriteFirstUint32] on a buffer of at least four bytes keeps
    the length and every byte after the fourth, and the first four
    bytes then read as the new value; on a shorter buffer it indexes
    past the end. *)
Theorem rewriteFirstUint32_spec (s : LWSer.LWSerializer) (i : Z) :
  ((4 <= length (LWSer.serialize s))%nat ->
   exists s',
     LWSer.rewriteFirstUint32 i s = Ok s'
     /\ length (LWSer.serialize s') = length (LWSer.serialize s)
     /\ drop 4 (LWSer.serialize s') = drop 4 (LWSer.serialize s)
     /\ LW.readUint32 (LW.receive (LWSer.serialize s'))
        = Ok (i mod 2 ^ 32, LW.mkDes (LWSer.serialize s') 4))
  /\ ((length (LWSer.serialize s) < 4)%nat ->
      LWSer.rewriteFirstUint32 i s = Undefined).
Proof.
  destruct s as [buf]. unfold LWSer.rewriteFirstUint32, LWSer.serialize.
  cbn [LWSer._data]. split; intros Hlen.
  - assert (H : (4 <=? length buf)%nat = true) by (apply Nat.leb_le; exact Hlen).
    rewrite H. eexists. split; [reflexivity|]. cbn [LWSer._data].
    split; [|split].
    + rewrite length_app, marshall_out_length, length_drop. lia.
    + pose proof (drop_app_length (LWSer.marshall_out 4 i) (drop 4 buf)) as D.
      rewrite marshall_out_length in D. exact D.
    + pose proof (deref_marshalled 4 i [] (drop 4 buf)) as D.
      unfold LW.readUint32, LW.receive. cbn [LW._data LW._pos].
      cbn [app length] in D.
      assert (G : (length (LWSer.marshall_out 4 i ++ drop 4 buf) <=? 0)%nat = false)
        by (apply Nat.leb_gt; rewrite length_app, marshall_out_length; lia).
      rewrite G, D. cbn [obind]. rewrite marshall_in_out. reflexivity.
  - assert (H : (4 <=? length buf)%nat = false) by (apply Nat.leb_gt; exact Hlen).
    rewrite H. reflexivity.
Qed.

Lemma rewriteFirstUint32_spec_witness :
  exists s',
    LWSer.rewriteFirstUint32 500 (LWSer.writeUint64 7 LWSer.new) = Ok s'
    /\ LW.readUint32 (LW.receive (LWSer.serialize s')) = Ok (500, LW.mkDes (LWSer.serialize s') 4).
Proof.
  destruct (proj1 (rewriteFirstUint32_spec (LWSer.writeUint64 7 LWSer.new) 500))
    as (s' & H1 & _ & _ & H4).
  - cbn. lia.
  - exists s'. split; [exact H1|exact H4].
Defined.

(** ** The bit pattern of a float *)

Section FloatBits.

Lemma digits2_pos_bounds (m : positive) :
  2 ^ (Zpos (digits2_pos m) - 1) <= Zpos m < 2 ^ Zpos (digits2_pos m).
Proof.
  induction m as [m IH|m IH|]; cbn [digits2_pos].
  - rewrite Pos2Z.inj_succ.
    replace (Z.succ (Zpos (digits2_pos m)) - 1) with (Z.succ (Zpos (digits2_pos m) - 1)) by lia.
    rewrite !Z.pow_succ_r by lia. lia.
  - rewrite Pos2Z.inj_succ.
    replace (Z.succ (Zpos (digits2_pos m)) - 1) with (Z.succ (Zpos (digits2_pos m) - 1)) by lia.
    rewrite !Z.pow_succ_r by lia. lia.
  - cbn. lia.
Qed.

(** The three fields of a 32-bit pattern. *)
Lemma bits_fields (S E M : Z) :
  0 <= S <= 1 -> 0 <= E < 256 -> 0 <= M < 2 ^ 23 ->
  let w := S * 2 ^ 31 + E * 2 ^ 23 + M in
  Z.testbit w 31 = (S =? 1)
  /\ Z.land (Z.shiftr w 23) 255 = E
  /\ Z.land w (2 ^ 23 - 1) = M.
Proof.
  intros HS HE HM w.
  assert (Hhi : w / 2 ^ 31 = S).
  { symmetry. apply (Z.div_unique w (2 ^ 31) S (E * 2 ^ 23 + M)); [|unfold w; lia].
    left. change (2 ^ 31) with (256 * 2 ^ 23). nia. }
  assert (Hmid : w / 2 ^ 23 = S * 256 + E).
  { symmetry. apply (Z.div_unique w (2 ^ 23) (S * 256 + E) M); [lia|].
    unfold w. change (2 ^ 31) with (256 * 2 ^ 23). lia. }
  split; [|split].
  - rewrite Z.testbit_odd, Z.shiftr_div_pow2, Hhi by lia.
    assert (S = 0 \/ S = 1) as [->| ->] by lia; reflexivity.
  - rewrite Z.shiftr_div_pow2, Hmid by lia.
    change 255 with (Z.ones 8). rewrite Z.land_ones by lia.
    change (2 ^ 8) with 256.
    symmetry. apply (Z.mod_unique (S * 256 + E) 256 S E); lia.
  - change (2 ^ 23 - 1) with (Z.ones 23). rewrite Z.land_ones by lia.
    symmetry. apply (Z.mod_unique w (2 ^ 23) (S * 256 + E) M); [lia|].
    unfold w. change (2 ^ 31) with (256 * 2 ^ 23). lia.
Qed.

Lemma to_bits_range (f : float) :
  valid_binary Float32.prec Float32.emax f = true ->
  0 <= LWSer.to_bits f < 2 ^ 32.
Proof.
  destruct f as [[]|[]| |s m e]; cbn; try lia.
  unfold bounded, canonical_mantissa, fexp, emin, Float32.prec, Float32.emax.
  intros H. apply andb_true_iff in H as [Hc He].
  apply Z.eqb_eq in Hc. apply Z.leb_le in He.
  pose proof (digits2_pos_bounds m) as Hd.
  destruct (Z.pos m <? 2 ^ 23) eqn:Em.
  - apply Z.ltb_lt in Em. destruct s; lia.
  - apply Z.ltb_ge in Em.
    assert (Hdig : Zpos (digits2_pos m) = 24).
    { destruct (Z_lt_dec (Zpos (digits2_pos m)) 24) as [Hlt|Hge].
      - exfalso.
        assert (2 ^ Zpos (digits2_pos m) <= 2 ^ 23)
          by (apply Z.pow_le_mono_r; lia).
        lia.
      - lia. }
    rewrite Hdig in Hd. change (2 ^ (24 - 1)) with (2 ^ 23) in Hd.
    destruct s; nia.
Qed.

(** Reinterpreting the bit pattern of a binary32 value gives the value
    back. *)
Lemma of_to_bits (f : float) :
  valid_binary Float32.prec Float32.emax f = true ->
  Float32.of_bits (LWSer.to_bits f) = f.
Proof.
  destruct f as [[]|[]| |s m e]; try reflexivity.
  cbn [valid_binary].
  unfold bounded, canonical_mantissa, fexp, emin, Float32.prec, Float32.emax.
  intros H. apply andb_true_iff in H as [Hc He].
  apply Z.eqb_eq in Hc. apply Z.leb_le in He.
  pose proof (digits2_pos_bounds m) as Hd.
  unfold LWSer.to_bits.
  destruct (Z.pos m <? 2 ^ 23) eqn:Em.
  - (* subnormal *)
    apply Z.ltb_lt in Em.
    assert (Hdig : Zpos (digits2_pos m) <= 23).
    { destruct (Z_le_dec (Zpos (digits2_pos m)) 23) as [Hle|Hgt]; [exact Hle|].
      exfalso.
      assert (2 ^ 23 <= 2 ^ (Zpos (digits2_pos m) - 1))
        by (apply Z.pow_le_mono_r; lia).
      lia. }
    assert (He' : e = -149) by lia. subst e.
    destruct (bits_fields (if s then 1 else 0) 0 (Zpos m)) as (B1 & B2 & B3);
      [destruct s; lia|lia|lia|].
    cbn zeta in B1, B2, B3.
    replace ((if s then 2 ^ 31 else 0) + Z.pos m)
      with ((if s then 1 else 0) * 2 ^ 31 + 0 * 2 ^ 23 + Z.pos m)
      by (destruct s; lia).
    unfold Float32.of_bits. rewrite B1, B2, B3. cbn [Z.eqb].
    destruct s; reflexivity.
  - (* normal *)
    apply Z.ltb_ge in Em.
    assert (Hdig : Zpos (digits2_pos m) = 24).
    { destruct (Z_lt_dec (Zpos (digits2_pos m)) 24) as [Hlt|Hge].
      - exfalso.
        assert (2 ^ Zpos (digits2_pos m) <= 2 ^ 23)
          by (apply Z.pow_le_mono_r; lia).
        lia.
      - lia. }
    rewrite Hdig in Hd. change (2 ^ (24 - 1)) with (2 ^ 23) in Hd.
    change (2 ^ 24) with (2 * 2 ^ 23) in Hd.
    destruct (bits_fields (if s then 1 else 0) (e + 150) (Zpos m - 2 ^ 23))
      as (B1 & B2 & B3); [destruct s; lia|lia|lia|].
    cbn zeta in B1, B2, B3.
    replace ((if s then 2 ^ 31 else 0) + (e + 150) * 2 ^ 23 + (Z.pos m - 2 ^ 23))
      with ((if s then 1 else 0) * 2 ^ 31 + (e + 150) * 2 ^ 23 + (Z.pos m - 2 ^ 23))
      by (destruct s; lia).
    unfold Float32.of_bits. rewrite B1, B2, B3.
    destruct (e + 150 =? 0) eqn:E0; [apply Z.eqb_eq in E0; lia|].
    destruct (e + 150 =? 255) eqn:E1; [apply Z.eqb_eq in E1; lia|].
    replace (Z.pos m - 2 ^ 23 + 2 ^ 23) with (Z.pos m) by lia.
    replace (e + 150 - 150) with e by lia.
    destruct s; reflexivity.
Qed.

End FloatBits.

(** X3. A float written by [writeFloat] is read back by [readFloat]
    as the same value: zeros of either sign, subnormals, normals and
    infinities come back bit for bit, and NaN as NaN (the model has one
    NaN, without payload). *)
Theorem float_write_read (s : LWSer.LWSerializer) (rest : list byte) (f : float) :
  valid_binary Float32.prec Float32.emax f = true ->
  let d := LW.mkDes (LWSer.serialize (LWSer.writeFloat f s) ++ rest)
             (length (LWSer.serialize s)) in
  LW.readFloat d = Ok (f, LW.advance 4 d).
Proof.
  intros Hf. destruct s as [buf]. cbn zeta.
  unfold LWSer.serialize, LWSer.writeFloat. cbn [LWSer._data].
  rewrite <- app_assoc. unfold LW.readFloat. cbn [LW._data LW._pos].
  rewrite not_at_end by (rewrite marshall_out_length; lia).
  rewrite deref_marshalled. cbn [obind]. rewrite marshall_in_out.
  change (2 ^ (8 * Z.of_nat 4)) with (2 ^ 32).
  rewrite Z.mod_small by (apply to_bits_range; exact Hf).
  rewrite of_to_bits by exact Hf. reflexivity.
Qed.

Lemma float_write_read_witness :
  LW.readFloat
    (LW.mkDes (LWSer.serialize (LWSer.writeFloat (Samples.f32 (-3)) LWSer.new) ++ []) 0)
  = Ok (Samples.f32 (-3),
        LW.advance 4
          (LW.mkDes (LWSer.serialize (LWSer.writeFloat (Samples.f32 (-3)) LWSer.new) ++ []) 0)).
Proof.
  apply (float_write_read LWSer.new [] (Samples.f32 (-3))). reflexivity.
Defined.

(** ** Events on the wire *)

(** A game state event on the wire and back. *)
Lemma game_state_decode
  (chk : bool) (e0 e : GameState.GameStateEvent) :
  GameState.deserialize chk e0 (GameState.serialize e)
  = Ok (GameState.mkEvent (GameState.base e0) (GameState._type e)
          (match GameState._type e with
           | GameState.UID_ASSIGN => GameState._shortUID e mod 256
           | _ => GameState._shortUID e0
           end))
  /\ length (GameState.serialize e)
     = match GameState._type e with GameState.UID_ASSIGN => 2%nat | _ => 1%nat end.
Proof.
  destruct e as [b t u]. unfold GameState.serialize, GameState.deserialize.
  cbn [GameState._type GameState._shortUID].
  destruct t; cbn [length]; (split; [|reflexivity]);
    rewrite byte_to_of_Z;
    match goal with
    | |- context [GameState.of_code (GameState.code ?t mod 256)] =>
        change (GameState.of_code (GameState.code t mod 256)) with (Some t)
    end; cbv iota; rewrite ?byte_to_of_Z; reflexivity.
Qed.

(** X6. The type of a game state event survives the wire for every
    type, in one byte (two for [UID_ASSIGN]); the short UID of the
    receiving event is only written for [UID_ASSIGN]: for any other
    type the field keeps what the receiving object held. *)
Theorem game_state_round_trip
  (chk : bool) (e0 e : GameState.GameStateEvent) :
  GameState.deserialize chk e0 (GameState.serialize e)
  = Ok (GameState.mkEvent (GameState.base e0) (GameState._type e)
          (match GameState._type e with
           | GameState.UID_ASSIGN => GameState._shortUID e mod 256
           | _ => GameState._shortUID e0
           end))
  /\ length (GameState.serialize e)
     = match GameState._type e with GameState.UID_ASSIGN => 2%nat | _ => 1%nat end.
Proof. apply game_state_decode. Qed.

(** X7. [GameStateEvent::deserialize] does not check the length of its
    input: on no data, and on a [UID_ASSIGN] flag without the UID byte,
    it indexes past the end; a flag outside 100..105 trips the
    assertion, and leaves the event untouched when assertions are
    compiled out. *)
Theorem game_state_bad_payload
  (chk : bool) (e0 : GameState.GameStateEvent) (flag : byte) (rest : list byte) :
  GameState.deserialize chk e0 [] = Undefined
  /\ GameState.deserialize chk e0 [byte_of_Z 100] = Undefined
  /\ (~ 100 <= byte_to_Z flag <= 105 ->
      GameState.deserialize chk e0 (flag :: rest)
      = if chk then AssertFailure else Ok e0).
Proof.
  split; [reflexivity|]. split; [reflexivity|].
  intros Hflag. unfold GameState.deserialize, GameState.of_code.
  repeat match goal with
         | |- context [byte_to_Z flag =? ?n] =>
             let E := fresh "E" in
             destruct (byte_to_Z flag =? n) eqn:E; [apply Z.eqb_eq in E; lia|clear E]
         end.
  destruct chk; reflexivity.
Qed.

Lemma game_state_bad_payload_witness :
  GameState.deserialize true (GameState.new 0) [x07; x01] = AssertFailure.
Proof.
  apply (proj2 (proj2 (game_state_bad_payload true (GameState.new 0) x07 [x01]))).
  vm_compute. intros [H _]. apply H. reflexivity.
Defined.

(** *** Object events *)

Section ObjectEventWire.
Import Physics2 WireSpec.

(** One read, at the place where the value was written; the buffer of
    the result is associated for the next read. *)
Lemma step_uint32 (pre rest : list byte) (v : Z) :
  LW.readUint32 (LW.mkDes (pre ++ LWSer.marshall_out 4 v ++ rest) (length pre))
  = Ok (v mod 2 ^ 32,
        LW.mkDes ((pre ++ LWSer.marshall_out 4 v) ++ rest)
          (length (pre ++ LWSer.marshall_out 4 v))).
Proof.
  unfold LW.readUint32. cbn [LW._data LW._pos].
  rewrite not_at_end by (rewrite marshall_out_length; lia).
  rewrite deref_marshalled. cbn [obind]. rewrite marshall_in_out.
  unfold LW.advance. cbn [LW._data LW._pos].
  rewrite <- app_assoc, length_app, marshall_out_length. reflexivity.
Qed.

Lemma step_uint64 (pre rest : list byte) (v : Z) :
  LW.readUint64 (LW.mkDes (pre ++ LWSer.marshall_out 8 v ++ rest) (length pre))
  = Ok (v mod 2 ^ 64,
        LW.mkDes ((pre ++ LWSer.marshall_out 8 v) ++ rest)
          (length (pre ++ LWSer.marshall_out 8 v))).
Proof.
  unfold LW.readUint64. cbn [LW._data LW._pos].
  rewrite not_at_end by (rewrite marshall_out_length; lia).
  rewrite deref_marshalled. cbn [obind]. rewrite marshall_in_out.
  unfold LW.advance. cbn [LW._data LW._pos].
  rewrite <- app_assoc, length_app, marshall_out_length. reflexivity.
Qed.

Lemma step_float (pre rest : list byte) (f : float) :
  float_ok f ->
  LW.readFloat
    (LW.mkDes (pre ++ LWSer.marshall_out 4 (LWSer.to_bits f) ++ rest) (length pre))
  = Ok (f,
        LW.mkDes ((pre ++ LWSer.marshall_out 4 (LWSer.to_bits f)) ++ rest)
          (length (pre ++ LWSer.marshall_out 4 (LWSer.to_bits f)))).
Proof.
  intros Hf. unfold LW.readFloat. cbn [LW._data LW._pos].
  rewrite not_at_end by (rewrite marshall_out_length; lia).
  rewrite deref_marshalled. cbn [obind]. rewrite marshall_in_out.
  change (2 ^ (8 * Z.of_nat 4)) with (2 ^ 32).
  rewrite Z.mod_small by (apply to_bits_range; exact Hf).
  rewrite of_to_bits by exact Hf.
  unfold LW.advance. cbn [LW._data LW._pos].
  rewrite <- app_assoc, length_app, marshall_out_length. reflexivity.
Qed.

Lemma step_bool (pre rest : list byte) (b : bool) :
  LW.readBool (LW.mkDes (pre ++ [if b then x01 else x00] ++ rest) (length pre))
  = Ok (b,
        LW.mkDes ((pre ++ [if b then x01 else x00]) ++ rest)
          (length (pre ++ [if b then x01 else x00]))).
Proof.
  unfold LW.readBool. cbn [LW._data LW._pos].
  rewrite not_at_end by (cbn; lia).
  pose proof (deref_at pre [if b then x01 else x00] rest) as D.
  cbn [length] in D. rewrite D. cbn [obind].
  unfold LW.advance. cbn [LW._data LW._pos].
  rewrite <- app_assoc, length_app. cbn [length].
  destruct b; reflexivity.
Qed.

Lemma step_vec2 (pre rest : list byte) (v : Vec2) :
  vec_ok v ->
  PhysObjWire.readVec2
    (LW.mkDes (pre ++ LWSer.marshall_out 4 (LWSer.to_bits (vec_x v))
                 ++ LWSer.marshall_out 4 (LWSer.to_bits (vec_y v)) ++ rest)
       (length pre))
  = Ok (v,
        LW.mkDes (((pre ++ LWSer.marshall_out 4 (LWSer.to_bits (vec_x v)))
                   ++ LWSer.marshall_out 4 (LWSer.to_bits (vec_y v))) ++ rest)
          (length ((pre ++ LWSer.marshall_out 4 (LWSer.to_bits (vec_x v)))
                   ++ LWSer.marshall_out 4 (LWSer.to_bits (vec_y v))))).
Proof.
  intros [Hx Hy]. unfold PhysObjWire.readVec2.
  rewrite (step_float _ _ _ Hx). cbn [obind].
  rewrite (step_float _ _ _ Hy). cbn [obind].
  destruct v. reflexivity.
Qed.

Ltac wire_guard :=
  match goal with
  | |- context [(length ?d <? ?n)%nat] =>
      replace (length d <? n)%nat with false
        by (symmetry; apply Nat.ltb_ge;
            rewrite ?length_app, ?marshall_out_length; cbn; lia)
  end.

Ltac wire_header Hid :=
  change (LW.receive ?x) with (LW.mkDes ([] ++ x) (length (@nil byte)));
  rewrite step_uint32; cbn [obind];
  rewrite step_uint64; cbn [obind];
  rewrite (Z.mod_small _ (2 ^ 64)) by exact Hid;
  rewrite (Z.mod_small _ (2 ^ 32)) by lia;
  cbn [Z.eqb Pos.eqb].

(** An event on the wire and back. *)
Lemma phys_obj_decode
  (chk : bool) (e0 e : PhysObj.PhysObjEvent) :
  wire_ok e ->
  PhysObjWire.deserialize chk e0 (PhysObjWire.serialize e)
  = Ok (PhysObjWire.Event
          (PhysObj.mkEvent (PhysObj.base e0) (PhysObj._objId e) (PhysObj.body e))).
Proof.
  destruct e as [b id body]. intros [Hid Hb].
  cbn [PhysObj._objId PhysObj.body] in *.
  rewrite <- (app_nil_r (PhysObjWire.serialize _)).
  unfold PhysObjWire.serialize, PhysObjWire.deserialize.
  cbn [PhysObj._objId PhysObj.body].
  destruct body as [factId param| |t|p|v|a|w|c|c|duration|];
    unfold LWSer.serialize, LWSer.writeUint32, LWSer.writeUint64, LWSer.writeFloat,
      LWSer.writeBool, LWSer.writeByteVector, LWSer.reset, LWSer.new;
    cbn [LWSer._data PhysObjWire.typeCode];
    rewrite <- ?app_assoc, app_nil_l; wire_guard; wire_header Hid.
  - rewrite step_uint32. cbn [obind].
    match goal with
    | |- context [(?n <=? length ?d)%nat] =>
        replace (n <=? length d)%nat with true
          by (symmetry; apply Nat.leb_le;
              rewrite ?length_app, ?marshall_out_length; cbn; lia)
    end.
    rewrite Z.mod_small by exact Hb.
    rewrite !app_assoc, app_nil_r.
    rewrite drop_app_length'
      by (rewrite ?length_app, ?marshall_out_length; reflexivity).
    reflexivity.
  - reflexivity.
  - rewrite step_uint32. cbn [obind]. destruct t; reflexivity.
  - rewrite (step_vec2 _ _ _ Hb). reflexivity.
  - rewrite (step_vec2 _ _ _ Hb). reflexivity.
  - rewrite (step_float _ _ _ Hb). reflexivity.
  - rewrite (step_float _ _ _ Hb). reflexivity.
  - unfold PhysObjWire.readBoolConsts.
    do 6 (rewrite step_bool; cbn [obind]).
    destruct c; reflexivity.
  - destruct Hb as (H1 & H2 & H3 & H4 & H5 & H6 & H7 & H8 & H9).
    unfold PhysObjWire.readFloatConsts.
    rewrite (step_float _ _ _ H1). cbn [obind].
    rewrite (step_float _ _ _ H2). cbn [obind].
    rewrite (step_float _ _ _ H3). cbn [obind].
    rewrite (step_float _ _ _ H4). cbn [obind].
    rewrite (step_float _ _ _ H5). cbn [obind].
    rewrite (step_float _ _ _ H6). cbn [obind].
    rewrite (step_float _ _ _ H7). cbn [obind].
    rewrite (step_float _ _ _ H8). cbn [obind].
    rewrite (step_vec2 _ _ _ H9). cbn [obind].
    destruct c; reflexivity.
  - rewrite step_uint64. cbn [obind].
    rewrite Z.mod_small by exact Hb. reflexivity.
  - reflexivity.
Qed.

(** X8. An object event whose fields are values of their C++ types is
    read back from its own serialization field for field, whatever its
    type; only the meta data of the receiving event is kept. *)
Theorem phys_obj_round_trip
  (chk : bool) (e0 e : PhysObj.PhysObjEvent) :
  wire_ok e ->
  PhysObjWire.deserialize chk e0 (PhysObjWire.serialize e)
  = Ok (PhysObjWire.Event
          (PhysObj.mkEvent (PhysObj.base e0) (PhysObj._objId e) (PhysObj.body e))).
Proof. apply phys_obj_decode. Qed.

Lemma phys_obj_round_trip_witness :
  PhysObjWire.deserialize true (PhysObj.allocDeletion 0)
    (PhysObjWire.serialize samplePosition)
  = Ok (PhysObjWire.Event samplePosition).
Proof.
  apply (phys_obj_round_trip true (PhysObj.allocDeletion 0) samplePosition).
  vm_compute. repeat split; congruence.
Defined.

Ltac wire_header_any :=
  change (LW.receive ?x) with (LW.mkDes ([] ++ x) (length (@nil byte)));
  rewrite step_uint32; cbn [obind];
  rewrite step_uint64; cbn [obind];
  rewrite (Z.mod_small _ (2 ^ 32)) by lia;
  cbn [Z.eqb Pos.eqb].

Lemma partial_word (pre part : list byte) :
  (0 < length part < 4)%nat ->
  LW.readUint32 (LW.mkDes (pre ++ part) (length pre)) = Undefined
  /\ LW.readFloat (LW.mkDes (pre ++ part) (length pre)) = Undefined.
Proof.
  intros H. unfold LW.readUint32, LW.readFloat. cbn [LW._data LW._pos].
  replace (length (pre ++ part) <=? length pre)%nat with false
    by (symmetry; apply Nat.leb_gt; rewrite length_app; lia).
  rewrite read_partial_undefined
    by (cbn [LW._data LW._pos]; rewrite length_app; lia).
  split; reflexivity.
Qed.

(** X9. What [PhysObjEvent::deserialize] makes of cut data.  Fewer
    than 12 bytes leave the event as it was.  A header alone is
    decoded with every payload field zero (a static body type, a zero
    lease), but is out of range for a creation event.  A header
    followed by one to three bytes, for a type whose payload starts
    with a four-byte field, reads past the end of the data. *)
Theorem phys_obj_truncated
  (chk : bool) (e0 : PhysObj.PhysObjEvent) (code objId : Z) :
  (forall data, (length data < 12)%nat ->
     PhysObjWire.deserialize chk e0 data = Ok (PhysObjWire.Event e0))
  /\ (forall body, emptyPayload code = Some body ->
        PhysObjWire.deserialize chk e0 (header code objId)
        = Ok (PhysObjWire.Event
                (PhysObj.mkEvent (PhysObj.base e0) (objId mod 2 ^ 64) body)))
  /\ PhysObjWire.deserialize chk e0 (header 0 objId) = Undefined
  /\ (forall part, startsWithWord code = true -> (0 < length part < 4)%nat ->
        PhysObjWire.deserialize chk e0 (header code objId ++ part) = Undefined).
Proof.
  split; [|split; [|split]].
  - intros data H. unfold PhysObjWire.deserialize.
    replace (length data <? 4 + 8)%nat with true
      by (symmetry; apply Nat.ltb_lt; cbn; lia).
    reflexivity.
  - intros body Hb.
    rewrite <- (app_nil_r (header code objId)).
    unfold header, LWSer.serialize, LWSer.writeUint32, LWSer.writeUint64, LWSer.new.
    cbn [LWSer._data]. rewrite <- ?app_assoc, app_nil_l.
    unfold emptyPayload in Hb.
    unfold PhysObjWire.deserialize. wire_guard.
    repeat match type of Hb with
           | (if code =? ?k then _ else _) = _ =>
               let E := fresh "E" in
               destruct (code =? k) eqn:E; [apply Z.eqb_eq in E; subst code|]
           end;
      try discriminate Hb; injection Hb as <-; wire_header_any; try reflexivity.
    all: match goal with
         | |- context [LW.mkDes ?data ?pos] =>
             assert (Hend : (length (LW._data (LW.mkDes data pos))
                             <= LW._pos (LW.mkDes data pos))%nat)
               by (cbn [LW._data LW._pos];
                   rewrite ?length_app, ?marshall_out_length; cbn; lia);
             destruct (read_at_end _ Hend) as (Rb & _ & Rf & _ & _ & R32 & R64)
         end.
    all: unfold PhysObjWire.readVec2, PhysObjWire.readBoolConsts,
           PhysObjWire.readFloatConsts;
         rewrite ?Rf, ?Rb, ?R32, ?R64; cbn [obind];
         rewrite ?Rf, ?Rb; cbn [obind]; try reflexivity.
    all: repeat (rewrite ?Rf, ?Rb; cbn [obind]); reflexivity.
  - rewrite <- (app_nil_r (header 0 objId)).
    unfold header, LWSer.serialize, LWSer.writeUint32, LWSer.writeUint64, LWSer.new.
    cbn [LWSer._data]. rewrite <- ?app_assoc, app_nil_l.
    unfold PhysObjWire.deserialize. wire_guard. wire_header_any.
    match goal with
    | |- context [LW.readUint32 (LW.mkDes ?data ?pos)] =>
        assert (Hend : (length (LW._data (LW.mkDes data pos))
                        <= LW._pos (LW.mkDes data pos))%nat)
          by (cbn [LW._data LW._pos];
              rewrite ?length_app, ?marshall_out_length; cbn; lia);
        destruct (read_at_end _ Hend) as (_ & _ & _ & _ & _ & R32 & _)
    end.
    rewrite R32. cbn [obind].
    match goal with
    | |- context [(?n <=? length ?d)%nat] =>
        replace (n <=? length d)%nat with false
          by (symmetry; apply Nat.leb_gt;
              rewrite ?length_app, ?marshall_out_length; cbn; lia)
    end.
    reflexivity.
  - intros part Hc Hp.
    unfold header, LWSer.serialize, LWSer.writeUint32, LWSer.writeUint64, LWSer.new.
    cbn [LWSer._data]. rewrite <- ?app_assoc, app_nil_l.
    unfold PhysObjWire.deserialize. wire_guard.
    unfold startsWithWord in Hc.
    repeat match type of Hc with
           | (_ || (code =? ?k)) = true =>
               apply orb_true_iff in Hc; destruct Hc as [Hc|Hc]
           end;
      apply Z.eqb_eq in Hc; subst code; wire_header_any;
      unfold PhysObjWire.readVec2, PhysObjWire.readFloatConsts;
      rewrite ?(proj1 (partial_word _ part Hp)), ?(proj2 (partial_word _ part Hp));
      reflexivity.
Qed.

Lemma phys_obj_truncated_witness :
  PhysObjWire.deserialize true samplePosition [x00; x00; x00; x09]
  = Ok (PhysObjWire.Event samplePosition)
  /\ PhysObjWire.deserialize true samplePosition (header 2 7)
     = Ok (PhysObjWire.Event (PhysObj.allocBodyType 7 b2_staticBody))
  /\ PhysObjWire.deserialize true samplePosition (header 5 7 ++ [x3f; x80])
     = Undefined.
Proof.
  pose proof (phys_obj_truncated true samplePosition 2 7) as (H1 & H2 & _ & _).
  pose proof (phys_obj_truncated true samplePosition 5 7) as (_ & _ & _ & H4).
  split; [|split].
  - apply H1. cbn. lia.
  - apply (H2 (PhysObj.OBJ_BODY_TYPE b2_staticBody)). reflexivity.
  - apply H4; [reflexivity|cbn; lia].
Defined.

End ObjectEventWire.

(** ** The tick, over any number of steps *)

Section TickInvariant.
Import Physics2 NetPhysics Spec EngineSpec.

Lemma cache_modifyObs (c : Controller) (obj : Obs) (f : Obstacle -> Obstacle) :
  _cache (modifyObs obj f c) = _cache c.
Proof. reflexivity. Qed.

Lemma deleteCache_modifyObs (c : Controller) (obj : Obs) (f : Obstacle -> Obstacle) :
  _deleteCache (modifyObs obj f c) = _deleteCache c.
Proof. reflexivity. Qed.

Lemma advanced_ok (p : targetParam) :
  target_ok p -> 1 < numSteps p - curStep p -> target_ok (advanced p).
Proof. unfold target_ok, advanced. cbn. lia. Qed.

(** One cache entry: what the loop body does to the cache, to the list
    of entries to erase and to the [shared] flag. *)
Lemma itprOne_cache (chk : bool) (obj : Obs) (p : targetParam) (c : Controller) :
  target_ok p ->
  exists c',
    itprOne chk (obj, p) c = Ok c'
    /\ (forall o, o <> obj ->
          _cache c' !! o = _cache c !! o
          /\ (o ∈ _deleteCache c' -> o ∈ _deleteCache c))
    /\ (shared (heap c obj) = false -> _cache c' = _cache c)
    /\ (shared (heap c obj) = true ->
        _cache c' !! obj = Some (advanced p)
        /\ shared (heap c' obj) = true
        /\ (1 < numSteps p - curStep p ->
            obj ∈ _deleteCache c' -> obj ∈ _deleteCache c)).
Proof.
  intros Hok. unfold itprOne, isShared.
  destruct (shared (heap c obj)) eqn:Hsh; cbn [negb].
  - destruct (numSteps p - curStep p <=? 1) eqn:E.
    + cbn [obind]. eexists. split; [reflexivity|].
      split; [|split; [discriminate|]].
      * intros o Ho. rewrite cache_modifyObs, deleteCache_modifyObs. cbn.
        rewrite lookup_insert_ne by congruence. split; [reflexivity|].
        intros Hin. apply elem_of_app in Hin as [Hin|Hin]; [exact Hin|].
        apply list_elem_of_singleton in Hin. contradiction.
      * intros _. rewrite cache_modifyObs. cbn. rewrite lookup_insert_eq.
        split; [reflexivity|]. split.
        -- rewrite heap_modifyObs, decide_True by reflexivity. reflexivity.
        -- apply Z.leb_le in E. lia.
    + apply Z.leb_gt in E.
      pose proof (ratio_ok_target p Hok) as Hr. unfold ratio_ok in Hr.
      unfold cuAssert. rewrite Hr, andb_false_r. cbn [obind].
      eexists. split; [reflexivity|].
      split; [|split; [discriminate|]].
      * intros o Ho. rewrite cache_modifyObs, deleteCache_modifyObs. cbn.
        rewrite lookup_insert_ne by congruence. split; [reflexivity|auto].
      * intros _. rewrite cache_modifyObs. cbn. rewrite lookup_insert_eq.
        split; [reflexivity|]. split.
        -- rewrite heap_modifyObs, decide_True by reflexivity. reflexivity.
        -- intros _ Hin. exact Hin.
  - eexists. split; [reflexivity|]. split; [|split; [reflexivity|discriminate]].
    intros o Ho. cbn. split; [reflexivity|].
    intros Hin. apply elem_of_app in Hin as [Hin|Hin]; [exact Hin|].
    apply list_elem_of_singleton in Hin. contradiction.
Qed.

(** The interpolation loop over entries with distinct keys: the cache
    it leaves, before the erasure. *)
Lemma itprLoop_cache (chk : bool) (entries : list (Obs * targetParam))
  (c : Controller) :
  NoDup entries.*1 ->
  (forall o p, (o, p) ∈ entries -> target_ok p) ->
  exists c',
    foldM (itprOne chk) entries c = Ok c'
    /\ (forall o, o ∉ entries.*1 ->
          _cache c' !! o = _cache c !! o
          /\ (o ∈ _deleteCache c' -> o ∈ _deleteCache c))
    /\ (forall o p, (o, p) ∈ entries ->
          (shared (heap c o) = false -> _cache c' !! o = _cache c !! o)
          /\ (shared (heap c o) = true ->
              _cache c' !! o = Some (advanced p)
              /\ shared (heap c' o) = true
              /\ (1 < numSteps p - curStep p ->
                  o ∈ _deleteCache c' -> o ∈ _deleteCache c))).
Proof.
  revert c. induction entries as [|[a pa] l IH]; intros c Hnd Hok.
  - exists c. split; [reflexivity|]. split; [auto|]. intros o p Ho. inversion Ho.
  - cbn in Hnd. apply list.NoDup_cons in Hnd as [Ha Hnd].
    destruct (itprOne_cache chk a pa c) as (c1 & H1 & Oth1 & Un1 & Sh1).
    { apply (Hok a pa). left. }
    destruct (itprOne_spec chk a pa c) as (c1' & H1' & _ & Heap1 & _).
    { apply (Hok a pa). left. }
    rewrite H1 in H1'. injection H1' as <-.
    destruct (IH c1 Hnd) as (c2 & H2 & Oth2 & In2).
    { intros o p Ho. apply (Hok o p). right. exact Ho. }
    destruct (itprLoop_spec chk l c1 Hnd) as (c2' & H2' & _ & Heap2 & _).
    { intros o p Ho. apply (Hok o p). right. exact Ho. }
    rewrite H2 in H2'. injection H2' as <-.
    exists c2. split; [cbn [foldM]; rewrite H1; exact H2|]. split.
    + intros o Ho. cbn in Ho. apply not_elem_of_cons in Ho as [Hne Ho].
      destruct (Oth2 o Ho) as [E2 D2]. destruct (Oth1 o Hne) as [E1 D1].
      split; [congruence|auto].
    + intros o p Ho. apply elem_of_cons in Ho as [[= -> ->]|Ho].
      * destruct (Oth2 a Ha) as [E2 D2]. split.
        -- intros Hsh. rewrite E2, (Un1 Hsh). reflexivity.
        -- intros Hsh. destruct (Sh1 Hsh) as (C1 & S1 & D1).
           split; [congruence|]. split; [rewrite (Heap2 a Ha); exact S1|].
           intros Hgt Hin. apply (D1 Hgt), D2, Hin.
      * assert (Hne : o <> a).
        { intros ->. apply Ha. apply list_elem_of_fmap.
          exists (a, p). split; [reflexivity|exact Ho]. }
        destruct (In2 o p Ho) as [U2 S2]. destruct (Oth1 o Hne) as [E1 D1].
        rewrite (Heap1 o Hne) in U2, S2. split.
        -- intros Hsh. rewrite (U2 Hsh). exact E1.
        -- intros Hsh. destruct (S2 Hsh) as (C2 & Sh2 & D2).
           split; [exact C2|]. split; [exact Sh2|]. auto.
Qed.

(** One tick, on a state that meets the invariant. *)
Lemma tick_spec (chk : bool) (c : Controller) :
  engine_ok c ->
  exists c',
    fixedUpdate chk c = Ok c'
    /\ engine_ok c' /\ _deleteCache c' = [] /\ same_registry c c'
    /\ (forall obj, _cache c !! obj = None -> _cache c' !! obj = None)
    /\ (forall obj p, _cache c !! obj = Some p ->
          (isShared (heap c obj) = false ->
           same_body (heap c' obj) (heap c obj) /\ _cache c' !! obj = None)
          /\ (isShared (heap c obj) = true -> numSteps p - curStep p <= 1 ->
              reached p (heap c' obj) /\ _cache c' !! obj = None)
          /\ (isShared (heap c obj) = true -> 1 < numSteps p - curStep p ->
              obj ∉ _deleteCache c ->
              _cache c' !! obj = Some (advanced p)
              /\ isShared (heap c' obj) = true)).
Proof.
  intros Hok.
  destruct (fixedUpdate_run chk c Hok) as (c1 & c2 & c3 & H1 & F1 & H2 & H3 & Hrun).
  destruct F1 as (Fw & Fc & Fh & Fd & _ & Fb).
  destruct (leaseLoop_spec (obstacles (_world c)) c1) as (c2' & H2' & F2 & _).
  { intros o Ho. rewrite Fw. apply (proj1 Hok). exact Ho. }
  rewrite H2 in H2'. injection H2' as <-.
  destruct F2 as (Lh & Lc & Lhost & Ld & Lobs & Lids & Lrev).
  assert (Hnd : NoDup (map_to_list (_cache c)).*1) by apply NoDup_fst_map_to_list.
  assert (Hts : forall o q, (o, q) ∈ map_to_list (_cache c) -> target_ok q).
  { intros o q Ho. apply elem_of_map_to_list in Ho. exact (proj2 Hok o q Ho). }
  destruct (itprLoop_spec chk (map_to_list (_cache c)) c2 Hnd Hts)
    as (c3' & H3' & (Gw & _ & Ghost) & _ & _ & Snap).
  rewrite H3 in H3'. injection H3' as <-.
  destruct (itprLoop_cache chk (map_to_list (_cache c)) c2 Hnd Hts)
    as (c3' & H3' & Oth & Ent).
  rewrite H3 in H3'. injection H3' as <-.
  assert (Hb : forall o, same_body (heap c2 o) (heap c o))
    by (intros o; rewrite Lh; apply Fb).
  assert (Hc2 : _cache c2 = _cache c) by congruence.
  assert (Hd2 : _deleteCache c2 = _deleteCache c) by congruence.
  assert (Hlook : forall o, _cache (eraseDeleted c3) !! o
                            = if decide (o ∈ _deleteCache c3) then None
                              else _cache c3 !! o).
  { intros o. cbn. apply fold_delete_lookup. }
  exists (eraseDeleted c3). split; [exact Hrun|].
  assert (Hnone : forall obj, _cache c !! obj = None ->
                              _cache (eraseDeleted c3) !! obj = None).
  { intros obj Hn. rewrite Hlook. destruct (decide _); [reflexivity|].
    destruct (Oth obj) as [E _]; [|rewrite E, Hc2; exact Hn].
    intros Hin. apply list_elem_of_fmap in Hin as ([o q] & -> & Hin).
    apply elem_of_map_to_list in Hin. cbn in Hn. congruence. }
  assert (Hentry : forall obj p, _cache c !! obj = Some p ->
            (isShared (heap c obj) = false ->
             same_body (heap (eraseDeleted c3) obj) (heap c obj)
             /\ _cache (eraseDeleted c3) !! obj = None)
            /\ (isShared (heap c obj) = true -> numSteps p - curStep p <= 1 ->
                reached p (heap (eraseDeleted c3) obj)
                /\ _cache (eraseDeleted c3) !! obj = None)
            /\ (isShared (heap c obj) = true -> 1 < numSteps p - curStep p ->
                obj ∉ _deleteCache c ->
                _cache (eraseDeleted c3) !! obj = Some (advanced p)
                /\ isShared (heap (eraseDeleted c3) obj) = true)).
  { intros obj p Hp.
    assert (Hin : (obj, p) ∈ map_to_list (_cache c))
      by (apply elem_of_map_to_list; exact Hp).
    destruct (Snap obj p Hin) as [Skip Last].
    destruct (Ent obj p Hin) as [_ Adv].
    assert (Hsame : shared (heap c2 obj) = shared (heap c obj))
      by (destruct (Hb obj) as (_ & _ & _ & _ & E); exact E).
    unfold isShared. change (heap (eraseDeleted c3) obj) with (heap c3 obj).
    split; [|split].
    - intros Hsh. destruct Skip as [Hh Hd]; [congruence|].
      rewrite Hh. split; [apply Hb|].
      rewrite Hlook, decide_True by exact Hd. reflexivity.
    - intros Hsh Hle. destruct Last as [Hh Hd]; [congruence|exact Hle|].
      rewrite Hh. split; [apply snap_fields|].
      rewrite Hlook, decide_True by exact Hd. reflexivity.
    - intros Hsh Hgt Hfree. destruct Adv as (C & S & D); [congruence|].
      split; [|exact S].
      rewrite Hlook, decide_False; [exact C|].
      intros Hd. apply Hfree. rewrite <- Hd2. apply (D Hgt Hd). }
  split; [|split; [reflexivity|split; [|split; [exact Hnone|exact Hentry]]]].
  - split.
    + intros o Ho. change (_world (eraseDeleted c3)) with (_world c3) in *.
      rewrite Gw, Lids, Fw. apply (proj1 Hok).
      rewrite Gw, Lobs, Fw in Ho. exact Ho.
    + intros o t Ht. rewrite Hlook in Ht.
      destruct (decide (o ∈ _deleteCache c3)) as [|Hfree]; [discriminate|].
      destruct (_cache c !! o) as [p|] eqn:Hp.
      * assert (Hin : (o, p) ∈ map_to_list (_cache c))
          by (apply elem_of_map_to_list; exact Hp).
        destruct (Snap o p Hin) as [Skip Last].
        destruct (Ent o p Hin) as [_ Adv].
        destruct (shared (heap c2 o)) eqn:Hsh.
        -- destruct (Adv eq_refl) as (C & _ & _).
           rewrite C in Ht. injection Ht as <-.
           apply advanced_ok; [exact (proj2 Hok o p Hp)|].
           destruct (Z_lt_le_dec 1 (numSteps p - curStep p)) as [Hgt|Hle];
             [exact Hgt|].
           destruct (Last eq_refl Hle) as [_ Hd]. contradiction.
        -- destruct (Skip eq_refl) as [_ Hd]. contradiction.
      * destruct (Oth o) as [E _].
        { intros Hin. apply list_elem_of_fmap in Hin as ([o' q] & -> & Hin).
          apply elem_of_map_to_list in Hin. cbn in Hp. congruence. }
        rewrite E, Hc2, Hp in Ht. discriminate.
  - unfold same_registry.
    change (_world (eraseDeleted c3)) with (_world c3).
    change (_isHost (eraseDeleted c3)) with (_isHost c3).
    rewrite Gw, Lobs, Lids, Lrev, Fw, Ghost, Lhost, Fh.
    repeat split.
Qed.

End TickInvariant.

(** X10. On a state that meets the invariant of the engine (every body
    of the world has an id, every cached target has [numSteps] in
    [1, 30] and [0 <= curStep <= numSteps]) any number of ticks runs to
    its end, with or without assertions: no lookup leaves its map, the
    assertion on the ratio [curStep / numSteps] never trips.  The
    invariant holds again afterwards, the registry is the same, and no
    tick adds a target to the cache. *)
Theorem ticks_keep_invariant
  (chk : bool) (n : nat) (c : NetPhysics.Controller) :
  Spec.engine_ok c ->
  exists c',
    EngineSpec.ticks chk n c = Ok c'
    /\ Spec.engine_ok c'
    /\ EngineSpec.same_registry c c'
    /\ (0 < n -> NetPhysics._deleteCache c' = [])%nat
    /\ forall obj, NetPhysics._cache c !! obj = None ->
                   NetPhysics._cache c' !! obj = None.
Proof.
  revert c. induction n as [|n IH]; intros c Hok.
  - exists c. split; [reflexivity|]. split; [exact Hok|].
    split; [repeat split|]. split; [lia|auto].
  - destruct (tick_spec chk c Hok) as (c1 & H1 & Hok1 & Hd1 & R1 & N1 & _).
    destruct (IH c1 Hok1) as (c2 & H2 & Hok2 & R2 & Hd2 & N2).
    exists c2. split; [cbn [EngineSpec.ticks]; rewrite H1; exact H2|].
    split; [exact Hok2|]. split; [|split].
    + destruct R1 as (A1 & A2 & A3 & A4), R2 as (B1 & B2 & B3 & B4).
      repeat split; congruence.
    + intros _. destruct n as [|n'].
      * cbn in H2. injection H2 as <-. exact Hd1.
      * apply Hd2. lia.
    + intros obj Hn. apply N2, N1, Hn.
Qed.

Lemma ticks_keep_invariant_witness :
  exists c',
    EngineSpec.ticks true 40
      (Samples.engine false true ∅ {[ 1%positive := Samples.targetAt10 29 30 ]})
    = Ok c'
    /\ Spec.engine_ok c'.
Proof.
  destruct (ticks_keep_invariant true 40
              (Samples.engine false true ∅
                 {[ 1%positive := Samples.targetAt10 29 30 ]}))
    as (c' & H & Hok & _).
  - apply engine_ok_sample, target_ok_sample.
  - exists c'. split; [exact H|exact Hok].
Defined.

Section Convergence.
Import Physics2 NetPhysics Spec EngineSpec.

Lemma ticks_add (chk : bool) (n m : nat) (c : Controller) :
  ticks chk (n + m) c = obind (ticks chk n c) (ticks chk m).
Proof.
  revert c. induction n as [|n IH]; intros c; [reflexivity|].
  cbn [ticks Nat.add]. destruct (fixedUpdate chk c) as [c1| | |]; cbn [obind];
    [apply IH|reflexivity..].
Qed.

(** While more than one step is left, every tick advances the target of
    a shared body by one step. *)
Lemma ticks_advance (chk : bool) (obj : Obs) (k : nat) :
  forall (c : Controller) (p : targetParam),
    engine_ok c -> _deleteCache c = [] ->
    _cache c !! obj = Some p -> isShared (heap c obj) = true ->
    Z.of_nat k < Z.max 1 (numSteps p - curStep p) ->
    exists ck,
      ticks chk k c = Ok ck /\ engine_ok ck /\ _deleteCache ck = []
      /\ _cache ck !! obj = Some (with_curStep (curStep p + Z.of_nat k) p)
      /\ isShared (heap ck obj) = true.
Proof.
  induction k as [|k IH]; intros c p Hok Hd Hp Hsh Hk.
  - exists c. split; [reflexivity|]. split; [exact Hok|]. split; [exact Hd|].
    split; [|exact Hsh]. rewrite Hp. destruct p. cbn. rewrite Z.add_0_r. reflexivity.
  - destruct (tick_spec chk c Hok) as (c1 & H1 & Hok1 & Hd1 & _ & _ & Ent).
    destruct (Ent obj p Hp) as (_ & _ & Adv).
    destruct Adv as [Hp1 Hsh1]; [exact Hsh|lia|rewrite Hd; apply not_elem_of_nil|].
    destruct (IH c1 (advanced p) Hok1 Hd1 Hp1 Hsh1) as (ck & Hk' & Hokk & Hdk & Hpk & Hshk).
    { unfold advanced. cbn. lia. }
    exists ck. split; [cbn [ticks]; rewrite H1; exact Hk'|].
    split; [exact Hokk|]. split; [exact Hdk|]. split; [|exact Hshk].
    rewrite Hpk. unfold advanced, with_curStep. cbn. do 2 f_equal. lia.
Qed.

(** A cached target of a shared body is reached after [ticksLeft]
    ticks, and not dropped before. *)
Lemma ticks_reach (chk : bool) (obj : Obs) (c : Controller) (p : targetParam) :
  engine_ok c -> _deleteCache c = [] ->
  _cache c !! obj = Some p -> isShared (heap c obj) = true ->
  exists c',
    ticks chk (ticksLeft p) c = Ok c'
    /\ engine_ok c' /\ _deleteCache c' = []
    /\ reached p (heap c' obj) /\ _cache c' !! obj = None.
Proof.
  intros Hok Hd Hp Hsh.
  set (k := (ticksLeft p - 1)%nat).
  assert (Hk : ticksLeft p = (k + 1)%nat) by (unfold k, ticksLeft; lia).
  destruct (ticks_advance chk obj k c p Hok Hd Hp Hsh) as (ck & Hrun & Hokk & Hdk & Hpk & Hshk).
  { unfold k, ticksLeft. lia. }
  destruct (tick_spec chk ck Hokk) as (c' & H1 & Hok' & Hd' & _ & _ & Ent).
  destruct (Ent obj _ Hpk) as (_ & Last & _).
  destruct Last as [Hr Hgone]; [exact Hshk| |].
  { cbn. unfold k, ticksLeft. lia. }
  exists c'. split.
  - rewrite Hk, ticks_add, Hrun. cbn [obind ticks]. rewrite H1. reflexivity.
  - split; [exact Hok'|]. split; [exact Hd'|]. split; [exact Hr|exact Hgone].
Qed.

End Convergence.

(** X11. A cached target of a shared body is reached: after
    [max 1 (numSteps - curStep)] ticks the body has the position, the
    velocities and the angle of the target and the entry has left the
    cache; at every tick before, the entry is still cached, one step
    further each time.  (No event for the body arrives in between.) *)
Theorem target_is_reached
  (chk : bool) (c : NetPhysics.Controller) (obj : Physics2.Obs)
  (p : NetPhysics.targetParam) :
  Spec.engine_ok c ->
  NetPhysics._deleteCache c = [] ->
  NetPhysics._cache c !! obj = Some p ->
  Physics2.isShared (NetPhysics.heap c obj) = true ->
  (exists c',
     EngineSpec.ticks chk (EngineSpec.ticksLeft p) c = Ok c'
     /\ EngineSpec.reached p (NetPhysics.heap c' obj)
     /\ NetPhysics._cache c' !! obj = None)
  /\ forall k, (k < EngineSpec.ticksLeft p)%nat ->
       exists ck,
         EngineSpec.ticks chk k c = Ok ck
         /\ NetPhysics._cache ck !! obj
            = Some (NetPhysics.with_curStep (NetPhysics.curStep p + Z.of_nat k) p).
Proof.
  intros Hok Hd Hp Hsh. split.
  - destruct (ticks_reach chk obj c p Hok Hd Hp Hsh) as (c' & H & _ & _ & Hr & Hg).
    exists c'. split; [exact H|]. split; [exact Hr|exact Hg].
  - intros k Hk.
    destruct (ticks_advance chk obj k c p Hok Hd Hp Hsh) as (ck & H & _ & _ & Hpk & _).
    { unfold EngineSpec.ticksLeft in Hk. lia. }
    exists ck. split; [exact H|exact Hpk].
Qed.

Lemma target_is_reached_witness :
  exists c',
    EngineSpec.ticks true 3
      (Samples.engine false true ∅ {[ 1%positive := Samples.targetAt10 27 30 ]})
    = Ok c'
    /\ Physics2.position (NetPhysics.heap c' 1%positive)
       = Physics2.mkVec2 (Samples.f32 10) (Samples.f32 0)
    /\ NetPhysics._cache c' !! 1%positive = None.
Proof.
  destruct (target_is_reached true
              (Samples.engine false true ∅
                 {[ 1%positive := Samples.targetAt10 27 30 ]})
              1%positive (Samples.targetAt10 27 30))
    as [(c' & H & Hr & Hg) _].
  - apply engine_ok_sample. unfold Spec.target_ok. cbn. lia.
  - reflexivity.
  - apply lookup_singleton_eq.
  - reflexivity.
  - exists c'. split; [exact H|]. split; [exact (proj1 Hr)|exact Hg].
Defined.

(** ** From a snapshot to the body *)

Section SyncInvariant.
Import Physics2 NetPhysics Spec EngineSpec.

Lemma sync_keeps_refl (c : Controller) : sync_keeps c c.
Proof. repeat split; auto. Qed.

Lemma sync_keeps_trans (a b c : Controller) :
  sync_keeps a b -> sync_keeps b c -> sync_keeps a c.
Proof.
  intros (A1 & A2 & A3 & A4) (B1 & B2 & B3 & B4).
  repeat split; try congruence. auto.
Qed.

Lemma syncSteps_range (d a : float) (n : Z) :
  syncSteps d a = Ok n -> 1 <= n <= 30.
Proof.
  unfold syncSteps.
  destruct (Float32.to_int (Float32.mul d (Float32.of_int 30))) as [x| | |];
    try discriminate.
  destruct (Float32.to_int a) as [y| | |]; try discriminate.
  cbn [obind]. intros [= <-]. lia.
Qed.

(** [addSyncObject]: the entry it leaves is the new target, with the
    integral terms of the entry it replaces. *)
Lemma addSyncObject_full (obj : Obs) (param : targetParam) (c : Controller) :
  exists c' i k,
    addSyncObject obj param c = Ok c' /\ sync_frame c c' /\ sync_keeps c c'
    /\ _cache c' !! obj = Some (with_numI k (with_I_ i param))
    /\ forall o, o <> obj -> _cache c' !! o = _cache c !! o.
Proof.
  unfold addSyncObject.
  destruct (_cache c !! obj) as [old|] eqn:Hold.
  - rewrite (map_count_Some _ _ _ Hold), (map_at_Some _ _ _ Hold). cbn [obind].
    eexists. exists (I_ old), (numI old).
    split; [reflexivity|]. split; [|split; [|split]].
    + split; [reflexivity|]. intros o. cbn.
      destruct (decide (obj = o)) as [->|Hne].
      * rewrite !heap_modifyObs, !decide_True by reflexivity.
        destruct (heap c o). split; reflexivity.
      * rewrite !heap_modifyObs, !decide_False by exact Hne.
        split; reflexivity.
    + split; [reflexivity|]. split; [reflexivity|]. split; [reflexivity|].
      intros o Ho. cbn.
      destruct (decide (obj = o)) as [->|Hne].
      * rewrite !heap_modifyObs, !decide_True by reflexivity. reflexivity.
      * rewrite !heap_modifyObs, !decide_False by exact Hne. exact Ho.
    + cbn. rewrite lookup_map_insert_new, lookup_delete_eq. reflexivity.
    + intros o Ho. cbn.
      rewrite lookup_map_insert_new_ne by congruence.
      apply lookup_delete_ne. congruence.
  - rewrite (map_count_None _ _ Hold). cbn [obind].
    eexists. exists (I_ param), (numI param).
    split; [reflexivity|]. split; [|split; [|split]].
    + split; [reflexivity|]. intros o. split; reflexivity.
    + split; [reflexivity|]. split; [reflexivity|]. split; [reflexivity|].
      intros o Ho. exact Ho.
    + cbn. rewrite lookup_map_insert_new, lookup_delete_eq.
      destruct param. reflexivity.
    + intros o Ho. cbn.
      rewrite lookup_map_insert_new_ne by congruence.
      apply lookup_delete_ne. congruence.
Qed.

(** One snapshot of a registered body. *)
Lemma syncOne_full (q : PhysSync.ObjParam) (c : Controller) (obj : Obs) (n : Z) :
  idToObj (_world c) !! PhysSync.objId q = Some obj ->
  syncSteps (posDiff (heap c obj) q) (angDiff (heap c obj) q) = Ok n ->
  exists c' t,
    syncOne q c = Ok c' /\ sync_frame c c' /\ sync_keeps c c'
    /\ _cache c' !! obj = Some t /\ aims_at q t
    /\ forall o, o <> obj -> _cache c' !! o = _cache c !! o.
Proof.
  intros Hreg Hn. unfold syncOne.
  rewrite (map_count_Some _ _ _ Hreg), (map_at_Some _ _ _ Hreg).
  cbn [negb obind]. rewrite Hn. cbn [obind].
  match goal with
  | |- context [addSyncObject obj ?p c] =>
      destruct (addSyncObject_full obj p c) as (c' & i & k & H1 & F & K & Ht & Ho)
  end.
  exists c'. eexists. split; [exact H1|]. split; [exact F|]. split; [exact K|].
  split; [exact Ht|]. split; [|exact Ho].
  pose proof (syncSteps_range _ _ _ Hn). repeat split; cbn; lia.
Qed.

Lemma aims_at_ok (q : PhysSync.ObjParam) (t : targetParam) :
  aims_at q t -> target_ok t.
Proof. intros (H0 & Hn & _). unfold target_ok. lia. Qed.

(** One snapshot, registered or not, on a state that meets the
    invariant. *)
Lemma syncOne_inv (q : PhysSync.ObjParam) (c : Controller) :
  engine_ok c -> entry_defined c q ->
  exists c',
    syncOne q c = Ok c' /\ sync_frame c c' /\ sync_keeps c c' /\ engine_ok c'
    /\ (forall o, idToObj (_world c) !! PhysSync.objId q <> Some o ->
                  _cache c' !! o = _cache c !! o)
    /\ (forall o, idToObj (_world c) !! PhysSync.objId q = Some o ->
                  exists t, _cache c' !! o = Some t /\ aims_at q t).
Proof.
  intros [Hids Hcache] Hdef.
  destruct (idToObj (_world c) !! PhysSync.objId q) as [obj|] eqn:Hreg.
  - destruct (Hdef obj Hreg) as [n Hn].
    destruct (syncOne_full q c obj n Hreg Hn) as (c' & t & H1 & F & K & Ht & Ha & Ho).
    exists c'. split; [exact H1|]. split; [exact F|]. split; [exact K|].
    split; [|split].
    + split.
      * intros o Hin. destruct K as (-> & _). apply Hids.
        destruct F as (Fw & _). rewrite Fw in Hin. exact Hin.
      * intros o t' Ht'. destruct (decide (o = obj)) as [->|Hne].
        -- rewrite Ht in Ht'. injection Ht' as <-. apply (aims_at_ok q), Ha.
        -- rewrite (Ho o Hne) in Ht'. exact (Hcache o t' Ht').
    + intros o Hne. apply Ho. congruence.
    + intros o [= <-]. exists t. split; [exact Ht|exact Ha].
  - exists c. split; [apply syncOne_skip; exact Hreg|].
    split; [apply sync_frame_refl|]. split; [apply sync_keeps_refl|].
    split; [split; assumption|]. split; [reflexivity|discriminate].
Qed.

(** The loop over the snapshots of an event. *)
Lemma syncLoop_inv (l : list PhysSync.ObjParam) (c : Controller) :
  engine_ok c ->
  (forall q, q ∈ l -> entry_defined c q) ->
  exists c',
    foldM syncOne l c = Ok c' /\ sync_frame c c' /\ sync_keeps c c'
    /\ engine_ok c'
    /\ forall o,
         (forall q, q ∈ l -> idToObj (_world c) !! PhysSync.objId q <> Some o) ->
         _cache c' !! o = _cache c !! o.
Proof.
  revert c. induction l as [|q l IH]; intros c Hok Hdef.
  - exists c. split; [reflexivity|]. split; [apply sync_frame_refl|].
    split; [apply sync_keeps_refl|]. split; [exact Hok|reflexivity].
  - destruct (syncOne_inv q c Hok) as (c1 & H1 & F1 & K1 & Hok1 & O1 & _).
    { apply Hdef. left. }
    destruct (IH c1 Hok1) as (c2 & H2 & F2 & K2 & Hok2 & O2).
    { intros q' Hq'. eapply entry_defined_frame; [exact F1|].
      apply Hdef. right. exact Hq'. }
    exists c2. split; [cbn [foldM]; rewrite H1; exact H2|].
    split; [eapply sync_frame_trans; eassumption|].
    split; [eapply sync_keeps_trans; eassumption|].
    split; [exact Hok2|].
    intros o Hno. rewrite O2.
    + apply O1. apply Hno. left.
    + intros q' Hq'. destruct F1 as [-> _]. apply Hno. right. exact Hq'.
Qed.

(** The entries of the cache after the loop: an entry is the one of
    before, or a new target for a snapshot of the list. *)
Lemma syncLoop_targets (l : list PhysSync.ObjParam) (c c' : Controller) :
  engine_ok c ->
  (forall q, q ∈ l -> entry_defined c q) ->
  foldM syncOne l c = Ok c' ->
  forall o,
    _cache c' !! o = _cache c !! o
    \/ exists q t,
         q ∈ l /\ idToObj (_world c) !! PhysSync.objId q = Some o
         /\ _cache c' !! o = Some t /\ aims_at q t.
Proof.
  revert c. induction l as [|q l IH]; intros c Hok Hdef Hrun o.
  - injection Hrun as <-. left. reflexivity.
  - destruct (syncOne_inv q c Hok) as (c1 & H1 & F1 & K1 & Hok1 & O1 & T1).
    { apply Hdef. left. }
    cbn [foldM] in Hrun. rewrite H1 in Hrun. cbn [obind] in Hrun.
    assert (Hw : _world c1 = _world c) by apply F1.
    destruct (IH c1 Hok1) with (o := o) as [Hsame|(q' & t & Hq' & Hreg' & Ht & Ha)].
    { intros q' Hq'. eapply entry_defined_frame; [exact F1|].
      apply Hdef. right. exact Hq'. }
    { exact Hrun. }
    + destruct (decide (idToObj (_world c) !! PhysSync.objId q = Some o))
        as [Hreg|Hno].
      * right. destruct (T1 o Hreg) as (t & Ht & Ha).
        exists q, t. split; [left|]. split; [exact Hreg|].
        split; [rewrite Hsame; exact Ht|exact Ha].
      * left. rewrite Hsame. apply O1. exact Hno.
    + right. exists q', t. split; [right; exact Hq'|].
      split; [rewrite <- Hw; exact Hreg'|]. split; [exact Ht|exact Ha].
Qed.

(** A whole event: the last snapshot for a body is the one that
    stays. *)
Lemma syncEvent_last (l post : list PhysSync.ObjParam) (q : PhysSync.ObjParam)
  (c : Controller) (obj : Obs) :
  engine_ok c ->
  (forall q', q' ∈ l ++ q :: post -> entry_defined c q') ->
  idToObj (_world c) !! PhysSync.objId q = Some obj ->
  (forall q', q' ∈ post -> idToObj (_world c) !! PhysSync.objId q' <> Some obj) ->
  exists c' t,
    foldM syncOne (l ++ q :: post) c = Ok c' /\ sync_keeps c c' /\ engine_ok c'
    /\ _cache c' !! obj = Some t /\ aims_at q t.
Proof.
  intros Hok Hdef Hreg Hpost.
  destruct (syncLoop_inv l c Hok) as (c1 & H1 & F1 & K1 & Hok1 & _).
  { intros q' Hq'. apply Hdef. apply elem_of_app. left. exact Hq'. }
  assert (Hw1 : _world c1 = _world c) by apply F1.
  destruct (syncOne_inv q c1 Hok1) as (c2 & H2 & F2 & K2 & Hok2 & _ & T2).
  { eapply entry_defined_frame; [exact F1|]. apply Hdef.
    apply elem_of_app. right. left. }
  assert (Hw2 : _world c2 = _world c) by (destruct F2 as [-> _]; exact Hw1).
  destruct (T2 obj) as (t & Ht & Ha); [rewrite Hw1; exact Hreg|].
  destruct (syncLoop_inv post c2 Hok2) as (c3 & H3 & F3 & K3 & Hok3 & O3).
  { intros q' Hq'. eapply entry_defined_frame; [exact F2|].
    eapply entry_defined_frame; [exact F1|]. apply Hdef.
    apply elem_of_app. right. right. exact Hq'. }
  exists c3, t. split.
  - rewrite foldM_app, H1. cbn [obind foldM]. rewrite H2. exact H3.
  - split; [eapply sync_keeps_trans; [|exact K3];
            eapply sync_keeps_trans; eassumption|].
    split; [exact Hok3|]. split; [|exact Ha].
    rewrite O3; [exact Ht|]. intros q' Hq'. rewrite Hw2. apply Hpost, Hq'.
Qed.

End SyncInvariant.

(** X12. A received sync event keeps the invariant of the engine:
    when, for every snapshot of the event, the conversions of the
    deltas to [int] are defined (the deltas are finite and fit an
    [int]), the event runs to its end; every entry of the cache is then
    the entry of before or a new target for a snapshot of the event
    whose id is registered to the body, with [curStep = 0], [numSteps]
    in [1, 30] and the position, velocities and angle of that snapshot;
    and neither the world, nor the outbound events, nor the [shared]
    flag of a shared body change. *)
Theorem sync_keeps_invariant
  (event : PhysSync.PhysSyncEvent) (c : NetPhysics.Controller) :
  Spec.engine_ok c ->
  (forall q, q ∈ PhysSync.getSyncList event -> Spec.entry_defined c q) ->
  exists c',
    NetPhysics.processPhysSyncEvent event c = Ok c'
    /\ Spec.engine_ok c' /\ EngineSpec.sync_keeps c c'
    /\ forall o,
         NetPhysics._cache c' !! o = NetPhysics._cache c !! o
         \/ exists q t,
              q ∈ PhysSync.getSyncList event
              /\ Physics2.idToObj (NetPhysics._world c) !! PhysSync.objId q = Some o
              /\ NetPhysics._cache c' !! o = Some t
              /\ NetPhysics.curStep t = 0
              /\ 1 <= NetPhysics.numSteps t <= 30
              /\ EngineSpec.aims_at q t.
Proof.
  intros Hok Hdef. unfold NetPhysics.processPhysSyncEvent.
  destruct (String.eqb _ _).
  - exists c. split; [reflexivity|]. split; [exact Hok|].
    split; [apply sync_keeps_refl|]. intros o. left. reflexivity.
  - destruct (syncLoop_inv _ c Hok Hdef) as (c' & H & _ & K & Hok' & _).
    exists c'. split; [exact H|]. split; [exact Hok'|]. split; [exact K|].
    intros o.
    destruct (syncLoop_targets _ c c' Hok Hdef H o)
      as [Hsame|(q & t & Hq & Hreg & Ht & Ha)]; [left; exact Hsame|].
    right. exists q, t. split; [exact Hq|]. split; [exact Hreg|].
    split; [exact Ht|]. split; [apply Ha|]. split; [apply Ha|exact Ha].
Qed.

Lemma snapshot7_defined (host sh : bool) (own : gmap Physics2.Obs Z)
  (cache : gmap Physics2.Obs NetPhysics.targetParam) :
  forall q, q ∈ [Samples.snapshot7] ->
            Spec.entry_defined (Samples.engine host sh own cache) q.
Proof.
  intros q Hq. apply list_elem_of_singleton in Hq as ->.
  intros o Ho. cbn in Ho. apply lookup_singleton_Some in Ho as [_ <-].
  exists 30. vm_compute. reflexivity.
Qed.

Lemma sync_keeps_invariant_witness :
  exists c',
    NetPhysics.processPhysSyncEvent (Samples.syncFrom "host" [Samples.snapshot7])
      (Samples.engine false true ∅ {[ 1%positive := Samples.targetAt10 29 30 ]})
    = Ok c'
    /\ Spec.engine_ok c'.
Proof.
  destruct (sync_keeps_invariant (Samples.syncFrom "host" [Samples.snapshot7])
              (Samples.engine false true ∅
                 {[ 1%positive := Samples.targetAt10 29 30 ]}))
    as (c' & H & Hok & _ & _).
  - apply engine_ok_sample, target_ok_sample.
  - apply snapshot7_defined.
  - exists c'. split; [exact H|exact Hok].
Defined.

(** X13. From a snapshot to the body.  A sync event from a peer whose
    last snapshot for a shared, registered body is [q], followed by
    ticks and no other event, where for every snapshot of the event the
    conversions of the deltas to [int] are defined (the deltas are
    finite and fit an [int]; the processing of the event is undefined
    otherwise): after at most 30 ticks the body has the position, the
    velocities and the angle of the snapshot, and its cache entry is
    gone. *)
Theorem snapshot_is_applied
  (chk : bool) (event : PhysSync.PhysSyncEvent) (c : NetPhysics.Controller)
  (pre post : list PhysSync.ObjParam) (q : PhysSync.ObjParam)
  (obj : Physics2.Obs) :
  Spec.engine_ok c ->
  NetPhysics._deleteCache c = [] ->
  NetEventBase._sourceID (PhysSync.base event) <> "" ->
  PhysSync.getSyncList event = pre ++ q :: post ->
  (forall q', q' ∈ PhysSync.getSyncList event -> Spec.entry_defined c q') ->
  Physics2.idToObj (NetPhysics._world c) !! PhysSync.objId q = Some obj ->
  (forall q', q' ∈ post ->
     Physics2.idToObj (NetPhysics._world c) !! PhysSync.objId q' <> Some obj) ->
  Physics2.isShared (NetPhysics.heap c obj) = true ->
  exists c1 n c2,
    NetPhysics.processPhysSyncEvent event c = Ok c1
    /\ (1 <= n <= 30)%nat
    /\ EngineSpec.ticks chk n c1 = Ok c2
    /\ EngineSpec.matches q (NetPhysics.heap c2 obj)
    /\ NetPhysics._cache c2 !! obj = None.
Proof.
  intros Hok Hd Hsrc Hlist Hdef Hreg Hpost Hsh.
  rewrite Hlist in Hdef.
  destruct (syncEvent_last pre post q c obj Hok Hdef Hreg Hpost)
    as (c1 & t & H1 & (Kw & Kd & _ & Ksh) & Hok1 & Ht & Ha).
  destruct (ticks_reach chk obj c1 t Hok1) as (c2 & H2 & _ & _ & Hr & Hg).
  { rewrite Kd. exact Hd. }
  { exact Ht. }
  { apply Ksh. exact Hsh. }
  destruct Ha as (A0 & An & A3 & Av & Aa & Aw).
  exists c1, (EngineSpec.ticksLeft t), c2. split.
  - unfold NetPhysics.processPhysSyncEvent.
    destruct (String.eqb_spec (NetEventBase._sourceID (PhysSync.base event)) "")
      as [E|_]; [contradiction|].
    unfold PhysSync.getSyncList in *. rewrite Hlist. exact H1.
  - split; [unfold EngineSpec.ticksLeft; lia|]. split; [exact H2|].
    split; [|exact Hg].
    destruct Hr as (R1 & R2 & R3 & R4). repeat split; congruence.
Qed.

Lemma snapshot_is_applied_witness :
  exists c1 n c2,
    NetPhysics.processPhysSyncEvent (Samples.syncFrom "host" [Samples.snapshot7])
      (Samples.engine false true ∅ ∅) = Ok c1
    /\ (1 <= n <= 30)%nat
    /\ EngineSpec.ticks true n c1 = Ok c2
    /\ Physics2.position (NetPhysics.heap c2 1%positive)
       = Physics2.mkVec2 (Samples.f32 10) (Samples.f32 0).
Proof.
  destruct (snapshot_is_applied true (Samples.syncFrom "host" [Samples.snapshot7])
              (Samples.engine false true ∅ ∅) [] [] Samples.snapshot7 1%positive)
    as (c1 & n & c2 & H1 & Hn & H2 & Hm & _).
  - split.
    + intros o Ho. cbn in Ho. apply list_elem_of_singleton in Ho as ->.
      exists 7. reflexivity.
    + intros o p Hp. cbn in Hp. rewrite lookup_empty in Hp. discriminate.
  - reflexivity.
  - discriminate.
  - reflexivity.
  - apply snapshot7_defined.
  - reflexivity.
  - intros q' Hq'. inversion Hq'.
  - reflexivity.
  - exists c1, n, c2. split; [exact H1|]. split; [exact Hn|].
    split; [exact H2|exact (proj1 Hm)].
Defined.

(** ** Object events at the receiving peer *)

Section ObjectEvents.
Import Physics2 NetPhysics Spec EngineSpec.

Lemma mark_unshared (f : DirtyBits -> DirtyBits) (o : Obstacle) :
  shared o = false -> mark f o = o.
Proof. intros H. unfold mark. rewrite H. reflexivity. Qed.

(** One conditional setter of the non-shared block, with the flag
    down. *)
Lemma bool_step (c : bool) (f : BoolConsts -> BoolConsts) (o : Obstacle) :
  shared o = false ->
  (c = true -> f (boolConsts o) = boolConsts o) ->
  (if c then o else setBoolConst f o) = with_boolConsts (f (boolConsts o)) o.
Proof.
  intros Hsh Hc. unfold setBoolConst. rewrite mark_unshared by exact Hsh.
  destruct c; [|reflexivity]. rewrite Hc by reflexivity.
  destruct o. reflexivity.
Qed.

(** The same for a float constant, of which the block keeps the old
    value when the two compare equal. *)
Lemma float_step {T : Type} (neq : T -> T -> bool) (get : FloatConsts -> T)
  (set : T -> FloatConsts -> FloatConsts) (a : T) (o : Obstacle) :
  shared o = false ->
  (forall fc, set (get fc) fc = fc) ->
  (if neq a (get (floatConsts o)) then setFloatConst (set a) o else o)
  = with_floatConsts
      (set (if neq a (get (floatConsts o)) then a else get (floatConsts o))
         (floatConsts o)) o.
Proof.
  intros Hsh Hlaw. unfold setFloatConst. rewrite mark_unshared by exact Hsh.
  destruct (neq a (get (floatConsts o))); [reflexivity|].
  rewrite Hlaw. destruct o. reflexivity.
Qed.

Ltac bool_steps Hsh :=
  repeat match goal with
         | |- context [if ?c then ?o1 else setBoolConst ?f ?o1] =>
             rewrite (bool_step c f o1)
               by first [ solve [cbn; exact Hsh]
                        | solve [let Hc := fresh in
                                 intros Hc; apply Bool.eqb_prop in Hc; rewrite Hc;
                                 generalize (boolConsts o1); intros []; reflexivity] ]
         end.

(** One [let] of [applyFloatConsts], on a body in constructor form. *)
Ltac float_let :=
  lazymatch goal with
  | |- (let x := (if _ then _ else ?o1) in @?k x) = ?r =>
      erewrite (float_step _ _ _ _ o1)
        by first [ reflexivity | solve [intros []; reflexivity] ];
      lazymatch goal with
      | |- (let x := ?v in _) = _ =>
          let v' := eval cbn in v in change (k v' = r); cbv beta
      end
  end.

(** With the flag down, [applyBoolConsts] writes the six constants of
    the event and nothing else. *)
Lemma applyBoolConsts_unshared (e : BoolConsts) (o : Obstacle) :
  shared o = false -> applyBoolConsts e o = with_boolConsts e o.
Proof.
  intros Hsh. unfold applyBoolConsts. cbv zeta. bool_steps Hsh.
  destruct o as [pos ang lv av bt bc fc sh d], bc, e. reflexivity.
Qed.

(** With the flag down, [applyFloatConsts] writes float constants and
    nothing else: field by field, the constant of the event when it
    compares different, except the angular damping. *)
Lemma applyFloatConsts_unshared (e : FloatConsts) (o : Obstacle) :
  shared o = false ->
  applyFloatConsts e o = with_floatConsts (mergedFloatConsts e (floatConsts o)) o.
Proof.
  intros Hsh. destruct o as [pos ang lv av bt bc fc sh d]. cbn in Hsh. subst sh.
  destruct fc as [f1 f2 f3 f4 f5 f6 f7 f8 f9], e as [e1 e2 e3 e4 e5 e6 e7 e8 e9].
  cbv beta delta [applyFloatConsts].
  do 7 float_let.
  erewrite (float_step vec_neq centroid with_centroid)
    by first [ reflexivity | solve [intros []; reflexivity] ].
  reflexivity.
Qed.

(** With the [shared] flag down, no setter of an event raises a dirty
    bit, and none touches the flag. *)
Lemma updater_quiet (b : PhysObj.Body) (o : Obstacle) :
  shared o = false ->
  shared (updater b o) = false /\ dirty (updater b o) = dirty o.
Proof.
  intros Hsh.
  destruct b as [f bs| |t|p|v|a|w|e|e|n|]; cbn [updater];
    try (split; [exact Hsh|reflexivity]).
  1-5: unfold setBodyType, setPosition, setLinearVelocity, setAngle,
         setAngularVelocity; rewrite mark_unshared by exact Hsh;
       split; [exact Hsh|reflexivity].
  - rewrite applyBoolConsts_unshared by exact Hsh. split; [exact Hsh|reflexivity].
  - rewrite applyFloatConsts_unshared by exact Hsh. split; [exact Hsh|reflexivity].
Qed.

Lemma updater_applied (b : PhysObj.Body) (o : Obstacle) :
  shared o = false -> applied b (updater b o).
Proof.
  intros Hsh.
  destruct b as [f bs| |t|p|v|a|w|e|e|n|]; cbn [updater applied]; try exact I.
  1-5: unfold setBodyType, setPosition, setLinearVelocity, setAngle,
         setAngularVelocity; rewrite mark_unshared by exact Hsh; reflexivity.
  rewrite applyBoolConsts_unshared by exact Hsh. reflexivity.
Qed.

Lemma float_agrees_pick (e f : float) :
  float_agrees e (if float_neq e f then e else f).
Proof.
  unfold float_agrees, float_neq.
  destruct (Float32.eqb e f) eqn:E; cbn [negb]; [right; exact E|left; reflexivity].
Qed.

(** The float constants after an [OBJ_FLOAT_CONSTS] event. *)
Lemma applyFloatConsts_fields (e : FloatConsts) (o : Obstacle) :
  shared o = false ->
  let r := floatConsts (applyFloatConsts e o) in
  angularDamping r = angularDamping (floatConsts o)
  /\ float_agrees (density e) (density r)
  /\ float_agrees (friction e) (friction r)
  /\ float_agrees (restitution e) (restitution r)
  /\ float_agrees (linearDamping e) (linearDamping r)
  /\ float_agrees (gravityScale e) (gravityScale r)
  /\ float_agrees (mass e) (mass r)
  /\ float_agrees (inertia e) (inertia r)
  /\ vec_agrees (centroid e) (centroid r).
Proof.
  intros Hsh. cbv zeta. rewrite applyFloatConsts_unshared by exact Hsh.
  cbn [floatConsts with_floatConsts mergedFloatConsts angularDamping density
       friction restitution linearDamping gravityScale mass inertia centroid].
  split; [reflexivity|]. repeat (split; [apply float_agrees_pick|]).
  unfold vec_agrees.
  destruct (vec_neq (centroid e) (centroid (floatConsts o))) eqn:E;
    [left; reflexivity|right; exact E].
Qed.

Lemma heap_modifyOwned (c : Controller) (f : gmap Obs Z -> gmap Obs Z) :
  heap (modifyOwned f c) = heap c.
Proof. reflexivity. Qed.

(** An update event for a registered body, as a whole. *)
Lemma update_shape (chk : bool) (event : PhysObj.PhysObjEvent) (c : Controller)
  (obj : Obs) :
  NetEventBase._sourceID (PhysObj.base event) <> "" ->
  idToObj (_world c) !! PhysObj.getObjId event = Some obj ->
  is_update (PhysObj.body event) = true ->
  exists c',
    processPhysObjEvent chk event c = Ok c'
    /\ (forall o, heap c' o
                  = if decide (obj = o)
                    then setShared true
                           (updater (PhysObj.body event) (setShared false (heap c obj)))
                    else heap c o)
    /\ _outEvents c' = _outEvents c /\ _cache c' = _cache c
    /\ _deleteCache c' = _deleteCache c /\ same_registry c c'
    /\ owned (_world c')
       = ledger_after (_isHost c) (PhysObj.body event) obj (owned (_world c)).
Proof.
  intros Hsrc Hreg Hup. unfold processPhysObjEvent.
  destruct (String.eqb_spec (NetEventBase._sourceID (PhysObj.base event)) "")
    as [E|_]; [contradiction|].
  destruct (PhysObj.body event) as [f bs| |t|p|v|a|w|e|e|n|] eqn:Hb;
    try discriminate Hup;
    rewrite (map_count_Some _ _ _ Hreg), (map_at_Some _ _ _ Hreg);
    cbn [negb obind updater ledger_after].
  9: change (_isHost (modifyObs obj (setShared false) c)) with (_isHost c);
      destruct (_isHost c).
  all: eexists; (split; [reflexivity|]).
  all: split;
    [intros o; rewrite ?heap_modifyObs, ?heap_modifyOwned, ?heap_modifyObs;
     destruct (decide (obj = o)) as [->|Hne];
     [rewrite ?decide_True by reflexivity|rewrite ?decide_False by exact Hne];
     reflexivity|].
  all: repeat split; reflexivity.
Qed.

End ObjectEvents.

(** X14. An update event from a peer, for a registered body, is not
    echoed: it raises no dirty bit and appends no outbound event, so
    the next [packPhysObj] publishes nothing because of it.  The body
    shows the value of the event, is flagged [shared] afterwards
    whatever it was before, and no other body, nor the cache, nor the
    registry change. *)
Theorem remote_update_is_not_echoed
  (chk : bool) (event : PhysObj.PhysObjEvent) (c : NetPhysics.Controller)
  (obj : Physics2.Obs) :
  NetEventBase._sourceID (PhysObj.base event) <> "" ->
  Physics2.idToObj (NetPhysics._world c) !! PhysObj.getObjId event = Some obj ->
  EngineSpec.is_update (PhysObj.body event) = true ->
  exists c',
    NetPhysics.processPhysObjEvent chk event c = Ok c'
    /\ NetPhysics._outEvents c' = NetPhysics._outEvents c
    /\ (forall o, Physics2.dirty (NetPhysics.heap c' o)
                  = Physics2.dirty (NetPhysics.heap c o))
    /\ EngineSpec.applied (PhysObj.body event) (NetPhysics.heap c' obj)
    /\ Physics2.shared (NetPhysics.heap c' obj) = true
    /\ (forall o, o <> obj -> NetPhysics.heap c' o = NetPhysics.heap c o)
    /\ NetPhysics._cache c' = NetPhysics._cache c
    /\ EngineSpec.same_registry c c'.
Proof.
  intros Hsrc Hreg Hup.
  destruct (update_shape chk event c obj Hsrc Hreg Hup)
    as (c' & H & Hh & Ho & Hc & _ & Hr & _).
  pose proof (updater_quiet (PhysObj.body event)
                (Physics2.setShared false (NetPhysics.heap c obj)) eq_refl)
    as [Q1 Q2].
  pose proof (updater_applied (PhysObj.body event)
                (Physics2.setShared false (NetPhysics.heap c obj)) eq_refl) as A.
  exists c'. split; [exact H|]. split; [exact Ho|]. split; [|split; [|split; [|split]]].
  - intros o. rewrite Hh. destruct (decide (obj = o)) as [->|_]; [|reflexivity].
    cbn. exact Q2.
  - rewrite Hh, decide_True by reflexivity.
    destruct (PhysObj.body event); cbn in *; try exact A; exact I.
  - rewrite Hh, decide_True by reflexivity. reflexivity.
  - intros o Hne. rewrite Hh, decide_False by congruence. reflexivity.
  - split; [exact Hc|exact Hr].
Qed.

Lemma remote_update_is_not_echoed_witness :
  exists c',
    NetPhysics.processPhysObjEvent true
      (Samples.receivedFrom "peer" WireSpec.samplePosition)
      (Samples.engine false true ∅ ∅) = Ok c'
    /\ NetPhysics._outEvents c' = []
    /\ Physics2.position (NetPhysics.heap c' 1%positive)
       = Physics2.mkVec2 (Float32.of_int 3) (Float32.of_int (-3)).
Proof.
  destruct (remote_update_is_not_echoed true
              (Samples.receivedFrom "peer" WireSpec.samplePosition)
              (Samples.engine false true ∅ ∅) 1%positive)
    as (c' & H & Ho & _ & A & _).
  - discriminate.
  - reflexivity.
  - reflexivity.
  - exists c'. split; [exact H|]. split; [exact Ho|exact A].
Defined.

(** X15. An [OBJ_FLOAT_CONSTS] event does not carry over the angular
    damping: the body keeps its own.  Every other float constant is
    afterwards the one of the event, or one that compares equal to it
    (a zero of the other sign stays). *)
Theorem float_consts_event_skips_angular_damping
  (chk : bool) (event : PhysObj.PhysObjEvent) (c : NetPhysics.Controller)
  (obj : Physics2.Obs) (e : Physics2.FloatConsts) :
  NetEventBase._sourceID (PhysObj.base event) <> "" ->
  Physics2.idToObj (NetPhysics._world c) !! PhysObj.getObjId event = Some obj ->
  PhysObj.body event = PhysObj.OBJ_FLOAT_CONSTS e ->
  exists c',
    NetPhysics.processPhysObjEvent chk event c = Ok c'
    /\ let r := Physics2.floatConsts (NetPhysics.heap c' obj) in
       Physics2.angularDamping r
       = Physics2.angularDamping (Physics2.floatConsts (NetPhysics.heap c obj))
       /\ EngineSpec.float_agrees (Physics2.density e) (Physics2.density r)
       /\ EngineSpec.float_agrees (Physics2.friction e) (Physics2.friction r)
       /\ EngineSpec.float_agrees (Physics2.restitution e) (Physics2.restitution r)
       /\ EngineSpec.float_agrees (Physics2.linearDamping e) (Physics2.linearDamping r)
       /\ EngineSpec.float_agrees (Physics2.gravityScale e) (Physics2.gravityScale r)
       /\ EngineSpec.float_agrees (Physics2.mass e) (Physics2.mass r)
       /\ EngineSpec.float_agrees (Physics2.inertia e) (Physics2.inertia r)
       /\ EngineSpec.vec_agrees (Physics2.centroid e) (Physics2.centroid r).
Proof.
  intros Hsrc Hreg Hb.
  destruct (update_shape chk event c obj Hsrc Hreg) as (c' & H & Hh & _).
  { rewrite Hb. reflexivity. }
  exists c'. split; [exact H|].
  rewrite Hh, decide_True by reflexivity. rewrite Hb.
  pose proof (applyFloatConsts_fields e
                (Physics2.setShared false (NetPhysics.heap c obj)) eq_refl) as F.
  exact F.
Qed.

Lemma float_consts_event_skips_angular_damping_witness :
  exists c',
    NetPhysics.processPhysObjEvent true
      (Samples.receivedFrom "peer"
         (PhysObj.allocFloatConsts 7
            (Physics2.with_angularDamping (Float32.of_int 5) Samples.consts0)))
      (Samples.engine false true ∅ ∅) = Ok c'
    /\ Physics2.angularDamping (Physics2.floatConsts (NetPhysics.heap c' 1%positive))
       = Float32.of_int 0.
Proof.
  destruct (float_consts_event_skips_angular_damping true
              (Samples.receivedFrom "peer"
                 (PhysObj.allocFloatConsts 7
                    (Physics2.with_angularDamping (Float32.of_int 5) Samples.consts0)))
              (Samples.engine false true ∅ ∅) 1%positive
              (Physics2.with_angularDamping (Float32.of_int 5) Samples.consts0))
    as (c' & H & Hd & _).
  - discriminate.
  - reflexivity.
  - reflexivity.
  - exists c'. split; [exact H|exact Hd].
Defined.

(** X16. An event for an id that the world does not know is dropped,
    whatever its type except creation: a deletion, an update, an
    ownership event, and every snapshot of a sync event. *)
Theorem unknown_body_is_ignored
  (chk : bool) (eo : PhysObj.PhysObjEvent) (es : PhysSync.PhysSyncEvent)
  (c : NetPhysics.Controller) :
  (Physics2.idToObj (NetPhysics._world c) !! PhysObj.getObjId eo = None ->
   (forall f bs, PhysObj.body eo <> PhysObj.OBJ_CREATION f bs) ->
   NetPhysics.processPhysObjEvent chk eo c = Ok c)
  /\ ((forall q, q ∈ PhysSync.getSyncList es ->
         Physics2.idToObj (NetPhysics._world c) !! PhysSync.objId q = None) ->
      NetPhysics.processPhysSyncEvent es c = Ok c).
Proof.
  split.
  - intros Hreg Hb. unfold NetPhysics.processPhysObjEvent.
    destruct (String.eqb _ _); [reflexivity|].
    destruct (PhysObj.body eo) as [f bs| | | | | | | | | |];
      try (rewrite (map_count_None _ _ Hreg); reflexivity).
    exfalso. exact (Hb f bs eq_refl).
  - intros Hall. unfold NetPhysics.processPhysSyncEvent.
    destruct (String.eqb _ _); [reflexivity|].
    induction (PhysSync.getSyncList es) as [|q l IH]; [reflexivity|].
    cbn [NetPhysics.foldM]. rewrite syncOne_skip by (apply Hall; left).
    cbn [obind]. apply IH. intros q' Hq'. apply Hall. right. exact Hq'.
Qed.

Lemma unknown_body_is_ignored_witness :
  let c := Samples.engine false true ∅ ∅ in
  NetPhysics.processPhysObjEvent true
    (Samples.receivedFrom "peer" (PhysObj.allocDeletion 8)) c = Ok c.
Proof.
  cbn zeta.
  apply (proj1 (unknown_body_is_ignored true
                  (Samples.receivedFrom "peer" (PhysObj.allocDeletion 8))
                  (Samples.syncFrom "peer" []) (Samples.engine false true ∅ ∅))).
  - reflexivity.
  - intros f bs. discriminate.
Defined.

(** ** Two peers *)

Section Peers.
Import Physics2 NetPhysics Spec EngineSpec.

(** What arrives is the event that was sent, from another source. *)
Lemma arrives_spec (chk : bool) (source : string) (e : PhysObj.PhysObjEvent) :
  source <> "" -> WireSpec.wire_ok e ->
  exists e',
    arrives chk source e e'
    /\ NetEventBase._sourceID (PhysObj.base e') = source
    /\ PhysObj.getObjId e' = PhysObj._objId e
    /\ PhysObj.body e' = PhysObj.body e.
Proof.
  intros Hsrc Hok. eexists. split; [split; [exact Hsrc|]|].
  - eexists. split; [apply phys_obj_decode; exact Hok|reflexivity].
  - repeat split.
Qed.

Lemma acquireObs_emits (obs : Obs) (duration id : Z) (c : Controller) :
  objToId (_world c) !! obs = Some id ->
  exists c',
    acquireObs obs duration c = Ok c'
    /\ emits c c' (PhysObj.allocOwnerAcquire id duration)
    /\ objToId (_world c') = objToId (_world c)
    /\ _isHost c' = _isHost c.
Proof.
  intros Hid. unfold acquireObs.
  assert (E : forall c0, objToId (_world c0) = objToId (_world c) ->
                map_at (objToId (_world c0)) obs = Ok id)
    by (intros c0 ->; apply map_at_Some; exact Hid).
  destruct (_isHost c) eqn:Hh; rewrite E by reflexivity; cbn [obind];
    eexists; (split; [reflexivity|]); repeat split; cbn; auto.
Qed.

Lemma releaseObs_emits (obs : Obs) (id : Z) (c : Controller) :
  _isHost c = false ->
  objToId (_world c) !! obs = Some id ->
  exists c',
    releaseObs obs c = Ok c'
    /\ emits c c' (PhysObj.allocOwnerRelease id)
    /\ owned (_world c') !! obs = None.
Proof.
  intros Hh Hid. unfold releaseObs. rewrite Hh. cbn [negb].
  assert (E : map_at (objToId (_world (modifyOwned (delete obs) c))) obs = Ok id)
    by (apply map_at_Some; exact Hid).
  rewrite E. cbn [obind]. eexists. split; [reflexivity|].
  split; [reflexivity|]. cbn. apply lookup_delete_eq.
Qed.

End Peers.

(** X17. The hand-over of a body, end to end.  A client acquires a
    body for some ticks: the event it emits, taken over the wire and
    processed by the host, erases the body from the ledger of the
    host.  The client then releases the body: that event makes the
    host the permanent owner again, and the ledger of the client no
    longer holds the body. *)
Theorem ownership_hand_over
  (chk : bool) (client host : NetPhysics.Controller)
  (obs obsH : Physics2.Obs) (id duration : Z) (source : string) :
  NetPhysics._isHost client = false ->
  NetPhysics._isHost host = true ->
  Physics2.objToId (NetPhysics._world client) !! obs = Some id ->
  Physics2.idToObj (NetPhysics._world host) !! id = Some obsH ->
  0 <= id < 2 ^ 64 -> 0 <= duration < 2 ^ 64 -> source <> "" ->
  exists client1 e1 e1' host1 client2 e2 e2' host2,
    NetPhysics.acquireObs obs duration client = Ok client1
    /\ EngineSpec.emits client client1 e1
    /\ EngineSpec.arrives chk source e1 e1'
    /\ NetPhysics.processPhysObjEvent chk e1' host = Ok host1
    /\ Physics2.owned (NetPhysics._world host1) !! obsH = None
    /\ NetPhysics.releaseObs obs client1 = Ok client2
    /\ Physics2.owned (NetPhysics._world client2) !! obs = None
    /\ EngineSpec.emits client1 client2 e2
    /\ EngineSpec.arrives chk source e2 e2'
    /\ NetPhysics.processPhysObjEvent chk e2' host1 = Ok host2
    /\ Physics2.owned (NetPhysics._world host2) !! obsH = Some 0.
Proof.
  intros Hc Hh Hid Hreg Hidr Hdr Hsrc.
  destruct (acquireObs_emits obs duration id client Hid)
    as (client1 & A1 & Em1 & Ids1 & Host1).
  destruct (arrives_spec chk source (PhysObj.allocOwnerAcquire id duration) Hsrc)
    as (e1' & Ar1 & S1 & I1 & B1).
  { split; [exact Hidr|exact Hdr]. }
  destruct (update_shape chk e1' host obsH) as (host1 & P1 & _ & _ & _ & _ & R1 & L1).
  { rewrite S1. exact Hsrc. }
  { rewrite I1. exact Hreg. }
  { rewrite B1. reflexivity. }
  destruct (releaseObs_emits obs id client1) as (client2 & A2 & Em2 & Own2).
  { congruence. }
  { rewrite Ids1. exact Hid. }
  destruct (arrives_spec chk source (PhysObj.allocOwnerRelease id) Hsrc)
    as (e2' & Ar2 & S2 & I2 & B2).
  { split; [exact Hidr|exact I]. }
  destruct R1 as (_ & _ & Rid & Rhost).
  destruct (update_shape chk e2' host1 obsH) as (host2 & P2 & _ & _ & _ & _ & _ & L2).
  { rewrite S2. exact Hsrc. }
  { rewrite I2, Rid. exact Hreg. }
  { rewrite B2. reflexivity. }
  exists client1, (PhysObj.allocOwnerAcquire id duration), e1', host1,
    client2, (PhysObj.allocOwnerRelease id), e2', host2.
  rewrite B1 in L1. rewrite B2, Rhost, Hh in L2. cbn in L1, L2.
  split; [exact A1|]. split; [exact Em1|]. split; [exact Ar1|].
  split; [exact P1|]. split; [rewrite L1; apply lookup_delete_eq|].
  split; [exact A2|]. split; [exact Own2|]. split; [exact Em2|].
  split; [exact Ar2|]. split; [exact P2|].
  rewrite L2, lookup_map_insert_new, L1, lookup_delete_eq. reflexivity.
Qed.

Lemma ownership_hand_over_witness :
  exists client1 e1 e1' host1,
    NetPhysics.acquireObs 1%positive 5 (Samples.engine false true ∅ ∅) = Ok client1
    /\ EngineSpec.emits (Samples.engine false true ∅ ∅) client1 e1
    /\ EngineSpec.arrives true "client" e1 e1'
    /\ NetPhysics.processPhysObjEvent true e1'
         (Samples.engine true true {[ 1%positive := 0 ]} ∅) = Ok host1
    /\ Physics2.owned (NetPhysics._world host1) !! 1%positive = None.
Proof.
  destruct (ownership_hand_over true (Samples.engine false true ∅ ∅)
              (Samples.engine true true {[ 1%positive := 0 ]} ∅)
              1%positive 1%positive 7 5 "client")
    as (client1 & e1 & e1' & host1 & _ & _ & _ & _ & H1 & H2 & H3 & H4 & H5 & _);
    try reflexivity; try lia; try discriminate.
  exists client1, e1, e1', host1.
  split; [exact H1|]. split; [exact H2|]. split; [exact H3|].
  split; [exact H4|exact H5].
Defined.

Section Lifecycle.
Import Physics2 NetPhysics Spec EngineSpec.

Ltac use_factory Hfact :=
  match goal with
  | |- context [match ?l with Some _ => _ | None => Undefined end] =>
      let t := type of Hfact in
      match t with _ = ?r => replace l with r by (symmetry; exact Hfact) end
  end.

(** An identifier made of two 32-bit halves is a 64-bit value. *)
Lemma made_id_range (uid n : Z) :
  0 <= uid < 2 ^ 32 -> 0 <= n < 2 ^ 32 ->
  0 <= Z.lor (Z.shiftl uid 32) n < 2 ^ 64.
Proof.
  intros Hu Hn.
  assert (H0 : 0 <= Z.shiftl uid 32) by (apply Z.shiftl_nonneg; lia).
  assert (Hs : Z.shiftl uid 32 < 2 ^ 64).
  { rewrite Z.shiftl_mul_pow2 by lia. change (2 ^ 64) with (2 ^ 32 * 2 ^ 32). nia. }
  split; [apply Z.lor_nonneg; lia|].
  destruct (Z.eq_dec (Z.lor (Z.shiftl uid 32) n) 0) as [->|Hne]; [reflexivity|].
  apply Z.log2_lt_pow2; [pose proof (proj2 (Z.lor_nonneg (Z.shiftl uid 32) n));
                         lia|].
  rewrite Z.log2_lor by lia.
  apply Z.max_lub_lt.
  - destruct (Z.eq_dec (Z.shiftl uid 32) 0) as [->|]; [reflexivity|].
    apply Z.log2_lt_pow2; lia.
  - destruct (Z.eq_dec n 0) as [->|]; [reflexivity|].
    apply Z.log2_lt_pow2; lia.
Qed.

(** [addObstacle(obj, id)] where neither assertion can trip. *)
Lemma addObstacleWithId_ok (chk : bool) (o : Obstacle) (obj : Obs) (id : Z)
  (w : ObstacleWorld) :
  (chk = true -> inBounds o w = true) ->
  idToObj w !! id = None ->
  addObstacleWithId chk o obj id w
  = Ok (with_obstacles (obstacles w ++ [obj])
          (with_idToObj (<[id := obj]> (idToObj w))
             (with_objToId (map_insert_new obj id (objToId w)) w))).
Proof.
  intros Hb Hfree. unfold addObstacleWithId, cuAssert.
  rewrite (map_count_None _ _ Hfree). cbn [negb].
  destruct chk; cbn [andb obind].
  - rewrite (Hb eq_refl). cbn [negb obind]. unfold map_insert_new at 1.
    rewrite Hfree. reflexivity.
  - unfold map_insert_new at 1. rewrite Hfree. reflexivity.
Qed.

(** [addObstacle(obj, id)] where an assertion trips. *)
Lemma addObstacleWithId_asserts (o : Obstacle) (obj : Obs) (id : Z)
  (w : ObstacleWorld) :
  inBounds o w = false \/ idToObj w !! id <> None ->
  addObstacleWithId true o obj id w = AssertFailure.
Proof.
  intros Hbad. unfold addObstacleWithId, cuAssert. cbn [andb].
  destruct (inBounds o w); cbn [negb obind]; [|reflexivity].
  destruct Hbad as [Hb|Hid]; [discriminate|].
  unfold map_count. destruct (idToObj w !! id); [reflexivity|contradiction].
Qed.

(** [addSharedObstacle], with a factory at hand. *)
Lemma addSharedObstacle_emits (chk : bool) (factoryID : Z) (bytes : list byte)
  (fact : ObstacleFactory) (c : Controller) :
  let id := Z.lor (Z.shiftl (worldShortUID (_world c)) 32) (nextObj (_world c)) in
  0 <= factoryID ->
  _obstacleFacts c !! Z.to_nat factoryID = Some fact ->
  (chk = true -> inBounds (setShared true (fst (fact bytes))) (_world c) = true) ->
  idToObj (_world c) !! id = None ->
  exists c',
    addSharedObstacle chk factoryID bytes c
    = Ok (nextHandle c, snd (fact bytes), c')
    /\ emits c c' (PhysObj.allocCreation factoryID id bytes)
    /\ heap c' (nextHandle c) = setShared true (fst (fact bytes))
    /\ obstacles (_world c') = obstacles (_world c) ++ [nextHandle c]
    /\ idToObj (_world c') = <[id := nextHandle c]> (idToObj (_world c))
    /\ objToId (_world c')
       = map_insert_new (nextHandle c) id (objToId (_world c))
    /\ nextObj (_world c') = wrap32 (nextObj (_world c) + 1).
Proof.
  intros id Hf Hfact Hb Hfree. unfold addSharedObstacle.
  assert (Hlt : (factoryID <? Z.of_nat (length (_obstacleFacts c))) = true).
  { apply Z.ltb_lt. pose proof (lookup_lt_Some _ _ _ Hfact). lia. }
  assert (Hc : cuAssert chk (factoryID <? Z.of_nat (length (_obstacleFacts c)))
               = Ok tt).
  { unfold cuAssert. rewrite Hlt. destruct chk; reflexivity. }
  rewrite Hc. cbn [obind]. use_factory Hfact.
  destruct (fact bytes) as [o node]. cbn [fst snd] in *.
  cbn [allocObs]. unfold addObstacle. cbn [_world with_nextHandle with_heap].
  rewrite addObstacleWithId_ok; [|exact Hb|exact Hfree].
  cbn [obind].
  destruct (_isHost c) eqn:Hh; cbn; rewrite ?Hh;
    (eexists; split; [reflexivity|]); unfold emits; cbn;
    rewrite ?fn_lookup_insert; repeat split.
Qed.

(** A creation event at the receiving peer. *)
Lemma creation_received (chk : bool) (event : PhysObj.PhysObjEvent)
  (factoryID : Z) (bytes : list byte) (fact : ObstacleFactory) (c : Controller) :
  NetEventBase._sourceID (PhysObj.base event) <> "" ->
  PhysObj.body event = PhysObj.OBJ_CREATION factoryID bytes ->
  0 <= factoryID ->
  _obstacleFacts c !! Z.to_nat factoryID = Some fact ->
  (chk = true -> inBounds (fst (fact bytes)) (_world c) = true) ->
  idToObj (_world c) !! PhysObj.getObjId event = None ->
  exists c',
    processPhysObjEvent chk event c = Ok c'
    /\ heap c' (nextHandle c) = fst (fact bytes)
    /\ (forall o, o <> nextHandle c -> heap c' o = heap c o)
    /\ obstacles (_world c') = obstacles (_world c) ++ [nextHandle c]
    /\ idToObj (_world c')
       = <[PhysObj.getObjId event := nextHandle c]> (idToObj (_world c))
    /\ objToId (_world c')
       = map_insert_new (nextHandle c) (PhysObj.getObjId event) (objToId (_world c))
    /\ _outEvents c' = _outEvents c
    /\ owned (_world c') !! nextHandle c
       = if _isHost c
         then Some (default 0 (owned (_world c) !! nextHandle c))
         else owned (_world c) !! nextHandle c.
Proof.
  intros Hsrc Hb Hf Hfact Hin Hfree. unfold processPhysObjEvent.
  destruct (String.eqb_spec (NetEventBase._sourceID (PhysObj.base event)) "")
    as [E|_]; [contradiction|].
  rewrite Hb.
  assert (Hlt : (factoryID <? Z.of_nat (length (_obstacleFacts c))) = true).
  { apply Z.ltb_lt. pose proof (lookup_lt_Some _ _ _ Hfact). lia. }
  assert (Hc : cuAssert chk (factoryID <? Z.of_nat (length (_obstacleFacts c)))
               = Ok tt).
  { unfold cuAssert. rewrite Hlt. destruct chk; reflexivity. }
  rewrite Hc. cbn [obind]. use_factory Hfact.
  destruct (fact bytes) as [o node]. cbn [fst snd] in *.
  cbn [allocObs]. cbn [_world with_nextHandle with_heap].
  rewrite addObstacleWithId_ok; [|exact Hin|exact Hfree].
  cbn [obind].
  destruct (_linkSceneToObsFunc c) eqn:Hl; destruct (_isHost c) eqn:Hh;
    cbn; rewrite ?Hl, ?Hh; cbn; rewrite ?Hh; cbn;
    (eexists; split; [reflexivity|]); cbn;
    rewrite ?fn_lookup_insert, ?lookup_map_insert_new;
    (split; [reflexivity|]);
    (split; [intros o' Hne; apply fn_lookup_insert_ne; congruence|]);
    repeat split.
Qed.

(** A creation event that the registry of the receiver refuses. *)
Lemma creation_refused (event : PhysObj.PhysObjEvent)
  (factoryID : Z) (bytes : list byte) (fact : ObstacleFactory) (c : Controller) :
  NetEventBase._sourceID (PhysObj.base event) <> "" ->
  PhysObj.body event = PhysObj.OBJ_CREATION factoryID bytes ->
  0 <= factoryID ->
  _obstacleFacts c !! Z.to_nat factoryID = Some fact ->
  inBounds (fst (fact bytes)) (_world c) = false
  \/ idToObj (_world c) !! PhysObj.getObjId event <> None ->
  processPhysObjEvent true event c = AssertFailure.
Proof.
  intros Hsrc Hb Hf Hfact Hbad. unfold processPhysObjEvent.
  destruct (String.eqb_spec (NetEventBase._sourceID (PhysObj.base event)) "")
    as [E|_]; [contradiction|].
  rewrite Hb.
  assert (Hlt : (factoryID <? Z.of_nat (length (_obstacleFacts c))) = true).
  { apply Z.ltb_lt. pose proof (lookup_lt_Some _ _ _ Hfact). lia. }
  unfold cuAssert at 1. rewrite Hlt. cbn [negb andb obind]. use_factory Hfact.
  destruct (fact bytes) as [o node]. cbn [fst snd] in *.
  cbn [allocObs]. cbn [_world with_nextHandle with_heap].
  rewrite addObstacleWithId_asserts by exact Hbad. reflexivity.
Qed.

(** [eraseFirst] takes out the first occurrence. *)
Lemma eraseFirst_split (obj : Obs) (l1 l2 : list Obs) :
  (obj ∉ l1) -> eraseFirst obj (l1 ++ obj :: l2) = Some (l1 ++ l2).
Proof.
  induction l1 as [|o l1 IH]; intros Hni; cbn.
  - destruct (decide (obj = obj)); [reflexivity|contradiction].
  - apply not_elem_of_cons in Hni as [Hne Hni].
    destruct (decide (o = obj)); [congruence|]. rewrite (IH Hni). reflexivity.
Qed.

Lemma eraseFirst_absent (obj : Obs) (l : list Obs) :
  (obj ∉ l) -> eraseFirst obj l = None.
Proof.
  induction l as [|o l IH]; intros Hni; cbn; [reflexivity|].
  apply not_elem_of_cons in Hni as [Hne Hni].
  destruct (decide (o = obj)); [congruence|]. rewrite (IH Hni). reflexivity.
Qed.

(** [removeObstacle] of a body of the list. *)
Lemma removeObstacle_spec (chk : bool) (obj : Obs) (l1 l2 : list Obs)
  (w : ObstacleWorld) :
  obstacles w = l1 ++ obj :: l2 -> (obj ∉ l1) ->
  removeObstacle chk obj w = Ok (with_obstacles (l1 ++ l2) w).
Proof.
  intros Hl Hni. unfold removeObstacle. rewrite Hl, (eraseFirst_split _ _ _ Hni).
  reflexivity.
Qed.

(** [removeObstacle] of a body that is not in the list. *)
Lemma removeObstacle_absent (obj : Obs) (w : ObstacleWorld) :
  (obj ∉ obstacles w) -> removeObstacle true obj w = AssertFailure.
Proof.
  intros Hni. unfold removeObstacle. rewrite (eraseFirst_absent _ _ Hni).
  reflexivity.
Qed.

(** A deletion event at the receiving peer. *)
Lemma deletion_received (chk : bool) (event : PhysObj.PhysObjEvent)
  (obj : Obs) (c : Controller) :
  NetEventBase._sourceID (PhysObj.base event) <> "" ->
  PhysObj.body event = PhysObj.OBJ_DELETION ->
  idToObj (_world c) !! PhysObj.getObjId event = Some obj ->
  processPhysObjEvent chk event c
  = let! w := removeObstacle chk obj (_world c) in
    Ok (unlinkNode obj
          (with_world w (with_cache (delete obj (_cache c)) c))).
Proof.
  intros Hsrc Hb Hreg. unfold processPhysObjEvent.
  destruct (String.eqb_spec (NetEventBase._sourceID (PhysObj.base event)) "")
    as [E|_]; [contradiction|].
  rewrite Hb, (map_count_Some _ _ _ Hreg), (map_at_Some _ _ _ Hreg).
  cbn [negb obind]. reflexivity.
Qed.

End Lifecycle.

(** X18. The creation of a shared body, end to end.  On the peer that
    calls [addSharedObstacle], let the id be the short UID of its world
    in the upper 32 bits and the counter of its world in the lower 32;
    where this id is free in its registry and, with the assertions
    compiled in, the body of the factory lies in the bounds of the
    world, the call returns a body that is flagged [shared], appended to
    the obstacle list and registered under exactly this id, the counter
    goes up by one (modulo [2^32]) and one creation event is emitted.
    The peer that receives the event over the wire makes a body with its
    own factory of the same number from the same bytes: where the id is
    free in its registry and (under assertions) its body lies in its
    bounds, it appends the body to its world and registers it under the
    same id, emits nothing, and takes the body as the factory made it
    (the [shared] flag is not raised on this side); with the assertions
    compiled in, a body out of bounds or an id that is taken aborts the
    processing of the event. *)
Theorem creation_reaches_peer
  (chk : bool) (a b : NetPhysics.Controller) (factoryID : Z) (bytes : list byte)
  (factA factB : NetPhysics.ObstacleFactory) (source : string) :
  let id := Z.lor (Z.shiftl (Physics2.worldShortUID (NetPhysics._world a)) 32)
              (Physics2.nextObj (NetPhysics._world a)) in
  0 <= factoryID < 2 ^ 32 ->
  0 <= Physics2.worldShortUID (NetPhysics._world a) < 2 ^ 32 ->
  0 <= Physics2.nextObj (NetPhysics._world a) < 2 ^ 32 ->
  NetPhysics._obstacleFacts a !! Z.to_nat factoryID = Some factA ->
  NetPhysics._obstacleFacts b !! Z.to_nat factoryID = Some factB ->
  source <> "" ->
  (chk = true ->
   Physics2.inBounds (Physics2.setShared true (fst (factA bytes)))
     (NetPhysics._world a) = true) ->
  Physics2.idToObj (NetPhysics._world a) !! id = None ->
  exists a1 e e',
    NetPhysics.addSharedObstacle chk factoryID bytes a
    = Ok (NetPhysics.nextHandle a, snd (factA bytes), a1)
    /\ Physics2.isShared (NetPhysics.heap a1 (NetPhysics.nextHandle a)) = true
    /\ Physics2.obstacles (NetPhysics._world a1)
       = Physics2.obstacles (NetPhysics._world a) ++ [NetPhysics.nextHandle a]
    /\ Physics2.idToObj (NetPhysics._world a1) !! id
       = Some (NetPhysics.nextHandle a)
    /\ Physics2.nextObj (NetPhysics._world a1)
       = wrap32 (Physics2.nextObj (NetPhysics._world a) + 1)
    /\ e = PhysObj.mkEvent NetEventBase.freshMeta id
             (PhysObj.OBJ_CREATION factoryID bytes)
    /\ EngineSpec.emits a a1 e
    /\ EngineSpec.arrives chk source e e'
    /\ ((chk = true ->
         Physics2.inBounds (fst (factB bytes)) (NetPhysics._world b) = true) ->
        Physics2.idToObj (NetPhysics._world b) !! id = None ->
        exists b1,
          NetPhysics.processPhysObjEvent chk e' b = Ok b1
          /\ NetPhysics.heap b1 (NetPhysics.nextHandle b) = fst (factB bytes)
          /\ Physics2.obstacles (NetPhysics._world b1)
             = Physics2.obstacles (NetPhysics._world b) ++ [NetPhysics.nextHandle b]
          /\ Physics2.idToObj (NetPhysics._world b1) !! id
             = Some (NetPhysics.nextHandle b)
          /\ NetPhysics._outEvents b1 = NetPhysics._outEvents b)
    /\ (chk = true ->
        Physics2.inBounds (fst (factB bytes)) (NetPhysics._world b) = false
        \/ Physics2.idToObj (NetPhysics._world b) !! id <> None ->
        NetPhysics.processPhysObjEvent chk e' b = AssertFailure).
Proof.
  intros id Hf Hu Hn HfA HfB Hsrc HinA HfreeA.
  destruct (addSharedObstacle_emits chk factoryID bytes factA a)
    as (a1 & A1 & Em & Hh & Hobs & Hreg & _ & Hnext);
    [lia|exact HfA|exact HinA|exact HfreeA|].
  destruct (arrives_spec chk source
              (PhysObj.allocCreation factoryID id bytes) Hsrc)
    as (e' & Ar & S & I & B).
  { split; [apply made_id_range; assumption|exact Hf]. }
  exists a1, (PhysObj.allocCreation factoryID id bytes), e'.
  split; [exact A1|]. split; [rewrite Hh; reflexivity|]. split; [exact Hobs|].
  split; [fold id in Hreg; rewrite Hreg; apply lookup_insert_eq|].
  split; [exact Hnext|]. split; [reflexivity|].
  split; [exact Em|]. split; [exact Ar|]. split.
  - intros HinB HfreeB.
    destruct (creation_received chk e' factoryID bytes factB b)
      as (b1 & P & Hb & _ & Hobsb & Hregb & _ & Hout & _).
    { rewrite S. exact Hsrc. }
    { exact B. }
    { lia. }
    { exact HfB. }
    { exact HinB. }
    { rewrite I. exact HfreeB. }
    exists b1. split; [exact P|]. split; [exact Hb|]. split; [exact Hobsb|].
    split; [rewrite Hregb, I; apply lookup_insert_eq|exact Hout].
  - intros -> Hbad.
    apply (creation_refused e' factoryID bytes factB b).
    + rewrite S. exact Hsrc.
    + exact B.
    + lia.
    + exact HfB.
    + rewrite I. exact Hbad.
Qed.

Lemma creation_reaches_peer_witness :
  exists a1 e e' b1,
    NetPhysics.addSharedObstacle true 0 Samples.abc (Samples.emptyEngine true 1)
    = Ok (1%positive, 0%nat, a1)
    /\ EngineSpec.emits (Samples.emptyEngine true 1) a1 e
    /\ EngineSpec.arrives true "host" e e'
    /\ NetPhysics.processPhysObjEvent true e' (Samples.emptyEngine false 2) = Ok b1
    /\ Physics2.idToObj (NetPhysics._world b1) !! 4294967296 = Some 1%positive.
Proof.
  destruct (creation_reaches_peer true (Samples.emptyEngine true 1)
              (Samples.emptyEngine false 2) 0 Samples.abc
              Samples.originFactory Samples.originFactory "host")
    as (a1 & e & e' & H1 & _ & _ & _ & _ & _ & H2 & H3 & H4 & _).
  - lia.
  - cbn. lia.
  - cbn. lia.
  - reflexivity.
  - reflexivity.
  - discriminate.
  - intros _. vm_compute. reflexivity.
  - reflexivity.
  - destruct H4 as (b1 & H4 & _ & _ & H5 & _).
    + intros _. vm_compute. reflexivity.
    + reflexivity.
    + exists a1, e, e', b1.
      split; [exact H1|]. split; [exact H2|]. split; [exact H3|].
      split; [exact H4|exact H5].
Defined.

(** X19. The removal of a shared body, end to end.  The peer that
    calls [removeSharedObstacle] on a registered body of its obstacle
    list emits one deletion event for the id of the body and takes the
    first occurrence of the body out of the list; both id maps, the
    ledger and a cached target of the body stay as they were.  The peer
    that receives the event over the wire, where the id resolves to a
    body of its obstacle list, takes the first occurrence of that body
    out of the list and erases its cached target, emits nothing, and
    keeps both id maps as they were: the id still resolves to the body.
    Where the body is no longer in the list (a second deletion of the
    same id), the processing aborts when the assertions are compiled
    in. *)
Theorem deletion_reaches_peer
  (chk : bool) (a b : NetPhysics.Controller) (obj objB : Physics2.Obs) (id : Z)
  (l1 l2 : list Physics2.Obs) (source : string) :
  Physics2.objToId (NetPhysics._world a) !! obj = Some id ->
  Physics2.obstacles (NetPhysics._world a) = l1 ++ obj :: l2 -> (obj ∉ l1) ->
  Physics2.idToObj (NetPhysics._world b) !! id = Some objB ->
  0 <= id < 2 ^ 64 -> source <> "" ->
  exists a1 e e',
    NetPhysics.removeSharedObstacle chk obj a = Ok a1
    /\ e = PhysObj.mkEvent NetEventBase.freshMeta id PhysObj.OBJ_DELETION
    /\ EngineSpec.emits a a1 e
    /\ Physics2.obstacles (NetPhysics._world a1) = l1 ++ l2
    /\ Physics2.objToId (NetPhysics._world a1) = Physics2.objToId (NetPhysics._world a)
    /\ Physics2.idToObj (NetPhysics._world a1) = Physics2.idToObj (NetPhysics._world a)
    /\ Physics2.owned (NetPhysics._world a1) = Physics2.owned (NetPhysics._world a)
    /\ NetPhysics._cache a1 = NetPhysics._cache a
    /\ EngineSpec.arrives chk source e e'
    /\ (forall k1 k2,
          Physics2.obstacles (NetPhysics._world b) = k1 ++ objB :: k2 ->
          (objB ∉ k1) ->
          exists b1,
            NetPhysics.processPhysObjEvent chk e' b = Ok b1
            /\ Physics2.obstacles (NetPhysics._world b1) = k1 ++ k2
            /\ Physics2.idToObj (NetPhysics._world b1)
               = Physics2.idToObj (NetPhysics._world b)
            /\ Physics2.objToId (NetPhysics._world b1)
               = Physics2.objToId (NetPhysics._world b)
            /\ NetPhysics._cache b1 !! objB = None
            /\ NetPhysics._outEvents b1 = NetPhysics._outEvents b)
    /\ (chk = true -> (objB ∉ Physics2.obstacles (NetPhysics._world b)) ->
        NetPhysics.processPhysObjEvent chk e' b = AssertFailure).
Proof.
  intros Hid Hl Hni Hreg Hidr Hsrc.
  destruct (arrives_spec chk source (PhysObj.allocDeletion id) Hsrc)
    as (e' & Ar & S & I & B).
  { split; [exact Hidr|exact I]. }
  cbn in I, B.
  eexists. exists (PhysObj.allocDeletion id), e'. split.
  { unfold NetPhysics.removeSharedObstacle.
    rewrite (map_count_Some _ _ _ Hid), (map_at_Some _ _ _ Hid). cbn [obind].
    cbn [NetPhysics._world NetPhysics.pushOut NetPhysics.with_outEvents].
    rewrite (removeObstacle_spec chk obj l1 l2 _ Hl Hni). cbn [obind].
    reflexivity. }
  split; [reflexivity|]. split; [reflexivity|]. split; [reflexivity|].
  split; [reflexivity|]. split; [reflexivity|]. split; [reflexivity|].
  split; [reflexivity|]. split; [exact Ar|]. split.
  - intros k1 k2 Hk Hnk. eexists. split.
    { rewrite (deletion_received chk e' objB b);
        [|rewrite S; exact Hsrc|exact B|rewrite I; exact Hreg].
      rewrite (removeObstacle_spec chk objB k1 k2 _ Hk Hnk). cbn [obind].
      reflexivity. }
    split; [reflexivity|]. split; [reflexivity|]. split; [reflexivity|].
    split; [cbn; apply lookup_delete_eq|reflexivity].
  - intros -> Hnb.
    rewrite (deletion_received true e' objB b);
      [|rewrite S; exact Hsrc|exact B|rewrite I; exact Hreg].
    rewrite (removeObstacle_absent objB _ Hnb). reflexivity.
Qed.

Lemma deletion_reaches_peer_witness :
  exists a1 e e',
    NetPhysics.removeSharedObstacle true 1%positive (Samples.engine true true ∅ ∅)
    = Ok a1
    /\ EngineSpec.emits (Samples.engine true true ∅ ∅) a1 e
    /\ Physics2.obstacles (NetPhysics._world a1) = []
    /\ Physics2.idToObj (NetPhysics._world a1) !! 7 = Some 1%positive
    /\ EngineSpec.arrives true "host" e e'.
Proof.
  destruct (deletion_reaches_peer true (Samples.engine true true ∅ ∅)
              (Samples.engine false true ∅ {[ 1%positive := Samples.targetAt10 0 30 ]})
              1%positive 1%positive 7 [] [] "host")
    as (a1 & e & e' & H1 & _ & H2 & H3 & _ & H4 & _ & _ & H5 & _).
  - reflexivity.
  - reflexivity.
  - apply not_elem_of_nil.
  - reflexivity.
  - lia.
  - discriminate.
  - exists a1, e, e'.
    split; [exact H1|]. split; [exact H2|]. split; [exact H3|].
    split; [rewrite H4; reflexivity|exact H5].
Defined.

(** ** Publishing *)

Section Publishing.
Import Physics2 NetPhysics Spec EngineSpec.

Lemma ownAll_fold (l : list Obs) (c : Controller) :
  let c' := fold_left (fun c o => modifyOwned (map_insert_new o 0) c) l c in
  (forall o, owned (_world c') !! o
             = if decide (o ∈ l) then Some (default 0 (owned (_world c) !! o))
               else owned (_world c) !! o)
  /\ heap c' = heap c /\ _cache c' = _cache c /\ _outEvents c' = _outEvents c
  /\ same_registry c c'.
Proof.
  revert c. induction l as [|a l IH]; intros c; cbn zeta.
  - split; [|repeat split]. intros o.
    rewrite decide_False by (intros H; inversion H). reflexivity.
  - cbn [fold_left]. destruct (IH (modifyOwned (map_insert_new a 0) c))
      as (Hown & Hh & Hc & Ho & R1 & R2 & R3 & R4).
    cbn zeta in *. split; [|split; [|split; [|split]]].
    + intros o. rewrite Hown. cbn.
      destruct (decide (o = a)) as [->|Hne].
      * rewrite lookup_map_insert_new.
        rewrite (decide_True (P := a ∈ a :: l)) by left.
        destruct (decide (a ∈ l)); [|reflexivity].
        destruct (owned (_world c) !! a); reflexivity.
      * rewrite lookup_map_insert_new_ne by congruence.
        destruct (decide (o ∈ l)) as [Hin|Hnin].
        -- rewrite decide_True by (right; exact Hin). reflexivity.
        -- rewrite decide_False; [reflexivity|].
           intros H. apply elem_of_cons in H as [?|?]; contradiction.
    + rewrite Hh. reflexivity.
    + rewrite Hc. reflexivity.
    + rewrite Ho. reflexivity.
    + unfold same_registry. rewrite R1, R2, R3, R4. repeat split.
Qed.






End Publishing.

(** X20. [ownAll] gives every body of the world a permanent lease
    unless the ledger already holds the body: a lease that is running
    keeps its count.  Nothing else changes, and nothing is sent. *)
Theorem ownAll_spec (c : NetPhysics.Controller) (o : Physics2.Obs) :
  Physics2.owned (NetPhysics._world (NetPhysics.ownAll c)) !! o
  = (if decide (o ∈ Physics2.obstacles (NetPhysics._world c))
     then Some (default 0 (Physics2.owned (NetPhysics._world c) !! o))
     else Physics2.owned (NetPhysics._world c) !! o)
  /\ NetPhysics.heap (NetPhysics.ownAll c) = NetPhysics.heap c
  /\ NetPhysics._cache (NetPhysics.ownAll c) = NetPhysics._cache c
  /\ NetPhysics._outEvents (NetPhysics.ownAll c) = NetPhysics._outEvents c
  /\ EngineSpec.same_registry c (NetPhysics.ownAll c).
Proof.
  destruct (ownAll_fold (Physics2.obstacles (NetPhysics._world c)) c)
    as (Hown & Hrest).
  split; [apply Hown|exact Hrest].
Qed.



(** ** Snapshots *)

Section Snapshots.
Import Physics2 NetPhysics Spec EngineSpec PackSync.

Lemma alloc_ok : event_ok PhysSync.alloc.
Proof.
  split; [cbn; constructor|]. intros id. cbn. split.
  - intros H. apply elem_of_empty in H. contradiction.
  - intros H. inversion H.
Qed.

(** [addObj] on an event whose id set agrees with its list. *)
Lemma addObj_spec (o : Obstacle) (id : Z) (e : PhysSync.PhysSyncEvent) :
  event_ok e ->
  event_ok (PhysSync.addObj o id e)
  /\ (id ∈ PhysSync.objId <$> PhysSync._syncList e -> PhysSync.addObj o id e = e)
  /\ (id ∉ PhysSync.objId <$> PhysSync._syncList e ->
      PhysSync._syncList (PhysSync.addObj o id e)
      = PhysSync._syncList e ++ [snapshot o id]).
Proof.
  intros [Hnd Hset]. unfold PhysSync.addObj.
  destruct (decide (id ∈ PhysSync._objSet e)) as [Hin|Hnin].
  - split; [split; assumption|]. split; [reflexivity|].
    intros Hno. exfalso. apply Hno, Hset, Hin.
  - assert (Hno : id ∉ PhysSync.objId <$> PhysSync._syncList e)
      by (intros H; apply Hnin, Hset, H).
    split; [|split; [intros H; contradiction|reflexivity]].
    split; cbn.
    + rewrite fmap_app. apply list.NoDup_app. split; [exact Hnd|]. split.
      * intros x Hx Hx'. cbn in Hx'. apply list_elem_of_singleton in Hx'.
        subst x. contradiction.
      * cbn. apply NoDup_singleton.
    + intros x. rewrite fmap_app, elem_of_app, elem_of_union, elem_of_singleton.
      cbn. rewrite list_elem_of_singleton, Hset. tauto.
Qed.

(** The loop of a full synchronisation, over any list of entries. *)
Lemma fullSyncLoop_spec (ownedOnly : bool) (c : Controller)
  (entries : list (Z * Obs)) (e : PhysSync.PhysSyncEvent) :
  event_ok e ->
  let e' := fullSyncLoop ownedOnly c entries e in
  event_ok e'
  /\ (forall q, q ∈ PhysSync._syncList e' ->
        q ∈ PhysSync._syncList e
        \/ exists obj, (PhysSync.objId q, obj) ∈ entries
                       /\ selected ownedOnly c obj = true
                       /\ q = snapshot (heap c obj) (PhysSync.objId q))
  /\ (forall id obj, (id, obj) ∈ entries -> selected ownedOnly c obj = true ->
        id ∈ PhysSync.objId <$> PhysSync._syncList e')
  /\ (forall q, q ∈ PhysSync._syncList e -> q ∈ PhysSync._syncList e').
Proof.
  revert e. induction entries as [|[id obj] l IH]; intros e Hok; cbn zeta.
  - split; [exact Hok|]. split; [auto|]. split; [|auto].
    intros id obj H. inversion H.
  - unfold fullSyncLoop. cbn [fold_left].
    set (e1 := if selected ownedOnly c obj
               then PhysSync.addObj (heap c obj) id e else e).
    assert (H1 : event_ok e1
                 /\ (forall q, q ∈ PhysSync._syncList e -> q ∈ PhysSync._syncList e1)
                 /\ (forall q, q ∈ PhysSync._syncList e1 ->
                       q ∈ PhysSync._syncList e
                       \/ (selected ownedOnly c obj = true
                           /\ q = snapshot (heap c obj) id))
                 /\ (selected ownedOnly c obj = true ->
                     id ∈ PhysSync.objId <$> PhysSync._syncList e1)).
    { subst e1. destruct (selected ownedOnly c obj) eqn:Hsel.
      - destruct (addObj_spec (heap c obj) id e Hok) as (Hok1 & Hsame & Hnew).
        split; [exact Hok1|].
        destruct (decide (id ∈ PhysSync.objId <$> PhysSync._syncList e)) as [Hin|Hnin].
        + rewrite (Hsame Hin). split; [auto|]. split; [auto|]. intros _. exact Hin.
        + rewrite (Hnew Hnin). split; [|split].
          * intros q Hq. apply elem_of_app. left. exact Hq.
          * intros q Hq. apply elem_of_app in Hq as [Hq|Hq]; [left; exact Hq|].
            apply list_elem_of_singleton in Hq. right. split; [reflexivity|exact Hq].
          * intros _. rewrite fmap_app. apply elem_of_app. right. cbn. left.
      - split; [exact Hok|]. split; [auto|]. split; [auto|discriminate]. }
    destruct H1 as (Hok1 & Keep1 & From1 & Has1).
    destruct (IH e1 Hok1) as (Hok' & From' & Has' & Keep').
    fold (fullSyncLoop ownedOnly c l e1).
    split; [exact Hok'|]. split; [|split].
    + intros q Hq. destruct (From' q Hq) as [Hq1|(o & Hin & Hsel & Hsnap)].
      * destruct (From1 q Hq1) as [H0|[Hsel Hsnap]]; [left; exact H0|].
        right. exists obj. subst q. cbn. split; [left|]. split; [exact Hsel|reflexivity].
      * right. exists o. split; [right; exact Hin|]. split; [exact Hsel|exact Hsnap].
    + intros id' obj' Hin Hsel. apply elem_of_cons in Hin as [[= -> ->]|Hin].
      * specialize (Has1 Hsel). apply list_elem_of_fmap in Has1 as (q & -> & Hq).
        apply list_elem_of_fmap. exists q. split; [reflexivity|]. apply Keep', Hq.
      * apply (Has' id' obj' Hin Hsel).
    + intros q Hq. apply Keep', Keep1, Hq.
Qed.

End Snapshots.

(** X22. The snapshots of a sync event have distinct ids, whatever
    the sequence of [addObj] calls that built it from a new event: a
    call with an id that the event already holds changes nothing, so
    the first snapshot of an id is the one that stays; a call with a
    new id appends the current pose and motion of the body at the
    end. *)
Theorem addObj_keeps_first_snapshot
  (adds : list (Physics2.Obstacle * Z)) (o : Physics2.Obstacle) (id : Z) :
  let e := fold_left (fun e '(o, id) => PhysSync.addObj o id e) adds PhysSync.alloc in
  NoDup (PhysSync.objId <$> PhysSync.getSyncList e)
  /\ (id ∈ PhysSync.objId <$> PhysSync.getSyncList e -> PhysSync.addObj o id e = e)
  /\ (id ∉ PhysSync.objId <$> PhysSync.getSyncList e ->
      PhysSync.getSyncList (PhysSync.addObj o id e)
      = PhysSync.getSyncList e ++ [PackSync.snapshot o id]).
Proof.
  cbn zeta.
  assert (Hok : forall e0, PackSync.event_ok e0 ->
            PackSync.event_ok
              (fold_left (fun e '(o, id) => PhysSync.addObj o id e) adds e0)).
  { induction adds as [|[o' id'] l IH]; intros e0 H0; [exact H0|].
    cbn [fold_left]. apply IH. apply addObj_spec. exact H0. }
  specialize (Hok PhysSync.alloc alloc_ok).
  destruct (addObj_spec o id _ Hok) as (_ & Hsame & Hnew).
  split; [apply Hok|]. split; [exact Hsame|exact Hnew].
Qed.

(** X23. A full synchronisation sends one event whose snapshots are,
    each id once, the current pose and motion of exactly the
    registered bodies that are flagged [shared]: also under
    [OVERRIDE_FULL_SYNC] a body that is not shared is left out, and
    under [FULL_SYNC] so is a shared body that the ledger does not
    hold.  This holds for every order in which the id map yields its
    entries.  Nothing else of the state changes. *)
Theorem full_sync_snapshots
  (ownedOnly : bool) (entries : list (Z * Physics2.Obs))
  (c : NetPhysics.Controller) :
  PackSync.enumerates entries (Physics2.idToObj (NetPhysics._world c)) ->
  exists event,
    PackSync.packFullSync ownedOnly entries c
    = NetPhysics.pushOut (EvPhysSync event) c
    /\ NoDup (PhysSync.objId <$> PhysSync.getSyncList event)
    /\ forall q,
         q ∈ PhysSync.getSyncList event
         <-> exists obj,
               Physics2.idToObj (NetPhysics._world c) !! PhysSync.objId q = Some obj
               /\ Physics2.isShared (NetPhysics.heap c obj) = true
               /\ (ownedOnly = true ->
                   is_Some (Physics2.owned (NetPhysics._world c) !! obj))
               /\ q = PackSync.snapshot (NetPhysics.heap c obj) (PhysSync.objId q).
Proof.
  intros [Hnd Henum].
  destruct (fullSyncLoop_spec ownedOnly c entries PhysSync.alloc alloc_ok)
    as (Hok & From & Has & _).
  eexists. split; [reflexivity|]. split; [apply Hok|].
  assert (Hsel : forall obj, PackSync.selected ownedOnly c obj = true
                 <-> Physics2.isShared (NetPhysics.heap c obj) = true
                     /\ (ownedOnly = true ->
                         is_Some (Physics2.owned (NetPhysics._world c) !! obj))).
  { intros obj. unfold PackSync.selected, map_count.
    destruct (Physics2.isShared (NetPhysics.heap c obj)); cbn.
    - destruct ownedOnly; cbn.
      + destruct (Physics2.owned (NetPhysics._world c) !! obj) eqn:E.
        * split; [intros _; split; [reflexivity|intros _; eexists; reflexivity]|auto].
        * split; [discriminate|]. intros [_ H]. destruct (H eq_refl) as [? ?].
          discriminate.
      + split; [intros _; split; [reflexivity|discriminate]|auto].
    - split; [discriminate|intros [? _]; discriminate]. }
  intros q. split.
  - intros Hq. destruct (From q Hq) as [H0|(obj & Hin & Hs & Hsnap)];
      [inversion H0|].
    exists obj. apply Henum in Hin. apply Hsel in Hs as [Hsh Hown].
    split; [exact Hin|]. split; [exact Hsh|]. split; [exact Hown|exact Hsnap].
  - intros (obj & Hreg & Hsh & Hown & Hsnap).
    assert (Hs : PackSync.selected ownedOnly c obj = true)
      by (apply Hsel; split; assumption).
    apply Henum in Hreg.
    pose proof (Has _ _ Hreg Hs) as Hid.
    apply list_elem_of_fmap in Hid as (q' & Hq'id & Hq').
    destruct (From q' Hq') as [H0|(obj' & Hin' & _ & Hsnap')]; [inversion H0|].
    assert (obj' = obj).
    { rewrite <- Hq'id in Hin'. apply Henum in Hin', Hreg. congruence. }
    subst obj'. assert (q = q') by (rewrite Hsnap, Hsnap', Hq'id; reflexivity).
    subst q'. exact Hq'.
Qed.

Lemma full_sync_snapshots_witness :
  exists event,
    PackSync.packFullSync true [(7, 1%positive)] (Samples.engine true true ∅ ∅)
    = NetPhysics.pushOut (EvPhysSync event) (Samples.engine true true ∅ ∅)
    /\ PhysSync.getSyncList event = [].
Proof.
  destruct (full_sync_snapshots true [(7, 1%positive)]
              (Samples.engine true true ∅ ∅)) as (event & H & _ & Hq).
  - split; [cbn; apply NoDup_singleton|].
    intros id obj. cbn. rewrite list_elem_of_singleton, lookup_singleton_Some.
    split; [intros [= -> ->]; split; reflexivity|intros [-> ->]; reflexivity].
  - exists event. split; [exact H|].
    destruct (PhysSync.getSyncList event) as [|q l] eqn:E; [reflexivity|].
    exfalso. destruct (proj1 (Hq q) ltac:(left)) as (obj & Hreg & _ & Hown & _).
    cbn in Hreg. apply lookup_singleton_Some in Hreg as [_ <-].
    destruct (Hown eq_refl) as [t Ht]. cbn in Ht. rewrite lookup_empty in Ht.
    discriminate.
Defined.

Section Convergence2.
Import Physics2 NetPhysics Spec EngineSpec PackSync.

Lemma matches_snapshot (o o' : Obstacle) (id : Z) :
  matches (snapshot o id) o' ->
  position o' = position o /\ linearVelocity o' = linearVelocity o
  /\ angle o' = angle o /\ angularVelocity o' = angularVelocity o.
Proof.
  intros (H1 & H2 & H3 & H4). cbn in *.
  unfold getX, getY, getVX, getVY in *.
  destruct (position o), (linearVelocity o). repeat split; assumption.
Qed.

(** A sync list with distinct ids, at a peer whose id maps agree: only
    one snapshot is for a given body. *)
Lemma later_snapshots_miss (w : ObstacleWorld) (pre post : list PhysSync.ObjParam)
  (q : PhysSync.ObjParam) (obj : Obs) :
  registry_ok w ->
  NoDup (PhysSync.objId <$> pre ++ q :: post) ->
  idToObj w !! PhysSync.objId q = Some obj ->
  forall q', q' ∈ post -> idToObj w !! PhysSync.objId q' <> Some obj.
Proof.
  intros Hreg Hnd Hq q' Hq' Hq'obj.
  rewrite fmap_app in Hnd. apply list.NoDup_app in Hnd as (_ & _ & Hnd).
  cbn in Hnd. apply list.NoDup_cons in Hnd as [Hnotin _].
  apply Hnotin. apply list_elem_of_fmap. exists q'. split; [|exact Hq'].
  apply Hreg in Hq, Hq'obj. congruence.
Qed.

End Convergence2.

(** X24. A full synchronisation, end to end.  One peer packs a full
    synchronisation; another peer, which knows the body under the same
    id and has it flagged [shared], processes the event and ticks, with
    no other event in between.  Where, for every snapshot of the event,
    the conversions of the deltas to [int] are defined at the receiver
    (the deltas between its bodies and the snapshots are finite and fit
    an [int]; the processing of the event is undefined otherwise):
    after at most 30 ticks its body has the position, the velocities
    and the angle that the body of the sender had when the event was
    packed. *)
Theorem full_sync_converges
  (chk ownedOnly : bool) (entries : list (Z * Physics2.Obs))
  (sender receiver : NetPhysics.Controller) (id : Z) (objS objR : Physics2.Obs) :
  PackSync.enumerates entries (Physics2.idToObj (NetPhysics._world sender)) ->
  Physics2.idToObj (NetPhysics._world sender) !! id = Some objS ->
  PackSync.selected ownedOnly sender objS = true ->
  Spec.engine_ok receiver ->
  NetPhysics._deleteCache receiver = [] ->
  PackSync.registry_ok (NetPhysics._world receiver) ->
  Physics2.idToObj (NetPhysics._world receiver) !! id = Some objR ->
  Physics2.isShared (NetPhysics.heap receiver objR) = true ->
  exists event,
    PackSync.packFullSync ownedOnly entries sender
    = NetPhysics.pushOut (EvPhysSync event) sender
    /\ forall received,
         NetEventBase._sourceID (PhysSync.base received) <> "" ->
         PhysSync.getSyncList received = PhysSync.getSyncList event ->
         (forall q, q ∈ PhysSync.getSyncList received ->
                    Spec.entry_defined receiver q) ->
         exists r1 n r2,
           NetPhysics.processPhysSyncEvent received receiver = Ok r1
           /\ (1 <= n <= 30)%nat
           /\ EngineSpec.ticks chk n r1 = Ok r2
           /\ Physics2.position (NetPhysics.heap r2 objR)
              = Physics2.position (NetPhysics.heap sender objS)
           /\ Physics2.linearVelocity (NetPhysics.heap r2 objR)
              = Physics2.linearVelocity (NetPhysics.heap sender objS)
           /\ Physics2.angle (NetPhysics.heap r2 objR)
              = Physics2.angle (NetPhysics.heap sender objS)
           /\ Physics2.angularVelocity (NetPhysics.heap r2 objR)
              = Physics2.angularVelocity (NetPhysics.heap sender objS)
           /\ NetPhysics._cache r2 !! objR = None.
Proof.
  intros Henum HregS Hsel Hok Hd HregOk HregR Hsh.
  destruct (fullSyncLoop_spec ownedOnly sender entries PhysSync.alloc alloc_ok)
    as ((Hnd & _) & From & Has & _).
  eexists. split; [reflexivity|].
  intros received Hsrc Hlist Hdef.
  pose proof (Has id objS (proj2 (proj2 Henum id objS) HregS) Hsel) as Hid.
  apply list_elem_of_fmap in Hid as (q & Hqid & Hq).
  destruct (From q Hq) as [H0|(objS' & Hin & _ & Hsnap)]; [inversion H0|].
  assert (objS' = objS).
  { rewrite <- Hqid in Hin. apply (proj2 Henum) in Hin. congruence. }
  subst objS'.
  apply list_elem_of_split in Hq as (pre & post & Hsplit).
  unfold PhysSync.getSyncList in *. rewrite Hsplit in Hnd, Hlist.
  assert (HregQ : Physics2.idToObj (NetPhysics._world receiver) !! PhysSync.objId q
                  = Some objR) by (rewrite <- Hqid; exact HregR).
  rewrite Hlist in Hdef.
  destruct (syncEvent_last pre post q receiver objR Hok Hdef HregQ)
    as (r1 & t & H1 & (Kw & Kd & _ & Ksh) & Hok1 & Ht & Ha).
  { eapply later_snapshots_miss; eassumption. }
  destruct (ticks_reach chk objR r1 t Hok1) as (r2 & H2 & _ & _ & Hr & Hg).
  { rewrite Kd. exact Hd. }
  { exact Ht. }
  { apply Ksh. exact Hsh. }
  destruct Ha as (A0 & An & A3 & Av & Aa & Aw).
  assert (Hm : EngineSpec.matches (PackSync.snapshot (NetPhysics.heap sender objS)
                                     (PhysSync.objId q))
                 (NetPhysics.heap r2 objR)).
  { rewrite <- Hsnap. destruct Hr as (R1 & R2 & R3 & R4).
    repeat split; congruence. }
  apply matches_snapshot in Hm as (M1 & M2 & M3 & M4).
  exists r1, (EngineSpec.ticksLeft t), r2. split.
  - unfold NetPhysics.processPhysSyncEvent.
    destruct (String.eqb_spec (NetEventBase._sourceID (PhysSync.base received)) "")
      as [E|_]; [contradiction|].
    unfold PhysSync.getSyncList. rewrite Hlist. exact H1.
  - split; [unfold EngineSpec.ticksLeft; lia|]. split; [exact H2|].
    repeat split; assumption.
Qed.

Lemma full_sync_converges_witness :
  exists event,
    PackSync.packFullSync false [(7, 1%positive)]
      (NetPhysics.modifyObs 1%positive
         (Physics2.setPosition (Physics2.mkVec2 (Samples.f32 10) (Samples.f32 0)))
         (Samples.engine true true ∅ ∅))
    = NetPhysics.pushOut (EvPhysSync event)
        (NetPhysics.modifyObs 1%positive
           (Physics2.setPosition (Physics2.mkVec2 (Samples.f32 10) (Samples.f32 0)))
           (Samples.engine true true ∅ ∅))
    /\ exists r1 n r2,
         NetPhysics.processPhysSyncEvent (Samples.syncFrom "host" [Samples.snapshot7])
           (Samples.engine false true ∅ ∅) = Ok r1
         /\ (1 <= n <= 30)%nat
         /\ EngineSpec.ticks true n r1 = Ok r2
         /\ Physics2.position (NetPhysics.heap r2 1%positive)
            = Physics2.mkVec2 (Samples.f32 10) (Samples.f32 0).
Proof.
  destruct (full_sync_converges true false [(7, 1%positive)]
              (NetPhysics.modifyObs 1%positive
                 (Physics2.setPosition
                    (Physics2.mkVec2 (Samples.f32 10) (Samples.f32 0)))
                 (Samples.engine true true ∅ ∅))
              (Samples.engine false true ∅ ∅) 7 1%positive 1%positive)
    as (event & Hpack & Hrecv).
  - split; [cbn; apply NoDup_singleton|].
    intros id obj. unfold NetPhysics.modifyObs. cbn.
    rewrite list_elem_of_singleton, lookup_singleton_Some.
    split; [intros [= -> ->]; split; reflexivity|intros [-> ->]; reflexivity].
  - reflexivity.
  - reflexivity.
  - split.
    + intros o Ho. cbn in Ho. apply list_elem_of_singleton in Ho as ->.
      exists 7. reflexivity.
    + intros o p Hp. cbn in Hp. rewrite lookup_empty in Hp. discriminate.
  - reflexivity.
  - intros id o Hio. cbn in Hio. apply lookup_singleton_Some in Hio as [<- <-].
    reflexivity.
  - reflexivity.
  - reflexivity.
  - exists event. split; [exact Hpack|].
    destruct (Hrecv (Samples.syncFrom "host" [Samples.snapshot7]))
      as (r1 & n & r2 & H1 & Hn & H2 & Hp & _).
    + discriminate.
    + injection Hpack as <-. reflexivity.
    + apply snapshot7_defined.
    + exists r1, n, r2. split; [exact H1|]. split; [exact Hn|].
      split; [exact H2|]. rewrite Hp.
      unfold NetPhysics.modifyObs. cbn. rewrite fn_lookup_insert. reflexivity.
Defined.

(** ** The envelope and the handshake *)

Section EnvelopeProps.
Import NetEventBase NetEventCtl Envelope.

Lemma attach_step (proto : EventProto) (tm : gmap nat Z) (c : Controller) :
  registered tm c ->
  (length (_newEventVector c) < 256)%nat ->
  let '(tm', c') := attachEventType proto (tm, c) in
  registered tm' c'
  /\ is_Some (tm' !! typeid (newEvent proto))
  /\ (forall cls k, tm !! cls = Some k -> tm' !! cls = Some k)
  /\ (length (_newEventVector c') <= S (length (_newEventVector c)))%nat
  /\ (length (_newEventVector c) <= length (_newEventVector c'))%nat.
Proof.
  intros Hreg Hlen. unfold attachEventType.
  destruct (tm !! typeid (newEvent proto)) as [k|] eqn:Hk.
  - rewrite (map_count_Some _ _ _ Hk).
    split; [exact Hreg|]. split; [eexists; exact Hk|]. split; [auto|]. lia.
  - rewrite (map_count_None _ _ Hk). cbn [_newEventVector with_newEventVector].
    split; [|split; [|split; [|split]]].
    + intros cls k Hcls.
      destruct (decide (cls = typeid (newEvent proto))) as [->|Hne].
      * rewrite lookup_map_insert_new, Hk in Hcls. cbn in Hcls.
        injection Hcls as <-. unfold wrap8.
        rewrite Z.mod_small by lia. split; [lia|].
        exists proto. split; [|reflexivity].
        rewrite Nat2Z.id. apply list_lookup_middle. reflexivity.
      * rewrite lookup_map_insert_new_ne in Hcls by congruence.
        destruct (Hreg cls k Hcls) as (Hr & p & Hp & Hc).
        split; [exact Hr|]. exists p. split; [|exact Hc].
        apply lookup_app_l_Some. exact Hp.
    + rewrite lookup_map_insert_new. eexists. reflexivity.
    + intros cls k Hcls. rewrite lookup_map_insert_new_ne; [exact Hcls|].
      intros <-. congruence.
    + rewrite length_app. cbn. lia.
    + rewrite length_app. cbn. lia.
Qed.

Lemma attachAll_spec (protos : list EventProto) (tm : gmap nat Z) (c : Controller) :
  registered tm c ->
  (length (_newEventVector c) + length protos <= 256)%nat ->
  let '(tm', c') := attachAll protos (tm, c) in
  registered tm' c'
  /\ (forall p, p ∈ protos -> is_Some (tm' !! typeid (newEvent p)))
  /\ (forall cls k, tm !! cls = Some k -> tm' !! cls = Some k).
Proof.
  revert tm c. induction protos as [|p l IH]; intros tm c Hreg Hlen.
  - cbn. split; [exact Hreg|]. split; [|auto]. intros p Hp. inversion Hp.
  - unfold attachAll. cbn [fold_left].
    pose proof (attach_step p tm c Hreg) as Hstep.
    destruct (attachEventType p (tm, c)) as [tm1 c1].
    destruct Hstep as (Hreg1 & Hp1 & Keep1 & Hl1 & _); [cbn in Hlen; lia|].
    specialize (IH tm1 c1 Hreg1). unfold attachAll in IH.
    destruct (fold_left (fun r p0 => attachEventType p0 r) l (tm1, c1)) as [tm2 c2].
    destruct IH as (Hreg2 & Hall2 & Keep2); [cbn in Hlen; lia|].
    split; [exact Hreg2|]. split; [|auto].
    intros q Hq. apply elem_of_cons in Hq as [->|Hq]; [|apply Hall2, Hq].
    destruct Hp1 as [k Hk]. exists k. apply Keep2, Hk.
Qed.

(** An attachment only ever adds a class to the map. *)
Lemma attachAll_keeps_tags (protos : list EventProto) (tm : gmap nat Z)
  (c : Controller) (cls : nat) (k : Z) :
  tm !! cls = Some k -> (attachAll protos (tm, c)).1 !! cls = Some k.
Proof.
  revert tm c. unfold attachAll.
  induction protos as [|p l IH]; intros tm c Hk; cbn [fold_left]; [exact Hk|].
  unfold attachEventType at 2.
  destruct (map_count tm (typeid (newEvent p))) eqn:Hc; [apply IH, Hk|].
  apply IH. rewrite lookup_map_insert_new_ne; [exact Hk|].
  intros <-. unfold map_count in Hc. rewrite Hk in Hc. discriminate.
Qed.

(** The head of a wrapped message, read back. *)
Lemma unwrap_wrapped (chk : bool) (tag tick : Z) (payload : list byte)
  (source : string) (r : Controller) (proto : EventProto) :
  0 <= tag < 256 ->
  _newEventVector r !! Z.to_nat tag = Some proto ->
  unwrap chk (byte_of_Z tag :: LWSer.marshall_out 8 tick ++ payload) source r
  = deserialize proto chk
      (setMeta (setMetaData (tick mod 2 ^ 64) (getGameTick r) source)
         (newEvent proto))
      payload.
Proof.
  intros Htag Hproto. unfold unwrap.
  assert (Hb : byte_to_Z (byte_of_Z tag) = tag)
    by (rewrite byte_to_of_Z; apply Z.mod_small; exact Htag).
  assert (Hv : validEnvelope (byte_of_Z tag :: LWSer.marshall_out 8 tick ++ payload) r
               = true).
  { unfold validEnvelope, MIN_MSG_LENGTH. apply andb_true_iff. split.
    - apply Nat.leb_le. cbn [length]. rewrite length_app, marshall_out_length. lia.
    - rewrite Hb. apply Z.ltb_lt. pose proof (lookup_lt_Some _ _ _ Hproto). lia. }
  unfold cuAssert. rewrite Hv, andb_false_r. cbn [obind negb].
  rewrite readByte_receive_cons. cbn [obind]. rewrite Hb, Hproto.
  change (LW.mkDes (byte_of_Z tag :: LWSer.marshall_out 8 tick ++ payload) 1)
    with (LW.mkDes ([byte_of_Z tag] ++ LWSer.marshall_out 8 tick ++ payload)
            (length [byte_of_Z tag])).
  rewrite step_uint64. cbn [obind].
  assert (Hl : (MIN_MSG_LENGTH <=? length (byte_of_Z tag
                                             :: LWSer.marshall_out 8 tick ++ payload))%nat
               = true).
  { apply Nat.leb_le. unfold MIN_MSG_LENGTH. cbn [length].
    rewrite length_app, marshall_out_length. lia. }
  rewrite Hl.
  change (byte_of_Z tag :: LWSer.marshall_out 8 tick ++ payload)
    with (([byte_of_Z tag] ++ LWSer.marshall_out 8 tick) ++ payload).
  rewrite drop_app_length'
    by (rewrite length_app, marshall_out_length; reflexivity).
  reflexivity.
Qed.

Lemma wrap_bytes (tm : gmap nat Z) (s : Controller) (e : NetEvent)
  (payload : list byte) (tag : Z) :
  tm !! typeid e = Some tag ->
  wrap tm s e payload
  = Ok (byte_of_Z tag
          :: LWSer.marshall_out 8 (updateCount s - _startGameTimeStamp s) ++ payload).
Proof.
  intros Htag. unfold wrap, getType. rewrite (map_at_Some _ _ _ Htag).
  cbn [obind]. unfold LWSer.serialize, LWSer.writeByteVector, LWSer.writeUint64,
    LWSer.writeByte, LWSer.new. cbn [LWSer._data].
  rewrite app_nil_l, <- app_assoc. reflexivity.
Qed.

End EnvelopeProps.

(** X25. The types that [attachEventType] attaches to a new
    controller, up to 256 of them, all have a slot: the map gives each
    class a tag below 256 at which the vector of prototypes holds a
    prototype of that class, so that [getType] of [wrap] and the index
    of [unwrap] agree.  An attachment never changes a tag given before:
    whatever is attached afterwards, every class keeps its tag. *)
Theorem attached_types_have_slots
  (protos : list NetEventCtl.EventProto) (c : NetEventCtl.Controller) :
  NetEventCtl._newEventVector c = [] ->
  (length protos <= 256)%nat ->
  let r := Envelope.attachAll protos (∅, c) in
  Envelope.registered r.1 r.2
  /\ (forall p, p ∈ protos ->
        exists k proto,
          Envelope.getType r.1 (NetEventCtl.newEvent p) = Ok k
          /\ 0 <= k < 256
          /\ NetEventCtl._newEventVector r.2 !! Z.to_nat k = Some proto
          /\ Envelope.typeid (NetEventCtl.newEvent proto)
             = Envelope.typeid (NetEventCtl.newEvent p))
  /\ (forall more e k,
        Envelope.getType r.1 e = Ok k ->
        Envelope.getType (Envelope.attachAll more r).1 e = Ok k).
Proof.
  intros Hempty Hlen. cbn zeta.
  pose proof (attachAll_spec protos ∅ c) as H.
  pose proof (fun more cls k =>
                attachAll_keeps_tags more (Envelope.attachAll protos (∅, c)).1
                  (Envelope.attachAll protos (∅, c)).2 cls k) as Keep.
  destruct (Envelope.attachAll protos (∅, c)) as [tm' c'].
  destruct H as (Hreg & Hall & _).
  { intros cls k Hk. rewrite lookup_empty in Hk. discriminate. }
  { rewrite Hempty. cbn. lia. }
  cbn [fst snd] in *. split; [exact Hreg|]. split.
  - intros p Hp. destruct (Hall p Hp) as [k Hk].
    destruct (Hreg _ _ Hk) as (Hr & proto & Hproto & Hcls).
    exists k, proto. split; [apply map_at_Some; exact Hk|].
    split; [exact Hr|]. split; [exact Hproto|exact Hcls].
  - intros more e k Hk. unfold Envelope.getType, map_at in *.
    destruct (tm' !! Envelope.typeid e) as [k'|] eqn:E; [|discriminate].
    injection Hk as ->. rewrite (Keep more _ _ E). reflexivity.
Qed.

Lemma attached_types_have_slots_witness :
  let r := Envelope.attachAll
             [NetEventCtl.gameStateProto 0;
              Envelope.physObjProto (PhysObj.allocDeletion 0);
              NetEventCtl.gameStateProto 5]
             (∅, Envelope.with_newEventVector [] (Samples.session 0 [])) in
  Envelope.registered r.1 r.2
  /\ Envelope.getType r.1 (EvPhysObj WireSpec.samplePosition) = Ok 1
  /\ length (NetEventCtl._newEventVector r.2) = 2%nat.
Proof.
  cbn zeta. split; [|split; reflexivity].
  eapply (attached_types_have_slots
           [NetEventCtl.gameStateProto 0;
            Envelope.physObjProto (PhysObj.allocDeletion 0);
            NetEventCtl.gameStateProto 5]
           (Envelope.with_newEventVector [] (Samples.session 0 []))).
  - reflexivity.
  - cbn. lia.
Defined.

(** A wrapped event, unwrapped by another controller. *)
Lemma envelope_round_trip_aux
  (chk : bool) (tm : gmap nat Z) (s r : NetEventCtl.Controller)
  (source : string) (tag : Z) :
  0 <= tag < 256 ->
  (forall (g : GameState.GameStateEvent) (indet : Z),
     tm !! Envelope.typeid (EvGameState g) = Some tag ->
     NetEventCtl._newEventVector r !! Z.to_nat tag
     = Some (NetEventCtl.gameStateProto indet) ->
     exists data,
       Envelope.wrap tm s (EvGameState g) (GameState.serialize g) = Ok data
       /\ NetEventCtl.unwrap chk data source r
          = Ok (EvGameState
                  (GameState.mkEvent
                     (NetEventBase.setMetaData (NetEventCtl.getGameTick s)
                        (NetEventCtl.getGameTick r) source)
                     (GameState._type g)
                     (match GameState._type g with
                      | GameState.UID_ASSIGN => GameState._shortUID g mod 256
                      | _ => wrap32 indet
                      end))))
  /\ (forall (e e0 : PhysObj.PhysObjEvent),
        tm !! Envelope.typeid (EvPhysObj e) = Some tag ->
        NetEventCtl._newEventVector r !! Z.to_nat tag
        = Some (Envelope.physObjProto e0) ->
        WireSpec.wire_ok e ->
        exists data,
          Envelope.wrap tm s (EvPhysObj e) (PhysObjWire.serialize e) = Ok data
          /\ NetEventCtl.unwrap chk data source r
             = Ok (EvPhysObj
                     (PhysObj.mkEvent
                        (NetEventBase.setMetaData (NetEventCtl.getGameTick s)
                           (NetEventCtl.getGameTick r) source)
                        (PhysObj._objId e) (PhysObj.body e)))).
Proof.
  intros Htag. split.
  - intros g indet Hcls Hproto. eexists.
    split; [apply wrap_bytes; exact Hcls|].
    rewrite (unwrap_wrapped chk tag _ _ source r _ Htag Hproto).
    cbn [NetEventCtl.deserialize NetEventCtl.gameStateProto NetEventCtl.newEvent
         setMeta].
    rewrite (proj1 (game_state_decode chk _ g)). cbn [obind]. reflexivity.
  - intros e e0 Hcls Hproto Hok. eexists.
    split; [apply wrap_bytes; exact Hcls|].
    rewrite (unwrap_wrapped chk tag _ _ source r _ Htag Hproto).
    cbn [NetEventCtl.deserialize Envelope.physObjProto NetEventCtl.newEvent setMeta].
    rewrite (phys_obj_decode chk _ e Hok). cbn [obind]. reflexivity.
Qed.

(** X26. The envelope, end to end.  A game state event, and an object
    event whose fields are values of their C++ types, wrapped by one
    controller and unwrapped by another that holds the prototype of
    the class at the tag, come out with the same content, stamped
    with the game tick of the sender, the game tick of the receiver
    and the source.  (For a game state event other than [UID_ASSIGN]
    the short UID is the uninitialised one of the new event.) *)
Theorem envelope_round_trip
  (chk : bool) (tm : gmap nat Z) (s r : NetEventCtl.Controller)
  (source : string) (tag : Z) :
  0 <= tag < 256 ->
  (forall (g : GameState.GameStateEvent) (indet : Z),
     tm !! Envelope.typeid (EvGameState g) = Some tag ->
     NetEventCtl._newEventVector r !! Z.to_nat tag
     = Some (NetEventCtl.gameStateProto indet) ->
     exists data,
       Envelope.wrap tm s (EvGameState g) (GameState.serialize g) = Ok data
       /\ NetEventCtl.unwrap chk data source r
          = Ok (EvGameState
                  (GameState.mkEvent
                     (NetEventBase.setMetaData (NetEventCtl.getGameTick s)
                        (NetEventCtl.getGameTick r) source)
                     (GameState._type g)
                     (match GameState._type g with
                      | GameState.UID_ASSIGN => GameState._shortUID g mod 256
                      | _ => wrap32 indet
                      end))))
  /\ (forall (e e0 : PhysObj.PhysObjEvent),
        tm !! Envelope.typeid (EvPhysObj e) = Some tag ->
        NetEventCtl._newEventVector r !! Z.to_nat tag
        = Some (Envelope.physObjProto e0) ->
        WireSpec.wire_ok e ->
        exists data,
          Envelope.wrap tm s (EvPhysObj e) (PhysObjWire.serialize e) = Ok data
          /\ NetEventCtl.unwrap chk data source r
             = Ok (EvPhysObj
                     (PhysObj.mkEvent
                        (NetEventBase.setMetaData (NetEventCtl.getGameTick s)
                           (NetEventCtl.getGameTick r) source)
                        (PhysObj._objId e) (PhysObj.body e)))).
Proof. apply envelope_round_trip_aux. Qed.

Lemma envelope_round_trip_witness :
  exists data,
    Envelope.wrap {[ 0%nat := 0 ]} (Samples.session 600 [])
      (EvGameState (GameState.allocUIDAssign 258))
      (GameState.serialize (GameState.allocUIDAssign 258)) = Ok data
    /\ NetEventCtl.unwrap true data "host" (Samples.session 480 [])
       = Ok (EvGameState
               (GameState.mkEvent (NetEventBase.mkMeta 500 380 "host")
                  GameState.UID_ASSIGN 2)).
Proof.
  destruct (proj1 (envelope_round_trip true {[ 0%nat := 0 ]}
                     (Samples.session 600 []) (Samples.session 480 []) "host" 0
                     ltac:(lia))
              (GameState.allocUIDAssign 258) 0) as (data & Hw & Hu).
  - reflexivity.
  - reflexivity.
  - exists data. split; [exact Hw|exact Hu].
Defined.

(** X27. A short UID that is a multiple of 256 blocks the handshake.
    The host assigns the 32-bit short UID [u]; the event carries one
    byte of it, so the client in [HANDSHAKE] that receives the
    datagram records [u mod 256].  When that is zero, [markReady]
    refuses: the client stays in [HANDSHAKE] and sends no
    [CLIENT_RDY].  Otherwise [markReady] moves it to [READY] and
    queues [CLIENT_RDY]. *)
Theorem uid_multiple_of_256_blocks_ready
  (chk : bool) (tm : gmap nat Z) (host client : NetEventCtl.Controller)
  (source : string) (tag u indet i : Z) :
  NetEventCtl._status client = NetEventCtl.HANDSHAKE ->
  0 <= tag < 256 ->
  tm !! 0%nat = Some tag ->
  NetEventCtl._newEventVector client !! Z.to_nat tag
  = Some (NetEventCtl.gameStateProto indet) ->
  exists data client1,
    Envelope.wrap tm host (EvGameState (GameState.allocUIDAssign u))
      (GameState.serialize (GameState.allocUIDAssign u)) = Ok data
    /\ NetEventCtl.receiveOne chk (source, data) client = Ok client1
    /\ NetEventCtl._shortUID client1 = u mod 256
    /\ NetEventCtl._status client1 = NetEventCtl.HANDSHAKE
    /\ (u mod 256 = 0 -> Envelope.markReady i client1 = (false, client1))
    /\ (u mod 256 <> 0 ->
        Envelope.markReady i client1
        = (true,
           NetEventCtl.pushOutEvent (EvGameState (GameState.allocReady i))
             (NetEventCtl.with_status NetEventCtl.READY client1))).
Proof.
  intros Hst Htag Hcls Hproto.
  destruct (proj1 (envelope_round_trip_aux chk tm host client source tag Htag)
              (GameState.allocUIDAssign u) indet Hcls Hproto) as (data & Hw & Hu).
  exists data. eexists. split; [exact Hw|]. split.
  - unfold NetEventCtl.receiveOne. rewrite Hu. cbn [obind].
    unfold NetEventCtl.processReceivedEvent. reflexivity.
  - assert (Huid : wrap8 (wrap32 u mod 256) = u mod 256).
    { unfold wrap8. rewrite Z.mod_mod by lia. apply wrap32_mod_256. }
    destruct client as [uc st status ih nr nv iq oq su pe pc]. cbn in Hst. subst status.
    unfold NetEventCtl.processGameStateEvent, GameState.getType,
      GameState.getShortUID, Envelope.markReady.
    cbn -[Z.modulo wrap8 wrap32]. rewrite Huid.
    destruct ih; cbn -[Z.modulo wrap8 wrap32];
      (split; [reflexivity|]); (split; [reflexivity|]);
      (split; intros Hz;
        [rewrite Hz; reflexivity
        |apply Z.eqb_neq in Hz; rewrite Hz; reflexivity]).
Qed.

Lemma uid_multiple_of_256_blocks_ready_witness :
  exists data client1,
    Envelope.wrap {[ 0%nat := 0 ]} (Samples.session 0 [])
      (EvGameState (GameState.allocUIDAssign 256))
      (GameState.serialize (GameState.allocUIDAssign 256)) = Ok data
    /\ NetEventCtl.receiveOne true ("host", data)
         (NetEventCtl.with_status NetEventCtl.HANDSHAKE (Samples.session 0 []))
       = Ok client1
    /\ Envelope.markReady 0 client1 = (false, client1).
Proof.
  destruct (uid_multiple_of_256_blocks_ready true {[ 0%nat := 0 ]}
              (Samples.session 0 [])
              (NetEventCtl.with_status NetEventCtl.HANDSHAKE (Samples.session 0 []))
              "host" 0 256 0 0)
    as (data & client1 & Hw & Hr & _ & _ & Hz & _).
  - reflexivity.
  - lia.
  - reflexivity.
  - reflexivity.
  - exists data, client1. split; [exact Hw|]. split; [exact Hr|].
    apply Hz. reflexivity.
Defined.


